(* ===== verification/_CoqProject ===== *)
-Q . S2P
Prelude.v
Sha256.v
Pb.v
Keys.v
Engine.v
Storage.v
StorageSpec.v
StorageReads.v
StorageProps.v
ScanProps.v
Concurrent.v
ConcurrentProps.v
Value.v
Command.v
Service.v
Ledger.v
Fsm.v
FsmProps.v
Iam.v
IamProps.v
PolicyService.v
PolicyRace.v
PolicyRaceProps.v
Codecs.v
DataPlane.v
DataPlaneProps.v
Wire.v
Replication.v
Cluster.v
ClusterProps.v
ClusterReads.v
Quorum.v
QuorumProps.v
Password.v
Backup.v
BackupProps.v
Auth.v
Console.v
ConsoleProps.v
Pki.v
PkiProps.v
Setup.v
SetupProps.v
Verify.v
VerifyProps.v
Net.v
Admin.v
AdminProps.v
Sinks.v
NodeIdentity.v
NodeIdentityProps.v
Membership.v
MembershipProps.v
Api.v
Nodes.v
NodesProps.v
LedgerConsole.v
LedgerConsoleProps.v
Surface.v
Stats.v
Http.v
HttpProps.v
Cli.v
CliProps.v
LedgerCli.v
LedgerCliProps.v
Config.v
Process.v
ConfigProps.v
ProcessProps.v
Wiring.v
Lifecycle.v
Runtime.v
Files.v
Startup.v
