(* ===== verification/Prelude.v ===== *)
(** * ConsensusDB: a verification development

    ConsensusDB is a replicated key-value database written in Go. A key has a tenant (its major
    part), a region, a minor part and optionally a time-ordered UUID; it is stored in badger under
    one byte string, with its value in an envelope [version | expiry | value]. Writes reach the
    storage directly, or, with replication on, as raft commands that every replica applies in log
    order while folding them into a SHA-256 hash chain whose head can be attested by a quorum.
    Requests are authenticated and authorized against records the database keeps in its own
    [__system] tenant. This library models that program, part by part, and proves what makes each
    part correct.

    ** The parts, and where they are modelled

    Shared vocabulary
    - [Prelude] (this file): bytes, Go integers at their widths, big-endian encodings, the
      [outcome] type (a value, an error or a panic) with its monad, the tactics [bool_cases] and
      the hint and rewrite databases, generic lemmas.
    - [Sha256]: an executable SHA-256 (the standard library's).
    - [Pb]: the structs of [pkg/pb/cdb.go], the errors and record constructors of [pkg/server].

    Storage ([pkg/server/key.go], [pkg/server/storage.go])
    - [Keys]: [EncodeKey], [EncodeKeyPrefix], [DecodeKey] at the level of the byte buffer.
    - [Engine]: badger, the envelope package and the watch hub as classes ([Badger],
      [StorePkg]) with the laws the code relies on ([BadgerSpec], [StoreLaws]; [BadgerReliable]
      where no operation of the engine fails), and an in-memory instance that satisfies them.
    - [Storage]: every operation of [KeyValueStorageCtx]. Its state is the database and the list of
      events handed to the hub; the clock is an argument.
    - [StorageSpec]: the abstract store, a map from entry keys to entries with one function per
      operation, and the refinement lemma of each write. [StorageReads] does the same for reads
      and scans. [StorageProps] and [ScanProps] hold the theorems.
    - [Concurrent], [ConcurrentProps]: the writes split at their commit, interleaved with each other,
      with their announcements and with reads as a step relation; what badger promises to
      transactions that overlap is a class of its own.

    Service and replication ([pkg/server/server.go], [pkg/replication])
    - [Service]: the key-value service, routing between the local storage and the [Replicator]
      interface, stamping the absolute expiry once.
    - [Value], [Command]: the value package as a class, and the raft command codec.
    - [Ledger]: the hash chain and its persisted head. [Fsm], [FsmProps]: the state machine,
      snapshots and restore. [Replication]: the replicator and the reclaimer over a raft class.
    - [Cluster], [ClusterProps]: clients, the raft log and the replicas that apply it as one step
      relation, with the history of calls and replies. [ClusterReads]: reads at one of the nodes.
    - [Quorum], [QuorumProps]: checkpoints, node certificates, aggregate signatures, the quorum
      check and the attestation endpoint, over classes for BLS and Ed25519.
    - [NodeIdentity], [NodeIdentityProps]: the node's identity files, genesis and enrollment, TLS
      configurations and the peer check, over classes for the disk, X.509 and TLS.
    - [Membership], [MembershipProps]: forming a cluster, the bootstrap watcher as a step relation,
      and the reconciler that keeps a node's recorded address right, over a raft class.

    Identity and access ([pkg/iam], [pkg/server], [pkg/console])
    - [Iam], [IamProps]: records, principals, tokens, predefined roles, the policy snapshot and
      its decision. [PolicyService]: compiling the snapshot, staleness, the guards. [PolicyRace],
      [PolicyRaceProps]: concurrent requests, writes, notifications and the watcher, interleaved at
      the atomics and the mutex of the policy service.
    - [Codecs], [DataPlane], [DataPlaneProps]: the wire codecs and every handler of the data plane.
      [Wire]: their registration with the RPC server, a class, and the client's calls.
    - [Password], [Auth]: password hashes and the authenticator.
    - [Console], [ConsoleProps]: users, service accounts, groups, bindings, access tokens.
    - [Pki], [PkiProps]: the built-in certificate authority and node enrollment.
    - [Setup], [SetupProps]: first-run setup, export and import.

    The rest of the console ([pkg/console])
    - [Api]: requests, answers and the queries, numbers and base64 in them.
    - [Nodes], [NodesProps]: listing, adding and removing nodes, join tokens, enrollment, forwarding
      to the leader. [LedgerConsole], [LedgerConsoleProps]: attestation over REST and the
      collection of the cluster's signatures. [Surface]: the functions of the data plane, the admin
      and the ledger service on one RPC server. [Stats]: the region statistics.
    - [Http], [HttpProps]: the router with its authentication and authorization, every endpoint
      dispatched to the component that serves it, and a cluster of consoles that call each other.

    Backups ([pkg/backup], [pkg/verify], [pkg/server/admin.go])
    - [Backup], [BackupProps]: the dump container, plain or encrypted.
    - [Verify], [VerifyProps]: verification of a dump against a quorum certificate, its progress,
      and the job manager with its goroutines as a step relation.
    - [Admin], [AdminProps]: backup and restore over the wire, server and client, and the choice of
      a destination. [Sinks]: the upload to an object store as the end of a backup. [Files]:
      backups in local files, and opening a dump.

    Commands and process ([cmd], [pkg/config], [pkg/run], [pkg/util])
    - [Net]: Go's functions on addresses and paths, node ids, properties from the environment.
    - [Cli], [CliProps]: the identity and cluster commands, run over the wire against the handlers
      of a node. [LedgerCli], [LedgerCliProps]: the ledger and backup commands on files.
    - [Config], [ConfigProps]: the settings file, [init] and the run mode, over a yaml class.
    - [Process], [ProcessProps]: data directories, the master key, opening the store, the data-plane
      listener, embedded pages, health and metric names.
    - [Wiring]: the beans of each mode with what they provide and inject, and the tree of commands
      with their arguments and options. [Lifecycle]: the background loops as a step relation with
      their shutdown, and the storage bean. [Runtime]: the sampled load, the host's address, the
      metric adapter and the mounted pages. [Startup]: the in-code properties, the sources a property
      is looked up in and the start of the process on them.

    ** How the code is rendered

    A Go function that can fail returns an [outcome]; a panic is a value of its own, so that the
    absence of panics is a theorem and not an assumption. State is passed explicitly. A pointer
    that may be nil is an [option]; a map is a [gmap], and where the code ranges over one the order
    is a class parameter with the only law that it is a permutation. Integers are [Z]; where the
    width matters the wrap-around is written out ([wrap64] and the like). The wall clock, random
    bytes and generated keys are arguments. Code outside the repository is a class of operations,
    with a second class for the documented laws; each has an instance, used by the witnesses, that
    shows the laws can hold. The names of definitions are those of the source; a loop or a branch
    that needs a name of its own is a separate definition next to the function.

    ** What the theorems show

    - Storage refines the abstract store: each write computes its specification or reports an
      engine error and changes nothing; compare-and-set is exclusive, batches are atomic, scans are
      exact, ordered and confined to their prefix, every reachable key decodes, the sweep removes
      exactly what had expired. Concurrent writes are serializable in an order that respects real
      time: answers, reads, announcements and conflicts are those of the serial store, and no write
      waits for another.
    - Keys round trip, and a physical prefix matches exactly the keys that agree down to its
      field: tenants and regions cannot be crossed by a scan.
    - Replication: replicas that apply one log agree whatever their clocks; every history of
      concurrent calls is linearized by the log, each answer being the one of the abstract store at
      its entry, in an order that respects real time, and a committed call can be answered; reads at
      one node see the writes it acknowledged and never go back; versions
      name entries; a restart recovers the chain; equal chain digests mean equal histories or a
      SHA-256 collision.
    - Attestation: an accepted quorum certificate has enough distinct certified signers over one
      checkpoint; the materials the console collects from honest members verify, and so does what
      the key ceremony of the ledger commands leads to.
    - Access: the decision is the documented model, a grant stays in its scope, enumerations and
      batches stay in what was authorized, nobody is authenticated without a stored credential,
      deleting an identity kills its credentials, a join token admits one node however enrollments
      interleave, setup completes once. When the watcher has seen every change and no request is
      between its reads, the policy in force is the stored one, and a request that runs undisturbed
      decides as the sequential definition. The client's calls, through codecs and registration,
      give what the handlers give. Over REST nothing changes without the endpoint's
      permission, and a request is forwarded at most once. The RPC server serves no function that is
      not guarded, in whatever order the services are built. A user added from the command line can
      log in, and the command line and the console grant alike.
    - Nodes: a provisioned node keeps its identity, the published root is the seed's, a joiner is
      admitted only by a token the leader burned and a proof of identity, a drifted address heals.
    - Backups: what was written reads back, a truncated dump is refused, reading always terminates
      and delivers only what the cipher accepted in order; export and import, and backup and
      restore over the wire, preserve contents; a verified backup is the certified state, and an
      attested one verifies; a backup to an object store succeeds only if the object is the whole
      dump; jobs end once.
    - Process: the settings that [init] writes are read back and give the mode asked for; an address
      that asks for TLS never gets a weaker listener; a generated master key opens the store and
      nothing of another size does; asset requests stay among the assets; in both modes every
      injection is satisfied, without cycles, and the guards are never absent; the settings a first
      run writes change nothing on the next; a stopped loop does no more work.
    - Where the code falls short of its comments, a theorem says so: restored snapshots leave a
      stale chain, replayed increments count twice, an enumeration without a prefix reaches the
      system tenant, concurrent bootstraps can both win, slashes in names make scopes collide, a
      truncated entry key makes [DecodeKey] panic, a dump header with zero threads makes
      [NewReader] panic and a verification job take the node down, over-long names share keys, a
      backup that broke off is sealed as complete, a failed restore hangs, an interrupted genesis
      or bootstrap is never completed, a stopped watcher can still bootstrap, a follower forwards
      an empty body, a long token lifetime overflows, zero bytes merge region rows, a path without
      a token panics, a passed settings file cannot turn the cluster off, a policy change before the
      watcher registers or by a restore goes unnoticed, a refused backup still replaces the object,
      a single node never reclaims what expired, a read at another node than the writer's can be
      stale, the settings of a first run silence the check of a
      half configured cluster.

    ** Fuel

    The loops of the code recurse on the list they consume wherever they can. The blocks of SHA-256
    are cut with the message length as fuel, more than its number of blocks. Three loops take fuel
    and return [None] without enough: [write_loop] consumes at least one byte per turn and gets
    [S (length p)]; [fill] consumes a frame header of four bytes per turn and gets three more than
    the source's length; reading to the end consumes a byte of plaintext or of the source per
    turn. That this is always enough is part of [dump_roundtrip] and [ReadAll_authentic]. Consoles
    that call each other are unfolded to a number of hops ([cluster_send]); [one_hop] shows that one
    is always enough. A chunk of a restore consumes a byte per turn ([enc_chunks];
    [wire_backup_roundtrip] includes that it ends), and sixteen digits spell any 64-bit number
    ([hex_loop], [NodeIdHex_faithful]).

    ** What is not modelled

    Concurrency inside a node is modelled where the code handles it (overlapping transactions, raft
    order, requests against policy changes, background loops, verification jobs, racing enrollments
    and bootstraps); elsewhere an operation is one step, as under the locks and transactions the code
    takes. Not modelled: help texts and logging; the factories that hand a logger or a raft store to
    another package; the accessors of the application bean that return constants; an HTTP wrapper
    that nothing uses; modification times, compression and conditional requests of embedded files. *)

From Stdlib Require Import ZArith Lia.
From Stdlib Require Export Strings.Byte.
From stdpp Require Export base list sorting gmap strings.

#[global] Open Scope Z_scope.

(** ** Bytes and Go strings

    Go's [[]byte] and [string] are both finite byte sequences; the model uses
    [list byte] for both, so the conversions [string(b)] and [[]byte(s)] are the
    identity. A nil slice and an empty slice are the same list. *)

Abbreviation bytes := (list byte).

#[global] Instance byte_eq_dec : EqDecision byte := Byte.byte_eq_dec.

#[global] Program Instance byte_countable : Countable byte :=
  inj_countable Byte.to_N Byte.of_N _.
Next Obligation. intros b. apply Byte.of_to_N. Qed.

#[global] Instance byte_inhabited : Inhabited byte := populate x00.

(** A Go string literal. *)
Definition str (s : string) : bytes := String.list_byte_of_string s.

(** [len(x)] as a Go [int]. *)
Definition len {A} (l : list A) : Z := Z.of_nat (length l).

(** [strings.HasPrefix] / [bytes.HasPrefix] and [strings.CutPrefix]. *)
Definition HasPrefix (s p : bytes) : bool := bool_decide (p `prefix_of` s).

Definition CutPrefix (s p : bytes) : option bytes :=
  if HasPrefix s p then Some (drop (length p) s) else None.

(** ** Machine integers *)

Definition wrap64 (z : Z) : Z := z mod 2 ^ 64.

Definition int64 (z : Z) : Z := (z + 2 ^ 63) mod 2 ^ 64 - 2 ^ 63.

Definition int32 (z : Z) : Z := (z + 2 ^ 31) mod 2 ^ 32 - 2 ^ 31.

Definition is_uint64 (z : Z) : Prop := 0 <= z < 2 ^ 64.

Definition is_int64 (z : Z) : Prop := - 2 ^ 63 <= z < 2 ^ 63.

Definition is_int32 (z : Z) : Prop := - 2 ^ 31 <= z < 2 ^ 31.

#[global] Instance is_uint64_dec z : Decision (is_uint64 z).
Proof. unfold is_uint64. apply _. Defined.

#[global] Instance is_int64_dec z : Decision (is_int64 z).
Proof. unfold is_int64. apply _. Defined.

#[global] Instance is_int32_dec z : Decision (is_int32 z).
Proof. unfold is_int32. apply _. Defined.

(** Go's [byte(z)] and its inverse. *)
Definition byte_of (z : Z) : byte :=
  match Byte.of_N (Z.to_N (z mod 256)) with Some b => b | None => x00 end.

Definition byte_val (b : byte) : Z := Z.of_N (Byte.to_N b).

(** [binary.BigEndian.PutUint16/32/64]: the [n] low bytes of [z], high first. *)
Fixpoint be_put (n : nat) (z : Z) : bytes :=
  match n with
  | O => []
  | S m => byte_of (z / 2 ^ (8 * Z.of_nat m)) :: be_put m z
  end.

(** [binary.BigEndian.Uint16/32/64] on a slice of exactly the right width. *)
Definition be_get (l : bytes) : Z := fold_left (fun acc b => acc * 256 + byte_val b) l 0.

(** ** Outcomes

    A Go call that returns [(value, error)] is an [outcome]; [Panic] is a run-time
    panic (an index or slice bound that fails). *)

Inductive outcome (E A : Type) : Type :=
| Ret (a : A)
| Fail (e : E)
| Panic.
Arguments Ret {E A} a.
Arguments Fail {E A} e.
Arguments Panic {E A}.

#[global] Instance outcome_ret {E} : MRet (outcome E) := fun A a => Ret a.

#[global] Instance outcome_bind {E} : MBind (outcome E) := fun A B f m =>
  match m with Ret a => f a | Fail e => Fail e | Panic => Panic end.

#[global] Instance outcome_eq_dec {E A} `{EqDecision E} `{EqDecision A} :
  EqDecision (outcome E A).
Proof. solve_decision. Defined.

(** ** Lemmas on lengths, machine integers and big-endian encodings *)

Lemma len_app {A} (l1 l2 : list A) : len (l1 ++ l2) = len l1 + len l2.
Proof. unfold len. rewrite length_app. lia. Qed.

Lemma len_nonneg {A} (l : list A) : 0 <= len l.
Proof. unfold len. lia. Qed.

Lemma len_cons {A} (x : A) l : len (x :: l) = 1 + len l.
Proof. unfold len. simpl length. lia. Qed.

Lemma byte_val_range b : 0 <= byte_val b < 256.
Proof.
  unfold byte_val. pose proof (Byte.to_N_bounded b). lia.
Qed.

Lemma byte_val_of z : byte_val (byte_of z) = z mod 256.
Proof.
  unfold byte_of, byte_val. pose proof (Z.mod_pos_bound z 256 ltac:(lia)) as Hb.
  destruct (Byte.of_N (Z.to_N (z mod 256))) as [b|] eqn:E.
  - apply Byte.to_of_N in E. rewrite E. lia.
  - apply Byte.of_N_None_iff in E. lia.
Qed.

Lemma byte_of_val b : byte_of (byte_val b) = b.
Proof.
  unfold byte_of, byte_val. pose proof (Byte.to_N_bounded b).
  rewrite Z.mod_small by lia. rewrite N2Z.id. by rewrite Byte.of_to_N.
Qed.

Lemma byte_val_inj b1 b2 : byte_val b1 = byte_val b2 -> b1 = b2.
Proof. intros H. rewrite <- (byte_of_val b1), <- (byte_of_val b2). by f_equal. Qed.

Lemma length_be_put n z : length (be_put n z) = n.
Proof. induction n; simpl; congruence. Qed.

Lemma be_get_app l1 l2 : be_get (l1 ++ l2) = be_get l1 * 256 ^ len l2 + be_get l2.
Proof.
  unfold be_get, len. rewrite fold_left_app.
  generalize (fold_left (fun acc b => acc * 256 + byte_val b) l1 0) as a. intros a.
  revert a. induction l2 as [|b l2 IH] using rev_ind; intros a; simpl.
  - lia.
  - rewrite !fold_left_app. simpl. rewrite IH, length_app, Nat2Z.inj_add, Z.pow_add_r by lia.
    simpl (Z.of_nat (length [b])). lia.
Qed.

Lemma be_get_cons b l : be_get (b :: l) = byte_val b * 256 ^ len l + be_get l.
Proof. change (b :: l) with ([b] ++ l). rewrite be_get_app. unfold be_get at 1. simpl. lia. Qed.

Lemma be_get_range l : 0 <= be_get l < 256 ^ len l.
Proof.
  induction l as [|b l IH].
  - unfold be_get, len. simpl. lia.
  - rewrite be_get_cons. unfold len in *. rewrite length_cons, Nat2Z.inj_succ, Z.pow_succ_r by lia.
    pose proof (byte_val_range b). nia.
Qed.

Lemma be_get_put n z : be_get (be_put n z) = z mod 256 ^ Z.of_nat n.
Proof.
  induction n as [|n IH].
  - change (256 ^ Z.of_nat 0) with 1. by rewrite Z.mod_1_r.
  - cbn [be_put]. rewrite be_get_cons, IH, byte_val_of. unfold len. rewrite length_be_put.
    rewrite Nat2Z.inj_succ, Z.pow_succ_r by lia.
    replace (2 ^ (8 * Z.of_nat n)) with (256 ^ Z.of_nat n)
      by (change 256 with (2 ^ 8); rewrite <- Z.pow_mul_r by lia; reflexivity).
    rewrite (Z.mul_comm 256 (256 ^ _)), Z.rem_mul_r by lia. lia.
Qed.

Lemma be_get_put_small n z : 0 <= z < 256 ^ Z.of_nat n -> be_get (be_put n z) = z.
Proof. intros. rewrite be_get_put. by apply Z.mod_small. Qed.

Lemma be_get_inj l1 l2 : length l1 = length l2 -> be_get l1 = be_get l2 -> l1 = l2.
Proof.
  revert l2. induction l1 as [|b1 l1 IH]; intros [|b2 l2] Hl He; simpl in Hl; try lia; [done|].
  rewrite !be_get_cons in He.
  assert (len l1 = len l2) as Hlen by (unfold len; lia). rewrite Hlen in He.
  pose proof (be_get_range l1) as R1. pose proof (be_get_range l2) as R2. rewrite Hlen in R1.
  assert (byte_val b1 = byte_val b2) by nia.
  f_equal; [by apply byte_val_inj|]. apply IH; [lia|]. nia.
Qed.

Lemma be_put_get n l : length l = n -> be_put n (be_get l) = l.
Proof.
  intros Hl. apply be_get_inj; [by rewrite length_be_put|].
  rewrite be_get_put. apply Z.mod_small. pose proof (be_get_range l). unfold len in *. by subst.
Qed.

Lemma int64_wrap64 z : is_int64 z -> int64 (wrap64 z) = z.
Proof.
  unfold is_int64, int64, wrap64. intros H.
  rewrite Zplus_mod_idemp_l, Z.mod_small; lia.
Qed.

Lemma wrap64_int64 z : wrap64 (int64 z) = wrap64 z.
Proof.
  unfold int64, wrap64. rewrite Zminus_mod_idemp_l. f_equal. lia.
Qed.

Lemma wrap64_small z : is_uint64 z -> wrap64 z = z.
Proof. apply Z.mod_small. Qed.

Lemma wrap64_range z : is_uint64 (wrap64 z).
Proof. apply Z.mod_pos_bound. lia. Qed.

Lemma int64_range z : is_int64 (int64 z).
Proof. unfold is_int64, int64. pose proof (Z.mod_pos_bound (z + 2 ^ 63) (2 ^ 64) ltac:(lia)). lia. Qed.

Lemma int64_small z : is_int64 z -> int64 z = z.
Proof. unfold is_int64, int64. intros. rewrite Z.mod_small; lia. Qed.

Lemma int32_small z : is_int32 z -> int32 z = z.
Proof. unfold is_int32, int32. intros. rewrite Z.mod_small; lia. Qed.

(** ** [bytes.Compare]: lexicographic order *)

Fixpoint bytes_compare (a b : bytes) : comparison :=
  match a, b with
  | [], [] => Eq
  | [], _ :: _ => Lt
  | _ :: _, [] => Gt
  | x :: a', y :: b' =>
      match Z.compare (byte_val x) (byte_val y) with
      | Eq => bytes_compare a' b'
      | c => c
      end
  end.

Definition bytes_le (a b : bytes) : Prop := bytes_compare a b <> Gt.

Definition bytes_ge (a b : bytes) : Prop := bytes_le b a.

#[global] Instance bytes_le_dec : RelDecision bytes_le.
Proof. intros a b. unfold bytes_le. apply _. Defined.

#[global] Instance bytes_ge_dec : RelDecision bytes_ge.
Proof. intros a b. unfold bytes_ge. apply _. Defined.

Lemma bytes_compare_eq a b : bytes_compare a b = Eq <-> a = b.
Proof.
  revert b. induction a as [|x a IH]; intros [|y b]; simpl; try (split; congruence).
  destruct (Z.compare_spec (byte_val x) (byte_val y)) as [E|E|E].
  - apply byte_val_inj in E as ->. rewrite IH. split; congruence.
  - split; [congruence|]. intros [= -> ->]. lia.
  - split; [congruence|]. intros [= -> ->]. lia.
Qed.

Lemma bytes_compare_antisym a b : bytes_compare b a = CompOpp (bytes_compare a b).
Proof.
  revert b. induction a as [|x a IH]; intros [|y b]; simpl; try done.
  rewrite (Z.compare_antisym (byte_val x) (byte_val y)).
  destruct (byte_val x ?= byte_val y); simpl; auto.
Qed.

Lemma bytes_compare_app p a b : bytes_compare (p ++ a) (p ++ b) = bytes_compare a b.
Proof. induction p as [|x p IH]; simpl; [done|]. by rewrite Z.compare_refl. Qed.

#[global] Instance bytes_le_trans : Transitive bytes_le.
Proof.
  intros a b c. unfold bytes_le. revert b c.
  induction a as [|x a IH]; intros [|y b] [|z c]; simpl; try congruence.
  destruct (Z.compare_spec (byte_val x) (byte_val y)) as [E1|E1|E1];
  destruct (Z.compare_spec (byte_val y) (byte_val z)) as [E2|E2|E2]; try congruence;
  destruct (Z.compare_spec (byte_val x) (byte_val z)) as [E3|E3|E3]; try congruence; try lia.
  apply IH.
Qed.

#[global] Instance bytes_le_total : Total bytes_le.
Proof.
  intros a b. unfold bytes_le. rewrite (bytes_compare_antisym a b).
  destruct (bytes_compare a b); simpl; [left|left|right]; congruence.
Qed.

#[global] Instance bytes_le_antisym : AntiSymm (=) bytes_le.
Proof.
  intros a b. unfold bytes_le. rewrite (bytes_compare_antisym a b).
  destruct (bytes_compare a b) eqn:E; simpl; try congruence. intros _ _. by apply bytes_compare_eq.
Qed.

#[global] Instance bytes_le_refl : Reflexive bytes_le.
Proof. intros a. unfold bytes_le. by rewrite (proj2 (bytes_compare_eq a a) eq_refl). Qed.

#[global] Instance bytes_ge_trans : Transitive bytes_ge.
Proof. intros a b c H1 H2. unfold bytes_ge in *. by etrans. Qed.

#[global] Instance bytes_ge_total : Total bytes_ge.
Proof. intros a b. unfold bytes_ge. destruct (total bytes_le a b); auto. Qed.

#[global] Instance bytes_ge_antisym : AntiSymm (=) bytes_ge.
Proof. intros a b H1 H2. by apply (anti_symm bytes_le). Qed.

(** ** Buffers: [copy(dst[i:], src)] *)

Definition copy_at (dst : bytes) (i : nat) (src : bytes) : bytes :=
  let n := Nat.min (length dst - i) (length src) in
  take i dst ++ take n src ++ drop (i + n) dst.

Lemma length_copy_at dst i src : (i <= length dst)%nat -> length (copy_at dst i src) = length dst.
Proof.
  intros H. unfold copy_at. rewrite !length_app, !length_take, length_drop. lia.
Qed.

(** Writing [src] at the end of a finished prefix extends the prefix by as many bytes of
    [src] as the caller counts, whatever the rest of the buffer holds. *)
Lemma take_copy_at dst i n src acc :
  take i dst = acc -> (i + n <= length dst)%nat -> (n <= length src)%nat ->
  take (i + n) (copy_at dst i src) = acc ++ take n src.
Proof.
  intros Hacc Hl Hs. unfold copy_at. rewrite Hacc.
  assert (length acc = i) as Hi by (subst acc; rewrite length_take; lia).
  rewrite take_app, Hi. rewrite take_ge by lia. f_equal.
  replace (i + n - i)%nat with n by lia.
  rewrite take_app, take_take, length_take.
  replace (Nat.min n (Nat.min (length dst - i) (length src))) with n by lia.
  rewrite (proj2 (Nat.sub_0_le _ _)) by lia. by rewrite take_0, app_nil_r.
Qed.

(** ** Tactics and hints *)

Create HintDb cdb.

#[export] Hint Resolve len_nonneg byte_val_range be_get_range wrap64_range int64_range : cdb.
Create Rewrite HintDb cdb.
#[export] Hint Rewrite @len_app @len_cons length_be_put : cdb.

(** Case analysis on every [match] and [if] of the goal, closing the absurd cases. *)
Ltac cases := repeat (case_match; simplify_eq/=; try done).

(** Case analysis on every [match] of a hypothesis. *)
Ltac cases_in H :=
  repeat (let E := fresh "E" in
          match type of H with
          | context [match ?x with _ => _ end] => destruct x eqn:E; simplify_eq/=; try done
          end).

(** Split a Boolean conjunction or disjunction of decided propositions. *)
Ltac bool_cases :=
  repeat match goal with
         | H : (_ && _)%bool = true |- _ => apply andb_true_iff in H as [? ?]
         | H : (_ || _)%bool = false |- _ => apply orb_false_iff in H as [? ?]
         | H : bool_decide _ = true |- _ => apply bool_decide_eq_true in H
         | H : bool_decide _ = false |- _ => apply bool_decide_eq_false in H
         | H : negb _ = true |- _ => apply negb_true_iff in H
         | H : negb _ = false |- _ => apply negb_false_iff in H
         end.

Lemma HasPrefix_spec s p : HasPrefix s p = true <-> p `prefix_of` s.
Proof. apply bool_decide_eq_true. Qed.

Lemma CutPrefix_spec s p r : CutPrefix s p = Some r <-> s = p ++ r.
Proof.
  unfold CutPrefix. destruct (HasPrefix s p) eqn:E.
  - apply HasPrefix_spec in E as [k ->]. rewrite drop_app_length. split; [by intros [= ->]|].
    intros H%app_inv_head. by subst.
  - split; [done|]. intros ->. apply bool_decide_eq_false in E. destruct E. by apply prefix_app_r.
Qed.

(** ** Sorted lists through [omap] and [fmap] *)

Lemma StronglySorted_omap {A B} (R : A -> A -> Prop) (Q : B -> B -> Prop) (f : A -> option B) l :
  StronglySorted R l ->
  (forall x y a b, x ∈ l -> y ∈ l -> R x y -> f x = Some a -> f y = Some b -> Q a b) ->
  StronglySorted Q (omap f l).
Proof.
  induction 1 as [|x l Hs IH Hx]; intros HQ; simpl; [constructor|].
  assert (StronglySorted Q (omap f l)) as IH'.
  { apply IH. intros y z a b Hy Hz. apply HQ; by right. }
  destruct (f x) as [a|] eqn:Ef; [|done]. constructor; [done|].
  apply Forall_forall. intros b (y & Hy & Ey)%list_elem_of_omap.
  rewrite Forall_forall in Hx. apply (HQ x y); eauto; [by left|by right].
Qed.

Lemma StronglySorted_fmap_inv {A B} (R : B -> B -> Prop) (f : A -> B) l :
  StronglySorted R (f <$> l) -> StronglySorted (fun x y => R (f x) (f y)) l.
Proof.
  induction l as [|x l IH]; simpl; [constructor|]. inversion 1 as [|? ? Hs Hx]; subst.
  constructor; [by apply IH|]. apply Forall_forall. intros y Hy.
  rewrite Forall_forall in Hx. apply Hx. by apply list_elem_of_fmap_2.
Qed.

(** A sorted list without duplicates is strictly sorted. *)
Lemma StronglySorted_strict {A} (R : A -> A -> Prop) l :
  StronglySorted R l -> NoDup l -> StronglySorted (fun x y => R x y /\ x <> y) l.
Proof.
  induction 1 as [|x l Hs IH Hx]; intros Hn; [constructor|].
  inversion Hn as [|? ? Hni Hn']; subst. constructor; [by apply IH|].
  apply Forall_forall. intros y Hy. rewrite Forall_forall in Hx. split; [by apply Hx|].
  intros ->. done.
Qed.

Lemma elem_of_take_inv {A} (x : A) n l : x ∈ take n l -> x ∈ l.
Proof. intros Hx. rewrite <- (take_drop n l). apply elem_of_app. by left. Qed.

Lemma StronglySorted_take {A} (R : A -> A -> Prop) n l :
  StronglySorted R l -> StronglySorted R (take n l).
Proof.
  intros Hs. revert n. induction Hs as [|x l Hs IH Hx]; intros [|n]; simpl; try constructor; [apply IH|].
  apply Forall_forall. intros y Hy. rewrite Forall_forall in Hx. apply Hx. by apply elem_of_take_inv in Hy.
Qed.

(** A prefix is at or before what it is a prefix of. *)
Lemma bytes_le_prefix p b : p `prefix_of` b -> bytes_le p b.
Proof.
  intros [r ->]. unfold bytes_le. induction p as [|x p IH]; [by destruct r|]. cbn [app bytes_compare].
  rewrite Z.compare_refl. exact IH.
Qed.

(** A pair is known by its first component and its own second one; evaluating only the first
    keeps a large state unevaluated. *)
Lemma pair_by_fst {A B} (p : A * B) a : fst p = a -> p = (a, snd p).
Proof. by destruct p; intros <-. Qed.

(** An option that is some value is its value. *)
Lemma some_default {A} (o : option A) d : match o with Some _ => true | None => false end = true -> o = Some (default d o).
Proof. by destruct o. Qed.

(** Signed wrap-around is a congruence. *)
Lemma int64_wrap z : int64 (wrap64 z) = int64 z.
Proof. unfold int64, wrap64. by rewrite Zplus_mod_idemp_l. Qed.

Lemma int64_add_int64 a b : int64 (int64 a + b) = int64 (a + b).
Proof.
  unfold int64. f_equal.
  replace ((a + 2 ^ 63) mod 2 ^ 64 - 2 ^ 63 + b + 2 ^ 63) with ((a + 2 ^ 63) mod 2 ^ 64 + b) by lia.
  rewrite Zplus_mod_idemp_l. f_equal. lia.
Qed.

Lemma int64_idem z : int64 (int64 z) = int64 z.
Proof. apply int64_small, int64_range. Qed.
