(* ===== verification/Sha256.v ===== *)
(** * SHA-256 (FIPS 180-4)

    The Go standard library's [crypto/sha256], which the ledger and the checkpoints hash with:
    padding, message schedule and compression on 32-bit words, executable. *)

From S2P Require Import Prelude.

Module Sha256.

Definition mask32 (z : Z) : Z := z mod 2 ^ 32.
Definition rotr (x n : Z) : Z := Z.lor (Z.shiftr x n) (mask32 (Z.shiftl x (32 - n))).
Definition add32 (a b : Z) : Z := mask32 (a + b).

Definition Ch (x y z : Z) : Z := Z.lxor (Z.land x y) (Z.land (Z.lxor x (2 ^ 32 - 1)) z).
Definition Maj (x y z : Z) : Z := Z.lxor (Z.lxor (Z.land x y) (Z.land x z)) (Z.land y z).
Definition Sigma0 (x : Z) : Z := Z.lxor (Z.lxor (rotr x 2) (rotr x 13)) (rotr x 22).
Definition Sigma1 (x : Z) : Z := Z.lxor (Z.lxor (rotr x 6) (rotr x 11)) (rotr x 25).
Definition sigma0 (x : Z) : Z := Z.lxor (Z.lxor (rotr x 7) (rotr x 18)) (Z.shiftr x 3).
Definition sigma1 (x : Z) : Z := Z.lxor (Z.lxor (rotr x 17) (rotr x 19)) (Z.shiftr x 10).

(** The round constants: the first 32 bits of the fractional parts of the cube roots of the
    first 64 primes, and the initial state from the square roots of the first eight. *)
Fixpoint cube_root_bits (bits : nat) (n r : Z) : Z :=
  match bits with
  | O => r
  | S b =>
      let r' := r + 2 ^ Z.of_nat b in
      cube_root_bits b n (if r' * r' * r' <=? n then r' else r)
  end.

Definition primes : list Z := Eval vm_compute in
  filter (fun p => forallb (fun d => negb (p mod d =? 0)) (Z.of_nat <$> seq 2 (Z.to_nat p - 2)) = true)
    (Z.of_nat <$> seq 2 310).

Definition K : list Z := Eval vm_compute in
  (fun p => mask32 (cube_root_bits 36 (p * 2 ^ 96) 0)) <$> primes.

Definition H : list Z := Eval vm_compute in
  (fun p => mask32 (Z.sqrt (p * 2 ^ 64))) <$> take 8 primes.

Record state : Type := { sa : Z; sb : Z; sc : Z; sd : Z; se : Z; sf : Z; sg : Z; sh : Z }.

Definition init : state :=
  let at_ i := nth i H 0 in
  {| sa := at_ 0%nat; sb := at_ 1%nat; sc := at_ 2%nat; sd := at_ 3%nat;
     se := at_ 4%nat; sf := at_ 5%nat; sg := at_ 6%nat; sh := at_ 7%nat |}.

(** Zeros so that the message, one marker byte and eight length bytes fill whole blocks. *)
Definition pad (m : bytes) : bytes :=
  let zeros := (55 - len m) mod 64 in
  m ++ [x80] ++ replicate (Z.to_nat zeros) x00 ++ be_put 8 (wrap64 (8 * len m)).

Fixpoint chunks (size : nat) (fuel : nat) (b : bytes) : list bytes :=
  match fuel with
  | O => []
  | S f => match b with [] => [] | _ => take size b :: chunks size f (drop size b) end
  end.

(** The schedule, newest word first: each step adds one word from the last sixteen. *)
Fixpoint schedule (n : nat) (w : list Z) : list Z :=
  match n with
  | O => w
  | S n' =>
      let at_ i := default 0 (w !! i) in
      schedule n' (add32 (add32 (sigma1 (at_ 1%nat)) (at_ 6%nat)) (add32 (sigma0 (at_ 14%nat)) (at_ 15%nat)) :: w)
  end.

Definition round (s : state) (kw : Z * Z) : state :=
  let t1 := add32 (add32 (add32 (sh s) (Sigma1 (se s))) (Ch (se s) (sf s) (sg s))) (add32 (fst kw) (snd kw)) in
  let t2 := add32 (Sigma0 (sa s)) (Maj (sa s) (sb s) (sc s)) in
  {| sa := add32 t1 t2; sb := sa s; sc := sb s; sd := sc s;
     se := add32 (sd s) t1; sf := se s; sg := sf s; sh := sg s |}.

Definition compress (s : state) (block : bytes) : state :=
  let w := be_get <$> chunks 4 16 block in
  let ws := reverse (schedule 48 (reverse w)) in
  let r := fold_left round (zip K ws) s in
  {| sa := add32 (sa s) (sa r); sb := add32 (sb s) (sb r); sc := add32 (sc s) (sc r); sd := add32 (sd s) (sd r);
     se := add32 (se s) (se r); sf := add32 (sf s) (sf r); sg := add32 (sg s) (sg r); sh := add32 (sh s) (sh r) |}.

Definition digest (s : state) : bytes :=
  be_put 4 (sa s) ++ be_put 4 (sb s) ++ be_put 4 (sc s) ++ be_put 4 (sd s) ++
  be_put 4 (se s) ++ be_put 4 (sf s) ++ be_put 4 (sg s) ++ be_put 4 (sh s).

Definition sum (m : bytes) : bytes :=
  let p := pad m in
  digest (fold_left compress (chunks 64 (length p) p) init).

End Sha256.

Lemma length_sha256 m : length (Sha256.sum m) = 32%nat.
Proof. unfold Sha256.sum, Sha256.digest. by rewrite !length_app, !length_be_put. Qed.

(** The standard's test vectors: the empty message, "abc", and a two-block message. *)
Example sha256_empty : be_get (Sha256.sum []) =
  0xe3b0c44298fc1c149afbf4c8996fb92427ae41e4649b934ca495991b7852b855.
Proof. vm_compute. reflexivity. Qed.

Example sha256_abc : be_get (Sha256.sum (str "abc")) =
  0xba7816bf8f01cfea414140de5dae2223b00361a396177a9cb410ff61f20015ad.
Proof. vm_compute. reflexivity. Qed.

Example sha256_two_blocks :
  be_get (Sha256.sum (str "abcdbcdecdefdefgefghfghighijhijkijkljklmklmnlmnomnopnopq")) =
  0x248d6a61d20638b8e5c026930c3e6039a33ce45964ff2167f6ecedd419db06c1.
Proof. vm_compute. reflexivity. Qed.

Example sha256_constants : length Sha256.K = 64%nat /\ hd 0 Sha256.K = 0x428a2f98 /\ last Sha256.K = Some 0xc67178f2.
Proof. vm_compute. done. Qed.
