(* ===== verification/Pb.v ===== *)
(** * The data model ([pkg/pb/cdb.go], [pkg/server/error.go], [pkg/server/record.go])

    Requests, responses and records as the Go structs declare them. A pointer field is an
    [option]; integers are [Z] (the width of each is in the comment beside it). *)

From S2P Require Import Prelude.

(** ** Errors

    The sentinel errors of [pkg/server/error.go], and the forms in which the code wraps and
    returns other ones. Only the identity of an error and the error it wraps are kept; the
    formatted text is not. [RpcCode] are the value-rpc error codes the code uses. *)
Inductive RpcCode : Type := CodeUnauthenticated | CodeUnavailable | CodeInvalidArgument.

#[global] Instance RpcCode_eq_dec : EqDecision RpcCode.
Proof. solve_decision. Defined.

Inductive error : Type :=
| ErrorIndexOutOfBounds
| ErrorEmptyKey
| ErrorWrongSize
| ErrorUnsupportedOperation
| ErrEngine (code : Z)                 (* an error value of the storage engine *)
| ErrNew (msg : bytes)                 (* xerrors.New / xerrors.Errorf without a cause *)
| ErrWrap (msg : bytes) (cause : error) (* xerrors.Errorf("...: %w", err) *)
| NotLeaderError (LeaderID LeaderAddr LeaderEndpoint : bytes)
| RpcError (code : RpcCode) (msg : bytes).   (* valuerpc.NewError *)

#[global] Instance error_eq_dec : EqDecision error.
Proof. solve_decision. Defined.

Abbreviation result := (outcome error).

(** ** Keys *)

Record TimeUUID : Type := { MostSigBits : Z; LeastSigBits : Z (* int64 *) }.

Record Key : Type := {
  MajorKey : bytes;
  RegionName : bytes;
  MinorKey : bytes;
  Timestamp : option TimeUUID
}.

(** ** Requests and responses *)

Record KeyRequest : Type := { kr_Key : option Key; kr_HeadOnly : bool; kr_Timeout : Z }.

Record RecordRequest : Type := {
  rr_Key : option Key;
  rr_Value : bytes;
  rr_Metadata : Z;       (* int32 *)
  rr_TtlSeconds : Z;     (* int64 *)
  rr_CompareAndSet : bool;
  rr_Version : Z;        (* uint64, 0 = put if absent *)
  rr_Timeout : Z;
  rr_ExpiresAt : Z       (* int64, absolute expiry *)
}.

Record IncrementRequest : Type := {
  ir_Key : option Key;
  ir_Initial : Z;        (* int64 *)
  ir_Delta : Z;          (* int64 *)
  ir_TtlSeconds : Z;     (* int64 *)
  ir_Timeout : Z;
  ir_ExpiresAt : Z       (* int64 *)
}.

Record IncrementResponse : Type := {
  Previous : Z;          (* int64 *)
  Current : Z;           (* int64 *)
  ir_Version : Z         (* uint64 *)
}.

Record BatchRequest : Type := { br_Records : list RecordRequest; br_Timeout : Z }.

Record ReclaimEntry : Type := { re_EntryKey : bytes; re_Version : Z (* uint64 *) }.

Record ReclaimRequest : Type := { rc_Entries : list ReclaimEntry }.

Inductive ChangeType : Type := WATCH_SET | WATCH_DELETE.

Record WatchRequest : Type := { wr_Prefix : option Key; wr_Timeout : Z }.

(** [pb.WatchEvent], what a watcher of the data plane receives. *)
Record WatchEvent : Type := {
  we_Key : option Key;
  we_Value : bytes;
  we_Version : Z;        (* uint64 *)
  we_Type : ChangeType
}.

(** [RangeType] is an int32 of which only [LESS_OR_EQUAL] is a value the storage accepts. *)
Definition RangeType_LESS_OR_EQUAL : Z := 0.

Record RangeRequest : Type := {
  rg_Key : option Key;
  rg_HeadOnly : bool;
  rg_Type : Z;
  rg_NumRecords : Z;     (* int32 *)
  rg_Timeout : Z
}.

Record ScanRequest : Type := { sc_HeadOnly : bool }.

Record EnumerateRequest : Type := {
  en_Prefix : option Key;
  en_Ordered : bool;
  en_Reverse : bool;
  en_Timeout : Z
}.

Record Status : Type := { Updated : bool }.

Record Head : Type := {
  hd_Version : Z;        (* uint64 *)
  hd_ExpiresAt : Z;      (* uint64 *)
  hd_DiskSize : Z;       (* int64 *)
  hd_Metadata : Z        (* int32 *)
}.

(** A record without a head is a record that was not found. *)
Record Rec : Type := { rec_Key : option Key; rec_Head : option Head; rec_Value : bytes }.

Record Block : Type := { blk_Record : list Rec }.

#[global] Instance TimeUUID_eq_dec : EqDecision TimeUUID.
Proof. solve_decision. Defined.

#[global] Instance Key_eq_dec : EqDecision Key.
Proof. solve_decision. Defined.

#[global] Instance Head_eq_dec : EqDecision Head.
Proof. solve_decision. Defined.

#[global] Instance Rec_eq_dec : EqDecision Rec.
Proof. solve_decision. Defined.

#[global] Instance RecordRequest_eq_dec : EqDecision RecordRequest.
Proof. solve_decision. Defined.

#[global] Instance ReclaimEntry_eq_dec : EqDecision ReclaimEntry.
Proof. solve_decision. Defined.

(** ** Record constructors ([pkg/server/record.go]) *)

Definition RecordNotFound (key : option Key) : Rec :=
  {| rec_Key := key; rec_Head := None; rec_Value := [] |}.

Definition RecordHead (key : option Key) (version expiresAt diskSize metadata : Z) : Rec :=
  {| rec_Key := key;
     rec_Head := Some {| hd_Version := version; hd_ExpiresAt := expiresAt;
                         hd_DiskSize := diskSize; hd_Metadata := metadata |};
     rec_Value := [] |}.

Definition RecordValue (key : option Key) (version expiresAt diskSize metadata : Z)
    (value : bytes) : Rec :=
  let record := RecordHead key version expiresAt diskSize metadata in
  {| rec_Key := rec_Key record; rec_Head := rec_Head record; rec_Value := value |}.
