(* ===== verification/Keys.v ===== *)
(** * The physical key encoding ([pkg/server/key.go])

    [EncodeKey], [EncodeKeyPrefix], [DecodeKey] and [Equal], translated at the level of the
    byte buffer the code fills, together with the layout the README documents
    ([[majorLen][major][regionLen][region][minorLen][minor][sortable-TimeUUID]]) as the
    reference definition [enc_key]. *)

From S2P Require Import Prelude Pb.

Definition MaxKeyLength : Z := 65535.

Definition SizeOfUUID : Z := 16.

Inductive Field : Type := MajorKeyField | RegionNameField | MinorKeyField | TimestampField.

#[global] Instance Field_eq_dec : EqDecision Field.
Proof. solve_decision. Defined.

(** ** [go.arpabet.com/uuid]

    [marshal_sortable] is [uuid.Create] followed by [MarshalSortableBinaryTo];
    [unmarshal_sortable] is [UnmarshalSortableBinary] followed by [MostSignificantBits] and
    [LeastSignificantBits]. [uuid_ok] says for which identifiers the sortable form is
    defined. *)
Class UuidPkg : Type := {
  marshal_sortable : TimeUUID -> bytes;
  unmarshal_sortable : bytes -> TimeUUID;
  uuid_ok : TimeUUID -> bool
}.

Class UuidLaws `{UuidPkg} : Prop := {
  marshal_sortable_length : forall t, len (marshal_sortable t) = SizeOfUUID;
  unmarshal_marshal_sortable : forall t,
    uuid_ok t = true -> unmarshal_sortable (marshal_sortable t) = t
}.

(** ** Operations *)

Section Ops.
Context `{UuidPkg}.

Definition SanitizeKeyLen (l : Z) : Z := if MaxKeyLength <? l then MaxKeyLength else l.

(** [binary.BigEndian.PutUint16(out[i:], uint16(l))]. *)
Definition PutUint16 (out : bytes) (i l : Z) : bytes := copy_at out (Z.to_nat i) (be_put 2 l).

(** One length-prefixed field: the two length bytes, then [copy(out[i:], field)], which
    copies the whole field even when the length was cut; the next write overwrites the
    excess. Returns the buffer and the next offset. *)
Definition put_field (out : bytes) (i : Z) (field : bytes) : bytes * Z :=
  let l := SanitizeKeyLen (len field) in
  let out := PutUint16 out i l in
  let i := i + 2 in
  let out := copy_at out (Z.to_nat i) field in
  (out, i + l).

(** [make([]byte, ...)], sized for the three fields and the optional TimeUUID. *)
Definition key_buffer (key : Key) : bytes :=
  replicate (Z.to_nat (2 + SanitizeKeyLen (len (MajorKey key)) +
                       2 + SanitizeKeyLen (len (RegionName key)) +
                       2 + SanitizeKeyLen (len (MinorKey key)) + SizeOfUUID)) x00.

Definition EncodeKey (key : Key) : bytes * bytes :=
  let out := key_buffer key in
  let '(out, i) := put_field out 0 (MajorKey key) in
  let '(out, i) := put_field out i (RegionName key) in
  let '(out, i) := put_field out i (MinorKey key) in
  match Timestamp key with
  | Some ts =>
      let out := copy_at out (Z.to_nat i) (marshal_sortable ts) in
      (out, take (Z.to_nat i) out)
  | None => (take (Z.to_nat i) out, take (Z.to_nat i) out)
  end.

Definition EncodeKeyPrefix (key : Key) (lastField : Field) : result bytes :=
  let out := key_buffer key in
  let '(out, i) := put_field out 0 (MajorKey key) in
  if decide (lastField = MajorKeyField) then Ret (take (Z.to_nat i) out) else
  let '(out, i) := put_field out i (RegionName key) in
  if decide (lastField = RegionNameField) then Ret (take (Z.to_nat i) out) else
  let '(out, i) := put_field out i (MinorKey key) in
  if decide (lastField = MinorKeyField) then Ret (take (Z.to_nat i) out) else
  match Timestamp key with
  | Some ts =>
      let out := copy_at out (Z.to_nat i) (marshal_sortable ts) in
      let i := i + 16 in
      if decide (lastField = TimestampField) then Ret (take (Z.to_nat i) out)
      else Fail (ErrNew (str "key does not have the lastField"))
  | None => Fail (ErrNew (str "key does not have the lastField"))
  end.

(** [binary.BigEndian.Uint16(b[j:])]: panics when fewer than two bytes are left. *)
Definition Uint16At (b : bytes) (j : Z) : result Z :=
  match drop (Z.to_nat j) b with
  | x :: y :: _ => Ret (be_get [x; y])
  | _ => Panic
  end.

(** [b[i:j]] for [i <= j <= len(b)]. *)
Definition slice (b : bytes) (i j : Z) : bytes := take (Z.to_nat (j - i)) (drop (Z.to_nat i) b).

(** One field read at offset [j]: the length, the bounds check, the slice and the next
    offset. *)
Definition get_field (b : bytes) (j : Z) : result (bytes * Z) :=
  fieldLen ← Uint16At b j;
  let i := j + 2 in
  let j := i + fieldLen in
  if len b <? j then Fail ErrorIndexOutOfBounds else Ret (slice b i j, j).

Definition DecodeKey (entryKey : bytes) : result Key :=
  let b := entryKey in
  let l := len b in
  if l <? 6 then Fail ErrorIndexOutOfBounds else
  '(majorKey, j) ← get_field b 0;
  '(regionName, j) ← get_field b j;
  '(minorKey, j) ← get_field b j;
  if j <=? l - SizeOfUUID then
    Ret {| MajorKey := majorKey; RegionName := regionName; MinorKey := minorKey;
           Timestamp := Some (unmarshal_sortable (drop (Z.to_nat j) b)) |}
  else
    Ret {| MajorKey := majorKey; RegionName := regionName; MinorKey := minorKey;
           Timestamp := None |}.

Definition Equal (left right : Key) : bool :=
  if negb (bool_decide (MajorKey left = MajorKey right)) then false else
  if negb (bool_decide (RegionName left = RegionName right)) then false else
  if negb (bool_decide (MinorKey left = MinorKey right)) then false else
  match Timestamp left with
  | Some lt =>
      match Timestamp right with
      | None => false
      | Some rt =>
          if negb (MostSigBits lt =? MostSigBits rt) then false else
          if negb (LeastSigBits lt =? LeastSigBits rt) then false else true
      end
  | None => match Timestamp right with None => true | Some _ => false end
  end.

(** ** The documented layout *)

Definition enc_field (f : bytes) : bytes :=
  be_put 2 (SanitizeKeyLen (len f)) ++ take (Z.to_nat (SanitizeKeyLen (len f))) f.

Definition enc_row (key : Key) : bytes :=
  enc_field (MajorKey key) ++ enc_field (RegionName key) ++ enc_field (MinorKey key).

Definition enc_ts (key : Key) : bytes :=
  match Timestamp key with Some ts => marshal_sortable ts | None => [] end.

Definition enc_key (key : Key) : bytes := enc_row key ++ enc_ts key.

(** The fields fit their two length bytes: nothing is cut. *)
Definition fits (f : bytes) : bool := len f <=? MaxKeyLength.

Definition key_fits (k : Key) : bool :=
  fits (MajorKey k) && fits (RegionName k) && fits (MinorKey k).

Definition key_ok (k : Key) : bool :=
  key_fits k && match Timestamp k with Some ts => uuid_ok ts | None => true end.

End Ops.

(** ** Lemmas: the buffer algorithm computes the documented layout *)

Section Lemmas.
Context `{UuidPkg} `{!UuidLaws}.

Lemma SanitizeKeyLen_bounds l : 0 <= l -> 0 <= SanitizeKeyLen l <= l /\ SanitizeKeyLen l < 2 ^ 16.
Proof. unfold SanitizeKeyLen, MaxKeyLength. intros. destruct (Z.ltb_spec 65535 l); lia. Qed.

Lemma sanitize_len_bounds (f : bytes) :
  0 <= SanitizeKeyLen (len f) <= len f /\ SanitizeKeyLen (len f) < 2 ^ 16.
Proof. apply SanitizeKeyLen_bounds. unfold len. lia. Qed.

Lemma sanitize_fits f : fits f = true -> SanitizeKeyLen (len f) = len f.
Proof. unfold fits, SanitizeKeyLen. intros E%Z.leb_le. destruct (Z.ltb_spec MaxKeyLength (len f)); lia. Qed.

Lemma len_enc_field f : len (enc_field f) = 2 + SanitizeKeyLen (len f).
Proof.
  pose proof (sanitize_len_bounds f). unfold enc_field, len in *.
  rewrite length_app, length_be_put, length_take. lia.
Qed.

Lemma enc_field_fits f : fits f = true -> enc_field f = be_put 2 (len f) ++ f.
Proof.
  intros Hf. unfold enc_field. rewrite (sanitize_fits f Hf). f_equal.
  apply take_ge. unfold len. lia.
Qed.

(** One field written at the end of a finished prefix extends the prefix by [enc_field]. *)
Lemma put_field_spec out acc f out' i' :
  take (length acc) out = acc ->
  len acc + len (enc_field f) <= len out ->
  put_field out (len acc) f = (out', i') ->
  i' = len (acc ++ enc_field f) /\
  take (length (acc ++ enc_field f)) out' = acc ++ enc_field f /\
  length out' = length out.
Proof.
  intros Hacc Hroom [= <- <-]. rewrite len_enc_field in Hroom.
  pose proof (sanitize_len_bounds f) as Hb.
  assert (length acc <= length out)%nat by (unfold len in *; lia).
  set (l := SanitizeKeyLen (len f)) in *.
  assert (take (length (acc ++ be_put 2 l)) (PutUint16 out (len acc) l) = acc ++ be_put 2 l) as W1.
  { unfold PutUint16, len. rewrite Nat2Z.id, length_app, length_be_put.
    erewrite (take_copy_at _ _ 2 _ acc); [|done|unfold len in *; lia|done]. done. }
  assert (length (PutUint16 out (len acc) l) = length out) as W2.
  { unfold PutUint16. apply length_copy_at. unfold len. lia. }
  assert (Z.to_nat (len acc + 2) = length (acc ++ be_put 2 l)) as W3.
  { rewrite length_app, length_be_put. unfold len. lia. }
  rewrite W3. split; [|split].
  - unfold len. rewrite length_app. fold (len (enc_field f)). unfold len in *.
    rewrite Nat2Z.inj_add. fold (len (enc_field f)). rewrite len_enc_field. unfold len. lia.
  - unfold enc_field. fold l. rewrite app_assoc, length_app, length_take.
    rewrite Nat.min_l by (unfold len in *; lia).
    erewrite (take_copy_at _ _ (Z.to_nat l) _ (acc ++ be_put 2 l)); [done|done| |unfold len in *; lia].
    rewrite W2, length_app, length_be_put. unfold len in *. lia.
  - rewrite length_copy_at; [done|]. rewrite W2, length_app, length_be_put. unfold len in *. lia.
Qed.

Lemma length_key_buffer k :
  len (key_buffer k) = len (enc_row k) + SizeOfUUID.
Proof.
  pose proof (sanitize_len_bounds (MajorKey k)). pose proof (sanitize_len_bounds (RegionName k)).
  pose proof (sanitize_len_bounds (MinorKey k)).
  unfold enc_row. rewrite !len_app, !len_enc_field. unfold key_buffer, SizeOfUUID.
  match goal with |- len (replicate ?n _) = _ => assert (len (replicate n x00) = Z.of_nat n) as E end.
  { unfold len. by rewrite length_replicate. }
  rewrite E, Z2Nat.id; lia.
Qed.

(** What the three field writes leave: the finished row and a buffer that still has room for
    the TimeUUID. *)
Lemma put_fields_spec k out1 i1 out2 i2 out3 i3 :
  put_field (key_buffer k) 0 (MajorKey k) = (out1, i1) ->
  put_field out1 i1 (RegionName k) = (out2, i2) ->
  put_field out2 i2 (MinorKey k) = (out3, i3) ->
  (take (Z.to_nat i1) out1 = enc_field (MajorKey k)) /\
  (take (Z.to_nat i2) out2 = enc_field (MajorKey k) ++ enc_field (RegionName k)) /\
  (take (Z.to_nat i3) out3 = enc_row k) /\
  i3 = len (enc_row k) /\ len out3 = len (enc_row k) + SizeOfUUID.
Proof.
  intros E1 E2 E3. pose proof (length_key_buffer k) as HL.
  assert (len (enc_row k) = len (enc_field (MajorKey k)) + len (enc_field (RegionName k))
            + len (enc_field (MinorKey k))) as HR.
  { unfold enc_row, len. rewrite !length_app. lia. }
  unfold SizeOfUUID in *.
  destruct (put_field_spec (key_buffer k) [] (MajorKey k) out1 i1) as (-> & T1 & L1);
    [done|change (len (@nil byte)) with 0; unfold len in *; lia|exact E1|].
  destruct (put_field_spec out1 (enc_field (MajorKey k)) (RegionName k) out2 i2)
    as (-> & T2 & L2); [exact T1|unfold len in *; lia|exact E2|].
  destruct (put_field_spec out2 (enc_field (MajorKey k) ++ enc_field (RegionName k)) (MinorKey k) out3 i3)
    as (-> & T3 & L3); [exact T2|unfold len in *; rewrite length_app; lia|exact E3|].
  unfold len. rewrite !Nat2Z.id. rewrite <- app_assoc in *. fold (enc_row k) in *.
  repeat split; try done. unfold len in *. lia.
Qed.

Lemma EncodeKey_layout k : EncodeKey k = (enc_key k, enc_row k).
Proof.
  unfold EncodeKey, enc_key, enc_ts.
  destruct (put_field (key_buffer k) 0 (MajorKey k)) as [out1 i1] eqn:E1.
  destruct (put_field out1 i1 (RegionName k)) as [out2 i2] eqn:E2.
  destruct (put_field out2 i2 (MinorKey k)) as [out3 i3] eqn:E3.
  destruct (put_fields_spec k _ _ _ _ _ _ E1 E2 E3) as (_ & _ & T3 & -> & L3).
  destruct (Timestamp k) as [ts|]; [|by rewrite T3, app_nil_r].
  pose proof (marshal_sortable_length ts) as Hts. unfold SizeOfUUID, len in *.
  rewrite Nat2Z.id in *.
  pose proof (take_copy_at out3 (length (enc_row k)) 16 (marshal_sortable ts) _ T3
                ltac:(lia) ltac:(lia)) as HT.
  rewrite (take_ge (marshal_sortable ts)) in HT by lia.
  rewrite take_ge in HT by (rewrite length_copy_at; lia).
  by rewrite HT, take_app_length.
Qed.

(** The reference prefix of a key up to a field. *)
Definition enc_prefix (k : Key) (f : Field) : option bytes :=
  match f with
  | MajorKeyField => Some (enc_field (MajorKey k))
  | RegionNameField => Some (enc_field (MajorKey k) ++ enc_field (RegionName k))
  | MinorKeyField => Some (enc_row k)
  | TimestampField => match Timestamp k with Some _ => Some (enc_key k) | None => None end
  end.

Lemma EncodeKeyPrefix_layout k f :
  match enc_prefix k f with
  | Some p => EncodeKeyPrefix k f = Ret p
  | None => exists e, EncodeKeyPrefix k f = Fail e
  end.
Proof.
  unfold EncodeKeyPrefix.
  destruct (put_field (key_buffer k) 0 (MajorKey k)) as [out1 i1] eqn:E1.
  destruct (put_field out1 i1 (RegionName k)) as [out2 i2] eqn:E2.
  destruct (put_field out2 i2 (MinorKey k)) as [out3 i3] eqn:E3.
  destruct (put_fields_spec k _ _ _ _ _ _ E1 E2 E3) as (T1 & T2 & T3 & -> & L3).
  rewrite T1, T2, T3.
  destruct f; simpl; try done.
  unfold enc_key, enc_ts. destruct (Timestamp k) as [ts|]; [|by eexists]. f_equal.
  pose proof (marshal_sortable_length ts) as Hts. unfold SizeOfUUID, len in *.
  replace (Z.to_nat (Z.of_nat (length (enc_row k)) + 16)) with (length (enc_row k) + 16)%nat by lia.
  rewrite Nat2Z.id in *.
  rewrite (take_copy_at out3 _ 16 _ _ T3) by lia. rewrite (take_ge (marshal_sortable ts)) by lia. done.
Qed.

(** ** Unique parsing of length-prefixed fields *)

Lemma enc_field_inj f g r s :
  fits f = true -> fits g = true ->
  enc_field f ++ r = enc_field g ++ s -> f = g /\ r = s.
Proof.
  intros Hf Hg. rewrite (enc_field_fits f Hf), (enc_field_fits g Hg), <- !app_assoc. intros E.
  apply app_inj_1 in E as [E1 E2]; [|by rewrite !length_be_put].
  apply (f_equal be_get) in E1. unfold fits, MaxKeyLength in *.
  rewrite !be_get_put_small in E1 by (unfold len in *; lia).
  apply app_inj_1 in E2; [done|]. unfold len in E1. lia.
Qed.

(** A prefix that starts with a field matches exactly the encodings that start with it. *)
Lemma enc_field_prefix f g p s :
  fits f = true -> fits g = true ->
  (enc_field f ++ p `prefix_of` enc_field g ++ s) <-> f = g /\ p `prefix_of` s.
Proof.
  intros Hf Hg. split.
  - intros [r E]. rewrite <- app_assoc in E. symmetry in E.
    apply enc_field_inj in E as [-> <-]; [|done..]. split; [done|]. by apply prefix_app_r.
  - intros [-> [r ->]]. exists r. by rewrite <- app_assoc.
Qed.

Lemma enc_row_inj k1 k2 r s :
  key_fits k1 = true -> key_fits k2 = true ->
  enc_row k1 ++ r = enc_row k2 ++ s ->
  MajorKey k1 = MajorKey k2 /\ RegionName k1 = RegionName k2 /\ MinorKey k1 = MinorKey k2 /\ r = s.
Proof.
  unfold key_fits. intros H1 H2 E. bool_cases. unfold enc_row in E. rewrite <- !app_assoc in E.
  apply enc_field_inj in E as [? E]; [|done..].
  apply enc_field_inj in E as [? E]; [|done..].
  by apply enc_field_inj in E as [? E].
Qed.

Lemma enc_key_inj k1 k2 : key_ok k1 = true -> key_ok k2 = true -> enc_key k1 = enc_key k2 -> k1 = k2.
Proof.
  unfold key_ok. intros H1 H2 E. bool_cases. unfold enc_key in E.
  destruct (enc_row_inj k1 k2 _ _ ltac:(done) ltac:(done) E) as (E1 & E2 & E3 & E4).
  destruct k1 as [ma1 r1 mi1 t1], k2 as [ma2 r2 mi2 t2]. unfold enc_ts in E4. simpl in *. subst.
  f_equal. destruct t1 as [t1|], t2 as [t2|]; [| | |done].
  - f_equal. rewrite <- (unmarshal_marshal_sortable t1), E4 by done.
    by apply unmarshal_marshal_sortable.
  - pose proof (marshal_sortable_length t1) as HL. by rewrite E4 in HL.
  - pose proof (marshal_sortable_length t2) as HL. by rewrite <- E4 in HL.
Qed.

(** Reading one field back. *)
Lemma get_field_enc p f r :
  fits f = true ->
  get_field (p ++ enc_field f ++ r) (len p) = Ret (f, len (p ++ enc_field f)).
Proof.
  intros Hf. rewrite (enc_field_fits f Hf). unfold get_field, Uint16At.
  replace (Z.to_nat (len p)) with (length p) by (unfold len; lia). rewrite drop_app_length.
  destruct (be_put 2 (len f)) as [|x [|y [|z l]]] eqn:E;
    try (apply (f_equal length) in E; rewrite length_be_put in E; simpl in E; lia).
  simpl. rewrite <- E, be_get_put_small
    by (unfold fits, MaxKeyLength, len in *; lia).
  destruct (Z.ltb_spec (len (p ++ x :: y :: f ++ r)) (len p + 2 + len f)) as [HC|_].
  { unfold len in HC. rewrite length_app in HC. simpl in HC. rewrite length_app in HC. lia. }
  f_equal. f_equal.
  - unfold slice. replace (Z.to_nat (len p + 2)) with (length (p ++ [x; y]))%nat
      by (rewrite length_app; unfold len; simpl; lia).
    change (p ++ x :: y :: f ++ r) with (p ++ [x; y] ++ (f ++ r)). rewrite app_assoc, drop_app_length.
    replace (Z.to_nat (len p + 2 + len f - (len p + 2))) with (length f) by (unfold len; lia).
    by rewrite take_app_length.
  - unfold len. rewrite !length_app. simpl. lia.
Qed.

Lemma DecodeKey_enc k : key_ok k = true -> DecodeKey (enc_key k) = Ret k.
Proof.
  unfold key_ok, key_fits. intros Hok. bool_cases.
  unfold DecodeKey, enc_key, enc_row. rewrite <- !app_assoc.
  set (A := enc_field (MajorKey k)). set (B := enc_field (RegionName k)).
  set (C := enc_field (MinorKey k)). set (T := enc_ts k).
  pose proof (len_enc_field (MajorKey k)) as LA. fold A in LA.
  pose proof (len_enc_field (RegionName k)) as LB. fold B in LB.
  pose proof (len_enc_field (MinorKey k)) as LC. fold C in LC.
  pose proof (sanitize_len_bounds (MajorKey k)). pose proof (sanitize_len_bounds (RegionName k)).
  pose proof (sanitize_len_bounds (MinorKey k)).
  assert (len (A ++ B ++ C ++ T) = len A + len B + len C + len T) as LL
    by (unfold len; rewrite !length_app; lia).
  destruct (Z.ltb_spec (len (A ++ B ++ C ++ T)) 6) as [HC|_]; [unfold len in *; lia|].
  pose proof (get_field_enc [] (MajorKey k) (B ++ C ++ T) ltac:(done)) as G1.
  change (get_field (A ++ B ++ C ++ T) 0 = Ret (MajorKey k, len A)) in G1.
  pose proof (get_field_enc A (RegionName k) (C ++ T) ltac:(done)) as G2. fold B in G2.
  pose proof (get_field_enc (A ++ B) (MinorKey k) T ltac:(done)) as G3.
  fold C in G3. rewrite <- !app_assoc in G3.
  rewrite G1. cbn [mbind outcome_bind]. rewrite G2. cbn [mbind outcome_bind].
  rewrite G3. cbn [mbind outcome_bind]. rewrite (len_app A), (len_app B), Z.add_assoc.
  rewrite LL. unfold T, enc_ts. clear G1 G2 G3 LL T. clearbody A B C.
  destruct k as [ma rg mi [ts|]]; cbn [MajorKey RegionName MinorKey Timestamp] in *.
  - pose proof (marshal_sortable_length ts) as Ht. rewrite Ht.
    destruct (Z.leb_spec (len A + len B + len C) (len A + len B + len C + SizeOfUUID - SizeOfUUID));
      [|lia].
    assert (drop (Z.to_nat (len A + len B + len C)) (A ++ B ++ C ++ marshal_sortable ts)
            = marshal_sortable ts) as ->.
    { rewrite !app_assoc. apply drop_app_length'. rewrite !length_app. unfold len. lia. }
    by rewrite unmarshal_marshal_sortable.
  - unfold SizeOfUUID.
    destruct (Z.leb_spec (len A + len B + len C) (len A + len B + len C + len (@nil byte) - 16)) as [HC|_];
      [change (len (@nil byte)) with 0 in HC; lia|]. done.
Qed.

End Lemmas.

(** ** A concrete sortable encoding

    Two offset 64-bit big-endian halves: one encoding for which the laws of [UuidLaws] hold.
    It only serves to evaluate the definitions on concrete keys. *)
Definition flat_uuid : UuidPkg := {|
  marshal_sortable := fun t =>
    be_put 8 (MostSigBits t + 2 ^ 63) ++ be_put 8 (LeastSigBits t + 2 ^ 63);
  unmarshal_sortable := fun b =>
    {| MostSigBits := be_get (take 8 b) - 2 ^ 63;
       LeastSigBits := be_get (take 8 (drop 8 b)) - 2 ^ 63 |};
  uuid_ok := fun t =>
    bool_decide (is_int64 (MostSigBits t)) && bool_decide (is_int64 (LeastSigBits t))
|}.

Lemma flat_uuid_laws : @UuidLaws flat_uuid.
Proof.
  split.
  - intros t. cbn [marshal_sortable flat_uuid]. rewrite len_app. unfold len.
    by rewrite !length_be_put.
  - intros [m l] Hok. cbn [uuid_ok flat_uuid MostSigBits LeastSigBits] in Hok. bool_cases.
    unfold is_int64 in *. cbn [unmarshal_sortable marshal_sortable flat_uuid MostSigBits LeastSigBits].
    rewrite take_app_length', drop_app_length' by (by rewrite length_be_put).
    rewrite take_ge by (rewrite length_be_put; done).
    rewrite !be_get_put_small by (change (256 ^ Z.of_nat 8) with (2 ^ 64); lia).
    f_equal; lia.
Qed.

(** ** Properties of the key encoding *)

Section Properties.
Context `{UuidPkg} `{!UuidLaws}.

(** Which fields two keys share when a prefix of the first matches the second. *)
Definition agree_upto (f : Field) (k k' : Key) : Prop :=
  match f with
  | MajorKeyField => MajorKey k = MajorKey k'
  | RegionNameField => MajorKey k = MajorKey k' /\ RegionName k = RegionName k'
  | MinorKeyField =>
      MajorKey k = MajorKey k' /\ RegionName k = RegionName k' /\ MinorKey k = MinorKey k'
  | TimestampField => k = k'
  end.

Lemma ts_prefix_agree k k' :
  match Timestamp k with Some ts => uuid_ok ts | None => true end = true ->
  match Timestamp k' with Some ts => uuid_ok ts | None => true end = true ->
  Timestamp k <> None ->
  (enc_ts k `prefix_of` enc_ts k') <-> Timestamp k = Timestamp k'.
Proof.
  unfold enc_ts. destruct (Timestamp k) as [t|]; [|done]. intros Ht Ht' _.
  split; [|by intros <-].
  pose proof (marshal_sortable_length t) as HL. unfold len, SizeOfUUID in HL.
  destruct (Timestamp k') as [t'|]; intros [s E].
  - pose proof (marshal_sortable_length t') as HL'. unfold len, SizeOfUUID in HL'.
    rewrite <- (app_nil_r (marshal_sortable t')) in E. apply app_inj_1 in E as [E _]; [|lia].
    by rewrite <- (unmarshal_marshal_sortable t), <- E, unmarshal_marshal_sortable.
  - apply (f_equal length) in E. rewrite length_app in E. simpl in E. lia.
Qed.

Lemma enc_prefix_agree k k' f p :
  key_ok k = true -> key_ok k' = true -> enc_prefix k f = Some p ->
  (p `prefix_of` enc_key k') <-> agree_upto f k k'.
Proof.
  unfold key_ok, key_fits. intros Hk Hk' Hp. bool_cases.
  assert (forall l : bytes, [] `prefix_of` l <-> True) as Hnil
    by (intros l; split; [done|intros _; apply prefix_nil]).
  unfold enc_key, enc_row. rewrite <- !app_assoc.
  destruct f; cbn [enc_prefix] in Hp.
  - apply (inj Some) in Hp as <-. rewrite <- (app_nil_r (enc_field (MajorKey k))).
    rewrite enc_field_prefix, Hnil by done. simpl. tauto.
  - apply (inj Some) in Hp as <-. rewrite <- (app_nil_r (enc_field (RegionName k))).
    rewrite !enc_field_prefix, Hnil by done. simpl. tauto.
  - apply (inj Some) in Hp as <-. unfold enc_row. rewrite <- (app_nil_r (enc_field (MinorKey k))).
    rewrite !enc_field_prefix, Hnil by done. simpl. tauto.
  - assert (Timestamp k <> None) as Hne by (by destruct (Timestamp k)).
    assert (enc_key k = p) as <- by (destruct (Timestamp k); congruence).
    unfold enc_key, enc_row. rewrite <- !app_assoc, !enc_field_prefix, ts_prefix_agree by done.
    simpl. destruct k, k'; simpl. split; [by intros (-> & -> & -> & ->)|by intros [= -> -> -> ->]].
Qed.

(** Reading a field of arbitrary bytes succeeds only on an encoded field. *)
Lemma get_field_sound p r f j :
  get_field (p ++ r) (len p) = Ret (f, j) ->
  fits f = true /\ exists r', r = enc_field f ++ r' /\ j = len (p ++ enc_field f).
Proof.
  unfold get_field, Uint16At. replace (Z.to_nat (len p)) with (length p) by (unfold len; lia).
  rewrite drop_app_length. destruct r as [|x [|y r]]; [done..|]. cbn [mbind outcome_bind].
  pose proof (be_get_range [x; y]) as Hr. change (256 ^ len [x; y]) with 65536 in Hr.
  destruct (Z.ltb_spec (len (p ++ x :: y :: r)) (len p + 2 + be_get [x; y])) as [|Hle]; [done|].
  rewrite len_app, !len_cons in Hle. intros [= <- <-].
  unfold slice. replace (Z.to_nat (len p + 2)) with (length (p ++ [x; y]))
    by (rewrite length_app; unfold len; simpl; lia).
  change (p ++ x :: y :: r) with (p ++ [x; y] ++ r). rewrite app_assoc, drop_app_length.
  replace (Z.to_nat (len p + 2 + be_get [x; y] - (len p + 2))) with (Z.to_nat (be_get [x; y])) by lia.
  set (n := Z.to_nat (be_get [x; y])).
  assert (len (take n r) = be_get [x; y]) as HL by (unfold len in *; rewrite length_take; lia).
  assert (fits (take n r) = true) as Hfit by (unfold fits, MaxKeyLength; lia).
  split; [done|]. exists (drop n r).
  rewrite (enc_field_fits _ Hfit), HL, (be_put_get 2 [x; y]) by done. split.
  - rewrite <- app_assoc, take_drop. done.
  - rewrite !len_app, HL. change (len [x; y]) with 2. lia.
Qed.

Lemma DecodeKey_sound_lemma b k :
  DecodeKey b = Ret k ->
  key_fits k = true /\ exists rest, b = enc_row k ++ rest /\
    Timestamp k = (if SizeOfUUID <=? len rest then Some (unmarshal_sortable rest) else None).
Proof.
  unfold DecodeKey. destruct (Z.ltb_spec (len b) 6) as [|_]; [done|].
  destruct (get_field b 0) as [[ma j1]| |] eqn:G1; try done. cbn [mbind outcome_bind].
  destruct (get_field_sound [] b ma j1 G1) as (F1 & r1 & -> & ->). rewrite app_nil_l.
  destruct (get_field (enc_field ma ++ r1) (len (enc_field ma))) as [[rg j2]| |] eqn:G2; try done.
  cbn [mbind outcome_bind].
  destruct (get_field_sound _ _ _ _ G2) as (F2 & r2 & -> & ->). rewrite app_assoc.
  destruct (get_field ((enc_field ma ++ enc_field rg) ++ r2) (len (enc_field ma ++ enc_field rg)))
    as [[mi j3]| |] eqn:G3; try done. cbn [mbind outcome_bind].
  destruct (get_field_sound _ _ _ _ G3) as (F3 & r3 & -> & ->).
  rewrite app_assoc. intros HR.
  assert (len (((enc_field ma ++ enc_field rg) ++ enc_field mi) ++ r3) - SizeOfUUID
          = len ((enc_field ma ++ enc_field rg) ++ enc_field mi) + (len r3 - SizeOfUUID)) as HL
    by (rewrite len_app; lia).
  rewrite HL in HR. unfold key_fits, enc_row.
  destruct (Z.leb_spec SizeOfUUID (len r3)) as [Hge|Hlt].
  - rewrite (proj2 (Z.leb_le _ _)) in HR by lia.
    replace (drop (Z.to_nat (len ((enc_field ma ++ enc_field rg) ++ enc_field mi)))
              (((enc_field ma ++ enc_field rg) ++ enc_field mi) ++ r3)) with r3 in HR
      by (symmetry; apply drop_app_length'; unfold len; lia).
    injection HR as <-. cbn [MajorKey RegionName MinorKey Timestamp].
    rewrite F1, F2, F3. split; [done|]. exists r3. split; [by rewrite <- !app_assoc|].
    by rewrite (proj2 (Z.leb_le _ _) Hge).
  - rewrite (proj2 (Z.leb_gt _ _)) in HR by lia.
    injection HR as <-. cbn [MajorKey RegionName MinorKey Timestamp].
    rewrite F1, F2, F3. split; [done|]. exists r3. split; [by rewrite <- !app_assoc|].
    by rewrite (proj2 (Z.leb_gt _ _) Hlt).
Qed.

Lemma enc_field_cut m x : len m = MaxKeyLength -> enc_field (m ++ x) = enc_field m.
Proof.
  intros Hm. unfold enc_field.
  assert (forall l, SanitizeKeyLen l = Z.min l MaxKeyLength) as HS
    by (intros l; unfold SanitizeKeyLen; destruct (Z.ltb_spec MaxKeyLength l); lia).
  rewrite !HS, len_app, Hm. pose proof (len_nonneg x). rewrite !Z.min_r by lia. f_equal.
  apply take_app_le. unfold len in Hm. lia.
Qed.



(** The buffer routine implements the documented layout. For every key, cut fields
    included, [EncodeKey] returns the concatenation of the three length-prefixed fields and
    the sortable TimeUUID as the entry key, and the same without the TimeUUID as the row key;
    the bytes it copies past a cut field never survive. *)
Theorem EncodeKey_implements_layout (k : Key) : EncodeKey k = (enc_key k, enc_row k).
Proof. apply EncodeKey_layout. Qed.

(** Decoding is sound on arbitrary bytes. Whatever bytes [DecodeKey] accepts, the key it
    returns has fields that fit, its row encoding is exactly the front of those bytes, and a
    TimeUUID is read exactly when at least 16 bytes are left. *)
Theorem DecodeKey_sound (b : bytes) (k : Key) :
  DecodeKey b = Ret k ->
  key_fits k = true /\ exists rest, b = enc_row k ++ rest /\
    Timestamp k = (if SizeOfUUID <=? len rest then Some (unmarshal_sortable rest) else None).
Proof. apply DecodeKey_sound_lemma. Qed.

(** [DecodeKey] checks the total length and the end of each field but not that two bytes
    are left for the next length: on bytes that end right after a well-formed first field of
    four bytes or more it panics instead of returning [ErrorIndexOutOfBounds]. *)
Theorem DecodeKey_panics_on_truncated (f : bytes) :
  fits f = true -> 4 <= len f -> DecodeKey (enc_field f) = Panic.
Proof.
  intros Hf Hl. unfold DecodeKey. rewrite len_enc_field, (sanitize_fits f Hf).
  destruct (Z.ltb_spec (2 + len f) 6); [lia|].
  pose proof (get_field_enc [] f [] Hf) as G. rewrite !app_nil_l, app_nil_r in G.
  change (len (@nil byte)) with 0 in G. rewrite G. cbn [mbind outcome_bind].
  unfold get_field, Uint16At.
  replace (Z.to_nat (len (enc_field f))) with (length (enc_field f)) by (unfold len; lia).
  by rewrite drop_all.
Qed.

(** Tenants whose names exceed the 16-bit limit share physical keys. A tenant name of
    65535 bytes and any extension of it are encoded identically, although the scope the
    authorization guard checks ([scopeOf]) is the uncut name. *)
Theorem EncodeKey_cuts_long_tenant (m x rg mi : bytes) (ts : option TimeUUID) :
  len m = MaxKeyLength ->
  EncodeKey {| MajorKey := m ++ x; RegionName := rg; MinorKey := mi; Timestamp := ts |} =
  EncodeKey {| MajorKey := m; RegionName := rg; MinorKey := mi; Timestamp := ts |}.
Proof.
  intros Hm. rewrite !EncodeKey_layout. unfold enc_key, enc_row, enc_ts.
  cbn [MajorKey RegionName MinorKey Timestamp]. by rewrite enc_field_cut.
Qed.

End Properties.

(** [Equal] is equality of keys: it answers true exactly for keys with the same fields and
    the same TimeUUID, a missing TimeUUID included. *)
Theorem Equal_decides_equality (a b : Key) : Equal a b = true <-> a = b.
Proof.
  unfold Equal. destruct a as [m1 r1 i1 t1], b as [m2 r2 i2 t2]; simpl.
  repeat (case_bool_decide; simpl; [subst|split; congruence]).
  destruct t1 as [[a1 b1]|], t2 as [[a2 b2]|]; simpl; try (split; congruence).
  destruct (Z.eqb_spec a1 a2), (Z.eqb_spec b1 b2); simpl; split; congruence.
Qed.

(** ** Witnesses: the properties on concrete keys, with [flat_uuid] *)

Definition demo_key : Key := {|
  MajorKey := str "acme"; RegionName := str "USERS"; MinorKey := str "alice";
  Timestamp := Some {| MostSigBits := 7; LeastSigBits := -3 |}
|}.



Lemma EncodeKey_implements_layout_witness :
  @EncodeKey flat_uuid demo_key = (@enc_key flat_uuid demo_key, enc_row demo_key).
Proof. exact (@EncodeKey_implements_layout flat_uuid flat_uuid_laws demo_key). Defined.

Lemma DecodeKey_sound_witness :
  key_fits demo_key = true /\ exists rest, fst (@EncodeKey flat_uuid demo_key) = enc_row demo_key ++ rest /\
    Timestamp demo_key =
      (if SizeOfUUID <=? len rest then Some (@unmarshal_sortable flat_uuid rest) else None).
Proof. apply (@DecodeKey_sound flat_uuid). vm_compute. reflexivity. Defined.

Lemma DecodeKey_panics_on_truncated_witness :
  @DecodeKey flat_uuid [x00; x04; x61; x62; x63; x64] = Panic.
Proof. exact (@DecodeKey_panics_on_truncated flat_uuid (str "abcd") eq_refl ltac:(vm_compute; congruence)). Defined.

Lemma EncodeKey_cuts_long_tenant_witness :
  @EncodeKey flat_uuid {| MajorKey := replicate (Z.to_nat 65535) x61 ++ str "evil"; RegionName := []; MinorKey := []; Timestamp := None |} =
  @EncodeKey flat_uuid {| MajorKey := replicate (Z.to_nat 65535) x61; RegionName := []; MinorKey := []; Timestamp := None |}.
Proof.
  apply (@EncodeKey_cuts_long_tenant flat_uuid flat_uuid_laws). unfold len.
  rewrite length_replicate. apply Z2Nat.id. unfold MaxKeyLength. lia.
Defined.
