(* ===== verification/Engine.v ===== *)
(** * The interfaces the storage is written against

    [pkg/server/storage.go] runs on two packages that are not part of the repository: the
    badger engine ([github.com/dgraph-io/badger/v4]) and the value envelope and watch hub of
    [go.arpabet.com/store]. Both are class parameters here: the operations the code calls, and,
    separately, the documented behaviour it relies on. The in-memory instances at the end show
    that the laws can hold and let the definitions be evaluated. *)

From S2P Require Import Prelude Pb.

(** ** badger *)

(** [badger.Entry]. *)
Record Entry : Type := { ent_Key : bytes; ent_Value : bytes; ent_UserMeta : Z (* byte *) }.

(** The part of [badger.IteratorOptions] that selects items; [AllVersions] is always false and
    the prefetch settings only affect speed. *)
Record IteratorOptions : Type := { it_Reverse : bool; it_Prefix : bytes }.

(** [txn.Get]: an item, [badger.ErrKeyNotFound], or another error. *)
Inductive GetResult (I : Type) : Type := Found (item : I) | NotFound | GetErr (e : error).
Arguments Found {I} item.
Arguments NotFound {I}.
Arguments GetErr {I} e.

(** The value bytes and user metadata stored under one key. *)
Abbreviation stored := (bytes * Z)%type.

(** The operations of the engine that the code calls. [txn_Iterate] is a new iterator that is
    sought to a key ([Some], [iter.Seek]) or rewound ([None], [iter.Rewind]) and read to its
    end: the items for which [iter.Valid()] holds, in iteration order. *)
Class Badger : Type := {
  DB : Type;
  Txn : Type;
  Item : Type;
  NewTransaction : DB -> bool -> Txn;
  txn_Get : Txn -> bytes -> GetResult Item;
  txn_SetEntry : Txn -> Entry -> result Txn;
  txn_Delete : Txn -> bytes -> result Txn;
  txn_Commit : DB -> Txn -> result DB;
  txn_Iterate : Txn -> IteratorOptions -> option bytes -> list Item;
  item_Key : Item -> bytes;
  item_ValueCopy : Item -> result bytes;
  item_UserMeta : Item -> Z;
  item_EstimatedSize : Item -> Z;
  db_Backup : DB -> Z -> result (bytes * Z);
  db_Load : DB -> bytes -> result unit * DB
}.

(** Iteration order and selection, as badger documents them: the keys with the prefix, at or
    after the seek key in the direction of the iterator, in (reverse) byte order. *)
Definition seek_ok (rev : bool) (seek : option bytes) (k : bytes) : bool :=
  match seek with
  | None => true
  | Some s => if rev then bool_decide (bytes_le k s) else bool_decide (bytes_le s k)
  end.

Definition key_rel (rev : bool) (a b : bytes * stored) : Prop :=
  if rev then bytes_le (fst b) (fst a) else bytes_le (fst a) (fst b).

#[global] Instance key_rel_dec rev : RelDecision (key_rel rev).
Proof. intros a b. unfold key_rel. destruct rev; apply _. Defined.

Definition scan_view (m : gmap bytes stored) (o : IteratorOptions) (seek : option bytes) :
    list (bytes * stored) :=
  merge_sort (key_rel (it_Reverse o))
    (filter (fun kv => HasPrefix (fst kv) (it_Prefix o) && seek_ok (it_Reverse o) seek (fst kv) = true)
       (map_to_list m)).

(** The documented behaviour: a transaction reads the contents the database had when it
    began, with its own writes; committing one that began on the current contents installs
    its view; every operation may instead fail, and then returns no new state. *)
Class BadgerSpec `{Badger} : Type := {
  db_view : DB -> gmap bytes stored;
  txn_view : Txn -> gmap bytes stored;
  txn_base : Txn -> DB;
  item_val : Item -> bytes;
  begin_spec : forall db u,
    txn_view (NewTransaction db u) = db_view db /\ txn_base (NewTransaction db u) = db;
  get_spec : forall t k,
    match txn_Get t k with
    | Found it => txn_view t !! k = Some (item_val it, item_UserMeta it)
    | NotFound => txn_view t !! k = None
    | GetErr _ => True
    end;
  value_spec : forall it,
    match item_ValueCopy it with Ret d => d = item_val it | Fail _ => True | Panic => False end;
  set_spec : forall t e,
    match txn_SetEntry t e with
    | Ret t' => txn_view t' = <[ent_Key e := (ent_Value e, ent_UserMeta e)]> (txn_view t) /\
                txn_base t' = txn_base t
    | Fail _ => True
    | Panic => False
    end;
  delete_spec : forall t k,
    match txn_Delete t k with
    | Ret t' => txn_view t' = delete k (txn_view t) /\ txn_base t' = txn_base t
    | Fail _ => True
    | Panic => False
    end;
  commit_spec : forall t,
    match txn_Commit (txn_base t) t with
    | Ret db' => db_view db' = txn_view t
    | Fail _ => True
    | Panic => False
    end;
  iterate_spec : forall t o s,
    ((fun it => (item_Key it, (item_val it, item_UserMeta it))) <$> txn_Iterate t o s)
    = scan_view (txn_view t) o s;
  backup_load_spec : forall db empty dump v db',
    db_view empty = ∅ -> db_Backup db 0 = Ret (dump, v) -> db_Load empty dump = (Ret tt, db') ->
    db_view db' = db_view db
}.

(** An engine on which no operation fails: no I/O error, no size limit is hit. *)
Class BadgerReliable `{BadgerSpec} : Prop := {
  get_reliable : forall t k e, txn_Get t k <> GetErr e;
  value_reliable : forall it e, item_ValueCopy it <> Fail e;
  set_reliable : forall t en e, txn_SetEntry t en <> Fail e;
  delete_reliable : forall t k e, txn_Delete t k <> Fail e;
  commit_reliable : forall t e, txn_Commit (txn_base t) t <> Fail e
}.

(** ** [go.arpabet.com/store] *)

(** The value envelope [version | expiresAt | value] and its clock functions. [time.Now()] is
    the first argument of the two functions that read it; the fourth result of
    [DecodeEnvelope] is never used by the code and is left out. *)
Class StorePkg : Type := {
  EncodeEnvelope : Z -> Z -> bytes -> bytes;
  DecodeEnvelope : bytes -> Z * Z * bytes;
  IsExpired : Z -> Z -> bool;
  ExpiryFromTtl : Z -> Z -> Z
}.

Class StoreLaws `{StorePkg} : Prop := {
  envelope_roundtrip : forall v e x,
    is_int64 v -> is_int64 e -> DecodeEnvelope (EncodeEnvelope v e x) = (v, e, x);
  no_expiry : forall now, IsExpired now 0 = false;
  expired_stays : forall now now' e, now <= now' -> IsExpired now e = true -> IsExpired now' e = true;
  expiry_from_ttl : forall now ttl,
    0 < ttl -> ExpiryFromTtl now ttl <> 0 /\ is_int64 (ExpiryFromTtl now ttl)
}.

(** The event type of the hub ([store.WatchEvent]). *)
Inductive WatchEventType : Type := WatchSet | WatchDelete.

Record HubEvent : Type := {
  he_Key : bytes;
  he_Value : bytes;
  he_Type : WatchEventType;
  he_Version : Z (* int64 *)
}.

#[global] Instance WatchEventType_eq_dec : EqDecision WatchEventType.
Proof. solve_decision. Defined.

#[global] Instance HubEvent_eq_dec : EqDecision HubEvent.
Proof. solve_decision. Defined.

(** ** Lemmas on iteration *)

#[global] Instance key_rel_total rev : Total (key_rel rev).
Proof. intros a b. unfold key_rel. destruct rev; apply (total bytes_le). Qed.

#[global] Instance key_rel_trans rev : Transitive (key_rel rev).
Proof. intros a b c. unfold key_rel. destruct rev; intros; by etrans. Qed.

Lemma elem_of_scan_view m o s k v :
  (k, v) ∈ scan_view m o s <->
  m !! k = Some v /\ it_Prefix o `prefix_of` k /\ seek_ok (it_Reverse o) s k = true.
Proof.
  unfold scan_view. rewrite merge_sort_Permutation, list_elem_of_filter, elem_of_map_to_list. simpl.
  rewrite andb_true_iff, HasPrefix_spec. tauto.
Qed.

Lemma scan_view_sorted m o s : StronglySorted (key_rel (it_Reverse o)) (scan_view m o s).
Proof. apply StronglySorted_merge_sort; apply _. Qed.

Lemma scan_view_nodup m o s : NoDup (fst <$> scan_view m o s).
Proof.
  unfold scan_view. rewrite merge_sort_Permutation.
  apply NoDup_fmap_fst.
  - intros k v1 v2. rewrite !list_elem_of_filter, !elem_of_map_to_list. intros [_ H1] [_ H2]. congruence.
  - apply NoDup_filter, NoDup_map_to_list.
Qed.

(** ** In-memory instances *)

Record MemTxn : Type := { mt_base : gmap bytes stored; mt_view : gmap bytes stored }.

(** A number as bytes, eight binary digits each, closed by a marker digit; a backup is the
    map's number. *)
Fixpoint pos_bits (p : positive) : list bool :=
  match p with xI q => true :: pos_bits q | xO q => false :: pos_bits q | xH => [] end.

Fixpoint bits_pos (l : list bool) : positive :=
  match l with [] => xH | true :: r => xI (bits_pos r) | false :: r => xO (bits_pos r) end.

Definition byte8 (l : list bool) : byte :=
  let at_ i := nth i l false in
  Byte.of_bits (at_ 0%nat, (at_ 1%nat, (at_ 2%nat, (at_ 3%nat, (at_ 4%nat, (at_ 5%nat, (at_ 6%nat, at_ 7%nat))))))).

Fixpoint bits_bytes (l : list bool) : bytes :=
  match l with
  | b0 :: b1 :: b2 :: b3 :: b4 :: b5 :: b6 :: b7 :: r => byte8 [b0; b1; b2; b3; b4; b5; b6; b7] :: bits_bytes r
  | short => [byte8 (short ++ [true])]
  end.

Fixpoint bytes_bits (b : bytes) : list bool :=
  match b with
  | [] => []
  | x :: r =>
      let '(b0, (b1, (b2, (b3, (b4, (b5, (b6, b7))))))) := Byte.to_bits x in
      b0 :: b1 :: b2 :: b3 :: b4 :: b5 :: b6 :: b7 :: bytes_bits r
  end.

(** The digits before the last one set. *)
Fixpoint unmark (l : list bool) : option (list bool) :=
  match l with
  | [] => None
  | b :: r =>
      match unmark r with
      | Some x => Some (b :: x)
      | None => if b then Some [] else None
      end
  end.

Definition pos_bytes (p : positive) : bytes := bits_bytes (pos_bits p).

Definition bytes_pos (b : bytes) : positive := bits_pos (default [] (unmark (bytes_bits b))).

Lemma unmark_bits_bytes n l : (length l <= n)%nat -> unmark (bytes_bits (bits_bytes l)) = Some l.
Proof.
  revert l. induction n as [|n IH]; intros l Hl; [destruct l; [by vm_compute|cbn in Hl; lia]|].
  destruct l as [|b0 [|b1 [|b2 [|b3 [|b4 [|b5 [|b6 [|b7 l]]]]]]]];
    cbn [bits_bytes bytes_bits]; unfold byte8; cbn [nth app]; rewrite Byte.to_bits_of_bits; cbn [unmark];
    [done..|].
  rewrite IH; [done|]. cbn in Hl. lia.
Qed.

Lemma bytes_pos_bytes p : bytes_pos (pos_bytes p) = p.
Proof.
  unfold bytes_pos, pos_bytes. rewrite (unmark_bits_bytes (length (pos_bits p))) by done.
  cbn [default from_option id]. induction p as [p IH|p IH|]; cbn [pos_bits bits_pos]; congruence.
Qed.

Lemma pos_bytes_nonempty p : 0 < len (pos_bytes p).
Proof.
  unfold pos_bytes.
  destruct (pos_bits p) as [|b0 [|b1 [|b2 [|b3 [|b4 [|b5 [|b6 [|b7 l]]]]]]]]; cbn [bits_bytes];
    rewrite len_cons; match goal with |- context [len ?x] => pose proof (len_nonneg x) end; lia.
Qed.

Definition mem_badger : Badger := {|
  DB := gmap bytes stored;
  Txn := MemTxn;
  Item := bytes * stored;
  NewTransaction := fun db _ => {| mt_base := db; mt_view := db |};
  txn_Get := fun t k =>
    match mt_view t !! k with Some v => Found (k, v) | None => NotFound end;
  txn_SetEntry := fun t e =>
    Ret {| mt_base := mt_base t;
           mt_view := <[ent_Key e := (ent_Value e, ent_UserMeta e)]> (mt_view t) |};
  txn_Delete := fun t k => Ret {| mt_base := mt_base t; mt_view := delete k (mt_view t) |};
  txn_Commit := fun _ t => Ret (mt_view t);
  txn_Iterate := fun t o s => scan_view (mt_view t) o s;
  item_Key := fun it => fst it;
  item_ValueCopy := fun it => Ret (fst (snd it));
  item_UserMeta := fun it => snd (snd it);
  item_EstimatedSize := fun it => len (fst it) + len (fst (snd it));
  db_Backup := fun db _ => Ret (pos_bytes (encode db), 0);
  db_Load := fun db dump =>
    match decode (bytes_pos dump) with Some m => (Ret tt, m ∪ db) | None => (Fail (ErrEngine 1), db) end
|}.

Lemma mem_iterate_id (l : list (bytes * stored)) :
  (fun it : bytes * stored => (it.1, (it.2.1, it.2.2))) <$> l = l.
Proof. induction l as [|[k [v m]] l IH]; [done|]. simpl. by f_equal. Qed.

Program Definition mem_spec : @BadgerSpec mem_badger := {|
  db_view := fun db : gmap bytes stored => db;
  txn_view := mt_view;
  txn_base := mt_base;
  item_val := fun it : bytes * stored => fst (snd it)
|}.
Next Obligation. done. Qed.
Next Obligation. intros t k. simpl. by destruct (mt_view t !! k) as [[? ?]|]. Qed.
Next Obligation. done. Qed.
Next Obligation. done. Qed.
Next Obligation. done. Qed.
Next Obligation. done. Qed.
Next Obligation. intros t o s. apply mem_iterate_id. Qed.
Next Obligation.
  simpl. intros db empty dump v db' He [= <- <-]. rewrite He, bytes_pos_bytes, decode_encode.
  intros [= <-]. by rewrite (right_id_L ∅ (∪)).
Qed.

Lemma mem_reliable : @BadgerReliable mem_badger mem_spec.
Proof. split; simpl; intros; try done. by destruct (mt_view t !! k) as [[? ?]|]. Qed.

(** The 17-byte header (one format byte, version, expiry) followed by the value. *)
Definition flat_store : StorePkg := {|
  EncodeEnvelope := fun v e x => x01 :: be_put 8 (wrap64 v) ++ be_put 8 (wrap64 e) ++ x;
  DecodeEnvelope := fun b =>
    if len b <? 17 then (0, 0, b)
    else (int64 (be_get (take 8 (drop 1 b))), int64 (be_get (take 8 (drop 9 b))), drop 17 b);
  IsExpired := fun now e => (0 <? e) && (e <=? now);
  ExpiryFromTtl := fun now ttl => let e := int64 (now + ttl) in if e =? 0 then 1 else e
|}.

Lemma flat_store_laws : @StoreLaws flat_store.
Proof.
  split.
  - intros v e x Hv He. cbn [EncodeEnvelope DecodeEnvelope flat_store].
    rewrite len_cons, !len_app. unfold len at 1 2. rewrite !length_be_put.
    pose proof (len_nonneg x). destruct (Z.ltb_spec (1 + (Z.of_nat 8 + (Z.of_nat 8 + len x))) 17); [lia|].
    set (rest := be_put 8 (wrap64 v) ++ be_put 8 (wrap64 e) ++ x).
    change (drop 1 (x01 :: rest)) with rest. change (drop 9 (x01 :: rest)) with (drop (8 + 0) rest).
    change (drop 17 (x01 :: rest)) with (drop (8 + 8) rest). subst rest.
    rewrite take_app_length' by (by rewrite length_be_put).
    assert (forall n, drop (8 + n) (be_put 8 (wrap64 v) ++ be_put 8 (wrap64 e) ++ x)
              = drop n (be_put 8 (wrap64 e) ++ x)) as Hd.
    { intros n. rewrite <- drop_drop. by rewrite drop_app_length' by (by rewrite length_be_put). }
    rewrite (Hd 0%nat), (Hd 8%nat), drop_0, take_app_length', drop_app_length'
      by (by rewrite length_be_put).
    rewrite !be_get_put_small by (apply wrap64_range). by rewrite !int64_wrap64.
  - intros now. simpl. done.
  - intros now now' e Hn. cbn [IsExpired flat_store].
    destruct (Z.ltb_spec 0 e), (Z.leb_spec e now), (Z.leb_spec e now'); cbn; done || lia.
  - intros now ttl _. cbn [ExpiryFromTtl flat_store]. pose proof (int64_range (now + ttl)).
    destruct (Z.eqb_spec (int64 (now + ttl)) 0); [|done]. split; [done|]. unfold is_int64. lia.
Qed.
