(* ===== verification/Storage.v ===== *)
(** * The key-value storage ([pkg/server/storage.go])

    Every operation of [KeyValueStorageCtx], over the engine and envelope interfaces of
    [Engine] and the key encoding of [Keys]. The state is the database and the events handed
    to the watch hub; each operation takes the wall clock ([now], unix seconds) the code reads
    through the envelope package. Log lines are left out. *)

From S2P Require Import Prelude Pb Keys Engine.

Section Ops.
Context `{UuidPkg} `{Badger} `{StorePkg}.

(** ** State *)

(** [hub = None] is the nil hub; otherwise the events passed to [hub.Notify], oldest first. *)
Record KeyValueStorageCtx : Type := { db : DB; hub : option (list HubEvent) }.

Definition with_db (st : KeyValueStorageCtx) (d : DB) : KeyValueStorageCtx :=
  {| db := d; hub := hub st |}.

Definition notify (st : KeyValueStorageCtx) (key value : bytes) (t : WatchEventType)
    (version : Z) : KeyValueStorageCtx :=
  match hub st with
  | None => st
  | Some evs =>
      {| db := db st;
         hub := Some (evs ++ [{| he_Key := key; he_Value := value; he_Type := t;
                                 he_Version := version |}]) |}
  end.

(** A write method's body computes its answer and the state after it; when it returns an error
    (or panics) the deferred [txn.Discard] leaves the state as it was. *)
Definition exec {A} (st : KeyValueStorageCtx) (body : result (A * KeyValueStorageCtx)) :
    result A * KeyValueStorageCtx :=
  match body with
  | Ret (a, st') => (Ret a, st')
  | Fail e => (Fail e, st)
  | Panic => (Panic, st)
  end.

(** [if err != nil { return ..., xerrors.Errorf("msg: %v", err) }]. *)
Definition wrap_err {A} (msg : string) (r : result A) : result A :=
  match r with Fail e => Fail (ErrWrap (str msg) e) | r => r end.

Definition need_key (k : option Key) : result Key :=
  match k with Some key => Ret key | None => Fail ErrorEmptyKey end.

(** ** Reading one item *)

Definition FetchRecord (now : Z) (key : option Key) (item : Item) (headOnly : bool) : result Rec :=
  data ← wrap_err "fetch value failed" (item_ValueCopy item);
  let '(version, expiresAt, value) := DecodeEnvelope data in
  if IsExpired now expiresAt then Ret (RecordNotFound key) else
  let diskSize := item_EstimatedSize item in
  let meta := item_UserMeta item in
  if headOnly then Ret (RecordHead key (wrap64 version) (wrap64 expiresAt) diskSize meta)
  else Ret (RecordValue key (wrap64 version) (wrap64 expiresAt) diskSize meta value).

Definition resolveExpiry (now ttlSeconds expiresAt : Z) : Z :=
  if negb (expiresAt =? 0) then expiresAt else
  if 0 <? ttlSeconds then ExpiryFromTtl now ttlSeconds else 0.

Definition Get (now : Z) (st : KeyValueStorageCtx) (req : KeyRequest) : result Rec :=
  key ← need_key (kr_Key req);
  let '(entryKey, _) := EncodeKey key in
  let txn := NewTransaction (db st) false in
  match txn_Get txn entryKey with
  | NotFound => Ret (RecordNotFound (kr_Key req))
  | GetErr e => Fail e
  | Found item => FetchRecord now (kr_Key req) item (kr_HeadOnly req)
  end.

Definition GetRecent (now : Z) (st : KeyValueStorageCtx) (req : KeyRequest) : result Rec :=
  key ← need_key (kr_Key req);
  let '(entryKey, rowKey) := EncodeKey key in
  let options := {| it_Reverse := true; it_Prefix := rowKey |} in
  let txn := NewTransaction (db st) false in
  match txn_Iterate txn options (Some entryKey) with
  | item :: _ =>
      actualKey ← DecodeKey (item_Key item);
      FetchRecord now (Some actualKey) item (kr_HeadOnly req)
  | [] => Ret (RecordNotFound (kr_Key req))
  end.

(** ** Range reads *)

(** The body shared by the scan loops: an item yields a record, or is skipped because its key
    does not decode, its value cannot be read, or it has expired. A panic in [DecodeKey] is
    not recovered. *)
Inductive Visit : Type := Yield (r : Rec) | Skip | VisitPanic.

Definition visit (now : Z) (headOnly : bool) (item : Item) : Visit :=
  match DecodeKey (item_Key item) with
  | Panic => VisitPanic
  | Fail _ => Skip
  | Ret itemKey =>
      match FetchRecord now (Some itemKey) item headOnly with
      | Panic => VisitPanic
      | Fail _ => Skip
      | Ret record => match rec_Head record with None => Skip | Some _ => Yield record end
      end
  end.

(** [for i := 0; i < size && iter.Valid(); iter.Next()]. *)
Fixpoint range_loop (now : Z) (headOnly : bool) (size : Z) (items : list Item) (i : Z)
    (records : list Rec) : result (list Rec) :=
  match items with
  | [] => Ret records
  | item :: rest =>
      if i <? size then
        match visit now headOnly item with
        | VisitPanic => Panic
        | Skip => range_loop now headOnly size rest i records
        | Yield record => range_loop now headOnly size rest (i + 1) (records ++ [record])
        end
      else Ret records
  end.

Definition GetRange (now : Z) (st : KeyValueStorageCtx) (req : RangeRequest) : result Block :=
  key ← need_key (rg_Key req);
  if negb (rg_Type req =? RangeType_LESS_OR_EQUAL) then Fail ErrorUnsupportedOperation else
  let size := rg_NumRecords req in
  if size <=? 0 then Fail ErrorWrongSize else
  let '(entryKey, rowKey) := EncodeKey key in
  let options := {| it_Reverse := true; it_Prefix := rowKey |} in
  let txn := NewTransaction (db st) false in
  records ← range_loop now (rg_HeadOnly req) size (txn_Iterate txn options (Some entryKey)) 0 [];
  Ret {| blk_Record := records |}.

Definition defBlockSize : Z := 100.

(** [BlockSender]: [Send] may change the sender and may fail. *)
Definition BlockSender (S : Type) : Type := Block -> S -> option error * S.

(** The streaming loop of [GetArea] and [Scan]: a block is sent each time it is full, and the
    remainder at the end; a failed send stops the scan. *)
Fixpoint stream_loop {S} (now : Z) (headOnly : bool) (send : BlockSender S) (items : list Item)
    (records : list Rec) (s : S) : result unit * S :=
  match items with
  | [] =>
      if 0 <? len records then
        match send {| blk_Record := records |} s with
        | (Some e, s') => (Fail e, s')
        | (None, s') => (Ret tt, s')
        end
      else (Ret tt, s)
  | item :: rest =>
      match visit now headOnly item with
      | VisitPanic => (Panic, s)
      | Skip => stream_loop now headOnly send rest records s
      | Yield record =>
          let records := records ++ [record] in
          if len records =? defBlockSize then
            match send {| blk_Record := records |} s with
            | (Some e, s') => (Fail e, s')
            | (None, s') => stream_loop now headOnly send rest [] s'
            end
          else stream_loop now headOnly send rest records s
      end
  end.

Definition GetArea {S} (now : Z) (st : KeyValueStorageCtx) (req : KeyRequest)
    (lastField : Field) (send : BlockSender S) (s : S) : result unit * S :=
  match kr_Key req with
  | None => (Fail ErrorEmptyKey, s)
  | Some key =>
      let txn := NewTransaction (db st) false in
      match EncodeKeyPrefix key lastField with
      | Fail e => (Fail e, s)
      | Panic => (Panic, s)
      | Ret keyPrefix =>
          let options := {| it_Reverse := false; it_Prefix := keyPrefix |} in
          stream_loop now (kr_HeadOnly req) send (txn_Iterate txn options (Some keyPrefix)) [] s
      end
  end.

Definition Scan {S} (now : Z) (st : KeyValueStorageCtx) (req : ScanRequest)
    (send : BlockSender S) (s : S) : result unit * S :=
  let txn := NewTransaction (db st) false in
  let options := {| it_Reverse := false; it_Prefix := [] |} in
  stream_loop now (sc_HeadOnly req) send (txn_Iterate txn options None) [] s.

(** ** Writes *)

Definition Touch (now : Z) (st : KeyValueStorageCtx) (req : RecordRequest) (commitVersion : Z) :
    result Status * KeyValueStorageCtx :=
  exec st (
    key ← need_key (rr_Key req);
    let '(entryKey, _) := EncodeKey key in
    let txn := NewTransaction (db st) true in
    match txn_Get txn entryKey with
    | NotFound => Ret ({| Updated := false |}, st)
    | GetErr e => Fail e
    | Found item =>
        data ← wrap_err "fetch in touch error" (item_ValueCopy item);
        let '(oldVersion, _, value) := DecodeEnvelope data in
        let version := if commitVersion =? 0 then wrap64 (wrap64 oldVersion + 1) else commitVersion in
        let expiresAt := resolveExpiry now (rr_TtlSeconds req) (rr_ExpiresAt req) in
        let envelope := EncodeEnvelope (int64 version) expiresAt value in
        let entry := {| ent_Key := entryKey; ent_Value := envelope;
                        ent_UserMeta := item_UserMeta item |} in
        txn ← wrap_err "update entry error" (txn_SetEntry txn entry);
        db' ← wrap_err "commit touch error" (txn_Commit (db st) txn);
        Ret ({| Updated := true |},
             notify (with_db st db') entryKey value WatchSet (int64 version))
    end).

(** The current envelope version of an entry, and whether the entry exists. *)
Definition current_version (txn : Txn) (entryKey : bytes) : result (bool * Z) :=
  match txn_Get txn entryKey with
  | Found item =>
      data ← wrap_err "read current value error" (item_ValueCopy item);
      let '(v, _, _) := DecodeEnvelope data in
      Ret (true, wrap64 v)
  | NotFound => Ret (false, 0)
  | GetErr e => Fail e
  end.

Definition Put (now : Z) (st : KeyValueStorageCtx) (req : RecordRequest) (commitVersion : Z) :
    result Status * KeyValueStorageCtx :=
  exec st (
    key ← need_key (rr_Key req);
    let '(entryKey, _) := EncodeKey key in
    let txn := NewTransaction (db st) true in
    '(present, oldVersion) ← current_version txn entryKey;
    let rejected :=
      if rr_CompareAndSet req then
        if negb present then negb (rr_Version req =? 0)
        else negb (rr_Version req =? oldVersion)
      else false in
    if rejected then Ret ({| Updated := false |}, st) else
    let version := if commitVersion =? 0 then wrap64 (oldVersion + 1) else commitVersion in
    let expiresAt := resolveExpiry now (rr_TtlSeconds req) (rr_ExpiresAt req) in
    let envelope := EncodeEnvelope (int64 version) expiresAt (rr_Value req) in
    let entry := {| ent_Key := entryKey; ent_Value := envelope;
                    ent_UserMeta := rr_Metadata req mod 256 |} in
    txn ← wrap_err "update entry error" (txn_SetEntry txn entry);
    db' ← wrap_err "commit put error" (txn_Commit (db st) txn);
    Ret ({| Updated := true |},
         notify (with_db st db') entryKey (rr_Value req) WatchSet (int64 version))).

Definition Remove (st : KeyValueStorageCtx) (req : KeyRequest) :
    result Status * KeyValueStorageCtx :=
  exec st (
    key ← need_key (kr_Key req);
    let '(entryKey, _) := EncodeKey key in
    let txn := NewTransaction (db st) true in
    txn ← wrap_err "delete entry error" (txn_Delete txn entryKey);
    db' ← wrap_err "commit remove error" (txn_Commit (db st) txn);
    Ret ({| Updated := true |}, notify (with_db st db') entryKey [] WatchDelete 0)).

(** ** Expiry sweep *)

(** [ctxErr i] is what [ctx.Err()] returns when the scan reaches its [i]-th item. *)
Fixpoint expired_loop (now : Z) (ctxErr : nat -> option error) (limit : Z) (items : list Item)
    (i : nat) (entries : list ReclaimEntry) : list ReclaimEntry * option error :=
  match items with
  | [] => (entries, None)
  | item :: rest =>
      match ctxErr i with
      | Some e => (entries, Some e)
      | None =>
          match item_ValueCopy item with
          | Ret data =>
              let '(version, expiresAt, _) := DecodeEnvelope data in
              if negb (IsExpired now expiresAt) then
                expired_loop now ctxErr limit rest (S i) entries
              else
                let entries := entries ++ [{| re_EntryKey := item_Key item;
                                              re_Version := wrap64 version |}] in
                if (0 <? limit) && (limit <=? len entries) then (entries, None)
                else expired_loop now ctxErr limit rest (S i) entries
          | _ => expired_loop now ctxErr limit rest (S i) entries
          end
      end
  end.

Definition ScanExpired (now : Z) (st : KeyValueStorageCtx) (ctxErr : nat -> option error)
    (limit : Z) : list ReclaimEntry * option error :=
  let txn := NewTransaction (db st) false in
  let options := {| it_Reverse := false; it_Prefix := [] |} in
  expired_loop now ctxErr limit (txn_Iterate txn options None) 0 [].

(** The loop of [Reclaim]: the transaction and the keys deleted so far. *)
Fixpoint reclaim_loop (entries : list ReclaimEntry) (txn : Txn) (deleted : list bytes) :
    result (Txn * list bytes) :=
  match entries with
  | [] => Ret (txn, deleted)
  | e :: rest =>
      match txn_Get txn (re_EntryKey e) with
      | NotFound => reclaim_loop rest txn deleted
      | GetErr err => Fail err
      | Found item =>
          data ← wrap_err "reclaim read value error" (item_ValueCopy item);
          let '(version, _, _) := DecodeEnvelope data in
          if negb (wrap64 version =? re_Version e) then reclaim_loop rest txn deleted
          else
            txn ← wrap_err "reclaim delete error" (txn_Delete txn (re_EntryKey e));
            reclaim_loop rest txn (deleted ++ [re_EntryKey e])
      end
  end.

Definition notify_deleted (st : KeyValueStorageCtx) (deleted : list bytes) : KeyValueStorageCtx :=
  fold_left (fun s key => notify s key [] WatchDelete 0) deleted st.

Definition Reclaim (st : KeyValueStorageCtx) (req : ReclaimRequest) :
    result Z * KeyValueStorageCtx :=
  exec st (
    if len (rc_Entries req) =? 0 then Ret (0, st) else
    let txn := NewTransaction (db st) true in
    '(txn, deleted) ← reclaim_loop (rc_Entries req) txn [];
    if len deleted =? 0 then Ret (0, st) else
    db' ← wrap_err "commit reclaim error" (txn_Commit (db st) txn);
    Ret (len deleted, notify_deleted (with_db st db') deleted)).

(** ** Counters and batches *)

Definition counterFromEnvelope (data : bytes) (fallback : Z) : Z * Z :=
  let '(v, _, val) := DecodeEnvelope data in
  let counter := if 8 <=? len val then int64 (be_get (take 8 val)) else fallback in
  (wrap64 v, counter).

Definition Increment (now : Z) (st : KeyValueStorageCtx) (req : IncrementRequest)
    (commitVersion : Z) : result IncrementResponse * KeyValueStorageCtx :=
  exec st (
    key ← need_key (ir_Key req);
    let '(entryKey, _) := EncodeKey key in
    let txn := NewTransaction (db st) true in
    '(oldVersion, counter) ←
      match txn_Get txn entryKey with
      | Found item =>
          data ← wrap_err "read counter error" (item_ValueCopy item);
          Ret (counterFromEnvelope data (ir_Initial req))
      | NotFound => Ret (0, ir_Initial req)
      | GetErr e => Fail e
      end;
    let prev := counter in
    let counter := int64 (counter + ir_Delta req) in
    let version := if commitVersion =? 0 then wrap64 (oldVersion + 1) else commitVersion in
    let expiresAt := resolveExpiry now (ir_TtlSeconds req) (ir_ExpiresAt req) in
    let buf := be_put 8 (wrap64 counter) in
    let envelope := EncodeEnvelope (int64 version) expiresAt buf in
    let entry := {| ent_Key := entryKey; ent_Value := envelope; ent_UserMeta := 0 |} in
    txn ← wrap_err "update counter error" (txn_SetEntry txn entry);
    db' ← wrap_err "commit increment error" (txn_Commit (db st) txn);
    Ret ({| Previous := prev; Current := counter; ir_Version := version |},
         notify (with_db st db') entryKey buf WatchSet (int64 version))).

(** The version a batched record gets when storage assigns it: the transaction's own pending
    writes are visible, and a value that cannot be read counts as version 0. *)
Definition batch_version (txn : Txn) (entryKey : bytes) (commitVersion : Z) : result Z :=
  if commitVersion =? 0 then
    oldVersion ←
      match txn_Get txn entryKey with
      | Found item =>
          match item_ValueCopy item with
          | Ret data => Ret (fst (counterFromEnvelope data 0))
          | Fail _ => Ret 0
          | Panic => Panic
          end
      | NotFound => Ret 0
      | GetErr e => Fail e
      end;
    Ret (wrap64 (oldVersion + 1))
  else Ret commitVersion.

Record change : Type := { ch_key : bytes; ch_value : bytes; ch_version : Z }.

Fixpoint batch_loop (now : Z) (commitVersion : Z) (records : list RecordRequest) (txn : Txn)
    (pending : list change) : result (Txn * list change) :=
  match records with
  | [] => Ret (txn, pending)
  | record :: rest =>
      key ← need_key (rr_Key record);
      let '(entryKey, _) := EncodeKey key in
      version ← batch_version txn entryKey commitVersion;
      let expiresAt := resolveExpiry now (rr_TtlSeconds record) (rr_ExpiresAt record) in
      let envelope := EncodeEnvelope (int64 version) expiresAt (rr_Value record) in
      let entry := {| ent_Key := entryKey; ent_Value := envelope;
                      ent_UserMeta := rr_Metadata record mod 256 |} in
      txn ← wrap_err "batch set entry error" (txn_SetEntry txn entry);
      batch_loop now commitVersion rest txn
        (pending ++ [{| ch_key := entryKey; ch_value := rr_Value record;
                        ch_version := int64 version |}])
  end.

Definition notify_changes (st : KeyValueStorageCtx) (pending : list change) : KeyValueStorageCtx :=
  fold_left (fun s c => notify s (ch_key c) (ch_value c) WatchSet (ch_version c)) pending st.

Definition SetBatch (now : Z) (st : KeyValueStorageCtx) (req : BatchRequest) (commitVersion : Z) :
    result Status * KeyValueStorageCtx :=
  exec st (
    let txn := NewTransaction (db st) true in
    '(txn, pending) ← batch_loop now commitVersion (br_Records req) txn [];
    db' ← wrap_err "commit batch error" (txn_Commit (db st) txn);
    Ret ({| Updated := true |}, notify_changes (with_db st db') pending)).

(** ** Snapshots *)

Definition Backup (st : KeyValueStorageCtx) (since : Z) : result (bytes * Z) :=
  db_Backup (db st) since.

(** Whatever a failed load wrote stays in the database. *)
Definition Load (st : KeyValueStorageCtx) (dump : bytes) : result unit * KeyValueStorageCtx :=
  let '(r, db') := db_Load (db st) dump in (r, with_db st db').

End Ops.
