(* ===== verification/StorageSpec.v ===== *)
(** * What the storage promises, and that it keeps the promise

    The contract of [KeyValueStorage] as functions on a plain map from entry keys to
    (version, expiry, value, metadata), and the refinement lemmas: over any engine with the
    behaviour of [BadgerSpec], each write operation of [Storage] either computes exactly its
    specification or reports an engine error and changes nothing; an engine that never fails
    leaves only the first case. *)

From S2P Require Import Prelude Pb Keys Engine Storage.

(** ** The abstract store *)

Record entry : Type := {
  e_version : Z;   (* uint64 *)
  e_expires : Z;   (* int64, 0 = never *)
  e_value : bytes;
  e_meta : Z
}.

#[global] Instance entry_eq_dec : EqDecision entry.
Proof. solve_decision. Defined.

Abbreviation model := (gmap bytes entry).

(** An answer, the store after it, and the events it emits. *)
Abbreviation effect A := (result A * model * list HubEvent)%type.

Definition set_event (k v : bytes) (version : Z) : HubEvent :=
  {| he_Key := k; he_Value := v; he_Type := WatchSet; he_Version := int64 version |}.

Definition delete_event (k : bytes) : HubEvent :=
  {| he_Key := k; he_Value := []; he_Type := WatchDelete; he_Version := 0 |}.

Section Spec.
Context `{UuidPkg} `{StorePkg}.

(** The version a write gets: the commit version, or one more than the current one. *)
Definition next_version (commitVersion : Z) (old : option entry) : Z :=
  if commitVersion =? 0 then wrap64 (default 0 (e_version <$> old) + 1) else commitVersion.

Definition cas_matches (old : option entry) (version : Z) : bool :=
  match old with None => version =? 0 | Some e => version =? e_version e end.

Definition put_spec (now : Z) (m : model) (req : RecordRequest) (cv : Z) : effect Status :=
  match rr_Key req with
  | None => (Fail ErrorEmptyKey, m, [])
  | Some key =>
      let k := enc_key key in
      if rr_CompareAndSet req && negb (cas_matches (m !! k) (rr_Version req)) then
        (Ret {| Updated := false |}, m, [])
      else
        let v := next_version cv (m !! k) in
        (Ret {| Updated := true |},
         <[k := {| e_version := v;
                   e_expires := resolveExpiry now (rr_TtlSeconds req) (rr_ExpiresAt req);
                   e_value := rr_Value req;
                   e_meta := rr_Metadata req mod 256 |}]> m,
         [set_event k (rr_Value req) v])
  end.

Definition touch_spec (now : Z) (m : model) (req : RecordRequest) (cv : Z) : effect Status :=
  match rr_Key req with
  | None => (Fail ErrorEmptyKey, m, [])
  | Some key =>
      let k := enc_key key in
      match m !! k with
      | None => (Ret {| Updated := false |}, m, [])
      | Some e =>
          let v := next_version cv (Some e) in
          (Ret {| Updated := true |},
           <[k := {| e_version := v;
                     e_expires := resolveExpiry now (rr_TtlSeconds req) (rr_ExpiresAt req);
                     e_value := e_value e;
                     e_meta := e_meta e |}]> m,
           [set_event k (e_value e) v])
      end
  end.

Definition remove_spec (m : model) (req : KeyRequest) : effect Status :=
  match kr_Key req with
  | None => (Fail ErrorEmptyKey, m, [])
  | Some key =>
      (Ret {| Updated := true |}, delete (enc_key key) m, [delete_event (enc_key key)])
  end.

(** The counter an entry holds: its first eight value bytes, or the initial value. *)
Definition counter_of (initial : Z) (old : option entry) : Z :=
  match old with
  | Some e => if 8 <=? len (e_value e) then int64 (be_get (take 8 (e_value e))) else initial
  | None => initial
  end.

Definition increment_spec (now : Z) (m : model) (req : IncrementRequest) (cv : Z) :
    effect IncrementResponse :=
  match ir_Key req with
  | None => (Fail ErrorEmptyKey, m, [])
  | Some key =>
      let k := enc_key key in
      let prev := counter_of (ir_Initial req) (m !! k) in
      let cur := int64 (prev + ir_Delta req) in
      let v := next_version cv (m !! k) in
      (Ret {| Previous := prev; Current := cur; ir_Version := v |},
       <[k := {| e_version := v;
                 e_expires := resolveExpiry now (ir_TtlSeconds req) (ir_ExpiresAt req);
                 e_value := be_put 8 (wrap64 cur);
                 e_meta := 0 |}]> m,
       [set_event k (be_put 8 (wrap64 cur)) v])
  end.

(** The records of a batch in order, each seeing the ones before it. *)
Fixpoint batch_fold (now cv : Z) (records : list RecordRequest) (m : model) :
    result (model * list HubEvent) :=
  match records with
  | [] => Ret (m, [])
  | r :: rest =>
      key ← need_key (rr_Key r);
      let k := enc_key key in
      let v := next_version cv (m !! k) in
      let e := {| e_version := v;
                  e_expires := resolveExpiry now (rr_TtlSeconds r) (rr_ExpiresAt r);
                  e_value := rr_Value r;
                  e_meta := rr_Metadata r mod 256 |} in
      '(m', evs) ← batch_fold now cv rest (<[k := e]> m);
      Ret (m', set_event k (rr_Value r) v :: evs)
  end.

Definition batch_spec (now : Z) (m : model) (req : BatchRequest) (cv : Z) : effect Status :=
  match batch_fold now cv (br_Records req) m with
  | Ret (m', evs) => (Ret {| Updated := true |}, m', evs)
  | Fail e => (Fail e, m, [])
  | Panic => (Panic, m, [])
  end.

(** The listed entries whose version is still the listed one are removed, once each. *)
Fixpoint reclaim_fold (es : list ReclaimEntry) (m : model) : model * list bytes :=
  match es with
  | [] => (m, [])
  | e :: rest =>
      match m !! re_EntryKey e with
      | Some x =>
          if e_version x =? re_Version e then
            let '(m', d) := reclaim_fold rest (delete (re_EntryKey e) m) in
            (m', re_EntryKey e :: d)
          else reclaim_fold rest m
      | None => reclaim_fold rest m
      end
  end.

Definition reclaim_spec (m : model) (req : ReclaimRequest) : effect Z :=
  let '(m', deleted) := reclaim_fold (rc_Entries req) m in
  (Ret (len deleted), m', delete_event <$> deleted).

End Spec.

(** ** Refinement *)

Section Refine.
Context `{UuidPkg} `{!UuidLaws} `{Badger} `{!BadgerSpec} `{StorePkg} `{!StoreLaws}.

Definition decode_stored (s : stored) : entry :=
  let '(v, e, x) := DecodeEnvelope (fst s) in
  {| e_version := wrap64 v; e_expires := e; e_value := x; e_meta := snd s |}.

(** The abstract contents of a storage. *)
Definition contents (st : KeyValueStorageCtx) : model := decode_stored <$> db_view (db st).

Definition emit (h : option (list HubEvent)) (evs : list HubEvent) : option (list HubEvent) :=
  match h with None => None | Some l => Some (l ++ evs) end.

(** The operation did what the specification says. *)
Definition does {A} (st : KeyValueStorageCtx) (op : result A * KeyValueStorageCtx)
    (sp : effect A) : Prop :=
  fst op = fst (fst sp) /\ contents (snd op) = snd (fst sp) /\ hub (snd op) = emit (hub st) (snd sp).

(** The operation failed in the engine and changed nothing. *)
Definition engine_failed {A} (st : KeyValueStorageCtx) (op : result A * KeyValueStorageCtx) : Prop :=
  ~ BadgerReliable /\ exists e, op = (Fail e, st).

Definition refines {A} (st : KeyValueStorageCtx) (op : result A * KeyValueStorageCtx)
    (sp : effect A) : Prop :=
  does st op sp \/ engine_failed st op.

Lemma refines_reliable {A} st (op : result A * KeyValueStorageCtx) sp :
  BadgerReliable -> refines st op sp -> does st op sp.
Proof. intros HR [Hd|[HN _]]; [done|contradiction]. Qed.

(** The abstract contents a transaction sees. *)
Definition txn_contents (t : Txn) : model := decode_stored <$> txn_view t.

Lemma txn_contents_begin (st : KeyValueStorageCtx) u :
  txn_contents (NewTransaction (db st) u) = contents st.
Proof. unfold txn_contents, contents. by destruct (begin_spec (db st) u) as [-> _]. Qed.

(** Reading an entry inside a transaction. *)
Lemma get_cases (t : Txn) (k : bytes) :
  (txn_Get t k = NotFound /\ txn_contents t !! k = None) \/
  (exists it data, txn_Get t k = Found it /\ item_ValueCopy it = Ret data /\
     txn_contents t !! k = Some (decode_stored (data, item_UserMeta it))) \/
  (~ BadgerReliable /\ ((exists e, txn_Get t k = GetErr e) \/
     (exists it e, txn_Get t k = Found it /\ item_ValueCopy it = Fail e))).
Proof.
  unfold txn_contents. rewrite lookup_fmap. pose proof (get_spec t k) as HG.
  destruct (txn_Get t k) as [it| |e] eqn:E.
  - pose proof (value_spec it) as HV. destruct (item_ValueCopy it) as [d|e|] eqn:EV; [|right; right|done].
    + right; left. exists it, d. subst d. by rewrite HG.
    + split; [|right; by exists it, e]. intros HR. by apply (value_reliable it e).
  - left. by rewrite HG.
  - right; right. split; [|left; by exists e]. intros HR. by apply (get_reliable _ _ _ E).
Qed.

Lemma commit_cases d t :
  txn_base t = d ->
  (exists d', txn_Commit d t = Ret d' /\ db_view d' = txn_view t) \/
  (~ BadgerReliable /\ exists e, txn_Commit d t = Fail e).
Proof.
  intros <-. pose proof (commit_spec t) as HC.
  destruct (txn_Commit (txn_base t) t) as [d'|e|] eqn:E; [left; by exists d'|right|done].
  split; [|by exists e]. intros HR. by apply (commit_reliable _ _ E).
Qed.

Lemma set_cases t en :
  (exists t', txn_SetEntry t en = Ret t' /\ txn_base t' = txn_base t /\
     txn_view t' = <[ent_Key en := (ent_Value en, ent_UserMeta en)]> (txn_view t)) \/
  (~ BadgerReliable /\ exists e, txn_SetEntry t en = Fail e).
Proof.
  pose proof (set_spec t en) as HS.
  destruct (txn_SetEntry t en) as [t'|e|] eqn:E; [left; exists t'; tauto|right|done].
  split; [|by exists e]. intros HR. by apply (set_reliable _ _ _ E).
Qed.

Lemma delete_cases t k :
  (exists t', txn_Delete t k = Ret t' /\ txn_base t' = txn_base t /\ txn_view t' = delete k (txn_view t)) \/
  (~ BadgerReliable /\ exists e, txn_Delete t k = Fail e).
Proof.
  pose proof (delete_spec t k) as HS.
  destruct (txn_Delete t k) as [t'|e|] eqn:E; [left; exists t'; tauto|right|done].
  split; [|by exists e]. intros HR. by apply (delete_reliable _ _ _ E).
Qed.

Lemma resolveExpiry_int64 now ttl e : is_int64 e -> is_int64 (resolveExpiry now ttl e).
Proof.
  unfold resolveExpiry. intros He. destruct (negb (e =? 0)); [done|].
  destruct (Z.ltb_spec 0 ttl); [by apply expiry_from_ttl|]. unfold is_int64. lia.
Qed.

(** What an envelope the code writes decodes to. *)
Lemma decode_written v ex x meta :
  is_uint64 v -> is_int64 ex ->
  decode_stored (EncodeEnvelope (int64 v) ex x, meta) =
  {| e_version := v; e_expires := ex; e_value := x; e_meta := meta |}.
Proof.
  intros Hv Hex. unfold decode_stored. simpl.
  rewrite envelope_roundtrip by (done || apply int64_range).
  by rewrite wrap64_int64, wrap64_small.
Qed.

Lemma next_version_uint64 cv old : is_uint64 cv -> is_uint64 (next_version cv old).
Proof. unfold next_version. destruct (cv =? 0); [intros; apply wrap64_range|done]. Qed.

(** Set one entry in a fresh transaction and commit. *)
Lemma set_commit_cases st en :
  (exists t' d', txn_SetEntry (NewTransaction (db st) true) en = Ret t' /\
     txn_Commit (db st) t' = Ret d' /\
     contents (with_db st d') =
       <[ent_Key en := decode_stored (ent_Value en, ent_UserMeta en)]> (contents st)) \/
  (~ BadgerReliable /\
     ((exists e, txn_SetEntry (NewTransaction (db st) true) en = Fail e) \/
      (exists t' e, txn_SetEntry (NewTransaction (db st) true) en = Ret t' /\
         txn_Commit (db st) t' = Fail e))).
Proof.
  destruct (begin_spec (db st) true) as [Hv Hb].
  destruct (set_cases (NewTransaction (db st) true) en) as [(t' & Es & Eb & Ev)|[HN [e Es]]];
    [|right; split; [done|left; by exists e]].
  destruct (commit_cases (db st) t') as [(d' & Ec & Hd)|[HN [e Ec]]]; [congruence| |].
  - left. exists t', d'. split; [done|]. split; [done|]. unfold contents. simpl.
    by rewrite Hd, Ev, Hv, fmap_insert.
  - right. split; [done|]. right. by exists t', e.
Qed.

Lemma notify_hub st k v t ver :
  hub (notify st k v t ver) =
  emit (hub st) [{| he_Key := k; he_Value := v; he_Type := t; he_Version := ver |}] /\
  db (notify st k v t ver) = db st.
Proof. unfold notify. by destruct (hub st) eqn:E. Qed.

Lemma emit_nil h : emit h [] = h.
Proof. destruct h; simpl; [by rewrite app_nil_r|done]. Qed.

Lemma emit_app h a b : emit (emit h a) b = emit h (a ++ b).
Proof. destruct h; simpl; [by rewrite app_assoc|done]. Qed.

(** The common end of a write: set one entry, commit, notify. *)
Lemma write_refines {A} (st : KeyValueStorageCtx) (a : A) (k x : bytes) (v ex meta : Z) (m1 m2 : string) :
  is_uint64 v -> is_int64 ex ->
  refines st
    (exec st (txn ← wrap_err m1 (txn_SetEntry (NewTransaction (db st) true)
                {| ent_Key := k; ent_Value := EncodeEnvelope (int64 v) ex x; ent_UserMeta := meta |});
              db' ← wrap_err m2 (txn_Commit (db st) txn);
              Ret (a, notify (with_db st db') k x WatchSet (int64 v))))
    (Ret a,
     <[k := {| e_version := v; e_expires := ex; e_value := x; e_meta := meta |}]> (contents st),
     [set_event k x v]).
Proof.
  intros Hv Hex. set (en := {| ent_Key := k; ent_Value := _; ent_UserMeta := meta |}).
  destruct (set_commit_cases st en) as [(t' & d' & Es & Ec & Hc)|[HN [[e Es]|(t' & e & Es & Ec)]]];
    rewrite Es; cbn [wrap_err mbind outcome_bind]; try rewrite Ec; cbn [wrap_err mbind outcome_bind exec].
  - left. destruct (notify_hub (with_db st d') k x WatchSet (int64 v)) as [Hh Hd].
    split; [done|]. split; [|done]. simpl. unfold contents. rewrite Hd. fold (contents (with_db st d')).
    rewrite Hc. unfold en. cbn [ent_Key ent_Value ent_UserMeta]. by rewrite decode_written.
  - right. split; [done|]. by eexists.
  - right. split; [done|]. by eexists.
Qed.

(** A step that changes nothing refines an effect that changes nothing. *)
Lemma unchanged_refines {A} st (r : result A) :
  refines st (r, st) (r, contents st, []).
Proof. left. split; [done|]. split; [done|]. simpl. by rewrite emit_nil. Qed.

(** Case analysis on a read of the current entry: absent, present, or an engine error, which
    is closed. *)
Ltac read_entry st k :=
  let it := fresh "it" in let data := fresh "data" in let Ev := fresh "Ev" in
  let Hs := fresh "Hs" in let HN := fresh "HN" in let e := fresh "e" in let Eg := fresh "Eg" in
  destruct (get_cases (NewTransaction (db st) true) k) as
    [[Eg Hs]|[(it & data & Eg & Ev & Hs)|[HN [[e Eg]|(it & e & Eg & Ev)]]]];
  rewrite Eg; try rewrite txn_contents_begin in Hs;
  [ |rewrite Ev|right; split; [exact HN|by eexists]
    |rewrite Ev; right; split; [exact HN|by eexists] ];
  rewrite Hs; cbn [wrap_err mbind outcome_bind].

(** A write whose arguments are read off the goal. *)
Ltac write_entry :=
  apply write_refines; [first [by apply next_version_uint64|apply wrap64_range|done]
                       |by apply resolveExpiry_int64].

Lemma Put_refines now st req cv :
  is_int64 (rr_ExpiresAt req) -> is_uint64 cv ->
  refines st (Put now st req cv) (put_spec now (contents st) req cv).
Proof.
  intros He Hcv. unfold Put, put_spec.
  destruct (rr_Key req) as [key|]; [|apply unchanged_refines].
  cbn [need_key mbind outcome_bind]. rewrite EncodeKey_layout. cbn iota beta. unfold current_version.
  read_entry st (enc_key key).
  - unfold cas_matches.
    destruct (rr_CompareAndSet req), (rr_Version req =? 0); cbn [negb andb];
      try apply unchanged_refines; change 0 with (default 0 (e_version <$> None)) at 2;
      fold (next_version cv None); write_entry.
  - unfold decode_stored, cas_matches, next_version. cbn [fst snd fmap option_fmap option_map default].
    destruct (DecodeEnvelope data) as [[v x] val].
    cbn [mbind outcome_bind e_version default fmap option_fmap option_map from_option id].
    destruct (rr_CompareAndSet req), (rr_Version req =? wrap64 v); cbn [negb andb];
      try apply unchanged_refines; destruct (cv =? 0); write_entry.
Qed.

Lemma Touch_refines now st req cv :
  is_int64 (rr_ExpiresAt req) -> is_uint64 cv ->
  refines st (Touch now st req cv) (touch_spec now (contents st) req cv).
Proof.
  intros He Hcv. unfold Touch, touch_spec.
  destruct (rr_Key req) as [key|]; [|apply unchanged_refines].
  cbn [need_key mbind outcome_bind]. rewrite EncodeKey_layout. cbn iota beta.
  read_entry st (enc_key key); [apply unchanged_refines|].
  unfold decode_stored, next_version. cbn [fst snd].
  destruct (DecodeEnvelope data) as [[v x] val].
  cbn [mbind outcome_bind e_version e_value e_meta default fmap option_fmap option_map from_option id].
  destruct (cv =? 0); write_entry.
Qed.

Lemma Increment_refines now st req cv :
  is_int64 (ir_ExpiresAt req) -> is_uint64 cv ->
  refines st (Increment now st req cv) (increment_spec now (contents st) req cv).
Proof.
  intros He Hcv. unfold Increment, increment_spec.
  destruct (ir_Key req) as [key|]; [|apply unchanged_refines].
  cbn [need_key mbind outcome_bind]. rewrite EncodeKey_layout. cbn iota beta.
  read_entry st (enc_key key).
  - unfold next_version, counter_of. cbn [default fmap option_fmap option_map from_option id].
    destruct (cv =? 0); write_entry.
  - unfold counterFromEnvelope, decode_stored, next_version, counter_of. cbn [fst snd].
    destruct (DecodeEnvelope data) as [[v x] val].
    cbn [mbind outcome_bind e_version e_value default fmap option_fmap option_map from_option id].
    destruct (cv =? 0); write_entry.
Qed.

Lemma Remove_refines st req :
  refines st (Remove st req) (remove_spec (contents st) req).
Proof.
  unfold Remove, remove_spec. destruct (kr_Key req) as [key|]; [|apply unchanged_refines].
  cbn [need_key mbind outcome_bind]. rewrite EncodeKey_layout. cbn iota beta.
  destruct (begin_spec (db st) true) as [Hv Hb].
  destruct (delete_cases (NewTransaction (db st) true) (enc_key key)) as [(t' & -> & Eb & Ev)|[HN [e ->]]];
    cbn [wrap_err mbind outcome_bind]; [|right; split; [done|by eexists]].
  destruct (commit_cases (db st) t') as [(d' & -> & Hd)|[HN [e ->]]]; [congruence| |];
    cbn [wrap_err mbind outcome_bind exec]; [|right; split; [done|by eexists]].
  left. destruct (notify_hub (with_db st d') (enc_key key) [] WatchDelete 0) as [Hh Hd'].
  split; [done|]. split; [|done]. simpl. unfold contents. rewrite Hd'. simpl.
  by rewrite Hd, Ev, Hv, fmap_delete.
Qed.

(** ** Batches *)

Definition change_event (c : change) : HubEvent :=
  {| he_Key := ch_key c; he_Value := ch_value c; he_Type := WatchSet; he_Version := ch_version c |}.

(** The version of a batched record: as specified, except that without a commit version an
    unreadable value counts as version 0. *)
Lemma batch_version_cases t k cv :
  is_uint64 cv -> cv <> 0 \/ BadgerReliable ->
  batch_version t k cv = Ret (next_version cv (txn_contents t !! k)) \/
  (~ BadgerReliable /\ exists e, batch_version t k cv = Fail e).
Proof.
  intros Hcv Hor. unfold batch_version, next_version.
  destruct (Z.eqb_spec cv 0) as [->|_]; [|by left]. destruct Hor as [|HR]; [done|]. left.
  destruct (get_cases t k) as [[-> ->]|[(it & data & -> & -> & ->)|[HN _]]]; [done| |done].
  unfold counterFromEnvelope, decode_stored. simpl. by destruct (DecodeEnvelope data) as [[v x] val].
Qed.

Lemma batch_loop_refines now cv records t pending :
  is_uint64 cv -> cv <> 0 \/ BadgerReliable ->
  Forall (fun r => is_int64 (rr_ExpiresAt r)) records ->
  (~ BadgerReliable /\ exists e, batch_loop now cv records t pending = Fail e) \/
  match batch_fold now cv records (txn_contents t) with
  | Ret (m', evs) => exists t' more, batch_loop now cv records t pending = Ret (t', pending ++ more) /\
      txn_base t' = txn_base t /\ txn_contents t' = m' /\ change_event <$> more = evs
  | Fail e => batch_loop now cv records t pending = Fail e
  | Panic => False
  end.
Proof.
  intros Hcv Hor. revert t pending.
  induction records as [|r records IH]; intros t pending Hwf.
  { right. exists t, []. by rewrite app_nil_r. }
  inversion Hwf as [|? ? Hr Hrs]; subst. cbn [batch_loop batch_fold].
  destruct (rr_Key r) as [key|]; cbn [need_key mbind outcome_bind]; [|by right].
  rewrite EncodeKey_layout. cbn iota beta.
  destruct (batch_version_cases t (enc_key key) cv Hcv Hor) as [Ebv|[HN [e Ebv]]];
    rewrite Ebv; cbn [mbind outcome_bind]; [|left; split; [done|by eexists]].
  set (v := next_version cv (txn_contents t !! enc_key key)).
  assert (is_uint64 v) as Hv by (by apply next_version_uint64).
  match goal with |- context [txn_SetEntry t ?en] => destruct (set_cases t en) as
    [(t' & Es & Eb & Ev)|[HN [e Es]]] end;
    rewrite Es; cbn [wrap_err mbind outcome_bind]; [|left; split; [done|by eexists]].
  match goal with |- context [batch_loop now cv records t' ?p] => specialize (IH t' p Hrs) end.
  destruct IH as [[HN [e E]]|IH]; [left; split; [done|]; exists e; exact E|right].
  assert (txn_contents t' = <[enc_key key := {| e_version := v;
            e_expires := resolveExpiry now (rr_TtlSeconds r) (rr_ExpiresAt r);
            e_value := rr_Value r; e_meta := rr_Metadata r mod 256 |}]> (txn_contents t)) as <-.
  { unfold txn_contents. rewrite Ev, fmap_insert. cbn [ent_Key ent_Value ent_UserMeta].
    by rewrite decode_written by (done || by apply resolveExpiry_int64). }
  destruct (batch_fold now cv records (txn_contents t')) as [[m' evs]|e|]; cbn [mbind outcome_bind];
    [|done|done].
  destruct IH as (t2 & more & -> & Hb2 & Hm2 & He2).
  eexists t2, (_ :: more). split; [by rewrite <- app_assoc|]. split; [congruence|]. split; [done|].
  rewrite fmap_cons, He2. done.
Qed.

Lemma notify_changes_hub st pending :
  hub (notify_changes st pending) = emit (hub st) (change_event <$> pending) /\
  db (notify_changes st pending) = db st.
Proof.
  revert st. induction pending as [|c l IH]; intros st; simpl; [by rewrite emit_nil|].
  destruct (IH (notify st (ch_key c) (ch_value c) WatchSet (ch_version c))) as [Hh Hd].
  destruct (notify_hub st (ch_key c) (ch_value c) WatchSet (ch_version c)) as [Hh' Hd'].
  unfold notify_changes in *. by rewrite Hh, Hd, Hh', Hd', emit_app.
Qed.

Lemma SetBatch_refines now st req cv :
  is_uint64 cv -> cv <> 0 \/ BadgerReliable ->
  Forall (fun r => is_int64 (rr_ExpiresAt r)) (br_Records req) ->
  refines st (SetBatch now st req cv) (batch_spec now (contents st) req cv).
Proof.
  intros Hcv Hor Hwf. unfold SetBatch, batch_spec.
  destruct (batch_loop_refines now cv (br_Records req) (NewTransaction (db st) true) [] Hcv Hor Hwf)
    as [[HN [e ->]]|HB]; [right; split; [done|by eexists]|].
  rewrite txn_contents_begin in HB.
  destruct (batch_fold now cv (br_Records req) (contents st)) as [[m' evs]|e|]; [|rewrite HB|done].
  - destruct HB as (t' & more & -> & Hb & Hm & He). cbn [mbind outcome_bind app].
    destruct (begin_spec (db st) true) as [Hv0 Hb0].
    destruct (commit_cases (db st) t') as [(d' & -> & Hd)|[HN [e ->]]]; [congruence| |];
      cbn [wrap_err mbind outcome_bind exec]; [|right; split; [done|by eexists]].
    left. destruct (notify_changes_hub (with_db st d') more) as [Hh Hd'].
    split; [done|]. simpl. rewrite Hh, He. split; [|done].
    unfold contents. rewrite Hd'. simpl. by rewrite Hd.
  - apply unchanged_refines.
Qed.

(** ** Reclaim *)

Lemma reclaim_loop_refines es t deleted :
  (~ BadgerReliable /\ exists e, reclaim_loop es t deleted = Fail e) \/
  exists t' more, reclaim_loop es t deleted = Ret (t', deleted ++ more) /\
    txn_base t' = txn_base t /\ reclaim_fold es (txn_contents t) = (txn_contents t', more).
Proof.
  revert t deleted. induction es as [|e es IH]; intros t deleted.
  { right. exists t, []. by rewrite app_nil_r. }
  cbn [reclaim_loop reclaim_fold].
  destruct (get_cases t (re_EntryKey e)) as
    [[-> ->]|[(it & data & -> & Ev & ->)|[HN [[er ->]|(it & er & -> & Ev)]]]].
  - apply IH.
  - rewrite Ev. unfold decode_stored. cbn [wrap_err mbind outcome_bind fst snd].
    destruct (DecodeEnvelope data) as [[v x] val]. cbn [e_version].
    destruct (wrap64 v =? re_Version e); cbn [negb]; [|apply IH].
    destruct (delete_cases t (re_EntryKey e)) as [(t1 & -> & Hb1 & Hv1)|[HN [er ->]]];
      cbn [wrap_err mbind outcome_bind]; [|left; split; [done|by eexists]].
    destruct (IH t1 (deleted ++ [re_EntryKey e])) as [HF|(t' & more & -> & Hb & Hf)]; [by left|].
    right. exists t', (re_EntryKey e :: more). rewrite <- app_assoc. split; [done|].
    split; [congruence|].
    assert (txn_contents t1 = delete (re_EntryKey e) (txn_contents t)) as <-
      by (unfold txn_contents; by rewrite Hv1, fmap_delete).
    by rewrite Hf.
  - left. split; [done|]. by eexists.
  - rewrite Ev. left. split; [done|]. by eexists.
Qed.

Lemma notify_deleted_hub st deleted :
  hub (notify_deleted st deleted) = emit (hub st) (delete_event <$> deleted) /\
  db (notify_deleted st deleted) = db st.
Proof.
  revert st. induction deleted as [|k l IH]; intros st; simpl; [by rewrite emit_nil|].
  destruct (IH (notify st k [] WatchDelete 0)) as [Hh Hd].
  destruct (notify_hub st k [] WatchDelete 0) as [Hh' Hd'].
  unfold notify_deleted in *. by rewrite Hh, Hd, Hh', Hd', emit_app.
Qed.

Lemma reclaim_fold_none es m m' : reclaim_fold es m = (m', []) -> m' = m.
Proof.
  revert m. induction es as [|e es IH]; intros m; simpl; [congruence|].
  destruct (m !! re_EntryKey e) as [x|]; [|apply IH].
  destruct (e_version x =? re_Version e); [|apply IH].
  by destruct (reclaim_fold es (delete (re_EntryKey e) m)).
Qed.

Lemma Reclaim_refines st req :
  refines st (Reclaim st req) (reclaim_spec (contents st) req).
Proof.
  unfold Reclaim, reclaim_spec.
  destruct (Z.eqb_spec (len (rc_Entries req)) 0) as [E|_].
  { destruct (rc_Entries req); [apply unchanged_refines|]. rewrite len_cons in E.
    pose proof (len_nonneg l). lia. }
  destruct (reclaim_loop_refines (rc_Entries req) (NewTransaction (db st) true) [])
    as [[HN [e ->]]|(t' & more & -> & Hb & Hf)]; [right; split; [done|by eexists]|].
  rewrite txn_contents_begin in Hf. rewrite Hf. cbn [mbind outcome_bind app].
  destruct (Z.eqb_spec (len more) 0) as [E|_].
  { destruct more; [|rewrite len_cons in E; pose proof (len_nonneg more); lia].
    apply reclaim_fold_none in Hf. rewrite Hf. apply unchanged_refines. }
  destruct (begin_spec (db st) true) as [Hv0 Hb0].
  destruct (commit_cases (db st) t') as [(d' & -> & Hd)|[HN [e ->]]]; [congruence| |];
    cbn [wrap_err mbind outcome_bind exec]; [|right; split; [done|by eexists]].
  left. destruct (notify_deleted_hub (with_db st d') more) as [Hh Hd'].
  split; [done|]. simpl. rewrite Hh. split; [|done].
  unfold contents, txn_contents. rewrite Hd'. simpl. by rewrite Hd.
Qed.

End Refine.
