(* ===== verification/StorageReads.v ===== *)
(** * Reads and scans of the storage

    What [Get], [GetRecent], [GetRange], [GetArea], [Scan] and [ScanExpired] return, in terms
    of the abstract contents of [StorageSpec], and the invariant that keeps them from
    panicking: every stored key is the encoding of some key. *)

From S2P Require Import Prelude Pb Keys Engine Storage StorageSpec.

(** The blocks [GetArea] and [Scan] send for a list of records, with [acc] already buffered. *)
Fixpoint blocks_of (acc l : list Rec) : list Block :=
  match l with
  | [] => if 0 <? len acc then [{| blk_Record := acc |}] else []
  | r :: l' =>
      let acc := acc ++ [r] in
      if len acc =? defBlockSize then {| blk_Record := acc |} :: blocks_of [] l'
      else blocks_of acc l'
  end.

(** Sending blocks in order until one fails. *)
Fixpoint send_all {S} (send : BlockSender S) (bs : list Block) (s : S) : result unit * S :=
  match bs with
  | [] => (Ret tt, s)
  | b :: rest =>
      match send b s with
      | (Some e, s') => (Fail e, s')
      | (None, s') => send_all send rest s'
      end
  end.

(** A sender that keeps the records ([collectSender] of [pkg/server/vrpc_data.go]). *)
Definition collectSender : BlockSender (list Rec) :=
  fun block records => (None, records ++ blk_Record block).

Section Reads.
Context `{UuidPkg} `{!UuidLaws} `{Badger} `{!BadgerSpec} `{StorePkg} `{!StoreLaws}.

(** ** The record an entry reads as *)

Definition entry_record (key : option Key) (e : entry) (size : Z) (headOnly : bool) : Rec :=
  {| rec_Key := key;
     rec_Head := Some {| hd_Version := e_version e; hd_ExpiresAt := wrap64 (e_expires e);
                         hd_DiskSize := size; hd_Metadata := e_meta e |};
     rec_Value := if headOnly then [] else e_value e |}.

(** [r] shows the entry [e] of [key], with some size on disk. *)
Definition shows (headOnly : bool) (r : Rec) (key : Key) (e : entry) : Prop :=
  exists size, r = entry_record (Some key) e size headOnly.

Definition live (now : Z) (e : entry) : bool := negb (IsExpired now (e_expires e)).

Lemma FetchRecord_spec now key it headOnly data :
  item_ValueCopy it = Ret data ->
  FetchRecord now key it headOnly =
  Ret (let e := decode_stored (data, item_UserMeta it) in
       if live now e then entry_record key e (item_EstimatedSize it) headOnly
       else RecordNotFound key).
Proof.
  intros Hv. unfold FetchRecord. rewrite Hv. unfold decode_stored, live. cbn [wrap_err mbind outcome_bind fst snd].
  destruct (DecodeEnvelope data) as [[v x] val]. cbn [e_expires].
  by destruct (IsExpired now x), headOnly.
Qed.

(** ** Well-formed stores *)

(** Every stored key is the encoding of a key that decodes. *)
Definition keys_wf (m : model) : Prop :=
  forall k e, m !! k = Some e -> exists key, key_ok key = true /\ k = enc_key key.

Definition ts_ok (key : Key) : bool :=
  match Timestamp key with Some ts => uuid_ok ts | None => true end.

(** A key is stored under the encoding of its cut form. *)
Definition cut (f : bytes) : bytes := take (Z.to_nat (SanitizeKeyLen (len f))) f.

Definition cut_key (k : Key) : Key :=
  {| MajorKey := cut (MajorKey k); RegionName := cut (RegionName k); MinorKey := cut (MinorKey k);
     Timestamp := Timestamp k |}.

Lemma len_cut f : len (cut f) = SanitizeKeyLen (len f).
Proof. pose proof (sanitize_len_bounds f). unfold cut, len in *. rewrite length_take. lia. Qed.

Lemma fits_cut f : fits (cut f) = true.
Proof. unfold fits. rewrite len_cut. pose proof (sanitize_len_bounds f). unfold MaxKeyLength. lia. Qed.

Lemma enc_field_cut_id f : enc_field (cut f) = enc_field f.
Proof. rewrite (enc_field_fits _ (fits_cut f)), len_cut. done. Qed.

Lemma cut_fits f : fits f = true -> cut f = f.
Proof. intros Hf. unfold cut. rewrite (sanitize_fits f Hf). apply take_ge. unfold len. lia. Qed.

Lemma enc_key_cut k : enc_key (cut_key k) = enc_key k.
Proof.
  unfold enc_key, enc_row, cut_key, enc_ts. cbn [MajorKey RegionName MinorKey Timestamp].
  by rewrite !enc_field_cut_id.
Qed.

Lemma key_ok_cut k : ts_ok k = true -> key_ok (cut_key k) = true.
Proof.
  unfold key_ok, key_fits, cut_key, ts_ok. cbn [MajorKey RegionName MinorKey Timestamp].
  intros Ht. by rewrite !fits_cut.
Qed.

Lemma keys_wf_insert m key e : ts_ok key = true -> keys_wf m -> keys_wf (<[enc_key key := e]> m).
Proof.
  intros Ht Hwf k x. rewrite lookup_insert. case_decide as E; [|apply Hwf].
  intros _. exists (cut_key key). subst. rewrite enc_key_cut. split; [by apply key_ok_cut|done].
Qed.

Lemma keys_wf_delete m k : keys_wf m -> keys_wf (delete k m).
Proof. intros Hwf k' x. rewrite lookup_delete. case_decide; [done|apply Hwf]. Qed.

(** ** Scans *)

Lemma value_copy_reliable it : BadgerReliable -> item_ValueCopy it = Ret (item_val it).
Proof.
  intros HR. pose proof (value_spec it) as HV. destruct (item_ValueCopy it) as [d|e|] eqn:E; [by subst| |done].
  by destruct (value_reliable it e).
Qed.

Definition item_entry (it : Item) : entry := decode_stored (item_val it, item_UserMeta it).

(** What a scan yields for an item whose key decodes. *)
Lemma visit_spec now headOnly it key :
  BadgerReliable -> DecodeKey (item_Key it) = Ret key ->
  visit now headOnly it =
  if live now (item_entry it)
  then Yield (entry_record (Some key) (item_entry it) (item_EstimatedSize it) headOnly) else Skip.
Proof.
  intros HR Hk. unfold visit. rewrite Hk.
  rewrite (FetchRecord_spec now (Some key) it headOnly _ (value_copy_reliable it HR)).
  cbn zeta. fold (item_entry it). by destruct (live now (item_entry it)).
Qed.

(** The records a scan yields for a list of items. *)
Definition yields (now : Z) (headOnly : bool) (items : list Item) : list Rec :=
  omap (fun it => match visit now headOnly it with Yield r => Some r | _ => None end) items.

Definition no_panic (now : Z) (headOnly : bool) (items : list Item) : Prop :=
  Forall (fun it => visit now headOnly it <> VisitPanic) items.

(** The streaming loop is: filter the items to records, cut them into blocks, send the
    blocks until one fails. *)
Lemma stream_loop_spec {S} now headOnly (send : BlockSender S) items acc s :
  no_panic now headOnly items ->
  stream_loop now headOnly send items acc s =
  send_all send (blocks_of acc (yields now headOnly items)) s.
Proof.
  intros HP. revert acc s. induction items as [|it items IH]; intros acc s; simpl.
  - destruct (0 <? len acc); [|done]. simpl. by destruct (send _ s) as [[e|] s'].
  - inversion HP as [|? ? Hit Hrest]; subst. specialize (IH Hrest).
    unfold yields in *. simpl. destruct (visit now headOnly it); [|apply IH|done].
    simpl. destruct (len (acc ++ [r]) =? defBlockSize); [|apply IH].
    simpl. destruct (send _ s) as [[e|] s']; [done|]. apply IH.
Qed.

Lemma send_all_collect bs s :
  send_all collectSender bs s = (Ret tt, s ++ concat (blk_Record <$> bs)).
Proof.
  revert s. induction bs as [|b bs IH]; intros s; simpl; [by rewrite app_nil_r|].
  by rewrite IH, app_assoc.
Qed.

Lemma concat_blocks_of acc l : concat (blk_Record <$> blocks_of acc l) = acc ++ l.
Proof.
  revert acc. induction l as [|r l IH]; intros acc; simpl.
  - destruct (Z.ltb_spec 0 (len acc)) as [|Hl]; simpl; [done|].
    destruct acc; [done|]. rewrite len_cons in Hl. pose proof (len_nonneg acc). lia.
  - destruct (len (acc ++ [r]) =? defBlockSize); simpl; rewrite IH; by rewrite <- app_assoc.
Qed.

(** The items of a fresh read transaction are the scan of the database view. *)
Lemma iterate_items st o s :
  (fun it => (item_Key it, (item_val it, item_UserMeta it))) <$> txn_Iterate (NewTransaction (db st) false) o s
  = scan_view (db_view (db st)) o s.
Proof. rewrite iterate_spec. by destruct (begin_spec (db st) false) as [-> _]. Qed.

Lemma elem_of_items st o s it :
  it ∈ txn_Iterate (NewTransaction (db st) false) o s ->
  contents st !! item_Key it = Some (item_entry it) /\ it_Prefix o `prefix_of` item_Key it /\
  seek_ok (it_Reverse o) s (item_Key it) = true.
Proof.
  intros Hin. apply (list_elem_of_fmap_2 (fun it => (item_Key it, (item_val it, item_UserMeta it)))) in Hin.
  rewrite iterate_items, elem_of_scan_view in Hin. destruct Hin as (Hl & Hp & Hs).
  split; [|done]. unfold contents. rewrite lookup_fmap, Hl. done.
Qed.

Lemma items_elem_of st o s k e :
  contents st !! k = Some e -> it_Prefix o `prefix_of` k -> seek_ok (it_Reverse o) s k = true ->
  exists it, it ∈ txn_Iterate (NewTransaction (db st) false) o s /\ item_Key it = k /\ item_entry it = e.
Proof.
  unfold contents. rewrite lookup_fmap. intros Hl Hp Hs.
  destruct (db_view (db st) !! k) as [[d m]|] eqn:E; simplify_eq/=.
  assert ((k, (d, m)) ∈ scan_view (db_view (db st)) o s) as Hin by (by apply elem_of_scan_view).
  rewrite <- iterate_items in Hin. apply list_elem_of_fmap in Hin as (it & Hit & Hin).
  exists it. simplify_eq. done.
Qed.

Lemma items_no_panic now headOnly st o s :
  BadgerReliable -> keys_wf (contents st) ->
  no_panic now headOnly (txn_Iterate (NewTransaction (db st) false) o s).
Proof.
  intros HR Hwf. apply Forall_forall. intros it Hin.
  apply elem_of_items in Hin as (Hl & _ & _). destruct (Hwf _ _ Hl) as (key & Hok & Hk).
  rewrite (visit_spec now headOnly it key HR); [by destruct (live now _)|].
  rewrite Hk. by apply DecodeKey_enc.
Qed.

(** The records of a scan: exactly the live entries under the prefix and past the seek key. *)
Lemma elem_of_yields now headOnly st o s r :
  BadgerReliable -> keys_wf (contents st) ->
  r ∈ yields now headOnly (txn_Iterate (NewTransaction (db st) false) o s) ->
  exists key e, key_ok key = true /\ shows headOnly r key e /\
    contents st !! enc_key key = Some e /\ live now e = true /\
    it_Prefix o `prefix_of` enc_key key /\ seek_ok (it_Reverse o) s (enc_key key) = true.
Proof.
  intros HR Hwf Hr. unfold yields in Hr. apply list_elem_of_omap in Hr as (it & Hin & Hv).
  apply elem_of_items in Hin as (Hl & Hp & Hs). destruct (Hwf _ _ Hl) as (key & Hok & Hk).
  rewrite (visit_spec now headOnly it key HR) in Hv by (rewrite Hk; by apply DecodeKey_enc).
  destruct (live now (item_entry it)) eqn:El; simplify_eq.
  exists key, (item_entry it). rewrite <- Hk. repeat split; try done. by exists (item_EstimatedSize it).
Qed.

Lemma yields_elem_of now headOnly st o s key e :
  BadgerReliable -> key_ok key = true ->
  contents st !! enc_key key = Some e -> live now e = true ->
  it_Prefix o `prefix_of` enc_key key -> seek_ok (it_Reverse o) s (enc_key key) = true ->
  exists r, shows headOnly r key e /\
    r ∈ yields now headOnly (txn_Iterate (NewTransaction (db st) false) o s).
Proof.
  intros HR Hok Hl Hlive Hp Hs.
  destruct (items_elem_of st o s _ _ Hl Hp Hs) as (it & Hin & Hk & He).
  exists (entry_record (Some key) e (item_EstimatedSize it) headOnly). split; [by eexists|].
  unfold yields. apply list_elem_of_omap. exists it. split; [done|].
  rewrite (visit_spec now headOnly it key HR) by (rewrite Hk; by apply DecodeKey_enc).
  by rewrite He, Hlive.
Qed.

(** ** Order of a scan *)

(** Strictly before, in the direction of the scan, by entry key. *)
Definition rec_before (rev : bool) (r1 r2 : Rec) : Prop :=
  exists k1 k2, rec_Key r1 = Some k1 /\ rec_Key r2 = Some k2 /\
    bytes_compare (enc_key k1) (enc_key k2) = (if rev then Gt else Lt).

Lemma items_sorted st o s :
  StronglySorted (fun a b => bytes_compare (item_Key a) (item_Key b) = (if it_Reverse o then Gt else Lt))
    (txn_Iterate (NewTransaction (db st) false) o s).
Proof.
  set (f := fun it => (item_Key it, (item_val it, item_UserMeta it))).
  set (l := txn_Iterate (NewTransaction (db st) false) o s).
  assert (StronglySorted (fun x y => bytes_compare x y = (if it_Reverse o then Gt else Lt)) (item_Key <$> l)) as HS.
  { pose proof (scan_view_sorted (db_view (db st)) o s) as Hs.
    pose proof (scan_view_nodup (db_view (db st)) o s) as Hn.
    rewrite <- iterate_items in Hs, Hn. fold f l in Hs, Hn.
    rewrite <- list_fmap_compose in Hn. change (fst ∘ f) with item_Key in Hn.
    apply StronglySorted_fmap_inv in Hs.
    assert (StronglySorted (fun x y => (if it_Reverse o then bytes_le y x else bytes_le x y) /\ x <> y)
              (item_Key <$> l)) as H5.
    { apply StronglySorted_strict; [|done]. clear Hn. induction Hs as [|x l' Hs IH Hx]; simpl; [constructor|].
      constructor; [done|]. apply Forall_fmap. exact Hx. }
    clear Hs Hn. induction H5 as [|x l' Hs IH Hx]; [constructor|]. constructor; [done|].
    eapply Forall_impl; [exact Hx|]. intros y [Hle Hne]. unfold bytes_le in Hle.
    rewrite (bytes_compare_antisym x y) in Hle.
    assert (bytes_compare x y <> Eq) by (by rewrite bytes_compare_eq).
    destruct (it_Reverse o), (bytes_compare x y); simpl in *; congruence. }
  by apply StronglySorted_fmap_inv in HS.
Qed.

Lemma yields_sorted now headOnly st o s :
  BadgerReliable -> keys_wf (contents st) ->
  StronglySorted (rec_before (it_Reverse o))
    (yields now headOnly (txn_Iterate (NewTransaction (db st) false) o s)).
Proof.
  intros HR Hwf. unfold yields. eapply StronglySorted_omap; [apply items_sorted|].
  intros x y a b Hx Hy Hxy Ha Hb.
  apply elem_of_items in Hx as (Hlx & _). apply elem_of_items in Hy as (Hly & _).
  destruct (Hwf _ _ Hlx) as (kx & Hokx & Ekx). destruct (Hwf _ _ Hly) as (ky & Hoky & Eky).
  rewrite (visit_spec now headOnly x kx HR) in Ha by (rewrite Ekx; by apply DecodeKey_enc).
  rewrite (visit_spec now headOnly y ky HR) in Hb by (rewrite Eky; by apply DecodeKey_enc).
  destruct (live now (item_entry x)), (live now (item_entry y)); simplify_eq.
  exists kx, ky. by rewrite <- Ekx, <- Eky.
Qed.

(** ** Bounded range reads *)

Lemma range_loop_spec now headOnly size items i recs :
  no_panic now headOnly items -> i <= size ->
  range_loop now headOnly size items i recs =
  Ret (recs ++ take (Z.to_nat (size - i)) (yields now headOnly items)).
Proof.
  intros HP. revert i recs. induction items as [|it items IH]; intros i recs Hi; simpl.
  { by rewrite take_nil, app_nil_r. }
  inversion HP as [|? ? Hit Hrest]; subst. specialize (IH Hrest).
  destruct (Z.ltb_spec i size) as [Hlt|Hge].
  - unfold yields in *. simpl. destruct (visit now headOnly it); [|by apply IH|done].
    rewrite IH by lia. simpl.
    replace (Z.to_nat (size - i)) with (S (Z.to_nat (size - (i + 1)))) by lia. simpl.
    by rewrite <- app_assoc.
  - replace (size - i) with 0 by lia. by rewrite take_0, app_nil_r.
Qed.

End Reads.
