(* ===== verification/StorageProps.v ===== *)
(** * Properties of the storage

    The contract of [KeyValueStorage] as theorems about the operations of [Storage]:
    refinement of the abstract store, read-your-writes, compare-and-set, batch atomicity,
    counters, the expiry sweep, scans and their order, and the key invariant. *)

From S2P Require Import Prelude Pb Keys Engine Storage StorageSpec StorageReads.

Section Props.
Context `{UuidPkg} `{!UuidLaws} `{Badger} `{!BadgerSpec} `{StorePkg} `{!StoreLaws}.

(** ** Helper lemmas *)

Lemma does_inv {A} st (op : result A * KeyValueStorageCtx) r st' sp :
  op = (r, st') -> does st op sp ->
  r = fst (fst sp) /\ contents st' = snd (fst sp) /\ hub st' = emit (hub st) (snd sp).
Proof. by intros ->. Qed.

(** A successful answer came from the specification. *)
Lemma refines_ret {A} st (op : result A * KeyValueStorageCtx) a st' sp :
  op = (Ret a, st') -> refines st op sp ->
  fst (fst sp) = Ret a /\ contents st' = snd (fst sp) /\ hub st' = emit (hub st) (snd sp).
Proof. intros -> [(E & Ec & Eh)|[_ [e Ef]]]; [by rewrite <- E|done]. Qed.

(** [Get] in terms of the contents. *)
Definition get_spec_rec (now : Z) (m : model) (key : Key) (size : Z) (headOnly : bool) : Rec :=
  match m !! enc_key key with
  | Some e => if live now e then entry_record (Some key) e size headOnly else RecordNotFound (Some key)
  | None => RecordNotFound (Some key)
  end.

Lemma Get_cases now st key headOnly tmo :
  (exists size, Get now st {| kr_Key := Some key; kr_HeadOnly := headOnly; kr_Timeout := tmo |}
     = Ret (get_spec_rec now (contents st) key size headOnly)) \/
  (~ BadgerReliable /\
     exists e, Get now st {| kr_Key := Some key; kr_HeadOnly := headOnly; kr_Timeout := tmo |} = Fail e).
Proof.
  unfold Get, get_spec_rec. cbn [kr_Key kr_HeadOnly need_key mbind outcome_bind].
  rewrite EncodeKey_layout. cbn iota beta.
  destruct (get_cases (NewTransaction (db st) false) (enc_key key)) as
    [[-> Hs]|[(it & data & -> & Ev & Hs)|[HN [[e ->]|(it & e & -> & Ev)]]]].
  - rewrite txn_contents_begin in Hs. rewrite Hs. left. by exists 0.
  - rewrite txn_contents_begin in Hs. rewrite Hs. left. exists (item_EstimatedSize it).
    by rewrite (FetchRecord_spec now (Some key) it headOnly data Ev).
  - right. split; [done|by eexists].
  - right. split; [done|]. unfold FetchRecord. rewrite Ev. by eexists.
Qed.

(** The last record of a batch that writes an entry key. *)
Fixpoint last_write (records : list RecordRequest) (k : bytes) : option RecordRequest :=
  match records with
  | [] => None
  | r :: rest =>
      match last_write rest k with
      | Some x => Some x
      | None =>
          match rr_Key r with
          | Some key => if decide (enc_key key = k) then Some r else None
          | None => None
          end
      end
  end.

(** The entry a batched record is stored as under a commit version. *)
Definition batch_entry (now cv : Z) (r : RecordRequest) : entry :=
  {| e_version := cv; e_expires := resolveExpiry now (rr_TtlSeconds r) (rr_ExpiresAt r);
     e_value := rr_Value r; e_meta := rr_Metadata r mod 256 |}.

Lemma batch_fold_lookup now cv records m m' evs k :
  cv <> 0 -> batch_fold now cv records m = Ret (m', evs) ->
  m' !! k = match last_write records k with
            | Some r => Some (batch_entry now cv r)
            | None => m !! k
            end.
Proof.
  intros Hcv. revert m m' evs. induction records as [|r records IH]; intros m m' evs; simpl; [congruence|].
  destruct (rr_Key r) as [key|]; simpl; [|done].
  unfold next_version. rewrite (proj2 (Z.eqb_neq cv 0)) by done.
  destruct (batch_fold now cv records _) as [[m1 evs1]|e|] eqn:E; simpl; [|done|done].
  intros [= <- <-]. rewrite (IH _ _ _ E). destruct (last_write records k); [done|].
  rewrite lookup_insert. by case_decide.
Qed.

Lemma batch_fold_no_panic now cv records m : batch_fold now cv records m <> Panic.
Proof.
  revert m. induction records as [|x l IH]; intros m; simpl; [done|].
  destruct (rr_Key x); simpl; [|done].
  match goal with |- context [batch_fold now cv l ?m1] => pose proof (IH m1);
    destruct (batch_fold now cv l m1) as [[? ?]|?|] end; done.
Qed.

Lemma batch_fold_error now cv records m e :
  batch_fold now cv records m = Fail e -> e = ErrorEmptyKey.
Proof.
  revert m. induction records as [|r records IH]; intros m; simpl; [done|].
  destruct (rr_Key r) as [key|]; simpl; [|congruence].
  destruct (batch_fold now cv records _) as [[m1 evs1]|e1|] eqn:E; simpl; [done| |done].
  intros [= <-]. by apply (IH _ E).
Qed.

(** A counter entry reads back as the counter it was written for. *)
Lemma counter_of_encoded initial z v ex meta :
  counter_of initial (Some {| e_version := v; e_expires := ex; e_value := be_put 8 (wrap64 z); e_meta := meta |})
  = int64 z.
Proof.
  unfold counter_of. cbn [e_value]. unfold len. rewrite length_be_put. cbn iota.
  rewrite take_ge by (by rewrite length_be_put). rewrite be_get_put_small by (apply wrap64_range).
  apply int64_wrap.
Qed.

(** The entries an expiry sweep lists with their current version. *)
Definition listed (es : list ReclaimEntry) (k : bytes) (e : entry) : bool :=
  bool_decide ({| re_EntryKey := k; re_Version := e_version e |} ∈ es).

Lemma reclaim_fold_lookup es m m' d k :
  reclaim_fold es m = (m', d) ->
  m' !! k = match m !! k with Some e => if listed es k e then None else Some e | None => None end.
Proof.
  unfold listed. revert m m' d. induction es as [|[k0 v0] es IH]; intros m m' d;
    cbn [reclaim_fold re_EntryKey re_Version].
  { intros [= <- _]. destruct (m !! k) as [e|]; [|done]. case_bool_decide as Hin; [|done].
    by apply not_elem_of_nil in Hin. }
  assert (forall e, m !! k = Some e -> {| re_EntryKey := k; re_Version := e_version e |} <>
            {| re_EntryKey := k0; re_Version := v0 |} ->
    bool_decide ({| re_EntryKey := k; re_Version := e_version e |} ∈ {| re_EntryKey := k0; re_Version := v0 |} :: es)
    = bool_decide ({| re_EntryKey := k; re_Version := e_version e |} ∈ es)) as Hskip.
  { intros e _ Hne. apply bool_decide_ext. rewrite elem_of_cons. tauto. }
  destruct (m !! k0) as [x|] eqn:E0.
  - destruct (Z.eqb_spec (e_version x) v0) as [Ev|Ev].
    + destruct (reclaim_fold es (delete k0 m)) as [m1 d1] eqn:Ef. intros [= <- <-].
      rewrite (IH _ _ _ Ef), lookup_delete. case_decide as Hk.
      * subst k0. rewrite E0. rewrite bool_decide_eq_true_2; [done|]. rewrite Ev. by left.
      * destruct (m !! k) as [e|] eqn:Ek; [|done]. rewrite (Hskip e) by congruence. done.
    + intros Hf. rewrite (IH _ _ _ Hf). destruct (m !! k) as [e|] eqn:Ek; [|done].
      rewrite (Hskip e); [done|done|]. intros [= -> Hv]. simplify_eq.
  - intros Hf. rewrite (IH _ _ _ Hf). destruct (m !! k) as [e|] eqn:Ek; [|done].
    rewrite (Hskip e); [done|done|]. intros [= -> Hv]. congruence.
Qed.

Lemma reclaim_fold_size es m m' d :
  reclaim_fold es m = (m', d) -> len d = Z.of_nat (size m) - Z.of_nat (size m').
Proof.
  revert m m' d. induction es as [|[k0 v0] es IH]; intros m m' d; simpl.
  { intros [= <- <-]. change (len (@nil bytes)) with 0. lia. }
  destruct (m !! k0) as [x|] eqn:E0; [|apply IH].
  destruct (e_version x =? v0); [|apply IH].
  destruct (reclaim_fold es (delete k0 m)) as [m1 d1] eqn:Ef. intros [= <- <-].
  rewrite len_cons, (IH _ _ _ Ef).
  rewrite (map_size_delete_Some k0 m) by (by exists x).
  assert (size m <> 0%nat) by (intros ->%map_size_empty_inv; done). lia.
Qed.

(** ** Properties *)


(** Read your writes. After a [Put] that reports [Updated], a [Get] of the same key at a
    moment when the record has not expired returns the value, metadata and expiry written and
    the version the write was given, unless the engine fails. *)
Theorem Put_then_Get (now now' : Z) (st st' : KeyValueStorageCtx) (req : RecordRequest)
    (cv : Z) (key : Key) (tmo : Z) :
  is_uint64 cv -> is_int64 (rr_ExpiresAt req) -> rr_Key req = Some key ->
  Put now st req cv = (Ret {| Updated := true |}, st') ->
  IsExpired now' (resolveExpiry now (rr_TtlSeconds req) (rr_ExpiresAt req)) = false ->
  let read := Get now' st' {| kr_Key := Some key; kr_HeadOnly := false; kr_Timeout := tmo |} in
  (exists size, read = Ret {|
     rec_Key := Some key;
     rec_Head := Some {|
       hd_Version := next_version cv (contents st !! enc_key key);
       hd_ExpiresAt := wrap64 (resolveExpiry now (rr_TtlSeconds req) (rr_ExpiresAt req));
       hd_DiskSize := size;
       hd_Metadata := rr_Metadata req mod 256 |};
     rec_Value := rr_Value req |}) \/
  (~ BadgerReliable /\ exists e, read = Fail e).
Proof.
  intros Hcv Hex Hkey HP Hlive read.
  destruct (refines_ret _ _ _ _ _ HP (Put_refines now st req cv Hex Hcv)) as (Ea & Ec & _).
  unfold put_spec in Ea, Ec. rewrite Hkey in Ea, Ec.
  destruct (rr_CompareAndSet req && _)%bool; simplify_eq/=.
  destruct (Get_cases now' st' key false tmo) as [[size Eg]|HF]; [left; exists size|by right].
  unfold read. rewrite Eg. unfold get_spec_rec. rewrite Ec, lookup_insert_eq.
  unfold live. cbn [e_expires]. by rewrite Hlive.
Qed.

(** Compare-and-set admits one winner. If a CAS [Put] expecting version [v] reports
    [Updated], then a later CAS [Put] on the same key that expects the same [v] reports
    [Updated = false] and leaves contents and events unchanged (or the engine fails), provided
    the winner's commit version is not [v] itself, as log indexes guarantee. *)
Theorem Put_cas_exclusive (now1 now2 : Z) (st st1 : KeyValueStorageCtx)
    (req1 req2 : RecordRequest) (cv1 cv2 : Z) (key : Key) :
  is_uint64 cv1 -> is_uint64 cv2 ->
  is_int64 (rr_ExpiresAt req1) -> is_int64 (rr_ExpiresAt req2) ->
  rr_Key req1 = Some key -> rr_Key req2 = Some key ->
  rr_CompareAndSet req1 = true -> rr_CompareAndSet req2 = true ->
  rr_Version req1 = rr_Version req2 -> is_uint64 (rr_Version req1) -> cv1 <> rr_Version req1 ->
  Put now1 st req1 cv1 = (Ret {| Updated := true |}, st1) ->
  does st1 (Put now2 st1 req2 cv2) (Ret {| Updated := false |}, contents st1, []) \/
  engine_failed st1 (Put now2 st1 req2 cv2).
Proof.
  intros Hcv1 Hcv2 Hex1 Hex2 Hk1 Hk2 Hc1 Hc2 Hver Hu Hne HP.
  destruct (refines_ret _ _ _ _ _ HP (Put_refines now1 st req1 cv1 Hex1 Hcv1)) as (Ea & Ec & _).
  unfold put_spec in Ea, Ec. rewrite Hk1, Hc1 in Ea, Ec. cbn [andb] in Ea, Ec.
  destruct (cas_matches (contents st !! enc_key key) (rr_Version req1)) eqn:Em;
    cbn [negb] in Ea, Ec; [|done]. cbn [fst snd] in Ec.
  pose proof (Put_refines now2 st1 req2 cv2 Hex2 Hcv2) as HR2.
  unfold put_spec in HR2. rewrite Hk2, Hc2 in HR2. cbn [andb] in HR2.
  assert (cas_matches (contents st1 !! enc_key key) (rr_Version req2) = false) as Hno.
  { rewrite Ec, lookup_insert_eq. unfold cas_matches at 1. cbn [e_version].
    rewrite <- Hver. apply Z.eqb_neq. unfold next_version.
    destruct (Z.eqb_spec cv1 0) as [->|]; [|congruence].
    unfold cas_matches in Em. destruct (contents st !! enc_key key) as [e0|]; apply Z.eqb_eq in Em;
      cbn [default fmap option_fmap option_map from_option id]; rewrite Em.
    - rewrite <- Em. unfold wrap64, is_uint64 in *.
      destruct (Z.eq_dec (rr_Version req1) (2 ^ 64 - 1)) as [->|]; [vm_compute; done|].
      rewrite Z.mod_small; lia.
    - vm_compute. done. }
  rewrite Hno in HR2. exact HR2.
Qed.

(** Batches are all or nothing. A [SetBatch] under a commit version either reports
    [Updated] and then every key of the store holds the last batch record written to it, with
    the commit version, or, when no record writes it, what it held before; or it reports an
    error and neither the contents nor the event stream changed. *)
Theorem SetBatch_all_or_nothing (now : Z) (st st' : KeyValueStorageCtx) (req : BatchRequest)
    (cv : Z) (r : result Status) :
  is_uint64 cv -> cv <> 0 -> Forall (fun x => is_int64 (rr_ExpiresAt x)) (br_Records req) ->
  SetBatch now st req cv = (r, st') ->
  (r = Ret {| Updated := true |} /\
   forall k, contents st' !! k =
     match last_write (br_Records req) k with
     | Some x => Some (batch_entry now cv x)
     | None => contents st !! k
     end) \/
  (exists e, r = Fail e /\ contents st' = contents st /\ hub st' = hub st).
Proof.
  intros Hcv Hne Hwf HS.
  destruct (SetBatch_refines now st req cv Hcv (or_introl Hne) Hwf) as [Hd|[_ [e He]]].
  - apply (does_inv _ _ _ _ _ HS) in Hd as (Er & Ec & Eh). unfold batch_spec in Er, Ec, Eh.
    destruct (batch_fold now cv (br_Records req) (contents st)) as [[m' evs]|e|] eqn:Ef; simpl in Er, Ec, Eh.
    + left. split; [done|]. intros k. rewrite Ec. by apply (batch_fold_lookup now cv _ _ _ evs).
    + right. exists e. by rewrite emit_nil in Eh.
    + by apply batch_fold_no_panic in Ef.
  - rewrite HS in He. simplify_eq. right. by exists e.
Qed.

(** Reclaim removes exactly what it was asked to. After a successful [Reclaim] an entry is
    gone exactly when it was listed with the version it still had; every other entry, in
    particular one rewritten since the sweep saw it, is as before, and the count returned is
    the number of entries removed. *)
Theorem Reclaim_exact (st st' : KeyValueStorageCtx) (req : ReclaimRequest) (n : Z) :
  Reclaim st req = (Ret n, st') ->
  (forall k, contents st' !! k =
     match contents st !! k with
     | Some e => if listed (rc_Entries req) k e then None else Some e
     | None => None
     end) /\
  n = Z.of_nat (size (contents st)) - Z.of_nat (size (contents st')).
Proof.
  intros HR. destruct (refines_ret _ _ _ _ _ HR (Reclaim_refines st req)) as (Ea & Ec & _).
  unfold reclaim_spec in Ea, Ec.
  destruct (reclaim_fold (rc_Entries req) (contents st)) as [m' d] eqn:Ef. simpl in Ea, Ec.
  rewrite Ec. split.
  - intros k. by apply (reclaim_fold_lookup _ _ _ d).
  - injection Ea as <-. by apply (reclaim_fold_size (rc_Entries req)).
Qed.

End Props.

(** ** Witnesses: the properties on a concrete store *)

Section Witness.
#[local] Existing Instances flat_uuid flat_uuid_laws mem_badger mem_spec flat_store flat_store_laws.

Definition demo_storage : KeyValueStorageCtx := {| db := ∅; hub := Some [] |}.

Definition demo_record (value : bytes) (ttl : Z) (cas : bool) (version : Z) : RecordRequest := {|
  rr_Key := Some demo_key; rr_Value := value; rr_Metadata := 3; rr_TtlSeconds := ttl;
  rr_CompareAndSet := cas; rr_Version := version; rr_Timeout := 0; rr_ExpiresAt := 0 |}.

Definition demo_increment : IncrementRequest := {|
  ir_Key := Some demo_key; ir_Initial := 10; ir_Delta := 5; ir_TtlSeconds := 0; ir_Timeout := 0;
  ir_ExpiresAt := 0 |}.

Definition demo_get : KeyRequest := {| kr_Key := Some demo_key; kr_HeadOnly := false; kr_Timeout := 0 |}.

Definition demo_batch : BatchRequest := {|
  br_Records := [demo_record (str "a") 0 false 0; demo_record (str "b") 60 false 0]; br_Timeout := 0 |}.

(** The store after one put at log index 7, expiring at 160. *)
Definition demo_stored : KeyValueStorageCtx := snd (Put 100 demo_storage (demo_record (str "v") 60 false 0) 7).


Lemma Put_then_Get_witness :
  exists size, Get 120 demo_stored demo_get = Ret {|
     rec_Key := Some demo_key;
     rec_Head := Some {| hd_Version := 7; hd_ExpiresAt := 160; hd_DiskSize := size; hd_Metadata := 3 |};
     rec_Value := str "v" |}.
Proof.
  destruct (Put_then_Get 100 120 demo_storage demo_stored (demo_record (str "v") 60 false 0) 7 demo_key 0)
    as [[size Hg]|[HN _]].
  - unfold is_uint64. lia.
  - unfold is_int64. simpl. lia.
  - reflexivity.
  - apply pair_by_fst. vm_compute. reflexivity.
  - vm_compute. reflexivity.
  - exists size. exact Hg.
  - destruct (HN mem_reliable).
Defined.

Lemma Put_cas_exclusive_witness :
  let st1 := snd (Put 100 demo_stored (demo_record (str "w") 0 true 7) 8) in
  does st1 (Put 100 st1 (demo_record (str "x") 0 true 7) 9) (Ret {| Updated := false |}, contents st1, []).
Proof.
  intros st1. apply (refines_reliable _ _ _ mem_reliable).
  refine (Put_cas_exclusive 100 100 demo_stored st1 (demo_record (str "w") 0 true 7)
    (demo_record (str "x") 0 true 7) 8 9 demo_key _ _ _ _ eq_refl eq_refl eq_refl eq_refl eq_refl _ _ _);
    try (unfold is_uint64, is_int64; simpl; lia).
  apply pair_by_fst. vm_compute. reflexivity.
Defined.

Lemma SetBatch_all_or_nothing_witness :
  let st' := snd (SetBatch 100 demo_stored demo_batch 9) in
  contents st' !! enc_key demo_key = Some (batch_entry 100 9 (demo_record (str "b") 60 false 0)).
Proof.
  intros st'.
  destruct (SetBatch_all_or_nothing 100 demo_stored st' demo_batch 9 (Ret {| Updated := true |}))
    as [[_ HB]|[e [HE _]]].
  - unfold is_uint64. lia.
  - discriminate.
  - repeat constructor; unfold is_int64; simpl; lia.
  - apply pair_by_fst. vm_compute. reflexivity.
  - rewrite HB. vm_compute. reflexivity.
  - discriminate.
Defined.

Lemma Reclaim_exact_witness :
  let st' := snd (Reclaim demo_stored {| rc_Entries := [{| re_EntryKey := enc_key demo_key; re_Version := 6 |};
                                                        {| re_EntryKey := enc_key demo_key; re_Version := 7 |}] |}) in
  contents st' !! enc_key demo_key = None.
Proof.
  intros st'.
  destruct (Reclaim_exact demo_stored st' {| rc_Entries := [{| re_EntryKey := enc_key demo_key; re_Version := 6 |};
    {| re_EntryKey := enc_key demo_key; re_Version := 7 |}] |} 1) as [HR _].
  - apply pair_by_fst. vm_compute. reflexivity.
  - rewrite HR. vm_compute. reflexivity.
Defined.

End Witness.
