(* ===== verification/ScanProps.v ===== *)
(** * Properties of scans, range reads and the expiry sweep

    What the reading operations of [Storage] return in terms of the abstract contents: area
    scans are exact, ordered and isolated; range and recent reads pick the newest versions;
    the expiry sweep removes exactly the expired entries; and the key invariant holds in every
    state that writes can reach. *)

From S2P Require Import Prelude Pb Keys Engine Storage StorageSpec StorageReads StorageProps.

(** ** Reachable states *)

(** One write of the storage interface. *)
Inductive write : Type :=
| WPut (req : RecordRequest) (commitVersion : Z)
| WTouch (req : RecordRequest) (commitVersion : Z)
| WRemove (req : KeyRequest)
| WIncrement (req : IncrementRequest) (commitVersion : Z)
| WSetBatch (req : BatchRequest) (commitVersion : Z)
| WReclaim (req : ReclaimRequest).

Section Scans.
Context `{UuidPkg} `{!UuidLaws} `{Badger} `{!BadgerSpec} `{StorePkg} `{!StoreLaws}.

Definition run_write (now : Z) (st : KeyValueStorageCtx) (w : write) : KeyValueStorageCtx :=
  match w with
  | WPut req cv => snd (Put now st req cv)
  | WTouch req cv => snd (Touch now st req cv)
  | WRemove req => snd (Remove st req)
  | WIncrement req cv => snd (Increment now st req cv)
  | WSetBatch req cv => snd (SetBatch now st req cv)
  | WReclaim req => snd (Reclaim st req)
  end.

Definition opt_ts_ok (k : option Key) : bool := match k with Some key => ts_ok key | None => true end.

(** The machine-width conditions on a write's arguments. *)
Definition write_ok (w : write) : Prop :=
  match w with
  | WPut req cv | WTouch req cv =>
      opt_ts_ok (rr_Key req) = true /\ is_int64 (rr_ExpiresAt req) /\ is_uint64 cv
  | WRemove req => True
  | WIncrement req cv => opt_ts_ok (ir_Key req) = true /\ is_int64 (ir_ExpiresAt req) /\ is_uint64 cv
  | WSetBatch req cv =>
      Forall (fun r => opt_ts_ok (rr_Key r) = true /\ is_int64 (rr_ExpiresAt r)) (br_Records req) /\
      is_uint64 cv /\ (cv <> 0 \/ BadgerReliable)
  | WReclaim req => True
  end.

(** The states that writes at any clock lead to, from an empty store. *)
Inductive reachable : KeyValueStorageCtx -> Prop :=
| reach_empty st : contents st = ∅ -> reachable st
| reach_write now st w : write_ok w -> reachable st -> reachable (run_write now st w).

(** ** Helper lemmas *)

(** An operation that refines a specification keeps what the specification keeps. *)
Lemma refines_preserves {A : Type} (P : model -> Prop) (st : KeyValueStorageCtx) (op : result A * KeyValueStorageCtx) (sp : effect A) :
  refines st op sp -> P (contents st) -> P (snd (fst sp)) -> P (contents (snd op)).
Proof. intros [(_ & -> & _)|[_ [e ->]]]; done. Qed.

Lemma batch_fold_wf (now cv : Z) (records : list RecordRequest) (m m' : model) (evs : list HubEvent) :
  Forall (fun r => opt_ts_ok (rr_Key r) = true /\ is_int64 (rr_ExpiresAt r)) records ->
  keys_wf m -> batch_fold now cv records m = Ret (m', evs) -> keys_wf m'.
Proof.
  intros Hr. revert m m' evs. induction Hr as [|r records [Ht _] Hrs IH]; intros m m' evs Hwf;
    cbn [batch_fold]; [by intros [= <- _]|].
  destruct (rr_Key r) as [key|]; cbn [need_key mbind outcome_bind]; [|done].
  match goal with |- context [batch_fold now cv records ?m1] =>
    destruct (batch_fold now cv records m1) as [[m2 e2]|?|] eqn:E end; [|done|done].
  cbn [mbind outcome_bind]. intros [= <- <-].
  eapply IH; [|exact E]. by apply keys_wf_insert.
Qed.

Lemma reclaim_fold_wf (es : list ReclaimEntry) (m : model) : keys_wf m -> keys_wf (fst (reclaim_fold es m)).
Proof.
  intros Hwf k e. destruct (reclaim_fold es m) as [m' d] eqn:Ef. cbn [fst].
  rewrite (reclaim_fold_lookup es m m' d k Ef). destruct (m !! k) as [e0|] eqn:Ek; [|done].
  intros _. by apply (Hwf k e0).
Qed.

Lemma run_write_wf now st w :
  write_ok w -> keys_wf (contents st) -> keys_wf (contents (run_write now st w)).
Proof.
  intros Hok Hwf. destruct w as [req cv|req cv|req|req cv|req cv|req]; cbn [run_write write_ok] in *.
  - destruct Hok as (Ht & Hex & Hcv).
    eapply (refines_preserves keys_wf); [by apply Put_refines|done|]. unfold put_spec.
    destruct (rr_Key req); [|done]. destruct (_ && _)%bool; [done|]. by apply keys_wf_insert.
  - destruct Hok as (Ht & Hex & Hcv).
    eapply (refines_preserves keys_wf); [by apply Touch_refines|done|]. unfold touch_spec.
    destruct (rr_Key req) as [key|]; [|done]. destruct (contents st !! _); [|done]. by apply keys_wf_insert.
  - eapply (refines_preserves keys_wf); [by apply Remove_refines|done|]. unfold remove_spec.
    destruct (kr_Key req); [|done]. by apply keys_wf_delete.
  - destruct Hok as (Ht & Hex & Hcv).
    eapply (refines_preserves keys_wf); [by apply Increment_refines|done|]. unfold increment_spec.
    destruct (ir_Key req); [|done]. by apply keys_wf_insert.
  - destruct Hok as (Hr & Hcv & Hor).
    eapply (refines_preserves keys_wf); [apply SetBatch_refines; [done|done|]|done|].
    { eapply Forall_impl; [exact Hr|]. by intros r [_ ?]. }
    unfold batch_spec. destruct (batch_fold now cv (br_Records req) (contents st)) as [[m' evs]|?|] eqn:E; [|done|done].
    by eapply batch_fold_wf.
  - eapply (refines_preserves keys_wf); [by apply Reclaim_refines|done|]. unfold reclaim_spec.
    pose proof (reclaim_fold_wf (rc_Entries req) _ Hwf) as HF.
    by destruct (reclaim_fold (rc_Entries req) (contents st)).
Qed.

Lemma keys_wf_empty : keys_wf ∅.
Proof. intros k e. by rewrite lookup_empty. Qed.

Lemma reachable_wf st : reachable st -> keys_wf (contents st).
Proof. induction 1 as [st ->|]; [apply keys_wf_empty|by apply run_write_wf]. Qed.

(** The entries the sweep lists for a list of items. *)
Definition expired_of (now : Z) (items : list Item) : list ReclaimEntry :=
  omap (fun it => if live now (item_entry it) then None
                  else Some {| re_EntryKey := item_Key it; re_Version := e_version (item_entry it) |}) items.

Lemma expired_loop_spec now ctxErr limit items i acc :
  BadgerReliable -> (forall i, ctxErr i = None) -> (limit <= 0 \/ len acc < limit) ->
  expired_loop now ctxErr limit items i acc =
  (acc ++ (if 0 <? limit then take (Z.to_nat (limit - len acc)) (expired_of now items)
           else expired_of now items), None).
Proof.
  intros HR Hctx. revert i acc. induction items as [|it items IH]; intros i acc Hacc; cbn [expired_loop].
  { unfold expired_of. cbn [omap list_omap]. destruct (0 <? limit); by rewrite ?take_nil, app_nil_r. }
  rewrite Hctx, (value_copy_reliable it HR). unfold expired_of in *. cbn [omap list_omap].
  unfold live, item_entry, decode_stored. cbn [fst].
  destruct (DecodeEnvelope (item_val it)) as [[v ex] val]. cbn [e_expires e_version].
  destruct (IsExpired now ex); cbn [negb]; [|by apply IH].
  assert (len (acc ++ [{| re_EntryKey := item_Key it; re_Version := wrap64 v |}]) = len acc + 1) as HL
    by (by rewrite len_app).
  destruct (Z.ltb_spec 0 limit) as [Hl|Hl]; cbn [andb].
  - rewrite HL. destruct (Z.leb_spec limit (len acc + 1)) as [Hge|Hlt].
    + replace (Z.to_nat (limit - len acc)) with 1%nat by lia. done.
    + rewrite IH by lia. rewrite HL, <- app_assoc. do 2 f_equal.
      replace (Z.to_nat (limit - len acc)) with (S (Z.to_nat (limit - (len acc + 1)))) by lia. done.
  - rewrite IH by lia. by rewrite <- app_assoc.
Qed.

Lemma elem_of_expired now st x :
  x ∈ expired_of now (txn_Iterate (NewTransaction (db st) false)
                        {| it_Reverse := false; it_Prefix := [] |} None) <->
  exists e, contents st !! re_EntryKey x = Some e /\ live now e = false /\ re_Version x = e_version e.
Proof.
  unfold expired_of. rewrite list_elem_of_omap. split.
  - intros (it & Hin & Hx). apply elem_of_items in Hin as (Hl & _ & _).
    destruct (live now (item_entry it)) eqn:El; simplify_eq. by exists (item_entry it).
  - intros (e & Hl & He & Hv).
    destruct (items_elem_of st {| it_Reverse := false; it_Prefix := [] |} None _ _ Hl) as (it & Hin & Hk & Hit);
      [apply prefix_nil|done|].
    exists it. split; [done|]. rewrite Hit, He, Hk. destruct x as [k v]. simpl in *. by rewrite Hv.
Qed.

(** Whatever a scan lists, at any limit, has expired and shows its current version. *)
Lemma ScanExpired_sound now st ctxErr limit es err x :
  BadgerReliable -> (forall i, ctxErr i = None) -> ScanExpired now st ctxErr limit = (es, err) -> x ∈ es ->
  exists e, contents st !! re_EntryKey x = Some e /\ live now e = false /\ re_Version x = e_version e.
Proof.
  intros HR Hctx HS Hx. unfold ScanExpired in HS.
  rewrite expired_loop_spec in HS by (done || change (len (@nil ReclaimEntry)) with 0; lia).
  cbn [app] in HS. injection HS as <- _. apply elem_of_expired.
  destruct (0 <? limit); [by apply elem_of_take_inv in Hx|done].
Qed.

Lemma listed_expired now st k e :
  contents st !! k = Some e ->
  listed (expired_of now (txn_Iterate (NewTransaction (db st) false)
                            {| it_Reverse := false; it_Prefix := [] |} None)) k e
  = negb (live now e).
Proof.
  intros Hk. unfold listed. destruct (live now e) eqn:El; cbn [negb].
  - apply bool_decide_eq_false_2. intros (e' & Hl & He & _)%elem_of_expired. cbn in Hl. congruence.
  - apply bool_decide_eq_true_2, elem_of_expired. by exists e.
Qed.

Lemma blocks_bounded acc l :
  len acc < defBlockSize ->
  Forall (fun b => 0 < len (blk_Record b) <= defBlockSize) (blocks_of acc l).
Proof.
  revert acc. induction l as [|r l IH]; intros acc Hacc; cbn [blocks_of].
  - destruct (Z.ltb_spec 0 (len acc)); constructor; [cbn [blk_Record]; lia|constructor].
  - assert (len (acc ++ [r]) = len acc + 1) as HL by (by rewrite len_app). rewrite HL.
    destruct (Z.eqb_spec (len acc + 1) defBlockSize) as [E|E].
    + constructor; [cbn [blk_Record]; rewrite HL; unfold defBlockSize in *; pose proof (len_nonneg acc); lia|].
      apply IH. by vm_compute.
    + apply IH. rewrite HL. unfold defBlockSize in *. lia.
Qed.

(** The first item of a reverse scan is the greatest entry in range. *)
Lemma reverse_first_greatest st o s it rest :
  it_Reverse o = true ->
  txn_Iterate (NewTransaction (db st) false) o s = it :: rest ->
  forall k e, contents st !! k = Some e -> it_Prefix o `prefix_of` k ->
    seek_ok true s k = true -> bytes_le k (item_Key it).
Proof.
  intros Hrev E k e Hk Hp Hs. pose proof (items_sorted st o s) as HS. rewrite Hrev, E in HS.
  destruct (items_elem_of st o s k e Hk Hp) as (it' & Hin & <- & _); [by rewrite Hrev|].
  rewrite E in Hin. apply elem_of_cons in Hin as [->|Hin]; [done|].
  inversion HS as [|? ? _ Hall]; subst. rewrite Forall_forall in Hall. specialize (Hall _ Hin).
  unfold bytes_le. rewrite bytes_compare_antisym, Hall. done.
Qed.

(** ** Properties *)

(** The key invariant. In every state that writes lead to from an empty store, at any
    clocks and with any outcomes, each stored key is the encoding of a key that decodes back,
    so no scan can meet a key on which [DecodeKey] panics or fails. *)
Theorem reachable_keys_decode (st : KeyValueStorageCtx) (k : bytes) (e : entry) :
  reachable st -> contents st !! k = Some e -> exists key, DecodeKey k = Ret key /\ k = enc_key key.
Proof.
  intros HR Hk. destruct (reachable_wf st HR k e Hk) as (key & Hok & ->).
  exists key. by rewrite DecodeKey_enc.
Qed.

(** C12: area scans are exact, isolated and ordered. On a reachable store, [GetArea] down to a
    field delivers the live records of exactly the keys that agree with the request's key down
    to that field: each record shows its entry's current state, none is left out, and they come
    in strictly increasing key order. *)
Theorem GetArea_exact (now : Z) (st : KeyValueStorageCtx) (key : Key) (f : Field)
    (headOnly : bool) (tmo : Z) :
  BadgerReliable -> reachable st -> key_ok key = true -> (f = TimestampField -> Timestamp key <> None) ->
  exists recs,
    GetArea now st {| kr_Key := Some key; kr_HeadOnly := headOnly; kr_Timeout := tmo |} f collectSender []
      = (Ret tt, recs) /\
    (forall r, r ∈ recs -> exists key' e, shows headOnly r key' e /\ agree_upto f key key' /\
       contents st !! enc_key key' = Some e /\ live now e = true) /\
    (forall key' e, key_ok key' = true -> agree_upto f key key' ->
       contents st !! enc_key key' = Some e -> live now e = true ->
       exists r, shows headOnly r key' e /\ r ∈ recs) /\
    StronglySorted (rec_before false) recs.
Proof.
  intros HR Hreach Hok Hts. pose proof (reachable_wf st Hreach) as Hwf.
  pose proof (EncodeKeyPrefix_layout key f) as HL.
  destruct (enc_prefix key f) as [p|] eqn:Ep; cycle 1.
  { destruct f; try done. cbn [enc_prefix] in Ep. destruct (Timestamp key) eqn:Et; [done|].
    by destruct (Hts eq_refl). }
  unfold GetArea. cbn [kr_Key kr_HeadOnly]. rewrite HL.
  set (o := {| it_Reverse := false; it_Prefix := p |}).
  rewrite stream_loop_spec by (by apply items_no_panic).
  rewrite send_all_collect, concat_blocks_of. eexists. split; [done|]. rewrite !app_nil_l.
  split; [|split].
  - intros r Hr. destruct (elem_of_yields _ _ _ _ _ _ HR Hwf Hr) as (k' & e & Hok' & Hsh & Hl & Hlv & Hp & _).
    exists k', e. split; [done|]. split; [|done]. by apply (enc_prefix_agree key k' f p Hok Hok' Ep).
  - intros k' e Hok' Ha Hl Hlv. apply (enc_prefix_agree key k' f p Hok Hok' Ep) in Ha.
    apply yields_elem_of; try done. cbn [seek_ok it_Reverse o]. apply bool_decide_eq_true_2.
    by apply bytes_le_prefix.
  - by apply (yields_sorted now headOnly st o (Some p)).
Qed.

(** Streaming delivers the scan in bounded blocks. For any sender, failing ones included,
    [GetArea] and [Scan] send the records of the scan cut into non-empty blocks of at most 100
    whose concatenation is the whole result, in order, and stop at the first failed send with
    its error. *)
Theorem streams_bounded_blocks {S : Type} (now : Z) (st : KeyValueStorageCtx) (headOnly : bool)
    (o : IteratorOptions) (seek : option bytes) (send : BlockSender S) (s : S) :
  BadgerReliable -> reachable st ->
  let items := txn_Iterate (NewTransaction (db st) false) o seek in
  let blocks := blocks_of [] (yields now headOnly items) in
  stream_loop now headOnly send items [] s = send_all send blocks s /\
  concat (blk_Record <$> blocks) = yields now headOnly items /\
  Forall (fun b => 0 < len (blk_Record b) <= defBlockSize) blocks.
Proof.
  intros HR Hreach items blocks. unfold blocks. split; [|split].
  - apply stream_loop_spec, items_no_panic; [done|by apply reachable_wf].
  - by rewrite concat_blocks_of.
  - by apply blocks_bounded.
Qed.

(** Range reads return the newest versions at or before a moment. On a reachable store
    [GetRange] of a positive size answers with a prefix, of at most that many records, of the
    live versions of the row at or below the requested key in strictly decreasing key order,
    and when fewer come back every such version was included. *)
Theorem GetRange_newest (now : Z) (st : KeyValueStorageCtx) (key : Key) (headOnly : bool)
    (n tmo : Z) :
  BadgerReliable -> reachable st -> key_ok key = true -> 0 < n ->
  exists recs,
    GetRange now st {| rg_Key := Some key; rg_HeadOnly := headOnly;
                       rg_Type := RangeType_LESS_OR_EQUAL; rg_NumRecords := n; rg_Timeout := tmo |}
      = Ret {| blk_Record := recs |} /\
    len recs <= n /\ StronglySorted (rec_before true) recs /\
    (forall r, r ∈ recs -> exists key' e, shows headOnly r key' e /\
       agree_upto MinorKeyField key key' /\ bytes_le (enc_key key') (enc_key key) /\
       contents st !! enc_key key' = Some e /\ live now e = true) /\
    (len recs < n -> forall key' e, key_ok key' = true -> agree_upto MinorKeyField key key' ->
       bytes_le (enc_key key') (enc_key key) ->
       contents st !! enc_key key' = Some e -> live now e = true ->
       exists r, shows headOnly r key' e /\ r ∈ recs).
Proof.
  intros HR Hreach Hok Hn. pose proof (reachable_wf st Hreach) as Hwf.
  unfold GetRange. cbn [rg_Key rg_Type rg_NumRecords rg_HeadOnly need_key mbind outcome_bind].
  change (negb (RangeType_LESS_OR_EQUAL =? RangeType_LESS_OR_EQUAL)) with false. cbn iota.
  destruct (Z.leb_spec n 0); [lia|]. rewrite EncodeKey_layout. cbn iota beta zeta.
  set (o := {| it_Reverse := true; it_Prefix := enc_row key |}).
  rewrite range_loop_spec by (by apply items_no_panic || lia). cbn [mbind outcome_bind app].
  set (all := yields now headOnly (txn_Iterate (NewTransaction (db st) false) o (Some (enc_key key)))).
  assert (forall k', key_ok k' = true -> (enc_row key `prefix_of` enc_key k') <-> agree_upto MinorKeyField key k')
    as Hpre by (intros k' Hk'; by apply enc_prefix_agree).
  eexists. split; [done|]. rewrite Z.sub_0_r. split; [unfold len; rewrite length_take; lia|].
  split; [apply StronglySorted_take; by apply (yields_sorted now headOnly st o)|]. split.
  - intros r Hr. apply elem_of_take_inv in Hr.
    destruct (elem_of_yields _ _ _ _ _ _ HR Hwf Hr) as (k' & e & Hok' & Hsh & Hl & Hlv & Hp & Hs).
    exists k', e. split; [done|]. split; [by apply Hpre|]. split; [|done].
    cbn [seek_ok it_Reverse o] in Hs. by apply bool_decide_eq_true_1 in Hs.
  - intros Hshort k' e Hok' Ha Hle Hl Hlv. rewrite take_ge by (unfold len in Hshort; rewrite length_take in Hshort; lia).
    apply yields_elem_of; try done; [by apply Hpre|].
    cbn [seek_ok it_Reverse o]. by apply bool_decide_eq_true_2.
Qed.

(** [GetRecent] answers with the version closest to the requested moment: when it finds a
    record, its key is the greatest stored key of the row that is at or below the requested
    one and the record shows that entry; when it does not, either no such version is stored or
    the greatest one has expired. *)
Theorem GetRecent_greatest (now : Z) (st : KeyValueStorageCtx) (key : Key) (headOnly : bool) (tmo : Z) :
  BadgerReliable -> reachable st -> key_ok key = true ->
  let read := GetRecent now st {| kr_Key := Some key; kr_HeadOnly := headOnly; kr_Timeout := tmo |} in
  let in_range k := enc_row key `prefix_of` k /\ bytes_le k (enc_key key) in
  (read = Ret (RecordNotFound (Some key)) /\ forall k e, in_range k -> contents st !! k <> Some e) \/
  (exists key' e, contents st !! enc_key key' = Some e /\ agree_upto MinorKeyField key key' /\
     in_range (enc_key key') /\
     (forall k x, in_range k -> contents st !! k = Some x -> bytes_le k (enc_key key')) /\
     if live now e then exists r, read = Ret r /\ shows headOnly r key' e
     else read = Ret (RecordNotFound (Some key'))).
Proof.
  intros HR Hreach Hok read in_range. pose proof (reachable_wf st Hreach) as Hwf.
  unfold read, GetRecent. cbn [kr_Key kr_HeadOnly need_key mbind outcome_bind].
  rewrite EncodeKey_layout. cbn iota beta zeta.
  set (o := {| it_Reverse := true; it_Prefix := enc_row key |}).
  destruct (txn_Iterate (NewTransaction (db st) false) o (Some (enc_key key))) as [|it rest] eqn:E.
  - left. split; [done|]. intros k e [Hp Hle] Hk.
    destruct (items_elem_of st o (Some (enc_key key)) k e Hk Hp) as (it & Hin & _);
      [by apply bool_decide_eq_true_2|]. rewrite E in Hin. by apply not_elem_of_nil in Hin.
  - right. pose proof (elem_of_items st o (Some (enc_key key)) it) as Hit. rewrite E in Hit.
    destruct Hit as (Hl & Hp & Hs); [by left|]. destruct (Hwf _ _ Hl) as (key' & Hok' & Hk').
    cbn [seek_ok it_Reverse o] in Hs. apply bool_decide_eq_true_1 in Hs.
    exists key', (item_entry it). rewrite <- Hk'. split; [done|].
    split; [apply (enc_prefix_agree key key' MinorKeyField (enc_row key)); [done..|by rewrite <- Hk']|].
    split; [done|]. split.
    { intros k x [Hp' Hle'] Hx. apply (reverse_first_greatest st o (Some (enc_key key)) it rest eq_refl E k x Hx Hp').
      by apply bool_decide_eq_true_2. }
    assert (DecodeKey (item_Key it) = Ret key') as -> by (rewrite Hk'; by apply DecodeKey_enc). cbn [mbind outcome_bind].
    rewrite (FetchRecord_spec now (Some key') it headOnly _ (value_copy_reliable it HR)).
    cbn zeta. fold (item_entry it). destruct (live now (item_entry it)); [|done].
    eexists. split; [done|]. by eexists.
Qed.

(** One sweep reclaims exactly the expired entries. Reclaiming what an unlimited,
    uncancelled [ScanExpired] listed in the same state removes every entry expired at the
    sweep's clock and nothing else. *)
Theorem sweep_removes_expired (now : Z) (st st' : KeyValueStorageCtx) (ctxErr : nat -> option error)
    (es : list ReclaimEntry) (err : option error) (n : Z) :
  BadgerReliable -> (forall i, ctxErr i = None) ->
  ScanExpired now st ctxErr 0 = (es, err) -> Reclaim st {| rc_Entries := es |} = (Ret n, st') ->
  err = None /\
  forall k, contents st' !! k =
    match contents st !! k with
    | Some e => if live now e then Some e else None
    | None => None
    end.
Proof.
  intros HR Hctx HS HRc. unfold ScanExpired in HS. rewrite expired_loop_spec in HS by (done || lia).
  cbn [Z.ltb Z.compare app] in HS. injection HS as <- <-. split; [done|]. intros k.
  destruct (refines_ret _ _ _ _ _ HRc (Reclaim_refines st _)) as (_ & -> & _).
  unfold reclaim_spec. cbn [rc_Entries].
  match goal with |- context [reclaim_fold ?es (contents st)] =>
    destruct (reclaim_fold es (contents st)) as [m d] eqn:Ef end. cbn [fst snd].
  rewrite (reclaim_fold_lookup _ _ _ d k Ef). destruct (contents st !! k) as [e|] eqn:Ek; [|done].
  rewrite listed_expired by done. by destruct (live now e).
Qed.

(** A bounded sweep stays bounded and honest. With any positive limit, [ScanExpired] lists
    at most that many entries, each of them expired and listed with its current version, and
    lists fewer than the limit only when it lists all of them. *)
Theorem ScanExpired_bounded (now : Z) (st : KeyValueStorageCtx) (ctxErr : nat -> option error)
    (limit : Z) (es : list ReclaimEntry) (err : option error) :
  BadgerReliable -> (forall i, ctxErr i = None) -> 0 < limit ->
  ScanExpired now st ctxErr limit = (es, err) ->
  err = None /\ len es <= limit /\
  (forall x, x ∈ es -> exists e, contents st !! re_EntryKey x = Some e /\ live now e = false /\
     re_Version x = e_version e) /\
  (len es < limit -> forall k e, contents st !! k = Some e -> live now e = false ->
     {| re_EntryKey := k; re_Version := e_version e |} ∈ es).
Proof.
  intros HR Hctx Hlim HS.
  assert (forall x, x ∈ es -> exists e, contents st !! re_EntryKey x = Some e /\ live now e = false /\
    re_Version x = e_version e) as Hsound by (intros x; by apply (ScanExpired_sound now st ctxErr limit es err)).
  unfold ScanExpired in HS. rewrite expired_loop_spec in HS by (done || by right).
  rewrite (proj2 (Z.ltb_lt 0 limit)) in HS by done. change (len (@nil ReclaimEntry)) with 0 in HS.
  rewrite Z.sub_0_r in HS. cbn [app] in HS. injection HS as <- <-.
  split; [done|]. split; [unfold len; rewrite length_take; lia|]. split; [exact Hsound|].
  intros Hshort k e Hk He. rewrite take_ge by (unfold len in Hshort; rewrite length_take in Hshort; lia).
  apply elem_of_expired. by exists e.
Qed.

End Scans.

(** ** Witnesses: the properties on a concrete store *)

Section Witness.
#[local] Existing Instances flat_uuid flat_uuid_laws mem_badger mem_spec flat_store flat_store_laws.

Lemma demo_reachable : reachable demo_stored.
Proof.
  apply (reach_write 100 demo_storage (WPut (demo_record (str "v") 60 false 0) 7)).
  - split; [reflexivity|]. unfold is_int64, is_uint64. simpl. lia.
  - apply reach_empty. exact (fmap_empty (M := gmap bytes) decode_stored).
Qed.

(** What the store holds under the demonstration key. *)
Definition demo_entry : entry :=
  {| e_version := 7; e_expires := 160; e_value := str "v"; e_meta := 3 |}.

Lemma demo_contents : contents demo_stored !! enc_key demo_key = Some demo_entry.
Proof. vm_compute. reflexivity. Qed.

Lemma reachable_keys_decode_witness :
  exists key, DecodeKey (enc_key demo_key) = Ret key /\ enc_key demo_key = enc_key key.
Proof. exact (reachable_keys_decode demo_stored _ demo_entry demo_reachable demo_contents). Defined.

Lemma GetArea_exact_witness :
  exists recs r,
    GetArea 120 demo_stored demo_get RegionNameField collectSender [] = (Ret tt, recs) /\
    shows false r demo_key demo_entry /\ r ∈ recs.
Proof.
  destruct (GetArea_exact 120 demo_stored demo_key RegionNameField false 0 mem_reliable demo_reachable
              eq_refl ltac:(discriminate)) as (recs & HG & _ & HC & _).
  destruct (HC demo_key demo_entry) as (r & Hr & Hin);
    [reflexivity|split; reflexivity|exact demo_contents|reflexivity|].
  exists recs, r. exact (conj HG (conj Hr Hin)).
Defined.

Lemma streams_bounded_blocks_witness :
  let items := txn_Iterate (NewTransaction (db demo_stored) false) {| it_Reverse := false; it_Prefix := [] |} None in
  let blocks := blocks_of [] (yields 120 false items) in
  stream_loop 120 false collectSender items [] [] = send_all collectSender blocks [] /\
  concat (blk_Record <$> blocks) = yields 120 false items /\
  Forall (fun b => 0 < len (blk_Record b) <= defBlockSize) blocks.
Proof.
  exact (streams_bounded_blocks 120 demo_stored false _ None collectSender [] mem_reliable demo_reachable).
Defined.

Lemma GetRange_newest_witness :
  exists recs, GetRange 120 demo_stored {| rg_Key := Some demo_key; rg_HeadOnly := false;
      rg_Type := RangeType_LESS_OR_EQUAL; rg_NumRecords := 5; rg_Timeout := 0 |}
    = Ret {| blk_Record := recs |} /\ len recs <= 5.
Proof.
  destruct (GetRange_newest 120 demo_stored demo_key false 5 0 mem_reliable demo_reachable eq_refl ltac:(lia))
    as (recs & HG & HL & _).
  exists recs. exact (conj HG HL).
Defined.

Lemma GetRecent_greatest_witness :
  GetRecent 120 demo_stored demo_get <> Ret (RecordNotFound (Some demo_key)).
Proof.
  destruct (GetRecent_greatest 120 demo_stored demo_key false 0 mem_reliable demo_reachable eq_refl)
    as [[_ HN]|(key' & e & _ & _ & _ & _ & HL)].
  - destruct (HN (enc_key demo_key) demo_entry); [|exact demo_contents].
    split; [by apply prefix_app_r|reflexivity].
  - destruct (live 120 e).
    + destruct HL as (r & HG & size & ->). unfold demo_get. rewrite HG. discriminate.
    + vm_compute. discriminate.
Defined.

Lemma sweep_removes_expired_witness :
  let es := fst (ScanExpired 200 demo_stored (fun _ => None) 0) in
  contents (snd (Reclaim demo_stored {| rc_Entries := es |})) !! enc_key demo_key = None.
Proof.
  intros es.
  destruct (sweep_removes_expired 200 demo_stored (snd (Reclaim demo_stored {| rc_Entries := es |}))
    (fun _ => None) es None 1 mem_reliable) as [_ HS].
  - reflexivity.
  - vm_compute. reflexivity.
  - apply pair_by_fst. vm_compute. reflexivity.
  - rewrite HS, demo_contents. vm_compute. reflexivity.
Defined.

Lemma ScanExpired_bounded_witness :
  let es := fst (ScanExpired 200 demo_stored (fun _ => None) 4) in
  len es <= 4 /\ {| re_EntryKey := enc_key demo_key; re_Version := 7 |} ∈ es.
Proof.
  intros es.
  destruct (ScanExpired_bounded 200 demo_stored (fun _ => None) 4 es None mem_reliable) as (_ & HL & _ & HC).
  - reflexivity.
  - lia.
  - vm_compute. reflexivity.
  - split; [exact HL|]. apply (HC ltac:(vm_compute; reflexivity) _ demo_entry demo_contents). reflexivity.
Defined.

End Witness.
