(* ===== verification/Concurrent.v ===== *)
(** * Concurrent transactions ([pkg/server/storage.go])

    The requests of a node run concurrently, and every write of the storage is one badger
    transaction: it reads a snapshot, collects its changes and commits, and the changes are
    announced to the hub afterwards. Here each write is split at the commit, so that the halves of
    many writes can interleave: [begin_write] is the part up to [txn.Commit], with the keys that
    [txn.Get] has recorded, and [finish_write] the rest when nothing comes in between, which is the
    write of [Storage]. What badger promises to transactions that overlap is a class. *)

From S2P Require Import Prelude Pb Keys Engine Storage StorageSpec ScanProps.

(** ** Badger with overlapping transactions *)

(** A map with pending changes laid over it; [None] is a deletion. *)
Definition overlay {A} (puts : gmap bytes (option A)) (m : gmap bytes A) : gmap bytes A :=
  merge (fun p o => match p with Some v => v | None => o end) puts m.

(** [commit_at] is [txn.Commit] on a database that may have changed since the transaction began;
    [reads] are the keys whose fingerprints the transaction has recorded. It fails with a conflict
    when one of them was written since, and applies the pending writes otherwise. *)
Class BadgerOverlap `{BadgerSpec} : Type := {
  txn_puts : Txn -> gmap bytes (option stored);
  commit_at : DB -> gset bytes -> Txn -> result DB;
  begin_puts : forall d u, txn_puts (NewTransaction d u) = ∅;
  set_puts : forall t e t', txn_SetEntry t e = Ret t' -> txn_puts t' = <[ent_Key e := Some (ent_Value e, ent_UserMeta e)]> (txn_puts t);
  delete_puts : forall t k t', txn_Delete t k = Ret t' -> txn_puts t' = <[k := None]> (txn_puts t);
  commit_alone : forall t reads, commit_at (txn_base t) reads t = txn_Commit (txn_base t) t;
  commit_overlap : forall d reads t,
    match commit_at d reads t with
    | Ret d' => (forall k, k ∈ reads -> db_view d !! k = db_view (txn_base t) !! k) /\ db_view d' = overlay (txn_puts t) (db_view d)
    | Fail _ => True
    | Panic => False
    end
}.

(** ** The two halves of a write *)

Inductive write_answer : Type := WStatus (s : Status) | WIncr (i : IncrementResponse) | WCount (n : Z).

Section Halves.
Context `{UuidPkg} `{Badger} `{StorePkg}.

(** What the first half leaves: an answer, or a transaction to commit, with the keys it read, the
    text that wraps an error of the commit, and what to answer and to announce afterwards. *)
Inductive prepared : Type :=
| Answer (a : write_answer)
| Prepared (reads : gset bytes) (txn : Txn) (msg : string) (a : write_answer) (evs : list HubEvent).

Definition begin_Touch (now : Z) (d : DB) (req : RecordRequest) (commitVersion : Z) : result prepared :=
  key ← need_key (rr_Key req);
  let '(entryKey, _) := EncodeKey key in
  let txn := NewTransaction d true in
  match txn_Get txn entryKey with
  | NotFound => Ret (Answer (WStatus {| Updated := false |}))
  | GetErr e => Fail e
  | Found item =>
      data ← wrap_err "fetch in touch error" (item_ValueCopy item);
      let '(oldVersion, _, value) := DecodeEnvelope data in
      let version := if commitVersion =? 0 then wrap64 (wrap64 oldVersion + 1) else commitVersion in
      let expiresAt := resolveExpiry now (rr_TtlSeconds req) (rr_ExpiresAt req) in
      let entry := {| ent_Key := entryKey; ent_Value := EncodeEnvelope (int64 version) expiresAt value; ent_UserMeta := item_UserMeta item |} in
      txn ← wrap_err "update entry error" (txn_SetEntry txn entry);
      Ret (Prepared {[entryKey]} txn "commit touch error" (WStatus {| Updated := true |}) [set_event entryKey value version])
  end.

Definition begin_Put (now : Z) (d : DB) (req : RecordRequest) (commitVersion : Z) : result prepared :=
  key ← need_key (rr_Key req);
  let '(entryKey, _) := EncodeKey key in
  let txn := NewTransaction d true in
  '(present, oldVersion) ← current_version txn entryKey;
  let rejected :=
    if rr_CompareAndSet req then
      if negb present then negb (rr_Version req =? 0) else negb (rr_Version req =? oldVersion)
    else false in
  if rejected then Ret (Answer (WStatus {| Updated := false |})) else
  let version := if commitVersion =? 0 then wrap64 (oldVersion + 1) else commitVersion in
  let expiresAt := resolveExpiry now (rr_TtlSeconds req) (rr_ExpiresAt req) in
  let entry := {| ent_Key := entryKey; ent_Value := EncodeEnvelope (int64 version) expiresAt (rr_Value req); ent_UserMeta := rr_Metadata req mod 256 |} in
  txn ← wrap_err "update entry error" (txn_SetEntry txn entry);
  Ret (Prepared {[entryKey]} txn "commit put error" (WStatus {| Updated := true |}) [set_event entryKey (rr_Value req) version]).

Definition begin_Remove (d : DB) (req : KeyRequest) : result prepared :=
  key ← need_key (kr_Key req);
  let '(entryKey, _) := EncodeKey key in
  txn ← wrap_err "delete entry error" (txn_Delete (NewTransaction d true) entryKey);
  Ret (Prepared ∅ txn "commit remove error" (WStatus {| Updated := true |}) [delete_event entryKey]).

Definition begin_Increment (now : Z) (d : DB) (req : IncrementRequest) (commitVersion : Z) : result prepared :=
  key ← need_key (ir_Key req);
  let '(entryKey, _) := EncodeKey key in
  let txn := NewTransaction d true in
  '(oldVersion, counter) ←
    match txn_Get txn entryKey with
    | Found item => data ← wrap_err "read counter error" (item_ValueCopy item); Ret (counterFromEnvelope data (ir_Initial req))
    | NotFound => Ret (0, ir_Initial req)
    | GetErr e => Fail e
    end;
  let prev := counter in
  let counter := int64 (counter + ir_Delta req) in
  let version := if commitVersion =? 0 then wrap64 (oldVersion + 1) else commitVersion in
  let expiresAt := resolveExpiry now (ir_TtlSeconds req) (ir_ExpiresAt req) in
  let buf := be_put 8 (wrap64 counter) in
  let entry := {| ent_Key := entryKey; ent_Value := EncodeEnvelope (int64 version) expiresAt buf; ent_UserMeta := 0 |} in
  txn ← wrap_err "update counter error" (txn_SetEntry txn entry);
  Ret (Prepared {[entryKey]} txn "commit increment error" (WIncr {| Previous := prev; Current := counter; ir_Version := version |}) [set_event entryKey buf version]).

(** The keys a batch reads: those of its records, when storage assigns the versions. *)
Definition batch_reads (commitVersion : Z) (records : list RecordRequest) : gset bytes :=
  if commitVersion =? 0 then list_to_set (omap (fun r => (fun key => fst (EncodeKey key)) <$> rr_Key r) records) else ∅.

Definition begin_SetBatch (now : Z) (d : DB) (req : BatchRequest) (commitVersion : Z) : result prepared :=
  '(txn, pending) ← batch_loop now commitVersion (br_Records req) (NewTransaction d true) [];
  Ret (Prepared (batch_reads commitVersion (br_Records req)) txn "commit batch error" (WStatus {| Updated := true |}) (change_event <$> pending)).

Definition begin_Reclaim (d : DB) (req : ReclaimRequest) : result prepared :=
  if len (rc_Entries req) =? 0 then Ret (Answer (WCount 0)) else
  '(txn, deleted) ← reclaim_loop (rc_Entries req) (NewTransaction d true) [];
  if len deleted =? 0 then Ret (Answer (WCount 0)) else
  Ret (Prepared (list_to_set (re_EntryKey <$> rc_Entries req)) txn "commit reclaim error" (WCount (len deleted)) (delete_event <$> deleted)).

Definition begin_write (now : Z) (d : DB) (w : write) : result prepared :=
  match w with
  | WPut req cv => begin_Put now d req cv
  | WTouch req cv => begin_Touch now d req cv
  | WRemove req => begin_Remove d req
  | WIncrement req cv => begin_Increment now d req cv
  | WSetBatch req cv => begin_SetBatch now d req cv
  | WReclaim req => begin_Reclaim d req
  end.

(** The second half at once: commit and announce. *)
Definition finish_write (st : KeyValueStorageCtx) (p : prepared) : result (write_answer * KeyValueStorageCtx) :=
  match p with
  | Answer a => Ret (a, st)
  | Prepared _ txn msg a evs =>
      d' ← wrap_err msg (txn_Commit (db st) txn);
      Ret (a, {| db := d'; hub := emit (hub st) evs |})
  end.

(** The write of [Storage]. *)
Definition run_answer (now : Z) (st : KeyValueStorageCtx) (w : write) : result write_answer * KeyValueStorageCtx :=
  let answers {A} (f : A -> write_answer) (r : result A * KeyValueStorageCtx) : result write_answer * KeyValueStorageCtx := (x ← fst r; Ret (f x), snd r) in
  match w with
  | WPut req cv => answers WStatus (Put now st req cv)
  | WTouch req cv => answers WStatus (Touch now st req cv)
  | WRemove req => answers WStatus (Remove st req)
  | WIncrement req cv => answers WIncr (Increment now st req cv)
  | WSetBatch req cv => answers WStatus (SetBatch now st req cv)
  | WReclaim req => answers WCount (Reclaim st req)
  end.

(** Its specification. *)
Definition write_spec (now : Z) (m : model) (w : write) : effect write_answer :=
  let answers {A} (f : A -> write_answer) (r : effect A) : effect write_answer := let '(x, m', evs) := r in (a ← x; Ret (f a), m', evs) in
  match w with
  | WPut req cv => answers WStatus (put_spec now m req cv)
  | WTouch req cv => answers WStatus (touch_spec now m req cv)
  | WRemove req => answers WStatus (remove_spec m req)
  | WIncrement req cv => answers WIncr (increment_spec now m req cv)
  | WSetBatch req cv => answers WStatus (batch_spec now m req cv)
  | WReclaim req => answers WCount (reclaim_spec m req)
  end.

End Halves.

(** ** Interleavings *)

Section Interleave.
Context `{UuidPkg} `{Badger} `{!BadgerSpec} `{!BadgerOverlap} `{StorePkg} `{!UuidLaws} `{!StoreLaws}.

(** A write under way: about to commit, or decided, with what is left to announce. *)
Inductive running : Type :=
| Committing (p : prepared)
| Ending (r : result write_answer) (evs : list HubEvent)
| Ended.

Record op : Type := { op_write : write; op_clock : Z; op_state : running }.

(** What happens, in order. [Point] is where a write takes its effect or, for one that changes
    nothing, where it looks at the store; [Saw] is a read, which sees the snapshot it begins with. *)
Inductive tick : Type :=
| Began (id : nat)
| Point (id : nat) (w : write) (now : Z) (a : write_answer)
| Finished (id : nat) (r : result write_answer)
| Saw (now : Z) (req : KeyRequest) (r : result Rec).

Record busy : Type := { bz_db : DB; bz_hub : list HubEvent; bz_ops : gmap nat op; bz_trace : list tick }.

Definition bz_storage (s : busy) : KeyValueStorageCtx := {| db := bz_db s; hub := Some (bz_hub s) |}.

Definition with_op (id : nat) (o : op) (ticks : list tick) (s : busy) : busy := {|
  bz_db := bz_db s; bz_hub := bz_hub s; bz_ops := <[id := o]> (bz_ops s); bz_trace := bz_trace s ++ ticks |}.

Definition moved (o : op) (st : running) : op := {| op_write := op_write o; op_clock := op_clock o; op_state := st |}.

(** A new write runs its first half. A panic in it takes the process down. *)
Definition begin_step (id : nat) (now : Z) (w : write) (s : busy) : option busy :=
  match bz_ops s !! id with
  | Some _ => None
  | None =>
      let o st := {| op_write := w; op_clock := now; op_state := st |} in
      match begin_write now (bz_db s) w with
      | Ret (Answer a) => Some (with_op id (o (Ending (Ret a) [])) [Began id; Point id w now a] s)
      | Ret p => Some (with_op id (o (Committing p)) [Began id] s)
      | Fail e => Some (with_op id (o (Ending (Fail e) [])) [Began id] s)
      | Panic => None
      end
  end.

(** The next step of a write: the commit, an announcement, or the return. *)
Definition op_step (id : nat) (s : busy) : option busy :=
  match bz_ops s !! id with
  | None => None
  | Some o =>
      match op_state o with
      | Committing (Prepared reads txn msg a evs) =>
          match wrap_err msg (commit_at (bz_db s) reads txn) with
          | Ret d' =>
              Some {| bz_db := d'; bz_hub := bz_hub s; bz_ops := <[id := moved o (Ending (Ret a) evs)]> (bz_ops s);
                      bz_trace := bz_trace s ++ [Point id (op_write o) (op_clock o) a] |}
          | Fail e => Some (with_op id (moved o (Ending (Fail e) [])) [] s)
          | Panic => None
          end
      | Committing (Answer _) => None
      | Ending r (ev :: evs) =>
          Some {| bz_db := bz_db s; bz_hub := bz_hub s ++ [ev]; bz_ops := <[id := moved o (Ending r evs)]> (bz_ops s); bz_trace := bz_trace s |}
      | Ending r [] => Some (with_op id (moved o Ended) [Finished id r] s)
      | Ended => None
      end
  end.

Definition read_step (now : Z) (req : KeyRequest) (s : busy) : busy := {|
  bz_db := bz_db s; bz_hub := bz_hub s; bz_ops := bz_ops s; bz_trace := bz_trace s ++ [Saw now req (Get now (bz_storage s) req)] |}.

Inductive busy_step : busy -> busy -> Prop :=
| step_begin id now w s s' : write_ok w -> begin_step id now w s = Some s' -> busy_step s s'
| step_op id s s' : op_step id s = Some s' -> busy_step s s'
| step_read now req s : busy_step s (read_step now req s).

Definition idle (d : DB) : busy := {| bz_db := d; bz_hub := []; bz_ops := ∅; bz_trace := [] |}.

Inductive busy_reachable (d0 : DB) : busy -> Prop :=
| busy_start : busy_reachable d0 (idle d0)
| busy_more s s' : busy_reachable d0 s -> busy_step s s' -> busy_reachable d0 s'.

(** ** The serial store *)

(** The effects of a trace, one write after the other. *)
Definition serial_step (m : model) (t : tick) : model :=
  match t with Point _ w now _ => snd (fst (write_spec now m w)) | _ => m end.

Definition serial (m : model) (trace : list tick) : model := fold_left serial_step trace m.

End Interleave.
