(* ===== verification/ConcurrentProps.v ===== *)
(** * Concurrent writes are serializable

    However the halves of the writes of [Concurrent] interleave, the store is the one that results
    from the writes one after the other, each with the answer it has there. *)

From S2P Require Import Prelude Pb Keys Engine Storage StorageSpec StorageReads StorageProps ScanProps Concurrent.

(** ** Overlays *)

Lemma lookup_overlay {A} (p : gmap bytes (option A)) (m : gmap bytes A) k : overlay p m !! k = match p !! k with Some v => v | None => m !! k end.
Proof. unfold overlay. rewrite lookup_merge. by destruct (p !! k), (m !! k). Qed.

Lemma overlay_empty {A} (m : gmap bytes A) : overlay ∅ m = m.
Proof. apply map_eq. intros k. by rewrite lookup_overlay, lookup_empty. Qed.

Lemma overlay_set {A} (p : gmap bytes (option A)) m k v : overlay (<[k := Some v]> p) m = <[k := v]> (overlay p m).
Proof.
  apply map_eq. intros x. rewrite lookup_overlay. destruct (decide (x = k)) as [->|Hx]; [by rewrite !lookup_insert_eq|].
  by rewrite !lookup_insert_ne, lookup_overlay by done.
Qed.

Lemma overlay_delete {A} (p : gmap bytes (option A)) m k : overlay (<[k := None]> p) m = delete k (overlay p m).
Proof.
  apply map_eq. intros x. rewrite lookup_overlay. destruct (decide (x = k)) as [->|Hx]; [by rewrite lookup_insert_eq, lookup_delete_eq|].
  by rewrite lookup_insert_ne, lookup_delete_ne, lookup_overlay by done.
Qed.

Section Props.
Context `{UuidPkg} `{Badger} `{!BadgerSpec} `{!BadgerOverlap} `{StorePkg} `{!UuidLaws} `{!StoreLaws}.

(** ** The halves make up the write *)

Lemma notify_emit st k v t ver : notify st k v t ver = {| db := db st; hub := emit (hub st) [{| he_Key := k; he_Value := v; he_Type := t; he_Version := ver |}] |}.
Proof. destruct st as [d [l|]]; done. Qed.

Lemma notify_changes_emit st l : notify_changes st l = {| db := db st; hub := emit (hub st) (change_event <$> l) |}.
Proof. destruct (notify_changes_hub st l) as [Hh Hd]. destruct (notify_changes st l). cbn in *. congruence. Qed.

Lemma notify_deleted_emit st l : notify_deleted st l = {| db := db st; hub := emit (hub st) (delete_event <$> l) |}.
Proof. destruct (notify_deleted_hub st l) as [Hh Hd]. destruct (notify_deleted st l). cbn in *. congruence. Qed.

(** Case analysis on the next thing a write does, on both sides at once. *)
Ltac halve := repeat first
  [ done
  | progress cbn [mbind outcome_bind fst snd exec finish_write wrap_err need_key]
  | rewrite notify_emit | rewrite notify_changes_emit | rewrite notify_deleted_emit
  | match goal with
    | E : txn_Commit ?d ?t = _ |- context [txn_Commit ?d ?t] => rewrite E
    | |- context [need_key ?k] => destruct k
    | |- context [wrap_err _ (txn_Commit ?d ?t)] => destruct (txn_Commit d t) eqn:?
    | |- context [wrap_err _ ?x] => lazymatch x with context [match _ with _ => _ end] => fail | _ => destruct x end
    | |- context [batch_loop ?a ?b ?c ?d ?e] => destruct (batch_loop a b c d e) as [[? ?]|?|]
    | |- context [reclaim_loop ?a ?b ?c] => destruct (reclaim_loop a b c) as [[? ?]|?|]
    | |- context [txn_Get ?t ?k] => destruct (txn_Get t k)
    | |- context [match ?x with _ => _ end] => lazymatch x with context [match _ with _ => _ end] => fail | _ => destruct x end
    end ].

(** A write is its two halves with nothing in between. *)
Lemma write_halves now st w : run_answer now st w = exec st (p ← begin_write now (db st) w; finish_write st p).
Proof.
  destruct w as [req cv|req cv|req|req cv|req cv|req]; cbn [run_answer begin_write];
    unfold Put, Touch, Remove, Increment, SetBatch, Reclaim, begin_Put, begin_Touch, begin_Remove, begin_Increment, begin_SetBatch, begin_Reclaim, current_version.
  all: halve.
Qed.

(** The store in a database. *)
Definition store_of (d : DB) : model := decode_stored <$> db_view d.

Lemma refines_answer {A} (f : A -> write_answer) (st : KeyValueStorageCtx) (r : result A * KeyValueStorageCtx) (sp : effect A) :
  refines st r sp -> refines st (x ← fst r; Ret (f x), snd r) (let '(x, m, evs) := sp in (a ← x; Ret (f a), m, evs)).
Proof.
  destruct sp as [[x m] evs]. intros [(E & Hm & Hh)|[HN [e ->]]]; [left|right].
  - split; [cbn in *; by rewrite E|]. by split.
  - split; [done|]. by exists e.
Qed.

Lemma run_refines now (st : KeyValueStorageCtx) w : write_ok w -> refines st (run_answer now st w) (write_spec now (contents st) w).
Proof.
  destruct w as [req cv|req cv|req|req cv|req cv|req]; cbn [write_ok run_answer write_spec].
  - intros (_ & He & Hc). apply refines_answer. by apply Put_refines.
  - intros (_ & He & Hc). apply refines_answer. by apply Touch_refines.
  - intros _. apply refines_answer. apply Remove_refines.
  - intros (_ & He & Hc). apply refines_answer. by apply Increment_refines.
  - intros (HF & Hc & Hr). apply refines_answer. apply SetBatch_refines; [done|done|]. eapply Forall_impl; [exact HF|]. by intros r [_ ?].
  - intros _. apply refines_answer. apply Reclaim_refines.
Qed.

(** A write that has nothing to commit is answered as the store it looked at says. *)
Lemma begin_answer now d w a : write_ok w -> begin_write now d w = Ret (Answer a) -> write_spec now (store_of d) w = (Ret a, store_of d, []).
Proof.
  intros Hok HB. set (st := {| db := d; hub := Some [] |}). pose proof (run_refines now st w Hok) as HR. rewrite write_halves in HR. cbn [db st] in HR. rewrite HB in HR.
  destruct HR as [(E & Hm & Hh)|[_ [e HF]]]; [|done]. change (store_of d) with (contents st) in *.
  destruct (write_spec now (contents st) w) as [[x m] evs]. cbn in *. injection Hh as <-. by subst x m.
Qed.

(** ** Transactions and what they would do elsewhere *)

(** The view of a transaction is its changes over the snapshot. *)
Definition tracks (d : DB) (t : Txn) : Prop := txn_base t = d /\ txn_view t = overlay (txn_puts t) (db_view d).

Lemma tracks_begin d u : tracks d (NewTransaction d u).
Proof. destruct (begin_spec d u) as [Hv Hb]. split; [done|]. by rewrite Hv, begin_puts, overlay_empty. Qed.

(** What a transaction leaves in a database [d']. *)
Definition lands (t : Txn) (d' : DB) : model := decode_stored <$> overlay (txn_puts t) (db_view d').

Lemma lands_begin d u d' : lands (NewTransaction d u) d' = store_of d'.
Proof. unfold lands. by rewrite begin_puts, overlay_empty. Qed.

Lemma tracks_set d t e t' : tracks d t -> txn_SetEntry t e = Ret t' ->
  tracks d t' /\ forall d', lands t' d' = <[ent_Key e := decode_stored (ent_Value e, ent_UserMeta e)]> (lands t d').
Proof.
  intros [Hb Hv] Hs. pose proof (set_spec t e) as HS. rewrite Hs in HS. destruct HS as [Hv' Hb']. pose proof (set_puts t e t' Hs) as Hp. split.
  - split; [congruence|]. by rewrite Hv', Hv, Hp, overlay_set.
  - intros d'. unfold lands. by rewrite Hp, overlay_set, fmap_insert.
Qed.

Lemma tracks_delete d t k t' : tracks d t -> txn_Delete t k = Ret t' -> tracks d t' /\ forall d', lands t' d' = delete k (lands t d').
Proof.
  intros [Hb Hv] Hs. pose proof (delete_spec t k) as HS. rewrite Hs in HS. destruct HS as [Hv' Hb']. pose proof (delete_puts t k t' Hs) as Hp. split.
  - split; [congruence|]. by rewrite Hv', Hv, Hp, overlay_delete.
  - intros d'. unfold lands. by rewrite Hp, overlay_delete, fmap_delete.
Qed.

(** Where the databases agree the transaction would see the same. *)
Lemma lands_seen d t d' k : tracks d t -> db_view d' !! k = db_view d !! k -> lands t d' !! k = txn_contents t !! k.
Proof. intros [_ Hv] Hk. unfold lands, txn_contents. rewrite !lookup_fmap, Hv, !lookup_overlay, Hk. done. Qed.

Lemma begin_seen d d' k : db_view d' !! k = db_view d !! k -> store_of d' !! k = txn_contents (NewTransaction d true) !! k.
Proof. intros Hk. rewrite <- (lands_begin d true d'). apply (lands_seen d); [apply tracks_begin|done]. Qed.

(** The common end of the first halves: one entry is set in a new transaction. *)
Lemma set_lands d d' k x v ex meta m t : is_uint64 v -> is_int64 ex ->
  wrap_err m (txn_SetEntry (NewTransaction d true) {| ent_Key := k; ent_Value := EncodeEnvelope (int64 v) ex x; ent_UserMeta := meta |}) = Ret t ->
  txn_base t = d /\ lands t d' = <[k := {| e_version := v; e_expires := ex; e_value := x; e_meta := meta |}]> (store_of d').
Proof.
  intros Hv Hx Hs. destruct (txn_SetEntry _ _) as [t0|?|] eqn:Es; [|done..]. injection Hs as <-.
  destruct (tracks_set d _ _ _ (tracks_begin d true) Es) as [[Hb _] HL]. split; [done|]. rewrite HL, lands_begin. cbn [ent_Key ent_Value ent_UserMeta].
  by rewrite decode_written.
Qed.

(** The entry a first half has read, in the snapshot and in the later database. *)
Ltac seen d d' k Hag :=
  let it := fresh "it" in let data := fresh "data" in let Ev := fresh "Ev" in let Hs := fresh "Hs" in let e := fresh "e" in let Eg := fresh "Eg" in
  pose proof (begin_seen d d' k Hag) as Hs;
  destruct (get_cases (NewTransaction d true) k) as [[Eg Eo]|[(it & data & Eg & Ev & Eo)|[_ [[e Eg]|(it & e & Eg & Ev)]]]];
  rewrite Eg; try rewrite Eo in Hs; [ |rewrite Ev|discriminate|rewrite Ev; discriminate]; rewrite Hs; cbn [wrap_err mbind outcome_bind].

(** The changes are in a transaction, and only the set of the entry is left. *)
Ltac landed d' :=
  let t := fresh "t" in let Es := fresh "Es" in
  match goal with |- context [wrap_err ?m (txn_SetEntry ?t0 ?en)] => destruct (wrap_err m (txn_SetEntry t0 en)) as [t|?|] eqn:Es; [|discriminate..] end;
  cbn [mbind outcome_bind]; intros [= <- <- <- <- <-];
  apply (set_lands _ d') in Es as [Eb El]; [|first [by apply next_version_uint64|apply wrap64_range|done]|by apply resolveExpiry_int64]; by rewrite El.

(** The keys a write reads. *)
Definition key_read (k : option Key) : gset bytes := match k with Some key => {[enc_key key]} | None => ∅ end.

Definition write_reads (w : write) : gset bytes :=
  match w with
  | WPut req _ | WTouch req _ => key_read (rr_Key req)
  | WRemove _ => ∅
  | WIncrement req _ => key_read (ir_Key req)
  | WSetBatch req cv => batch_reads cv (br_Records req)
  | WReclaim req => list_to_set (re_EntryKey <$> rc_Entries req)
  end.

Ltac reads_of := repeat first
  [ done
  | progress cbn [mbind outcome_bind wrap_err need_key]
  | by intros [= <-]
  | match goal with
    | |- context [match ?x with _ => _ end] => lazymatch x with context [match _ with _ => _ end] => fail | _ => destruct x end
    | |- context [wrap_err _ ?x] => lazymatch x with context [match _ with _ => _ end] => fail | _ => destruct x end
    end ].

Lemma begin_reads now d w R t msg a evs : begin_write now d w = Ret (Prepared R t msg a evs) -> R = write_reads w.
Proof.
  destruct w as [req cv|req cv|req|req cv|req cv|req]; cbn [begin_write write_reads];
    unfold begin_Put, begin_Touch, begin_Remove, begin_Increment, begin_SetBatch, begin_Reclaim, current_version, key_read.
  - destruct (rr_Key req) as [key|]; [|done]. cbn [need_key mbind outcome_bind]. rewrite EncodeKey_layout. reads_of.
  - destruct (rr_Key req) as [key|]; [|done]. cbn [need_key mbind outcome_bind]. rewrite EncodeKey_layout. reads_of.
  - destruct (kr_Key req) as [key|]; [|done]. cbn [need_key mbind outcome_bind]. rewrite EncodeKey_layout. reads_of.
  - destruct (ir_Key req) as [key|]; [|done]. cbn [need_key mbind outcome_bind]. rewrite EncodeKey_layout. reads_of.
  - destruct (batch_loop _ _ _ _ _) as [[t1 l]|?|]; reads_of.
  - destruct (_ =? 0); [done|]. destruct (reclaim_loop _ _ _) as [[t1 l]|?|]; reads_of.
Qed.

(** The databases agree where the write reads. *)
Definition agree (w : write) (d d' : DB) : Prop := forall k, k ∈ write_reads w -> db_view d' !! k = db_view d !! k.

(** Run on a database that agrees, the write does what its transaction would leave there. *)
Definition lands_as (now : Z) (d d' : DB) (w : write) : Prop := forall R t msg a evs,
  begin_write now d w = Ret (Prepared R t msg a evs) -> write_spec now (store_of d') w = (Ret a, lands t d', evs) /\ txn_base t = d.

Lemma Put_lands now d req cv d' : is_int64 (rr_ExpiresAt req) -> is_uint64 cv -> agree (WPut req cv) d d' -> lands_as now d d' (WPut req cv).
Proof.
  intros He Hc Hag R t msg a evs. cbn [begin_write write_spec]. unfold agree, begin_Put, put_spec in *. cbn [write_reads] in Hag. destruct (rr_Key req) as [key|]; [|done].
  specialize (Hag (enc_key key) ltac:(cbn [key_read]; by apply elem_of_singleton)).
  cbn [need_key mbind outcome_bind]. rewrite EncodeKey_layout. cbn iota beta. unfold current_version. seen d d' (enc_key key) Hag.
  - unfold cas_matches, next_version. cbn [default fmap option_fmap option_map from_option id].
    destruct (rr_CompareAndSet req), (rr_Version req =? 0); cbn [negb andb]; try discriminate; destruct (cv =? 0); landed d'.
  - unfold decode_stored, cas_matches, next_version. cbn [fst snd fmap option_fmap option_map default from_option id].
    destruct (DecodeEnvelope data) as [[v x] val]. cbn [mbind outcome_bind e_version].
    destruct (rr_CompareAndSet req), (rr_Version req =? wrap64 v); cbn [negb andb]; try discriminate; destruct (cv =? 0); landed d'.
Qed.

Lemma Touch_lands now d req cv d' : is_int64 (rr_ExpiresAt req) -> is_uint64 cv -> agree (WTouch req cv) d d' -> lands_as now d d' (WTouch req cv).
Proof.
  intros He Hc Hag R t msg a evs. cbn [begin_write write_spec]. unfold agree, begin_Touch, touch_spec in *. cbn [write_reads] in Hag. destruct (rr_Key req) as [key|]; [|done].
  specialize (Hag (enc_key key) ltac:(cbn [key_read]; by apply elem_of_singleton)).
  cbn [need_key mbind outcome_bind]. rewrite EncodeKey_layout. cbn iota beta. seen d d' (enc_key key) Hag; [discriminate|].
  unfold decode_stored, next_version. cbn [fst snd]. destruct (DecodeEnvelope data) as [[v x] val].
  cbn [mbind outcome_bind e_version e_value e_meta default fmap option_fmap option_map from_option id]. destruct (cv =? 0); landed d'.
Qed.

Lemma Increment_lands now d req cv d' : is_int64 (ir_ExpiresAt req) -> is_uint64 cv -> agree (WIncrement req cv) d d' -> lands_as now d d' (WIncrement req cv).
Proof.
  intros He Hc Hag R t msg a evs. cbn [begin_write write_spec]. unfold agree, begin_Increment, increment_spec in *. cbn [write_reads] in Hag. destruct (ir_Key req) as [key|]; [|done].
  specialize (Hag (enc_key key) ltac:(cbn [key_read]; by apply elem_of_singleton)).
  cbn [need_key mbind outcome_bind]. rewrite EncodeKey_layout. cbn iota beta. seen d d' (enc_key key) Hag.
  - unfold next_version, counter_of. cbn [default fmap option_fmap option_map from_option id]. destruct (cv =? 0); landed d'.
  - unfold counterFromEnvelope, decode_stored, next_version, counter_of. cbn [fst snd]. destruct (DecodeEnvelope data) as [[v x] val].
    cbn [mbind outcome_bind e_version e_value default fmap option_fmap option_map from_option id]. destruct (cv =? 0); landed d'.
Qed.

Lemma Remove_lands now d req d' : lands_as now d d' (WRemove req).
Proof.
  intros R t msg a evs. cbn [begin_write write_spec]. unfold begin_Remove, remove_spec. destruct (kr_Key req) as [key|]; [|done].
  cbn [need_key mbind outcome_bind]. rewrite EncodeKey_layout. cbn iota beta.
  destruct (txn_Delete (NewTransaction d true) (enc_key key)) as [t1|?|] eqn:Ed; cbn [wrap_err mbind outcome_bind]; [|done..]. intros [= <- <- <- <- <-].
  destruct (tracks_delete d _ _ _ (tracks_begin d true) Ed) as [[Hb _] HL]. by rewrite HL, lands_begin.
Qed.

Lemma batch_reads_head r key records : rr_Key r = Some key -> enc_key key ∈ batch_reads 0 (r :: records).
Proof.
  intros Ek. unfold batch_reads. rewrite Z.eqb_refl. apply elem_of_list_to_set, list_elem_of_omap. exists r. split; [left|].
  rewrite Ek. cbn [fmap option_fmap option_map]. by rewrite EncodeKey_layout.
Qed.

Lemma batch_reads_tail r records cv k : k ∈ batch_reads cv records -> k ∈ batch_reads cv (r :: records).
Proof.
  unfold batch_reads. destruct (cv =? 0); [|done]. rewrite !elem_of_list_to_set, !list_elem_of_omap. intros (x & Hx & Ek). exists x. split; [by right|done].
Qed.

Lemma batch_loop_lands now cv records d t pending d' t' l : is_uint64 cv -> cv <> 0 \/ BadgerReliable ->
  Forall (fun r => is_int64 (rr_ExpiresAt r)) records -> tracks d t -> (forall k, k ∈ batch_reads cv records -> db_view d' !! k = db_view d !! k) ->
  batch_loop now cv records t pending = Ret (t', l) ->
  exists more, l = pending ++ more /\ tracks d t' /\ batch_fold now cv records (lands t d') = Ret (lands t' d', change_event <$> more).
Proof.
  intros Hcv Hor HF. revert t pending. induction HF as [|r records Hr HF IH]; intros t pending Ht Hag HB; cbn [batch_loop batch_fold] in *.
  - injection HB as <- <-. exists []. by rewrite app_nil_r.
  - destruct (rr_Key r) as [key|] eqn:Ek; cbn [need_key mbind outcome_bind] in *; [|done]. rewrite EncodeKey_layout in HB. cbn iota beta in HB.
    destruct (batch_version_cases t (enc_key key) cv Hcv Hor) as [Ebv|[_ [e Ebv]]]; rewrite Ebv in HB; cbn [mbind outcome_bind] in HB; [|done].
    assert (next_version cv (lands t d' !! enc_key key) = next_version cv (txn_contents t !! enc_key key)) as Env.
    { unfold next_version. destruct (Z.eqb_spec cv 0) as [->|_]; [|done]. rewrite (lands_seen d t d'); [done|done|]. apply Hag. by apply (batch_reads_head r). }
    rewrite Env. set (v := next_version cv (txn_contents t !! enc_key key)) in *.
    assert (is_uint64 v) as Hv by (by apply next_version_uint64).
    match type of HB with context [txn_SetEntry t ?en] => destruct (txn_SetEntry t en) as [t1|?|] eqn:Es end; cbn [wrap_err mbind outcome_bind] in HB; [|done..].
    destruct (tracks_set d t _ t1 Ht Es) as [Ht1 HL]. destruct (IH t1 _ Ht1 ltac:(intros k Hk; by apply Hag, batch_reads_tail) HB)
      as (more & -> & Ht' & Hf).
    rewrite HL in Hf. cbn [ent_Key ent_Value ent_UserMeta] in Hf. rewrite decode_written in Hf by (done || by apply resolveExpiry_int64).
    eexists (_ :: more). rewrite <- app_assoc. split; [reflexivity|]. split; [done|]. rewrite Hf. cbn [mbind outcome_bind]. rewrite fmap_cons. done.
Qed.

Lemma SetBatch_lands now d req cv d' : write_ok (WSetBatch req cv) -> agree (WSetBatch req cv) d d' -> lands_as now d d' (WSetBatch req cv).
Proof.
  intros (HF & Hc & Hor) Hag R t msg a evs. cbn [begin_write write_spec]. unfold begin_SetBatch, batch_spec.
  destruct (batch_loop now cv (br_Records req) (NewTransaction d true) []) as [[t1 l]|?|] eqn:Eb; cbn [mbind outcome_bind]; [|done..]. intros [= <- <- <- <- <-].
  destruct (batch_loop_lands now cv (br_Records req) d _ [] d' t1 l Hc Hor ltac:(eapply Forall_impl; [exact HF|]; by intros r [_ ?]) (tracks_begin d true) Hag Eb)
    as (more & -> & [Hb _] & Hf). rewrite lands_begin in Hf. by rewrite Hf.
Qed.

Lemma reclaim_loop_lands es d t deleted d' t' l : tracks d t -> (forall k, k ∈@{gset bytes} list_to_set (re_EntryKey <$> es) -> db_view d' !! k = db_view d !! k) ->
  reclaim_loop es t deleted = Ret (t', l) ->
  exists more, l = deleted ++ more /\ tracks d t' /\ reclaim_fold es (lands t d') = (lands t' d', more).
Proof.
  revert t deleted. induction es as [|e es IH]; intros t deleted Ht Hag HR; cbn [reclaim_loop reclaim_fold] in *.
  - injection HR as <- <-. exists []. by rewrite app_nil_r.
  - pose proof (lands_seen d t d' (re_EntryKey e) Ht ltac:(apply Hag; set_solver)) as Hseen.
    assert (forall k, k ∈@{gset bytes} list_to_set (re_EntryKey <$> es) -> db_view d' !! k = db_view d !! k) as Hag' by (intros k Hk; apply Hag; set_solver).
    destruct (get_cases t (re_EntryKey e)) as [[Eg Eo]|[(it & data & Eg & Ev & Eo)|[_ [[er Eg]|(it & er & Eg & Ev)]]]]; rewrite Eg in HR; try rewrite Ev in HR; cbn [wrap_err mbind outcome_bind] in HR; [| |done|done].
    + rewrite Eo in Hseen. rewrite Hseen. by apply IH.
    + rewrite Eo in Hseen. rewrite Hseen. unfold decode_stored in *. cbn [fst snd] in *. destruct (DecodeEnvelope data) as [[v x] val]. cbn [e_version].
      destruct (wrap64 v =? re_Version e); cbn [negb] in HR; [|by apply IH].
      destruct (txn_Delete t (re_EntryKey e)) as [t1|?|] eqn:Ed; cbn [wrap_err mbind outcome_bind] in HR; [|done..].
      destruct (tracks_delete d t _ t1 Ht Ed) as [Ht1 HL]. destruct (IH t1 _ Ht1 Hag' HR) as (more & -> & Ht' & Hf).
      exists (re_EntryKey e :: more). rewrite <- app_assoc. split; [done|]. split; [done|]. rewrite HL in Hf. by rewrite Hf.
Qed.

Lemma Reclaim_lands now d req d' : agree (WReclaim req) d d' -> lands_as now d d' (WReclaim req).
Proof.
  intros Hag R t msg a evs. cbn [begin_write write_spec]. unfold begin_Reclaim, reclaim_spec. destruct (len (rc_Entries req) =? 0); [done|].
  destruct (reclaim_loop (rc_Entries req) (NewTransaction d true) []) as [[t1 l]|?|] eqn:Er; cbn [mbind outcome_bind]; [|done..].
  destruct (len l =? 0); [done|]. intros [= <- <- <- <- <-].
  destruct (reclaim_loop_lands (rc_Entries req) d _ [] d' t1 l (tracks_begin d true) Hag Er) as (more & -> & [Hb _] & Hf).
  rewrite lands_begin in Hf. by rewrite Hf.
Qed.

Lemma write_lands now d d' w : write_ok w -> agree w d d' -> lands_as now d d' w.
Proof.
  destruct w as [req cv|req cv|req|req cv|req cv|req]; intros Hok Hag.
  - destruct Hok as (_ & ? & ?). by apply Put_lands.
  - destruct Hok as (_ & ? & ?). by apply Touch_lands.
  - apply Remove_lands.
  - destruct Hok as (_ & ? & ?). by apply Increment_lands.
  - by apply SetBatch_lands.
  - by apply Reclaim_lands.
Qed.

(** A commit that succeeds has the effect of the write, run at that moment. *)
Lemma commit_is_write now d w R t msg a evs d1 d2 : write_ok w -> begin_write now d w = Ret (Prepared R t msg a evs) -> commit_at d1 R t = Ret d2 ->
  write_spec now (store_of d1) w = (Ret a, store_of d2, evs).
Proof.
  intros Hok HB HC. pose proof (commit_overlap d1 R t) as HO. rewrite HC in HO. destruct HO as [Hag Hv].
  pose proof (begin_reads now d w R t msg a evs HB) as ->.
  assert (txn_base t = d) as Hb by (by eapply (write_lands now d d w Hok)).
  rewrite Hb in Hag. destruct (write_lands now d d1 w Hok Hag _ t msg a evs HB) as [Hs _]. rewrite Hs. unfold lands. rewrite <- Hv. done.
Qed.

(** ** Serial traces *)

Definition pointed (id : nat) (tr : list tick) : Prop := exists w now a, Point id w now a ∈ tr.
Definition finished (id : nat) (tr : list tick) : Prop := exists r, Finished id r ∈ tr.

(** A trace that is right at every tick: a write takes its effect once, after it began and before
    it returns, and its answer is the one of the serial store at that point; one that fails has no
    effect; a read finds what the serial store holds. *)
Inductive trace_ok (m0 : model) : list tick -> Prop :=
| tr_nil : trace_ok m0 []
| tr_began tr id : trace_ok m0 tr -> Began id ∉ tr -> trace_ok m0 (tr ++ [Began id])
| tr_point tr id w now a : trace_ok m0 tr -> Began id ∈ tr -> ~ pointed id tr -> ~ finished id tr ->
    fst (fst (write_spec now (serial m0 tr) w)) = Ret a -> trace_ok m0 (tr ++ [Point id w now a])
| tr_finished tr id r : trace_ok m0 tr -> Began id ∈ tr ->
    match r with Ret a => exists w now, Point id w now a ∈ tr | Fail _ => ~ pointed id tr | Panic => False end -> trace_ok m0 (tr ++ [Finished id r])
| tr_saw tr now req r : trace_ok m0 tr ->
    match r with
    | Ret x => exists key size, kr_Key req = Some key /\ x = get_spec_rec now (serial m0 tr) key size (kr_HeadOnly req)
    | Fail _ => True
    | Panic => False
    end -> trace_ok m0 (tr ++ [Saw now req r]).

Lemma trace_prefix m0 tr x tr' : trace_ok m0 (tr ++ x :: tr') -> trace_ok m0 (tr ++ [x]).
Proof.
  induction tr' as [|y tr' IH] using rev_ind; [done|]. rewrite app_comm_cons, app_assoc. intros HT. apply IH.
  inversion HT as [E|? ? ? ? E|? ? ? ? ? ? ? ? ? ? E|? ? ? ? ? ? E|? ? ? ? ? ? E]; [by destruct tr|apply app_inj_tail in E as [<- _]; done..].
Qed.

(** The last tick of a trace. *)
Ltac last_tick HT :=
  let E := fresh "E" in
  inversion HT as [E|? ? ? ? E|? ? ? ? ? ? ? ? ? ? E|? ? ? ? ? ? E|? ? ? ? ? ? E]; clear HT;
  first [by destruct (app_cons_not_nil _ _ _ E)|apply app_inj_tail in E as [-> [=]]]; subst.

Lemma trace_point m0 tr id w now a tr' : trace_ok m0 (tr ++ Point id w now a :: tr') ->
  trace_ok m0 tr /\ Began id ∈ tr /\ ~ pointed id tr /\ ~ finished id tr /\ fst (fst (write_spec now (serial m0 tr) w)) = Ret a.
Proof. intros HT%trace_prefix. last_tick HT; done. Qed.

Lemma trace_finished m0 tr id r tr' : trace_ok m0 (tr ++ Finished id r :: tr') ->
  Began id ∈ tr /\ match r with Ret a => exists w now, Point id w now a ∈ tr | Fail _ => ~ pointed id tr | Panic => False end.
Proof. intros HT%trace_prefix. last_tick HT; done. Qed.

Lemma trace_saw m0 tr now req r tr' : trace_ok m0 (tr ++ Saw now req r :: tr') ->
  match r with
  | Ret x => exists key size, kr_Key req = Some key /\ x = get_spec_rec now (serial m0 tr) key size (kr_HeadOnly req)
  | Fail _ => True
  | Panic => False
  end.
Proof. intros HT%trace_prefix. last_tick HT; done. Qed.

Lemma trace_began m0 tr id tr' : trace_ok m0 (tr ++ Began id :: tr') -> Began id ∉ tr.
Proof. intros HT%trace_prefix. last_tick HT; done. Qed.

Lemma pointed_snoc id tr x : pointed id (tr ++ [x]) <-> pointed id tr \/ exists w now a, x = Point id w now a.
Proof.
  unfold pointed. split.
  - intros (w & now & a & [Hin|Hin]%elem_of_app); [left; by exists w, now, a|right]. apply list_elem_of_singleton in Hin. by exists w, now, a.
  - intros [(w & now & a & Hin)|(w & now & a & ->)]; exists w, now, a; apply elem_of_app; [by left|right; left].
Qed.

Lemma finished_snoc id tr x : finished id (tr ++ [x]) <-> finished id tr \/ exists r, x = Finished id r.
Proof.
  unfold finished. split.
  - intros (r & [Hin|Hin]%elem_of_app); [left; by exists r|right]. apply list_elem_of_singleton in Hin. by exists r.
  - intros [(r & Hin)|(r & ->)]; exists r; apply elem_of_app; [by left|right; left].
Qed.

Lemma point_unique m0 tr1 tr2 tr1' tr2' id w now a w' now' a' : trace_ok m0 (tr1 ++ Point id w now a :: tr2) ->
  tr1 ++ Point id w now a :: tr2 = tr1' ++ Point id w' now' a' :: tr2' -> tr1' = tr1 /\ w' = w /\ now' = now /\ a' = a.
Proof.
  intros HT E. pose proof HT as HT'. rewrite E in HT'. apply trace_point in HT as (_ & _ & HN & _), HT' as (_ & _ & HN' & _).
  apply app_eq_inv in E as [(k & Ek & Ek')|(k & Ek & Ek')]; destruct k as [|x k]; cbn in *; simplify_eq; rewrite ?app_nil_r; try done.
  - destruct HN. exists w', now', a'. apply elem_of_app. right. left.
  - destruct HN'. exists w, now, a. apply elem_of_app. right. left.
Qed.

(** ** The invariant *)

Definition op_ok (m0 : model) (h : list HubEvent) (tr : list tick) (id : nat) (o : op) : Prop :=
  write_ok (op_write o) /\ Began id ∈ tr /\
  match op_state o with
  | Committing p => ~ pointed id tr /\ exists d R t msg a evs, p = Prepared R t msg a evs /\ begin_write (op_clock o) d (op_write o) = Ret p
  | Ending (Ret a) evs => exists tr1 tr2, tr = tr1 ++ Point id (op_write o) (op_clock o) a :: tr2 /\
      forall ev, ev ∈ snd (write_spec (op_clock o) (serial m0 tr1) (op_write o)) -> ev ∈ h \/ ev ∈ evs
  | Ending (Fail _) evs => ~ pointed id tr /\ evs = []
  | Ending Panic _ => False
  | Ended => True
  end.

(** The changes of a write that has returned are announced. *)
Definition announced (m0 : model) (h : list HubEvent) (tr : list tick) : Prop := forall tr1 id w now a tr2 ev,
  tr = tr1 ++ Point id w now a :: tr2 -> finished id tr -> ev ∈ snd (write_spec now (serial m0 tr1) w) -> ev ∈ h.

Record busy_inv (m0 : model) (s : busy) : Prop := {
  bi_trace : trace_ok m0 (bz_trace s);
  bi_store : store_of (bz_db s) = serial m0 (bz_trace s);
  bi_ids : forall id, Began id ∈ bz_trace s -> is_Some (bz_ops s !! id);
  bi_done : forall id o, bz_ops s !! id = Some o -> finished id (bz_trace s) -> op_state o = Ended;
  bi_ops : map_Forall (op_ok m0 (bz_hub s) (bz_trace s)) (bz_ops s);
  bi_announced : announced m0 (bz_hub s) (bz_trace s)
}.

(** More announcements and ticks that are no point of this write. *)
Lemma op_ok_more m0 h tr id o h' x : op_ok m0 h tr id o -> (forall ev, ev ∈ h -> ev ∈ h') -> (forall w now a, x <> Point id w now a) -> op_ok m0 h' (tr ++ [x]) id o.
Proof.
  intros (Hw & Hb & Hst) Hh Hx. split; [done|]. split; [apply elem_of_app; by left|].
  assert (~ pointed id tr -> ~ pointed id (tr ++ [x])) as HN by (intros HN [?|(w & now & a & ->)]%pointed_snoc; [done|by eapply Hx]).
  destruct (op_state o) as [p|[a|e|] evs|]; [|.. | |done].
  - destruct Hst as [? ?]. auto.
  - destruct Hst as (tr1 & tr2 & -> & He). exists tr1, (tr2 ++ [x]). rewrite <- app_assoc. split; [done|]. intros ev Hev. destruct (He ev Hev); auto.
  - destruct Hst as [? ?]. auto.
  - done.
Qed.

Lemma op_ok_hub m0 h tr id o h' : op_ok m0 h tr id o -> (forall ev, ev ∈ h -> ev ∈ h') -> op_ok m0 h' tr id o.
Proof.
  intros (Hw & Hb & Hst) Hh. split; [done|]. split; [done|]. destruct (op_state o) as [p|[a|e|] evs|]; try done.
  destruct Hst as (tr1 & tr2 & -> & He). exists tr1, tr2. split; [done|]. intros ev Hev. destruct (He ev Hev); auto.
Qed.

Lemma announced_more m0 h tr x h' : announced m0 h tr -> (forall ev, ev ∈ h -> ev ∈ h') ->
  (forall id, (exists r, x = Finished id r) -> forall tr1 w now a tr2 ev, tr = tr1 ++ Point id w now a :: tr2 -> ev ∈ snd (write_spec now (serial m0 tr1) w) -> ev ∈ h') ->
  (forall id w now a, x = Point id w now a -> ~ finished id tr) -> announced m0 h' (tr ++ [x]).
Proof.
  intros HA Hh HF HP tr1 id w now a tr2 ev E Hfin Hev. destruct tr2 as [|y tr2 _] using rev_ind.
  - apply app_inj_tail in E as [-> ->]. apply finished_snoc in Hfin as [Hfin|[r [=]]]. by destruct (HP id w now a eq_refl).
  - rewrite app_comm_cons, app_assoc in E. apply app_inj_tail in E as [E ->]. apply finished_snoc in Hfin as [Hfin|Hfin].
    + apply Hh. by eapply (HA tr1 id w now a tr2).
    + by eapply (HF id).
Qed.

Lemma serial_snoc m tr x : serial m (tr ++ [x]) = serial_step (serial m tr) x.
Proof. unfold serial. by rewrite fold_left_app. Qed.

Lemma finished_began m0 tr id : trace_ok m0 tr -> finished id tr -> Began id ∈ tr.
Proof. intros HT [r (tr1 & tr2 & ->)%list_elem_of_split]. apply trace_finished in HT as [Hb _]. apply elem_of_app. by left. Qed.

(** A tick of one write. *)
Lemma inv_tick m0 s d' h' id o x : busy_inv m0 s ->
  (x = Began id \/ (exists w now a, x = Point id w now a) \/ (exists r, x = Finished id r /\ op_state o = Ended)) ->
  trace_ok m0 (bz_trace s ++ [x]) -> store_of d' = serial_step (serial m0 (bz_trace s)) x -> (forall ev, ev ∈ bz_hub s -> ev ∈ h') ->
  op_ok m0 h' (bz_trace s ++ [x]) id o -> (finished id (bz_trace s) -> op_state o = Ended) ->
  (forall r, x = Finished id r -> forall tr1 w now a tr2 ev, bz_trace s = tr1 ++ Point id w now a :: tr2 -> ev ∈ snd (write_spec now (serial m0 tr1) w) -> ev ∈ h') ->
  busy_inv m0 {| bz_db := d'; bz_hub := h'; bz_ops := <[id := o]> (bz_ops s); bz_trace := bz_trace s ++ [x] |}.
Proof.
  intros [HT HS HI HD HO HA] Hx HT' HS' Hh Hok Hend Hann. split; cbn [bz_db bz_hub bz_ops bz_trace].
  - done.
  - by rewrite serial_snoc.
  - intros id' [Hb|Hb]%elem_of_app.
    + destruct (decide (id' = id)) as [->|Hne]; [rewrite lookup_insert_eq; by eexists|]. rewrite lookup_insert_ne by done. by apply HI.
    + apply list_elem_of_singleton in Hb. destruct Hx as [->|[(w & now & a & ->)|(r & -> & _)]]; simplify_eq. rewrite lookup_insert_eq. by eexists.
  - intros id' o' [[<- <-]|[Hne Ho]]%lookup_insert_Some [Hf|[r ->]]%finished_snoc.
    + by apply Hend.
    + destruct Hx as [?|[(? & ? & ? & ?)|(r' & ? & ?)]]; done.
    + by apply (HD id').
    + destruct Hx as [?|[(? & ? & ? & ?)|(r' & ? & ?)]]; simplify_eq.
  - intros id' o' [[<- <-]|[Hne Ho]]%lookup_insert_Some; [done|]. eapply op_ok_more; [by apply HO|done|]. intros w now a ->.
    destruct Hx as [?|[(? & ? & ? & ?)|(r' & ? & ?)]]; simplify_eq.
  - eapply announced_more; [exact HA|done| |].
    + intros id' [r ->]. destruct Hx as [?|[(? & ? & ? & ?)|(r' & ? & ?)]]; simplify_eq. by eapply Hann.
    + intros id' w now a -> Hf. apply trace_point in HT' as (_ & _ & _ & HN & _). done.
Qed.

(** A change of one write without a tick. *)
Lemma inv_quiet m0 s h' id o : busy_inv m0 s -> (forall ev, ev ∈ bz_hub s -> ev ∈ h') -> op_ok m0 h' (bz_trace s) id o ->
  (finished id (bz_trace s) -> op_state o = Ended) ->
  busy_inv m0 {| bz_db := bz_db s; bz_hub := h'; bz_ops := <[id := o]> (bz_ops s); bz_trace := bz_trace s |}.
Proof.
  intros [HT HS HI HD HO HA] Hh Hok Hend. split; cbn [bz_db bz_hub bz_ops bz_trace]; [done|done| | | |].
  - intros id' Hb. destruct (decide (id' = id)) as [->|Hne]; [rewrite lookup_insert_eq; by eexists|]. rewrite lookup_insert_ne by done. by apply HI.
  - intros id' o' [[<- <-]|[Hne Ho]]%lookup_insert_Some Hf; [by apply Hend|]. by apply (HD id').
  - intros id' o' [[<- <-]|[Hne Ho]]%lookup_insert_Some; [done|]. eapply op_ok_hub; [by apply HO|done].
  - intros tr1 id' w now a tr2 ev E Hf Hev. apply Hh. by eapply HA.
Qed.

Lemma inv_begin m0 id now w s s' : write_ok w -> busy_inv m0 s -> begin_step id now w s = Some s' -> busy_inv m0 s'.
Proof.
  intros Hok HI. unfold begin_step. destruct (bz_ops s !! id) as [?|] eqn:Eid; [done|].
  assert (Began id ∉ bz_trace s) as Hnb by (intros Hb; destruct (bi_ids m0 s HI id Hb); congruence).
  assert (~ finished id (bz_trace s)) as Hnf by (intros Hf; apply Hnb; by apply (finished_began m0); [apply HI|]).
  assert (~ pointed id (bz_trace s)) as Hnp.
  { intros (w' & now' & a' & (tr1 & tr2 & E)%list_elem_of_split). pose proof (bi_trace m0 s HI) as HT. rewrite E in HT.
    apply trace_point in HT as (_ & Hb & _). apply Hnb. rewrite E. apply elem_of_app. by left. }
  assert (trace_ok m0 (bz_trace s ++ [Began id])) as HT by (constructor; [apply HI|done]).
  assert (forall o, op_ok m0 (bz_hub s) (bz_trace s ++ [Began id]) id o -> busy_inv m0 (with_op id o [Began id] s)) as HB.
  { intros o Ho. apply inv_tick; [done|by left|done|apply HI|done|done|done|done]. }
  assert (Began id ∈ bz_trace s ++ [Began id]) as Hin by (apply elem_of_app; right; left).
  assert (~ pointed id (bz_trace s ++ [Began id])) as Hnp' by (intros [?|(? & ? & ? & ?)]%pointed_snoc; done).
  destruct (begin_write now (bz_db s) w) as [[a|R t msg a evs]|e|] eqn:Eb; [| | |done]; intros [= <-].
  - pose proof (begin_answer now (bz_db s) w a Hok Eb) as Hsp. rewrite (bi_store m0 s HI) in Hsp.
    set (o0 := {| op_write := w; op_clock := now; op_state := Ended |}). pose proof (HB o0 ltac:(done)) as HI1.
    set (o1 := {| op_write := w; op_clock := now; op_state := Ending (Ret a) [] |}).
    replace (with_op id o1 [Began id; Point id w now a] s) with
      {| bz_db := bz_db s; bz_hub := bz_hub s; bz_ops := <[id := o1]> (bz_ops (with_op id o0 [Began id] s)); bz_trace := bz_trace (with_op id o0 [Began id] s) ++ [Point id w now a] |}.
    2: { unfold with_op. cbn. rewrite insert_insert_eq, <- app_assoc. done. }
    assert (serial m0 (bz_trace s ++ [Began id]) = serial m0 (bz_trace s)) as Hser by (by rewrite serial_snoc).
    apply inv_tick; cbn [with_op bz_trace bz_hub]; [done|right; left; eauto| | |done| | |done].
    + constructor; [done|done|done| |by rewrite Hser, Hsp]. intros [?|[? ?]]%finished_snoc; done.
    + rewrite Hser. cbn [serial_step]. rewrite Hsp. apply HI.
    + split; [done|]. split; [apply elem_of_app; by left|]. cbn. exists (bz_trace s ++ [Began id]), []. split; [done|]. rewrite Hser, Hsp. cbn. intros ev Hev. by apply not_elem_of_nil in Hev.
    + intros [?|[? ?]]%finished_snoc; done.
  - apply HB. split; [done|]. split; [done|]. cbn. split; [done|]. by exists (bz_db s), R, t, msg, a, evs.
  - apply HB. split; [done|]. split; [done|]. by cbn.
Qed.

Lemma inv_op m0 id s s' : busy_inv m0 s -> op_step id s = Some s' -> busy_inv m0 s'.
Proof.
  intros HI. unfold op_step. destruct (bz_ops s !! id) as [o|] eqn:Eo; [|done]. pose proof (bi_ops m0 s HI id o Eo) as (Hok & Hb & Hst).
  assert (finished id (bz_trace s) -> op_state o = Ended) as Hend by apply (bi_done m0 s HI id o Eo).
  destruct (op_state o) as [[a|R t msg a evs]|r [|ev evs]|] eqn:Est; [done| | | |done].
  - destruct Hst as (Hnp & d & R' & t' & msg' & a' & evs' & [= <- <- <- <- <-] & HB). pose proof (commit_overlap (bz_db s) R t) as HC.
    destruct (commit_at (bz_db s) R t) as [d'|e|] eqn:Ec; cbn [wrap_err]; [| |done]; intros [= <-].
    + pose proof (commit_is_write _ _ _ _ _ _ _ _ _ _ Hok HB Ec) as Hsp. rewrite (bi_store m0 s HI) in Hsp.
      apply inv_tick; [done|right; left; eauto| | |done| |by intros Hf%Hend|done].
      * constructor; [apply HI|done|done|by intros Hf%Hend|by rewrite Hsp].
      * cbn [serial_step]. by rewrite Hsp.
      * split; [done|]. split; [apply elem_of_app; by left|]. cbn. exists (bz_trace s), []. split; [done|]. rewrite Hsp. cbn. auto.
    + unfold with_op. rewrite app_nil_r. apply inv_quiet; [done|done| |by intros Hf%Hend]. split; [done|]. split; [done|]. by cbn.
  - intros [= <-]. apply inv_tick; [done|right; right; eauto| |apply HI|done| |by intros Hf%Hend|].
    + constructor; [apply HI|done|]. destruct r as [a|e|]; [|apply Hst|done]. destruct Hst as (tr1 & tr2 & -> & _). exists (op_write o), (op_clock o).
      apply elem_of_app. right. left.
    + split; [done|]. split; [apply elem_of_app; by left|]. by cbn.
    + intros r' [= <-] tr1 w now a tr2 ev E Hev. destruct r as [a0|e|]; [| |done].
      * destruct Hst as (tr1' & tr2' & E' & He). pose proof (bi_trace m0 s HI) as HT. rewrite E' in E, HT.
        destruct (point_unique m0 _ _ _ _ _ _ _ _ _ _ _ HT E) as (-> & -> & -> & ->). destruct (He ev Hev) as [?|Hin]; [done|by apply not_elem_of_nil in Hin].
      * destruct Hst as [Hnp _]. destruct Hnp. exists w, now, a. rewrite E. apply elem_of_app. right. left.
  - intros [= <-]. apply inv_quiet; [done|intros x Hx; apply elem_of_app; by left| |by intros Hf%Hend]. split; [done|]. split; [done|]. cbn.
    destruct r as [a|e|]; [|by destruct Hst|done]. destruct Hst as (tr1 & tr2 & E & He). exists tr1, tr2. split; [done|]. intros x Hx.
    destruct (He x Hx) as [Hin|[->|Hin]%elem_of_cons]; [left; apply elem_of_app; by left|left; apply elem_of_app; right; left|by right].
Qed.

Lemma inv_read m0 now req s : busy_inv m0 s -> busy_inv m0 (read_step now req s).
Proof.
  intros HI. pose proof HI as [HT HS Hids HD HO HA]. split; cbn [read_step bz_db bz_hub bz_ops bz_trace].
  - constructor; [done|]. destruct req as [[key|] headOnly tmo]; [|done].
    destruct (Get_cases now (bz_storage s) key headOnly tmo) as [[size ->]|[_ [e ->]]]; [|done]. exists key, size. split; [done|]. by rewrite <- HS.
  - by rewrite serial_snoc.
  - intros id [Hb|Hb]%elem_of_app; [by apply Hids|by apply list_elem_of_singleton in Hb].
  - intros id o Ho [Hf|[r [=]]]%finished_snoc. by apply (HD id).
  - intros id o Ho. eapply op_ok_more; [by apply HO|done|done].
  - eapply announced_more; [exact HA|done|by intros id [r [=]]|done].
Qed.

Lemma reachable_busy d0 s : busy_reachable d0 s -> busy_inv (store_of d0) s.
Proof.
  induction 1 as [|s s' _ IH Hst].
  - split; cbn; [constructor|done| | |apply map_Forall_empty|].
    + intros id Hb. by apply not_elem_of_nil in Hb.
    + intros id o Ho. by rewrite lookup_empty in Ho.
    + intros tr1 id w now a tr2 ev E. by destruct (app_cons_not_nil _ _ _ E).
  - destruct Hst as [id now w s s' Hok Hst|id s s' Hst|now req s]; [by eapply inv_begin|by eapply inv_op|by apply inv_read].
Qed.

(** C4: concurrent requests on a node are serializable, in an order that respects real time. However
    the transactions of any number of writes interleave with each other, with their announcements
    and with reads: the store is the one that the writes leave when they run one after the other in
    the order in which they take effect; a write that returns an answer took effect exactly once,
    after it began and before it returned, with the answer of the serial store at that point, and
    everything it changed has been announced; a write that returns an error, a conflict among them,
    took no effect; a read finds what the serial store holds at that moment; and a write that begins
    after another has returned takes effect after it. *)
Theorem storage_serializable (d0 : DB) (s : busy) :
  busy_reachable d0 s ->
  let m0 := store_of d0 in
  store_of (bz_db s) = serial m0 (bz_trace s) /\
  (forall tr id a tr', bz_trace s = tr ++ Finished id (Ret a) :: tr' ->
     exists tr1 w now tr2, tr = tr1 ++ Point id w now a :: tr2 /\ Began id ∈ tr1 /\ ~ pointed id tr1 /\ ~ pointed id (tr2 ++ tr') /\
       fst (fst (write_spec now (serial m0 tr1) w)) = Ret a /\ forall ev, ev ∈ snd (write_spec now (serial m0 tr1) w) -> ev ∈ bz_hub s) /\
  (forall id e, Finished id (Fail e) ∈ bz_trace s -> ~ pointed id (bz_trace s)) /\
  (forall tr now req x tr', bz_trace s = tr ++ Saw now req (Ret x) :: tr' ->
     exists key size, kr_Key req = Some key /\ x = get_spec_rec now (serial m0 tr) key size (kr_HeadOnly req)) /\
  (forall tr id1 a tr' id2, bz_trace s = tr ++ Finished id1 (Ret a) :: tr' -> Began id2 ∈ tr' -> pointed id1 tr /\ ~ pointed id2 tr).
Proof.
  intros HR m0. pose proof (reachable_busy d0 s HR) as [HT HS _ _ _ HA]. fold m0 in HT, HS, HA.
  assert (forall tr id a tr', bz_trace s = tr ++ Finished id (Ret a) :: tr' -> exists tr1 w now tr2, tr = tr1 ++ Point id w now a :: tr2) as HP.
  { intros tr id a tr' E. rewrite E in HT. apply trace_finished in HT as [_ (w & now & (tr1 & tr2 & ->)%list_elem_of_split)]. by exists tr1, w, now, tr2. }
  split; [done|]. split; [|split; [|split]].
  - intros tr id a tr' E. destruct (HP tr id a tr' E) as (tr1 & w & now & tr2 & ->). exists tr1, w, now, tr2. rewrite <- app_assoc in E. cbn [app] in E.
    pose proof HT as HT1. rewrite E in HT1. pose proof HT1 as (_ & Hb & Hnp & _ & Hsp)%trace_point. do 3 (split; [done|]). split; [|split; [done|]].
    + intros (w' & now' & a' & Hin). assert (Point id w' now' a' ∈ tr2 ++ Finished id (Ret a) :: tr') as (t1 & t2 & Et)%list_elem_of_split by set_solver.
      rewrite Et in HT1. assert (tr1 ++ Point id w now a :: t1 ++ Point id w' now' a' :: t2 = (tr1 ++ Point id w now a :: t1) ++ Point id w' now' a' :: t2) as E2 by (by rewrite <- app_assoc).
      destruct (point_unique m0 _ _ _ _ _ _ _ _ _ _ _ HT1 E2) as [E3 _]. apply (f_equal length) in E3. rewrite length_app in E3. cbn in E3. lia.
    + intros ev Hev. eapply (HA tr1 id w now a); [exact E| |exact Hev]. exists (Ret a). rewrite E. set_solver.
  - intros id e (tr & tr' & E)%list_elem_of_split (w & now & a & (t1 & t2 & E')%list_elem_of_split).
    pose proof HT as HF. rewrite E in HF. apply trace_finished in HF as [_ HF]. pose proof HT as HQ. rewrite E' in HQ. apply trace_point in HQ as (_ & _ & _ & HnF & _).
    rewrite E in E'. apply app_eq_inv in E' as [(k & -> & Ek)|(k & -> & Ek)]; destruct k as [|y k]; cbn in Ek; simplify_eq.
    + apply HF. exists w, now, a. set_solver.
    + apply HnF. exists (Fail e). set_solver.
  - intros tr now req x tr' E. rewrite E in HT. by apply trace_saw in HT.
  - intros tr id1 a tr' id2 E Hb. split.
    + destruct (HP tr id1 a tr' E) as (tr1 & w & now & tr2 & ->). exists w, now, a. set_solver.
    + intros (w & now & b & (t1 & t2 & ->)%list_elem_of_split). apply list_elem_of_split in Hb as (u1 & u2 & ->).
      assert (bz_trace s = (t1 ++ Point id2 w now b :: t2 ++ Finished id1 (Ret a) :: u1) ++ Began id2 :: u2) as E2 by (rewrite E, <- !app_assoc; cbn; by rewrite <- !app_assoc).
      pose proof HT as HT2. rewrite E2 in HT2. apply trace_began in HT2. apply HT2. rewrite <- app_assoc in E. cbn [app] in E. rewrite E in HT. apply trace_point in HT as (_ & Hb2 & _). set_solver.
Qed.

(** ** One write on its own *)

(** The steps of one write, at most [n] of them. *)
Fixpoint alone (id n : nat) (s : busy) : busy :=
  match n with O => s | S n => match op_step id s with Some s' => alone id n s' | None => s end end.

Lemma alone_unfold id n s : alone id (S n) s = match op_step id s with Some s' => alone id n s' | None => s end.
Proof. done. Qed.

Lemma alone_ends id o r evs s : bz_ops s !! id = Some o -> op_state o = Ending r evs ->
  bz_storage (alone id (S (length evs)) s) = {| db := bz_db s; hub := Some (bz_hub s ++ evs) |} /\
  bz_trace (alone id (S (length evs)) s) = bz_trace s ++ [Finished id r].
Proof.
  revert s o. induction evs as [|ev evs IH]; intros s o Ho Est; cbn [length]; [cbn [alone]|rewrite alone_unfold]; unfold op_step; rewrite Ho, Est.
  - unfold with_op, bz_storage. cbn. by rewrite app_nil_r.
  - destruct (IH {| bz_db := bz_db s; bz_hub := bz_hub s ++ [ev]; bz_ops := <[id := moved o (Ending r evs)]> (bz_ops s); bz_trace := bz_trace s |}
      (moved o (Ending r evs)) (lookup_insert_eq _ _ _) eq_refl) as [Hs Ht]. rewrite Hs, Ht. cbn. by rewrite <- app_assoc.
Qed.

(** The end of a write that is decided. *)
Lemma alone_ending id o r evs s : bz_ops s !! id = Some o -> op_state o = Ending r evs ->
  exists n, bz_storage (alone id n s) = {| db := bz_db s; hub := emit (Some (bz_hub s)) evs |} /\ last (bz_trace (alone id n s)) = Some (Finished id r).
Proof. intros Ho Est. destruct (alone_ends id o r evs s Ho Est) as [Hs Ht]. exists (S (length evs)). by rewrite Hs, Ht, last_snoc. Qed.

(** A write that nothing interrupts is the write of the storage: its steps lead to the state that
    [Storage] computes and return its answer. *)
Theorem undisturbed_write (id : nat) (now : Z) (w : write) (s s' : busy) :
  write_ok w -> begin_step id now w s = Some s' ->
  exists n, bz_storage (alone id n s') = snd (run_answer now (bz_storage s) w) /\
    last (bz_trace (alone id n s')) = Some (Finished id (fst (run_answer now (bz_storage s) w))).
Proof.
  intros Hok. rewrite write_halves. unfold begin_step. destruct (bz_ops s !! id); [done|]. change (db (bz_storage s)) with (bz_db s).
  destruct (begin_write now (bz_db s) w) as [[a|R t msg a evs]|e|] eqn:Eb; [| | |done]; intros [= <-]; cbn [mbind outcome_bind finish_write].
  - match goal with |- context [with_op id ?o ?tk s] => destruct (alone_ending id o (Ret a) [] (with_op id o tk s) (lookup_insert_eq _ _ _) eq_refl) as (n & Hs & Ht) end.
    exists n. rewrite Hs, Ht. split; [|done]. cbn. by rewrite app_nil_r.
  - assert (txn_base t = bz_db s) as Hb by (by eapply (write_lands now (bz_db s) (bz_db s) w Hok)).
    set (o := {| op_write := w; op_clock := now; op_state := Committing (Prepared R t msg a evs) |}).
    assert (op_step id (with_op id o [Began id] s) = match wrap_err msg (txn_Commit (bz_db s) t) with
      | Ret d' => Some {| bz_db := d'; bz_hub := bz_hub s; bz_ops := <[id := moved o (Ending (Ret a) evs)]> (<[id := o]> (bz_ops s)); bz_trace := (bz_trace s ++ [Began id]) ++ [Point id w now a] |}
      | Fail e => Some (with_op id (moved o (Ending (Fail e) [])) [] (with_op id o [Began id] s)) | Panic => None end) as Hst.
    { unfold op_step. cbn [with_op bz_ops]. rewrite lookup_insert_eq. cbn [op_state o bz_db with_op]. rewrite <- Hb, commit_alone. done. }
    pose proof (commit_spec t) as HC. rewrite Hb in HC. change (db (bz_storage s)) with (bz_db s).
    destruct (txn_Commit (bz_db s) t) as [d'|e|]; cbn [wrap_err mbind outcome_bind exec fst snd] in *; [| |done].
    + match type of Hst with _ = Some ?s1 => destruct (alone_ending id (moved o (Ending (Ret a) evs)) (Ret a) evs s1 (lookup_insert_eq _ _ _) eq_refl) as (n & Hs & Ht) end.
      exists (S n). rewrite alone_unfold, Hst, Hs, Ht. done.
    + match type of Hst with _ = Some ?s1 => destruct (alone_ending id (moved o (Ending (Fail (ErrWrap (str msg) e)) [])) _ [] s1 (lookup_insert_eq _ _ _) eq_refl) as (n & Hs & Ht) end.
      exists (S n). rewrite alone_unfold, Hst, Hs, Ht. split; [|done]. cbn. by rewrite app_nil_r.
  - match goal with |- context [with_op id ?o ?tk s] => destruct (alone_ending id o (Fail e) [] (with_op id o tk s) (lookup_insert_eq _ _ _) eq_refl) as (n & Hs & Ht) end.
    exists n. rewrite Hs, Ht. split; [|done]. cbn. by rewrite app_nil_r.
Qed.

(** No write waits for another: whatever the others do, one that has not returned can take its next
    step, and returns after the commit and its announcements. *)
Theorem write_never_waits (d0 : DB) (s : busy) (id : nat) (o : op) :
  busy_reachable d0 s -> bz_ops s !! id = Some o -> op_state o <> Ended ->
  exists n r, last (bz_trace (alone id n s)) = Some (Finished id r).
Proof.
  intros HR Ho Hne. pose proof (bi_ops _ s (reachable_busy d0 s HR) id o Ho) as (_ & _ & Hst).
  destruct (op_state o) as [p|r evs|] eqn:Est; [| |done].
  - destruct Hst as (_ & d & R & t & msg & a & evs & -> & _). pose proof (commit_overlap (bz_db s) R t) as HC.
    assert (op_step id s = match wrap_err msg (commit_at (bz_db s) R t) with
      | Ret d' => Some {| bz_db := d'; bz_hub := bz_hub s; bz_ops := <[id := moved o (Ending (Ret a) evs)]> (bz_ops s); bz_trace := bz_trace s ++ [Point id (op_write o) (op_clock o) a] |}
      | Fail e => Some (with_op id (moved o (Ending (Fail e) [])) [] s) | Panic => None end) as E by (unfold op_step; by rewrite Ho, Est).
    destruct (commit_at (bz_db s) R t) as [d'|e|]; cbn [wrap_err] in E; [| |done].
    + match type of E with _ = Some ?s1 => destruct (alone_ending id (moved o (Ending (Ret a) evs)) (Ret a) evs s1 (lookup_insert_eq _ _ _) eq_refl) as (n & _ & Ht) end.
      exists (S n), (Ret a). by rewrite alone_unfold, E.
    + match type of E with _ = Some ?s1 => destruct (alone_ending id (moved o (Ending (Fail (ErrWrap (str msg) e)) [])) _ [] s1 (lookup_insert_eq _ _ _) eq_refl) as (n & _ & Ht) end.
      eexists (S n), _. rewrite alone_unfold, E. exact Ht.
  - destruct (alone_ending id o r evs s Ho Est) as (n & _ & Ht). by exists n, r.
Qed.

End Props.

(** ** An engine with conflict detection *)

Record OccTxn : Type := { oc_base : gmap bytes stored; oc_puts : gmap bytes (option stored) }.

Definition oc_view (t : OccTxn) : gmap bytes stored := overlay (oc_puts t) (oc_base t).

Definition occ_badger : Badger := {|
  DB := gmap bytes stored;
  Txn := OccTxn;
  Item := bytes * stored;
  NewTransaction := fun db _ => {| oc_base := db; oc_puts := ∅ |};
  txn_Get := fun t k => match oc_view t !! k with Some v => Found (k, v) | None => NotFound end;
  txn_SetEntry := fun t e => Ret {| oc_base := oc_base t; oc_puts := <[ent_Key e := Some (ent_Value e, ent_UserMeta e)]> (oc_puts t) |};
  txn_Delete := fun t k => Ret {| oc_base := oc_base t; oc_puts := <[k := None]> (oc_puts t) |};
  txn_Commit := fun db t => Ret (overlay (oc_puts t) db);
  txn_Iterate := fun t o s => scan_view (oc_view t) o s;
  item_Key := fun it => fst it;
  item_ValueCopy := fun it => Ret (fst (snd it));
  item_UserMeta := fun it => snd (snd it);
  item_EstimatedSize := fun it => len (fst it) + len (fst (snd it));
  db_Backup := fun db _ => Ret (pos_bytes (encode db), 0);
  db_Load := fun db dump => match decode (bytes_pos dump) with Some m => (Ret tt, m ∪ db) | None => (Fail (ErrEngine 1), db) end
|}.

Program Definition occ_spec : @BadgerSpec occ_badger := {|
  db_view := fun db : gmap bytes stored => db;
  txn_view := oc_view;
  txn_base := oc_base;
  item_val := fun it : bytes * stored => fst (snd it)
|}.
Next Obligation. split; [|done]. apply overlay_empty. Qed.
Next Obligation. intros t k. simpl. by destruct (oc_view t !! k) as [[? ?]|]. Qed.
Next Obligation. done. Qed.
Next Obligation. split; [|done]. apply overlay_set. Qed.
Next Obligation. split; [|done]. apply overlay_delete. Qed.
Next Obligation. done. Qed.
Next Obligation. intros t o s. apply mem_iterate_id. Qed.
Next Obligation.
  simpl. intros db empty dump v db' He [= <- <-]. rewrite He, bytes_pos_bytes, decode_encode. intros [= <-]. by rewrite (right_id_L ∅ (∪)).
Qed.

Definition ErrConflict : error := ErrEngine 7.

(** The keys of the set have the same value in both maps. *)
Definition unchanged (reads : gset bytes) (m m' : gmap bytes stored) : bool := bool_decide (set_Forall (fun k => m !! k = m' !! k) reads).

Program Definition occ_overlap : @BadgerOverlap occ_badger occ_spec := {|
  txn_puts := oc_puts;
  commit_at := fun db reads t => if unchanged reads db (oc_base t) then Ret (overlay (oc_puts t) db) else Fail ErrConflict
|}.
Next Obligation. done. Qed.
Next Obligation. by intros t e t' [= <-]. Qed.
Next Obligation. by intros t k t' [= <-]. Qed.
Next Obligation. intros t reads. unfold unchanged. cbn. by rewrite bool_decide_eq_true_2 by (by intros k _). Qed.
Next Obligation. intros d reads t. cbn. unfold unchanged. case_bool_decide as HF; [|done]. split; [|done]. intros k Hk. by apply HF. Qed.

(** ** Witnesses: two requests create the same record at once *)

Section Witness.
#[local] Existing Instances flat_uuid flat_uuid_laws occ_badger occ_spec occ_overlap flat_store flat_store_laws.

Definition dup_key : Key := {| MajorKey := str "t"; RegionName := str "r"; MinorKey := str "k"; Timestamp := None |}.

Definition dup_create (value : bytes) : write := WPut {|
  rr_Key := Some dup_key; rr_Value := value; rr_Metadata := 0; rr_TtlSeconds := 0; rr_CompareAndSet := true; rr_Version := 0; rr_Timeout := 0; rr_ExpiresAt := 0 |} 0.

Lemma dup_create_ok value : write_ok (dup_create value).
Proof. split; [reflexivity|]. unfold is_int64, is_uint64. cbn. lia. Qed.

Definition dup_s0 : busy := idle ∅.
Definition dup_s1 : busy := default dup_s0 (begin_step 1 100 (dup_create (str "one")) dup_s0).
Definition dup_s2 : busy := default dup_s0 (begin_step 2 100 (dup_create (str "two")) dup_s1).
Definition dup_s3 : busy := default dup_s0 (op_step 2 dup_s2).
Definition dup_s4 : busy := default dup_s0 (op_step 1 dup_s3).
Definition dup_s5 : busy := default dup_s0 (op_step 1 dup_s4).
Definition dup_s6 : busy := default dup_s0 (op_step 2 dup_s5).
Definition dup_s7 : busy := default dup_s0 (op_step 2 dup_s6).

(** A state is reachable after one more step that is computed. *)
Lemma dup_more (d0 : @DB occ_badger) s o : busy_reachable d0 s -> (forall s', o = Some s' -> busy_step s s') ->
  match o with Some _ => true | None => false end = true -> busy_reachable d0 (default dup_s0 o).
Proof. intros HR Hst Ho. apply (some_default o dup_s0) in Ho. by eapply busy_more, Hst. Qed.

Lemma dup_begin (d0 : @DB occ_badger) s id now w : busy_reachable d0 s -> write_ok w ->
  match begin_step id now w s with Some _ => true | None => false end = true -> busy_reachable d0 (default dup_s0 (begin_step id now w s)).
Proof. intros HR Hok. apply (dup_more d0 s); [done|]. intros s'. by apply step_begin. Qed.

Lemma dup_op (d0 : @DB occ_badger) s id : busy_reachable d0 s ->
  match op_step id s with Some _ => true | None => false end = true -> busy_reachable d0 (default dup_s0 (op_step id s)).
Proof. intros HR. apply (dup_more d0 s); [done|]. intros s'. by apply step_op. Qed.

Lemma dup_both_begun : busy_reachable (∅ : @DB occ_badger) dup_s2.
Proof.
  apply dup_begin; [|apply dup_create_ok|vm_compute; reflexivity].
  apply dup_begin; [apply busy_start|apply dup_create_ok|vm_compute; reflexivity].
Qed.

Lemma dup_reachable : busy_reachable (∅ : @DB occ_badger) dup_s7.
Proof. do 5 (apply dup_op; [|vm_compute; reflexivity]). apply dup_both_begun. Qed.

(** The second request commits first: it creates the record, and the first, which had seen none
    either, is refused and leaves nothing. *)
Lemma storage_serializable_witness :
  store_of (bz_db dup_s7) = serial (store_of ∅) (bz_trace dup_s7) /\ ~ pointed 1 (bz_trace dup_s7) /\
  last (bz_trace dup_s7) = Some (Finished 2 (Ret (WStatus {| Updated := true |}))).
Proof.
  destruct (storage_serializable (∅ : @DB occ_badger) dup_s7 dup_reachable) as (HS & _ & HF & _). split; [exact HS|]. split; [|vm_compute; reflexivity].
  apply (HF 1%nat (ErrWrap (str "commit put error") ErrConflict)). apply list_elem_of_lookup_2 with 3%nat. vm_compute. reflexivity.
Defined.

Lemma undisturbed_write_witness : exists n,
  last (bz_trace (alone 1 n dup_s1)) = Some (Finished 1 (Ret (WStatus {| Updated := true |}))).
Proof.
  destruct (undisturbed_write 1 100 (dup_create (str "one")) dup_s0 dup_s1 (dup_create_ok _)) as (n & _ & E).
  - apply some_default. vm_compute. reflexivity.
  - exists n. rewrite E. vm_compute. reflexivity.
Defined.

Definition dup_first : op := default {| op_write := dup_create []; op_clock := 0; op_state := Ended |} (bz_ops dup_s2 !! 1%nat).

Lemma write_never_waits_witness : exists n r, last (bz_trace (alone 1 n dup_s2)) = Some (Finished 1 r).
Proof.
  assert (match op_state dup_first with Ended => false | _ => true end = true) as E by (vm_compute; reflexivity).
  apply (write_never_waits ∅ dup_s2 1 dup_first dup_both_begun).
  - apply some_default. vm_compute. reflexivity.
  - intros Ee. rewrite Ee in E. discriminate.
Defined.

End Witness.
