(* ===== verification/Value.v ===== *)
(** * The value package ([go.arpabet.com/value])

    Raft commands, the persisted chain head, quorum certificates and node certificates are
    stored in the canonical packing of a package outside the repository. It is a class
    parameter: [value.Pack]/[value.Unpack] on dynamic values and [value.Marshal]/
    [value.Unmarshal] for each struct type, with the documented round trips. The instance at
    the end packs through the numbering of [Countable] types, to evaluate the definitions. *)

From S2P Require Import Prelude Pb Engine.

Class ValuePkg : Type := {
  Value : Type;
  Pack : Value -> result bytes;
  Unpack : bytes -> result Value
}.

(** The struct types the code marshals. *)
Class Struct `{ValuePkg} (M : Type) : Type := {
  Marshal : M -> result Value;
  Unmarshal : Value -> result M
}.

Class ValueLaws `{ValuePkg} : Prop := {
  unpack_pack : forall v b, Pack v = Ret b -> Unpack b = Ret v;
  pack_total : forall v, Pack v <> Panic;
  unpack_total : forall b, Unpack b <> Panic
}.

Class StructLaws `{ValuePkg} (M : Type) `{!Struct M} : Prop := {
  unmarshal_marshal : forall m v, Marshal m = Ret v -> Unmarshal v = Ret m;
  marshal_total : forall m, Marshal m <> Panic;
  unmarshal_total : forall v, Unmarshal v <> Panic
}.

(** No struct is refused ([value.Marshal] and [value.Pack] fail only on unsupported types). *)
Class StructReliable `{ValuePkg} (M : Type) `{!Struct M} : Prop := {
  encodes : forall m, exists v b, Marshal m = Ret v /\ Pack v = Ret b
}.

(** ** A concrete packing *)

Definition flat_value : ValuePkg := {|
  Value := positive;
  Pack := fun p => Ret (pos_bytes p);
  Unpack := fun b => Ret (bytes_pos b)
|}.

Definition flat_struct (M : Type) `{Countable M} : @Struct flat_value M :=
  @Build_Struct flat_value M (fun m => Ret (encode m))
    (fun p => match decode p with Some m => Ret m | None => Fail (ErrNew (str "type mismatch")) end).

Lemma flat_value_laws : @ValueLaws flat_value.
Proof. split; simpl; [|done|done]. intros v b [= <-]. by rewrite bytes_pos_bytes. Qed.

Lemma flat_struct_laws (M : Type) `{Countable M} : @StructLaws flat_value M (flat_struct M).
Proof.
  split; simpl; [|done|].
  - intros m v [= <-]. by rewrite decode_encode.
  - intros v. by destruct (decode v).
Qed.

Lemma flat_struct_reliable (M : Type) `{Countable M} : @StructReliable flat_value M (flat_struct M).
Proof. split. intros m. simpl. eauto. Qed.

(** ** Numberings of the request types *)

#[global] Instance TimeUUID_countable : Countable TimeUUID.
Proof.
  refine (inj_countable' (fun t => (MostSigBits t, LeastSigBits t))
            (fun '(a, b) => {| MostSigBits := a; LeastSigBits := b |}) _). by intros [].
Defined.

#[global] Instance Key_countable : Countable Key.
Proof.
  refine (inj_countable' (fun k => (MajorKey k, RegionName k, MinorKey k, Timestamp k))
            (fun '(a, b, c, d) => {| MajorKey := a; RegionName := b; MinorKey := c; Timestamp := d |}) _).
  by intros [].
Defined.

#[global] Instance KeyRequest_eq_dec : EqDecision KeyRequest.
Proof. solve_decision. Defined.

#[global] Instance KeyRequest_countable : Countable KeyRequest.
Proof.
  refine (inj_countable' (fun k => (kr_Key k, kr_HeadOnly k, kr_Timeout k))
            (fun '(a, b, c) => {| kr_Key := a; kr_HeadOnly := b; kr_Timeout := c |}) _).
  by intros [].
Defined.

#[global] Instance RecordRequest_countable : Countable RecordRequest.
Proof.
  refine (inj_countable' (fun r => (rr_Key r, rr_Value r, rr_Metadata r, rr_TtlSeconds r,
                                    (rr_CompareAndSet r, rr_Version r, rr_Timeout r, rr_ExpiresAt r)))
            (fun '(a, b, c, d, (e, f, g, h)) =>
               {| rr_Key := a; rr_Value := b; rr_Metadata := c; rr_TtlSeconds := d;
                  rr_CompareAndSet := e; rr_Version := f; rr_Timeout := g; rr_ExpiresAt := h |}) _).
  by intros [].
Defined.

#[global] Instance IncrementRequest_eq_dec : EqDecision IncrementRequest.
Proof. solve_decision. Defined.

#[global] Instance IncrementRequest_countable : Countable IncrementRequest.
Proof.
  refine (inj_countable' (fun r => (ir_Key r, ir_Initial r, ir_Delta r, ir_TtlSeconds r, ir_Timeout r, ir_ExpiresAt r))
            (fun '(a, b, c, d, e, f) =>
               {| ir_Key := a; ir_Initial := b; ir_Delta := c; ir_TtlSeconds := d; ir_Timeout := e;
                  ir_ExpiresAt := f |}) _).
  by intros [].
Defined.

#[global] Instance BatchRequest_eq_dec : EqDecision BatchRequest.
Proof. solve_decision. Defined.

#[global] Instance BatchRequest_countable : Countable BatchRequest.
Proof.
  refine (inj_countable' (fun r => (br_Records r, br_Timeout r))
            (fun '(a, b) => {| br_Records := a; br_Timeout := b |}) _).
  by intros [].
Defined.

#[global] Instance ReclaimEntry_countable : Countable ReclaimEntry.
Proof.
  refine (inj_countable' (fun r => (re_EntryKey r, re_Version r))
            (fun '(a, b) => {| re_EntryKey := a; re_Version := b |}) _).
  by intros [].
Defined.

#[global] Instance ReclaimRequest_eq_dec : EqDecision ReclaimRequest.
Proof. solve_decision. Defined.

#[global] Instance ReclaimRequest_countable : Countable ReclaimRequest.
Proof.
  refine (inj_countable' rc_Entries (fun a => {| rc_Entries := a |}) _). by intros [].
Defined.
