(* ===== verification/Command.v ===== *)
(** * Raft commands ([pkg/replication/command.go])

    One op byte followed by the packed payload struct, encoded by the leader and decoded by
    the state machine of every replica. *)

From S2P Require Import Prelude Pb Engine Value.

(** An op code is a byte, of which six are commands. *)
Definition opPut : Z := 1.
Definition opTouch : Z := 2.
Definition opRemove : Z := 3.
Definition opIncrement : Z := 4.
Definition opBatch : Z := 5.
Definition opReclaim : Z := 6.

(** The payload structs ([msg interface{}]). *)
Inductive message : Type :=
| MRecord (m : RecordRequest)
| MKey (m : KeyRequest)
| MIncrement (m : IncrementRequest)
| MBatch (m : BatchRequest)
| MReclaim (m : ReclaimRequest).

(** The payload structs, each with its marshalling. *)
Class Payloads `{ValuePkg} : Type := {
  payload_record :: Struct RecordRequest;
  payload_key :: Struct KeyRequest;
  payload_increment :: Struct IncrementRequest;
  payload_batch :: Struct BatchRequest;
  payload_reclaim :: Struct ReclaimRequest
}.

Class PayloadLaws `{Payloads} : Prop := {
  law_value :: ValueLaws;
  law_record :: StructLaws RecordRequest;
  law_key :: StructLaws KeyRequest;
  law_increment :: StructLaws IncrementRequest;
  law_batch :: StructLaws BatchRequest;
  law_reclaim :: StructLaws ReclaimRequest
}.

Section Command.
Context `{Payloads}.

(** [errors.Wrap(err, msg)]. *)
Definition errors_Wrap {A} (msg : string) (r : result A) : result A :=
  match r with Fail e => Fail (ErrWrap (str msg) e) | r => r end.

Definition marshal_message (msg : message) : result Value :=
  match msg with
  | MRecord m => Marshal m
  | MKey m => Marshal m
  | MIncrement m => Marshal m
  | MBatch m => Marshal m
  | MReclaim m => Marshal m
  end.

Definition encodeCommand (op : Z) (msg : message) : result bytes :=
  v ← errors_Wrap "marshal raft command payload" (marshal_message msg);
  payload ← errors_Wrap "pack raft command payload" (Pack v);
  Ret (byte_of op :: payload).

(** The struct allocated for an op, as the decoder into it. *)
Definition unmarshal_for (op : Z) : option (Value -> result message) :=
  if (op =? opPut) || (op =? opTouch) then Some (fun v => m ← Unmarshal v; Ret (MRecord m))
  else if op =? opRemove then Some (fun v => m ← Unmarshal v; Ret (MKey m))
  else if op =? opIncrement then Some (fun v => m ← Unmarshal v; Ret (MIncrement m))
  else if op =? opBatch then Some (fun v => m ← Unmarshal v; Ret (MBatch m))
  else if op =? opReclaim then Some (fun v => m ← Unmarshal v; Ret (MReclaim m))
  else None.

Definition decodeCommand (data : bytes) : Z * result message :=
  match data with
  | [] => (0, Fail (ErrNew (str "empty raft command")))
  | b :: payload =>
      let op := byte_val b in
      match unmarshal_for op with
      | None => (op, Fail (ErrNew (str "unknown raft command op")))
      | Some unmarshal =>
          (op, v ← errors_Wrap "unpack raft command payload" (Unpack payload);
               errors_Wrap "unmarshal raft command payload" (unmarshal v))
      end
  end.

(** The payload type each op carries. *)
Definition payload_ok (op : Z) (msg : message) : bool :=
  match msg with
  | MRecord _ => (op =? opPut) || (op =? opTouch)
  | MKey _ => op =? opRemove
  | MIncrement _ => op =? opIncrement
  | MBatch _ => op =? opBatch
  | MReclaim _ => op =? opReclaim
  end.

(** ** Lemmas *)

Context `{!PayloadLaws}.

Lemma payload_ok_byte op msg : payload_ok op msg = true -> 1 <= op <= 6.
Proof.
  unfold payload_ok, opPut, opTouch, opRemove, opIncrement, opBatch, opReclaim.
  destruct msg; intros E; bool_cases; lia.
Qed.

Lemma unmarshal_for_ok op msg v :
  payload_ok op msg = true -> marshal_message msg = Ret v ->
  exists u, unmarshal_for op = Some u /\ u v = Ret msg.
Proof.
  unfold payload_ok, unmarshal_for, opPut, opTouch, opRemove, opIncrement, opBatch, opReclaim.
  intros Hop Hm. destruct msg as [m|m|m|m|m]; cbn [marshal_message] in Hm;
    apply unmarshal_marshal in Hm.
  1: destruct (Z.eqb_spec op 1); [|destruct (Z.eqb_spec op 2); [|done]]; subst; cbn.
  3-6: apply Z.eqb_eq in Hop; subst; cbn.
  all: eexists; split; [done|]; cbn; rewrite Hm; done.
Qed.

(** A decoded payload is of the op's struct type. *)
Lemma decodeCommand_payload data op msg :
  decodeCommand data = (op, Ret msg) -> payload_ok op msg = true.
Proof.
  unfold decodeCommand. destruct data as [|b payload]; [done|].
  destruct (unmarshal_for (byte_val b)) as [u|] eqn:Eu; [|done]. intros [= <- E].
  destruct (Unpack payload) as [v|?|]; cbn in E; [|done|done].
  unfold unmarshal_for in Eu.
  unfold payload_ok.
  repeat (match type of Eu with context [if ?c then _ else _] => destruct c eqn:? end; simplify_eq;
    try (destruct (Unmarshal v) eqn:?; cbn in E; simplify_eq; done)).
Qed.

Lemma decodeCommand_total data : snd (decodeCommand data) <> Panic.
Proof.
  unfold decodeCommand. destruct data as [|b payload]; [done|].
  destruct (unmarshal_for (byte_val b)) as [u|] eqn:Eu; [|done]. cbn [snd].
  pose proof (unpack_total payload). destruct (Unpack payload) as [v|?|]; cbn; [|done|done].
  unfold unmarshal_for in Eu.
  repeat (match type of Eu with context [if ?c then _ else _] => destruct c end; simplify_eq;
    try (match goal with |- context [Unmarshal (M:=?M) v] => pose proof (unmarshal_total (M:=M) v); destruct (Unmarshal (M:=M) v); done end)).
Qed.

Lemma encode_decode op msg data :
  payload_ok op msg = true -> encodeCommand op msg = Ret data -> decodeCommand data = (op, Ret msg).
Proof.
  intros Hop. unfold encodeCommand.
  destruct (marshal_message msg) as [v|?|] eqn:Em; cbn; [|done|done].
  destruct (Pack v) as [payload|?|] eqn:Ep; cbn; [|done|done]. intros [= <-].
  pose proof (payload_ok_byte op msg Hop).
  destruct (unmarshal_for_ok op msg v Hop Em) as (u & Eu & Ev).
  cbn [decodeCommand]. rewrite byte_val_of, Z.mod_small by lia. rewrite Eu.
  rewrite (unpack_pack _ _ Ep). cbn. by rewrite Ev.
Qed.

(** ** Properties *)

(** Replicas decode the command the leader encoded. Whatever [encodeCommand] produces for
    an op and a payload of that op's struct type, [decodeCommand] returns exactly that op and
    payload; and on arbitrary bytes it never panics and only returns a payload of the op's own
    struct type, so the type assertions of the state machine cannot fail. *)
Theorem command_roundtrip (op : Z) (msg : message) (data : bytes) :
  payload_ok op msg = true -> encodeCommand op msg = Ret data ->
  decodeCommand data = (op, Ret msg) /\
  (forall data' op' msg', decodeCommand data' = (op', Ret msg') -> payload_ok op' msg' = true) /\
  (forall data', snd (decodeCommand data') <> Panic).
Proof.
  intros Hop He. split; [by apply encode_decode|].
  split; [apply decodeCommand_payload|apply decodeCommand_total].
Qed.

End Command.

(** ** A concrete packing of the payloads *)

Definition flat_payloads : @Payloads flat_value :=
  @Build_Payloads flat_value (flat_struct _) (flat_struct _) (flat_struct _) (flat_struct _) (flat_struct _).

Lemma flat_payload_laws : @PayloadLaws flat_value flat_payloads.
Proof. split; first [apply flat_value_laws|apply flat_struct_laws]. Qed.

Lemma command_roundtrip_witness :
  let msg := MKey {| kr_Key := None; kr_HeadOnly := true; kr_Timeout := 9 |} in
  exists data, @encodeCommand flat_value flat_payloads opRemove msg = Ret data /\
    @decodeCommand flat_value flat_payloads data = (opRemove, Ret msg).
Proof.
  intros msg. eexists. split; [vm_compute; reflexivity|].
  refine (proj1 (@command_roundtrip flat_value flat_payloads flat_payload_laws opRemove msg _ _ _));
    vm_compute; reflexivity.
Defined.
