(* ===== verification/Service.v ===== *)
(** * The key-value service ([pkg/server/server.go], [pkg/server/replicator.go])

    The operation core behind the data plane: it stamps the absolute expiry once, then commits
    a write through the replicator when one is present and enabled, and directly into the
    local storage otherwise. A node's state [W] is left open: the service only needs its
    storage and the replicator interface. *)

From S2P Require Import Prelude Pb Keys Engine Storage StorageSpec StorageReads StorageProps.

(** ** Interfaces *)

(** [server.Replicator]. *)
Class Replicator (W : Type) : Type := {
  Enabled : W -> bool;
  rep_Put : W -> RecordRequest -> result Status * W;
  rep_Touch : W -> RecordRequest -> result Status * W;
  rep_Remove : W -> KeyRequest -> result Status * W;
  rep_Increment : W -> IncrementRequest -> result IncrementResponse * W;
  rep_Batch : W -> BatchRequest -> result Status * W
}.

(** [AsNotLeader]: the not-leader error that an error is, or wraps. *)
Fixpoint AsNotLeader (e : error) : option (bytes * bytes * bytes) :=
  match e with
  | NotLeaderError id addr endpoint => Some (id, addr, endpoint)
  | ErrWrap _ cause => AsNotLeader cause
  | _ => None
  end.

Section Service.
Context `{UuidPkg} `{Badger} `{StorePkg}.

(** A node state that holds a storage. *)
Class HasStorage (W : Type) : Type := {
  get_storage : W -> KeyValueStorageCtx;
  set_storage : W -> KeyValueStorageCtx -> W
}.

Definition on_storage {W A} `{HasStorage W} (w : W) (r : result A * KeyValueStorageCtx) : result A * W :=
  (fst r, set_storage w (snd r)).

(** [recordRequest.ExpiresAt = resolveExpiry(...)]. *)
Definition stamp_record (now : Z) (r : RecordRequest) : RecordRequest := {|
  rr_Key := rr_Key r; rr_Value := rr_Value r; rr_Metadata := rr_Metadata r;
  rr_TtlSeconds := rr_TtlSeconds r; rr_CompareAndSet := rr_CompareAndSet r;
  rr_Version := rr_Version r; rr_Timeout := rr_Timeout r;
  rr_ExpiresAt := resolveExpiry now (rr_TtlSeconds r) (rr_ExpiresAt r) |}.

Definition stamp_increment (now : Z) (r : IncrementRequest) : IncrementRequest := {|
  ir_Key := ir_Key r; ir_Initial := ir_Initial r; ir_Delta := ir_Delta r;
  ir_TtlSeconds := ir_TtlSeconds r; ir_Timeout := ir_Timeout r;
  ir_ExpiresAt := resolveExpiry now (ir_TtlSeconds r) (ir_ExpiresAt r) |}.

Definition stamp_batch (now : Z) (r : BatchRequest) : BatchRequest := {|
  br_Records := stamp_record now <$> br_Records r; br_Timeout := br_Timeout r |}.

Section Node.
Context {W : Type} `{!HasStorage W}.

(** [KeyValueService.Replicator], nil when raft is not wired in. *)
Variable replicator : option (Replicator W).

(** [replicates], with the replicator to use when it holds. *)
Definition replicates (w : W) : option (Replicator W) :=
  match replicator with
  | Some r => if @Enabled W r w then Some r else None
  | None => None
  end.

Definition svc_Get (now : Z) (w : W) (req : KeyRequest) : result Rec := Get now (get_storage w) req.

Definition svc_GetRecent (now : Z) (w : W) (req : KeyRequest) : result Rec :=
  GetRecent now (get_storage w) req.

(** [now] is the clock when the service accepts the request, [now'] when storage applies it. *)
Definition svc_Touch (now now' : Z) (w : W) (req : RecordRequest) : result Status * W :=
  let req := stamp_record now req in
  match replicates w with
  | Some r => @rep_Touch W r w req
  | None => on_storage w (Touch now' (get_storage w) req 0)
  end.

Definition svc_Put (now now' : Z) (w : W) (req : RecordRequest) : result Status * W :=
  let req := stamp_record now req in
  match replicates w with
  | Some r => @rep_Put W r w req
  | None => on_storage w (Put now' (get_storage w) req 0)
  end.

Definition svc_Remove (w : W) (req : KeyRequest) : result Status * W :=
  match replicates w with
  | Some r => @rep_Remove W r w req
  | None => on_storage w (Remove (get_storage w) req)
  end.

Definition svc_Increment (now now' : Z) (w : W) (req : IncrementRequest) : result IncrementResponse * W :=
  let req := stamp_increment now req in
  match replicates w with
  | Some r => @rep_Increment W r w req
  | None => on_storage w (Increment now' (get_storage w) req 0)
  end.

Definition svc_Batch (now now' : Z) (w : W) (req : BatchRequest) : result Status * W :=
  let req := stamp_batch now req in
  match replicates w with
  | Some r => @rep_Batch W r w req
  | None => on_storage w (SetBatch now' (get_storage w) req 0)
  end.

End Node.

(** The physical prefix of a watch: as deep as the fields that are set. *)
Definition watchPrefix (key : option Key) : result bytes :=
  match key with
  | None => Ret []
  | Some key =>
      if 0 <? len (MinorKey key) then EncodeKeyPrefix key MinorKeyField
      else if 0 <? len (RegionName key) then EncodeKeyPrefix key RegionNameField
      else if 0 <? len (MajorKey key) then EncodeKeyPrefix key MajorKeyField
      else Ret []
  end.

(** ** Requests whose effect does not depend on the clock *)

Definition record_stamped (r : RecordRequest) : Prop :=
  forall now, resolveExpiry now (rr_TtlSeconds r) (rr_ExpiresAt r) = rr_ExpiresAt r.

Definition increment_stamped (r : IncrementRequest) : Prop :=
  forall now, resolveExpiry now (ir_TtlSeconds r) (ir_ExpiresAt r) = ir_ExpiresAt r.

End Service.

#[global] Instance storage_has_storage `{Badger} : HasStorage KeyValueStorageCtx :=
  {| get_storage := fun st => st; set_storage := fun _ st => st |}.

(** ** Lemmas *)

Section Lemmas.
Context `{UuidPkg} `{!UuidLaws} `{Badger} `{!BadgerSpec} `{StorePkg} `{!StoreLaws}.

(** Resolving an already resolved expiry at another clock changes nothing. *)
Lemma resolveExpiry_idem now now' ttl e :
  resolveExpiry now' ttl (resolveExpiry now ttl e) = resolveExpiry now ttl e.
Proof.
  unfold resolveExpiry. destruct (Z.eqb_spec e 0) as [->|Hne]; cbn [negb].
  - destruct (Z.ltb_spec 0 ttl) as [Hl|Hl]; [|done].
    destruct (expiry_from_ttl now ttl Hl) as [Hn _]. by rewrite (proj2 (Z.eqb_neq _ 0) Hn).
  - by rewrite (proj2 (Z.eqb_neq e 0) Hne).
Qed.

Lemma stamp_record_stamped now r : record_stamped (stamp_record now r).
Proof. intros now'. apply resolveExpiry_idem. Qed.

Lemma stamp_increment_stamped now r : increment_stamped (stamp_increment now r).
Proof. intros now'. apply resolveExpiry_idem. Qed.

Lemma stamp_batch_stamped now r : Forall record_stamped (br_Records (stamp_batch now r)).
Proof.
  apply Forall_fmap, Forall_forall. intros x _. apply stamp_record_stamped.
Qed.

(** Specifications of stamped writes at the accepting clock. *)
Lemma put_spec_stamp now now' m r cv : put_spec now' m (stamp_record now r) cv = put_spec now m r cv.
Proof. unfold put_spec. cbn [stamp_record rr_Key rr_CompareAndSet rr_Version rr_Value rr_Metadata rr_TtlSeconds rr_ExpiresAt].
  by rewrite resolveExpiry_idem. Qed.

Lemma touch_spec_stamp now now' m r cv : touch_spec now' m (stamp_record now r) cv = touch_spec now m r cv.
Proof. unfold touch_spec. cbn [stamp_record rr_Key rr_TtlSeconds rr_ExpiresAt]. by rewrite resolveExpiry_idem. Qed.

Lemma increment_spec_stamp now now' m r cv :
  increment_spec now' m (stamp_increment now r) cv = increment_spec now m r cv.
Proof. unfold increment_spec. cbn [stamp_increment ir_Key ir_Initial ir_Delta ir_TtlSeconds ir_ExpiresAt].
  by rewrite resolveExpiry_idem. Qed.

Lemma batch_fold_stamp now now' cv rs m :
  batch_fold now' cv (stamp_record now <$> rs) m = batch_fold now cv rs m.
Proof.
  revert m. induction rs as [|r rs IH]; intros m; [done|]. rewrite fmap_cons. cbn [batch_fold].
  cbn [stamp_record rr_Key rr_Value rr_Metadata rr_TtlSeconds rr_ExpiresAt].
  destruct (rr_Key r) as [key|]; [|done]. cbn [need_key mbind outcome_bind].
  by rewrite resolveExpiry_idem, IH.
Qed.

Lemma batch_spec_stamp now now' m r cv : batch_spec now' m (stamp_batch now r) cv = batch_spec now m r cv.
Proof. unfold batch_spec. cbn [stamp_batch br_Records]. by rewrite batch_fold_stamp. Qed.

(** ** Properties *)

(** With replication off, the service implements the storage contract at the clock at
    which it accepted the request. Whatever later clock storage applies it at, every write
    gives the answer, contents and events of the abstract store with a locally assigned
    version, or an engine error and no change; a request that was already resolved never
    drifts. *)
Theorem service_local_refines (now now' : Z) (st : KeyValueStorageCtx)
    (r : RecordRequest) (i : IncrementRequest) (k : KeyRequest) (b : BatchRequest) :
  BadgerReliable -> is_int64 (rr_ExpiresAt r) -> is_int64 (ir_ExpiresAt i) ->
  Forall (fun x => is_int64 (rr_ExpiresAt x)) (br_Records b) ->
  does st (svc_Put None now now' st r) (put_spec now (contents st) r 0) /\
  does st (svc_Touch None now now' st r) (touch_spec now (contents st) r 0) /\
  does st (svc_Increment None now now' st i) (increment_spec now (contents st) i 0) /\
  does st (svc_Remove None st k) (remove_spec (contents st) k) /\
  does st (svc_Batch None now now' st b) (batch_spec now (contents st) b 0).
Proof.
  intros HR Hr Hi Hb. assert (is_uint64 0) as H0' by (unfold is_uint64; lia).
  assert (forall x, is_int64 (rr_ExpiresAt x) -> is_int64 (rr_ExpiresAt (stamp_record now x))) as Hs
    by (intros x Hx; by apply resolveExpiry_int64).
  assert (forall A (op : result A * KeyValueStorageCtx) (sp : effect A),
    refines st op sp -> does st (on_storage st op) sp) as Hlift
    by (intros A op sp Hop; by apply (refines_reliable st op sp HR) in Hop).
  rewrite <- (put_spec_stamp now now'), <- (touch_spec_stamp now now'), <- (increment_spec_stamp now now'),
    <- (batch_spec_stamp now now').
  split; [apply Hlift, Put_refines; auto|]. split; [apply Hlift, Touch_refines; auto|].
  split; [apply Hlift, Increment_refines; [by apply resolveExpiry_int64|done]|].
  split; [apply Hlift, Remove_refines|].
  apply Hlift, SetBatch_refines; [done|by right|]. apply Forall_fmap.
  eapply Forall_impl; [exact Hb|]. exact Hs.
Qed.

(** A watch selects exactly the keys it names. For a watch key with well-formed fields,
    the prefix [watchPrefix] builds matches the entry key of a well-formed key exactly when
    the two agree down to the deepest field that is set; a watch with no field set matches
    every key. *)
Theorem watchPrefix_selects (key key' : Key) :
  key_ok key = true -> key_ok key' = true ->
  exists p, watchPrefix (Some key) = Ret p /\
    (HasPrefix (enc_key key') p = true <->
     if 0 <? len (MinorKey key) then agree_upto MinorKeyField key key'
     else if 0 <? len (RegionName key) then agree_upto RegionNameField key key'
     else if 0 <? len (MajorKey key) then agree_upto MajorKeyField key key'
     else True).
Proof.
  intros Hk Hk'. unfold watchPrefix.
  assert (forall f p, enc_prefix key f = Some p ->
    exists q, EncodeKeyPrefix key f = Ret q /\ (HasPrefix (enc_key key') q = true <-> agree_upto f key key')) as HP.
  { intros f p Hp. pose proof (EncodeKeyPrefix_layout key f) as HL. rewrite Hp in HL. exists p.
    split; [done|]. rewrite HasPrefix_spec. by apply enc_prefix_agree. }
  repeat match goal with |- context [if ?c then _ else _] => destruct c; [by eapply HP|] end.
  exists []. split; [done|]. rewrite HasPrefix_spec. split; [done|]. intros _. apply prefix_nil.
Qed.

(** With replication off, versions restart when a key is removed, so a sweep can delete a
    live record: an expired entry at version 1 is listed, the key is removed and put again
    (version 1 again, no expiry), and [Reclaim] of the listed entry then deletes the fresh
    record, although it was rewritten since its discovery. *)
Theorem local_reclaim_deletes_fresh (now : Z) (st : KeyValueStorageCtx) (key : Key)
    (value : bytes) (e : entry) :
  BadgerReliable -> contents st !! enc_key key = Some e -> e_version e = 1 -> live now e = false ->
  let st1 := snd (svc_Remove None st {| kr_Key := Some key; kr_HeadOnly := false; kr_Timeout := 0 |}) in
  let st2 := snd (svc_Put None now now st1 {| rr_Key := Some key; rr_Value := value; rr_Metadata := 0;
    rr_TtlSeconds := 0; rr_CompareAndSet := true; rr_Version := 0; rr_Timeout := 0; rr_ExpiresAt := 0 |}) in
  let listed := {| re_EntryKey := enc_key key; re_Version := e_version e |} in
  (exists f, contents st2 !! enc_key key = Some f /\ e_value f = value /\ forall now', live now' f = true) /\
  contents (snd (Reclaim st2 {| rc_Entries := [listed] |})) !! enc_key key = None.
Proof.
  intros HR Hk Hv Hexp st1 st2 listed.
  destruct (refines_reliable _ _ _ HR (Remove_refines st {| kr_Key := Some key; kr_HeadOnly := false; kr_Timeout := 0 |}))
    as (_ & Hc1 & _). cbn [remove_spec kr_Key fst snd] in Hc1. change (snd (Remove st _)) with st1 in Hc1.
  match type of st2 with _ => match eval unfold st2 in st2 with
    snd (svc_Put None now now st1 ?r) =>
      assert (refines st1 (Put now st1 (stamp_record now r) 0) (put_spec now (contents st1) (stamp_record now r) 0))
        as HP by (apply Put_refines; [apply resolveExpiry_int64|]; unfold is_int64, is_uint64; cbn; lia) end end.
  apply (refines_reliable _ _ _ HR) in HP as (_ & Hc2 & _). rewrite put_spec_stamp in Hc2.
  change (snd (Put now st1 _ 0)) with st2 in Hc2.
  unfold put_spec in Hc2. cbn [rr_Key rr_CompareAndSet rr_Version rr_TtlSeconds rr_ExpiresAt rr_Value rr_Metadata] in Hc2.
  assert (contents st1 !! enc_key key = None) as Hn by (rewrite Hc1; apply lookup_delete_eq).
  rewrite Hn in Hc2. cbn [cas_matches Z.eqb negb andb fst snd] in Hc2.
  split.
  - rewrite Hc2, lookup_insert_eq. eexists. split; [done|]. split; [done|].
    intros now'. unfold live. cbn [e_expires]. change (resolveExpiry now 0 0) with 0.
    by rewrite no_expiry.
  - destruct (refines_reliable _ _ _ HR (Reclaim_refines st2 {| rc_Entries := [listed] |})) as (_ & Hc3 & _).
    rewrite Hc3. unfold reclaim_spec. cbn [rc_Entries reclaim_fold]. unfold listed. cbn [re_EntryKey re_Version].
    rewrite Hc2, lookup_insert_eq. cbn [e_version]. rewrite Hv.
    change (next_version 0 None) with 1. cbn [Z.eqb fst snd]. apply lookup_delete_eq.
Qed.

End Lemmas.

(** ** Witnesses: the properties on a concrete store *)

Section Witness.
#[local] Existing Instances flat_uuid flat_uuid_laws mem_badger mem_spec flat_store flat_store_laws.

(** One local put, version 1, expiring at 160. *)
Definition demo_local : KeyValueStorageCtx :=
  snd (svc_Put None 100 101 demo_storage (demo_record (str "v") 60 false 0)).

Lemma service_local_refines_witness :
  does demo_local (svc_Put None 110 115 demo_local (demo_record (str "w") 60 true 1))
    (put_spec 110 (contents demo_local) (demo_record (str "w") 60 true 1) 0).
Proof.
  refine (proj1 (service_local_refines 110 115 demo_local (demo_record (str "w") 60 true 1) demo_increment
    demo_get demo_batch mem_reliable _ _ _)).
  - unfold is_int64. simpl. lia.
  - unfold is_int64. simpl. lia.
  - repeat constructor; unfold is_int64; simpl; lia.
Defined.

Lemma watchPrefix_selects_witness :
  exists p, watchPrefix (Some {| MajorKey := str "acme"; RegionName := str "USERS"; MinorKey := [];
                                 Timestamp := None |}) = Ret p /\
    HasPrefix (enc_key demo_key) p = true.
Proof.
  destruct (watchPrefix_selects {| MajorKey := str "acme"; RegionName := str "USERS"; MinorKey := [];
    Timestamp := None |} demo_key ltac:(vm_compute; reflexivity) ltac:(vm_compute; reflexivity)) as (p & Hp & [_ Hsel]).
  exists p. split; [exact Hp|]. apply Hsel. split; reflexivity.
Defined.

Lemma local_reclaim_deletes_fresh_witness :
  let st1 := snd (svc_Remove None demo_local demo_get) in
  let st2 := snd (svc_Put None 200 200 st1 {| rr_Key := Some demo_key; rr_Value := str "fresh"; rr_Metadata := 0;
    rr_TtlSeconds := 0; rr_CompareAndSet := true; rr_Version := 0; rr_Timeout := 0; rr_ExpiresAt := 0 |}) in
  contents (snd (Reclaim st2 {| rc_Entries := [{| re_EntryKey := enc_key demo_key; re_Version := 1 |}] |}))
    !! enc_key demo_key = None.
Proof.
  refine (proj2 (local_reclaim_deletes_fresh 200 demo_local demo_key (str "fresh")
    {| e_version := 1; e_expires := 160; e_value := str "v"; e_meta := 3 |} mem_reliable _ _ _));
    vm_compute; reflexivity.
Defined.

End Witness.
