(* ===== verification/Ledger.v ===== *)
(** * The hash chain and its persisted head ([pkg/ledger/hashchain.go], [pkg/ledger/head.go])

    Every committed raft entry is folded into a SHA-256 chain; the head is stored as a record
    of a reserved tenant, through a two-method storage interface. *)

From S2P Require Import Prelude Sha256 Pb Keys Engine Value.

(** ** The chain *)

(** The fields of [raft.Log] that the code reads. *)
Record RaftLog : Type := { lg_Index : Z; lg_Term : Z; lg_Data : bytes }.

#[global] Instance RaftLog_eq_dec : EqDecision RaftLog.
Proof. solve_decision. Defined.

Definition GenesisDigest : bytes := replicate 32 x00.

Definition NextDigest (prev : bytes) (index term : Z) (command : bytes) : bytes :=
  Sha256.sum (prev ++ be_put 8 index ++ be_put 8 term ++ command).

Record HashChain : Type := { hc_index : Z; hc_digest : bytes }.

Definition NewHashChain (index : Z) (digest : bytes) : HashChain :=
  {| hc_index := index; hc_digest := digest |}.

Definition Advance (c : HashChain) (index term : Z) (command : bytes) : HashChain :=
  if index <=? hc_index c then c
  else {| hc_digest := NextDigest (hc_digest c) index term command; hc_index := index |}.

Definition HashChain_Head (c : HashChain) : Z * bytes := (hc_index c, hc_digest c).

(** [hex.EncodeToString]. *)
Definition hex_digit (n : Z) : byte := if n <? 10 then byte_of (48 + n) else byte_of (87 + n).

Definition DigestHex (d : bytes) : bytes :=
  flat_map (fun b => [hex_digit (byte_val b / 16); hex_digit (byte_val b mod 16)]) d.

(** ** The persisted head *)

Definition HeadTenant : bytes := str "__ledger".
Definition HeadRegion : bytes := str "CHAIN".
Definition HeadMinor : bytes := str "head".

Definition headKey : Key :=
  {| MajorKey := HeadTenant; RegionName := HeadRegion; MinorKey := HeadMinor; Timestamp := None |}.

Record headRecord : Type := { hr_Index : Z; hr_Digest : bytes }.

#[global] Instance headRecord_eq_dec : EqDecision headRecord.
Proof. solve_decision. Defined.

#[global] Instance headRecord_countable : Countable headRecord.
Proof.
  refine (inj_countable' (fun r => (hr_Index r, hr_Digest r))
            (fun '(a, b) => {| hr_Index := a; hr_Digest := b |}) _). by intros [].
Defined.

(** The storage surface head persistence needs ([headStore]), at a clock. *)
Class HeadStore (S : Type) : Type := {
  hs_Get : Z -> S -> KeyRequest -> result Rec;
  hs_Put : Z -> S -> RecordRequest -> Z -> result Status * S
}.

Section Head.
Context `{ValuePkg} `{!Struct headRecord} {S : Type} `{!HeadStore S}.

Definition LoadHead (now : Z) (s : S) : Z * bytes :=
  match hs_Get now s {| kr_Key := Some headKey; kr_HeadOnly := false; kr_Timeout := 0 |} with
  | Ret rec =>
      if len (rec_Value rec) =? 0 then (0, GenesisDigest) else
      match Unpack (rec_Value rec) with
      | Ret v =>
          match Unmarshal v with
          | Ret hr => if negb (len (hr_Digest hr) =? 32) then (0, GenesisDigest)
                      else (hr_Index hr, hr_Digest hr)
          | _ => (0, GenesisDigest)
          end
      | _ => (0, GenesisDigest)
      end
  | _ => (0, GenesisDigest)
  end.

(** The write of the head record; its errors are dropped. *)
Definition head_request (raw : bytes) : RecordRequest := {|
  rr_Key := Some headKey; rr_Value := raw; rr_Metadata := 0; rr_TtlSeconds := 0;
  rr_CompareAndSet := false; rr_Version := 0; rr_Timeout := 0; rr_ExpiresAt := 0 |}.

Definition StoreHead (now : Z) (s : S) (index : Z) (digest : bytes) (commitVersion : Z) : S :=
  match Marshal {| hr_Index := index; hr_Digest := digest |} with
  | Ret v =>
      match Pack v with
      | Ret raw => snd (hs_Put now s (head_request raw) commitVersion)
      | _ => s
      end
  | _ => s
  end.

End Head.

(** ** What the chain commits to *)

(** Two different inputs with the same hash. *)
Definition sha256_collision : Prop := exists x y, x <> y /\ Sha256.sum x = Sha256.sum y.

Definition uint64_entry (e : RaftLog) : Prop := is_uint64 (lg_Index e) /\ is_uint64 (lg_Term e).

Definition advance_all (c : HashChain) (log : list RaftLog) : HashChain :=
  fold_left (fun c e => Advance c (lg_Index e) (lg_Term e) (lg_Data e)) log c.

(** The entries of a log that are new for a chain: those past every earlier index. *)
Fixpoint fresh_entries (index : Z) (log : list RaftLog) : list RaftLog :=
  match log with
  | [] => []
  | e :: rest =>
      if lg_Index e <=? index then fresh_entries index rest else e :: fresh_entries (lg_Index e) rest
  end.

(** The digest of a history. *)
Definition digest_of (log : list RaftLog) : bytes :=
  fold_left (fun d e => NextDigest d (lg_Index e) (lg_Term e) (lg_Data e)) log GenesisDigest.

(** ** Lemmas *)

Lemma length_NextDigest p i t c : length (NextDigest p i t c) = 32%nat.
Proof. apply length_sha256. Qed.

Lemma NextDigest_inj p1 p2 i1 i2 t1 t2 c1 c2 :
  length p1 = length p2 -> is_uint64 i1 -> is_uint64 i2 -> is_uint64 t1 -> is_uint64 t2 ->
  NextDigest p1 i1 t1 c1 = NextDigest p2 i2 t2 c2 ->
  (p1 = p2 /\ i1 = i2 /\ t1 = t2 /\ c1 = c2) \/ sha256_collision.
Proof.
  intros Hp Hi1 Hi2 Ht1 Ht2 E. unfold NextDigest in E.
  destruct (decide (p1 ++ be_put 8 i1 ++ be_put 8 t1 ++ c1 = p2 ++ be_put 8 i2 ++ be_put 8 t2 ++ c2)) as [Eq|Ne];
    [left|right; by eexists _, _].
  apply app_inj_1 in Eq as [-> Eq]; [|done].
  apply app_inj_1 in Eq as [Ei Eq]; [|by rewrite !length_be_put].
  apply app_inj_1 in Eq as [Et ->]; [|by rewrite !length_be_put].
  apply (f_equal be_get) in Ei. apply (f_equal be_get) in Et.
  rewrite !be_get_put_small in Ei, Et by (unfold is_uint64 in *; done). done.
Qed.

Lemma length_digest_of l : length (digest_of l) = 32%nat.
Proof.
  unfold digest_of. destruct l as [|e l] using rev_ind; [done|].
  rewrite fold_left_app. apply length_NextDigest.
Qed.

(** Histories with the same digest are the same, or break the hash. *)
Lemma digest_of_inj l1 l2 :
  Forall uint64_entry l1 -> Forall uint64_entry l2 -> digest_of l1 = digest_of l2 ->
  l1 = l2 \/ sha256_collision \/ (exists x, Sha256.sum x = GenesisDigest).
Proof.
  revert l2. induction l1 as [|e1 l1 IH] using rev_ind; intros l2 W1 W2 E;
    destruct l2 as [|e2 l2 _] using rev_ind; [by left| | |].
  - right; right. unfold digest_of in E. rewrite fold_left_app in E. by eexists.
  - right; right. unfold digest_of in E. rewrite fold_left_app in E. by eexists.
  - apply Forall_app in W1 as [W1 Hw1]. apply Forall_app in W2 as [W2 Hw2].
    apply Forall_singleton in Hw1 as [Hi1 Ht1]. apply Forall_singleton in Hw2 as [Hi2 Ht2].
    unfold digest_of in E. rewrite !fold_left_app in E. cbn [fold_left] in E.
    fold (digest_of l1) (digest_of l2) in E.
    apply NextDigest_inj in E as [(Ed & Ei & Et & Ec)|HC]; try done; [|right; by left|by rewrite !length_digest_of].
    destruct (IH l2 W1 W2 Ed) as [->|HX]; [|by right]. left.
    destruct e1, e2; cbn in *; by subst.
Qed.

Lemma advance_all_fresh c log :
  hc_digest (advance_all c log) =
    fold_left (fun d e => NextDigest d (lg_Index e) (lg_Term e) (lg_Data e)) (fresh_entries (hc_index c) log) (hc_digest c).
Proof.
  revert c. induction log as [|e log IH]; intros c; [done|]. cbn [advance_all fold_left fresh_entries].
  fold (advance_all (Advance c (lg_Index e) (lg_Term e) (lg_Data e)) log).
  unfold Advance. destruct (lg_Index e <=? hc_index c); rewrite IH; done.
Qed.

Lemma fresh_entries_Forall P index log : Forall P log -> Forall P (fresh_entries index log).
Proof.
  intros HP. revert index. induction HP as [|e log He HP IH]; intros index; cbn [fresh_entries]; [constructor|].
  destruct (lg_Index e <=? index); [apply IH|]. constructor; [done|apply IH].
Qed.

(** Nothing at or below the head is fresh. *)
Lemma fresh_entries_old index log :
  Forall (fun e => lg_Index e <= index) log -> fresh_entries index log = [].
Proof.
  induction 1 as [|e log He HP IH]; [done|]. cbn [fresh_entries].
  by rewrite (proj2 (Z.leb_le _ _) He).
Qed.

(** An entry past all of a log is fresh after it. *)
Lemma fresh_entries_snoc i l e :
  (forall x, x ∈ l -> lg_Index x < lg_Index e) -> i < lg_Index e ->
  fresh_entries i (l ++ [e]) = fresh_entries i l ++ [e].
Proof.
  revert i. induction l as [|x l IH]; intros i Hl Hi; cbn [app fresh_entries].
  - by rewrite (proj2 (Z.leb_gt _ _) Hi).
  - destruct (lg_Index x <=? i).
    + apply IH; [|done]. intros y Hy. apply Hl. by right.
    + cbn [app]. f_equal. apply IH; [|apply Hl; by left]. intros y Hy. apply Hl. by right.
Qed.

Lemma advance_all_old c log :
  Forall (fun e => lg_Index e <= hc_index c) log -> advance_all c log = c.
Proof.
  induction 1 as [|e log He HP IH]; [done|]. cbn [advance_all fold_left].
  unfold Advance. by rewrite (proj2 (Z.leb_le _ _) He).
Qed.

Lemma advance_all_index c log : hc_index c <= hc_index (advance_all c log) /\
  Forall (fun e => lg_Index e <= hc_index (advance_all c log)) log.
Proof.
  revert c. induction log as [|e log IH]; intros c; [done|]. cbn [advance_all fold_left].
  fold (advance_all (Advance c (lg_Index e) (lg_Term e) (lg_Data e)) log).
  destruct (IH (Advance c (lg_Index e) (lg_Term e) (lg_Data e))) as [Hle Hall].
  unfold Advance in *. destruct (Z.leb_spec (lg_Index e) (hc_index c)); cbn [hc_index] in *;
    (split; [lia|constructor; [lia|done]]).
Qed.

Lemma advance_all_length c log : length (hc_digest c) = 32%nat -> length (hc_digest (advance_all c log)) = 32%nat.
Proof.
  revert c. induction log as [|e log IH]; intros c Hc; [done|]. cbn [advance_all fold_left]. apply IH.
  unfold Advance. destruct (lg_Index e <=? hc_index c); [done|]. apply length_NextDigest.
Qed.

(** ** Properties *)


(** Replaying is harmless for the chain. Folding a log again, in whole or any of its
    entries in any order, after it has been folded leaves the head where it was. *)
Theorem chain_replay_ignored (c : HashChain) (log replay : list RaftLog) :
  (forall e, e ∈ replay -> e ∈ log) ->
  advance_all (advance_all c log) replay = advance_all c log.
Proof.
  intros Hsub. apply advance_all_old, Forall_forall. intros e He.
  destruct (advance_all_index c log) as [_ HA]. rewrite Forall_forall in HA. by apply HA, Hsub.
Qed.

(** ** Witnesses *)

Definition demo_log : list RaftLog := [
  {| lg_Index := 1; lg_Term := 1; lg_Data := str "a" |};
  {| lg_Index := 2; lg_Term := 1; lg_Data := str "b" |}].


Lemma chain_replay_ignored_witness :
  advance_all (advance_all (NewHashChain 0 GenesisDigest) demo_log) demo_log =
  advance_all (NewHashChain 0 GenesisDigest) demo_log.
Proof. apply chain_replay_ignored. intros e He. exact He. Defined.
