(* ===== verification/Fsm.v ===== *)
(** * The replicated state machine ([pkg/replication/fsm.go], [pkg/replication/snapshot.go])

    [Apply] runs on every replica for each committed entry: it folds the entry into the hash
    chain, persists the head, decodes the command and applies it to the local storage with the
    entry's log index as its version. [Snapshot]/[Restore] move a replica's storage as a badger
    backup. The chain mutex is left out: the apply path is single-threaded. *)

From S2P Require Import Prelude Sha256 Pb Keys Engine Storage StorageSpec StorageReads StorageProps Value Command Service Ledger.

Section Fsm.
Context `{UuidPkg} `{Badger} `{StorePkg} `{Payloads} `{!Struct headRecord}.

(** ** State *)

Record FSM : Type := { fsm_Storage : KeyValueStorageCtx; fsm_chain : option HashChain }.

Record fsmResult : Type := {
  fr_status : option Status;
  fr_incr : option IncrementResponse;
  fr_reclaimed : Z;
  fr_err : option error
}.

(** The storage as the head persistence sees it. *)
#[global] Instance storage_head_store : HeadStore KeyValueStorageCtx :=
  {| hs_Get := Get; hs_Put := Put |}.

#[global] Instance fsm_has_storage : HasStorage FSM :=
  {| get_storage := fsm_Storage;
     set_storage := fun f st => {| fsm_Storage := st; fsm_chain := fsm_chain f |} |}.

(** ** Operations *)

Definition PostConstruct (now : Z) (t : FSM) : FSM :=
  let '(index, digest) := LoadHead now (fsm_Storage t) in
  {| fsm_Storage := fsm_Storage t; fsm_chain := Some (NewHashChain index digest) |}.

Definition ensureChain (now : Z) (t : FSM) : HashChain :=
  match fsm_chain t with
  | Some c => c
  | None => let '(index, digest) := LoadHead now (fsm_Storage t) in NewHashChain index digest
  end.

(** [ChainHead] also keeps the chain it had to seed. *)
Definition ChainHead (now : Z) (t : FSM) : (Z * bytes) * FSM :=
  let c := ensureChain now t in
  (HashChain_Head c, {| fsm_Storage := fsm_Storage t; fsm_chain := Some c |}).

Definition advanceChain (now : Z) (t : FSM) (entry : RaftLog) : FSM :=
  let c := Advance (ensureChain now t) (lg_Index entry) (lg_Term entry) (lg_Data entry) in
  let '(index, digest) := HashChain_Head c in
  {| fsm_Storage := StoreHead now (fsm_Storage t) index digest (lg_Index entry); fsm_chain := Some c |}.

Definition err_result (e : error) : fsmResult :=
  {| fr_status := None; fr_incr := None; fr_reclaimed := 0; fr_err := Some e |}.

(** [return &fsmResult{status: status, err: err}], and the same for a counter and a count. *)
Definition status_result (r : result Status) : result fsmResult :=
  match r with
  | Ret s => Ret {| fr_status := Some s; fr_incr := None; fr_reclaimed := 0; fr_err := None |}
  | Fail e => Ret (err_result e)
  | Panic => Panic
  end.

Definition incr_result (r : result IncrementResponse) : result fsmResult :=
  match r with
  | Ret i => Ret {| fr_status := None; fr_incr := Some i; fr_reclaimed := 0; fr_err := None |}
  | Fail e => Ret (err_result e)
  | Panic => Panic
  end.

Definition reclaimed_result (r : result Z) : result fsmResult :=
  match r with
  | Ret n => Ret {| fr_status := None; fr_incr := None; fr_reclaimed := n; fr_err := None |}
  | Fail e => Ret (err_result e)
  | Panic => Panic
  end.

(** The switch of [Apply]; a failed type assertion panics. *)
Definition dispatch (now : Z) (t : FSM) (index op : Z) (msg : message) : result fsmResult * FSM :=
  let st := fsm_Storage t in
  if op =? opPut then
    match msg with
    | MRecord m => let r := on_storage t (Put now st m index) in (status_result (fst r), snd r)
    | _ => (Panic, t)
    end
  else if op =? opTouch then
    match msg with
    | MRecord m => let r := on_storage t (Touch now st m index) in (status_result (fst r), snd r)
    | _ => (Panic, t)
    end
  else if op =? opRemove then
    match msg with
    | MKey m => let r := on_storage t (Remove st m) in (status_result (fst r), snd r)
    | _ => (Panic, t)
    end
  else if op =? opIncrement then
    match msg with
    | MIncrement m => let r := on_storage t (Increment now st m index) in (incr_result (fst r), snd r)
    | _ => (Panic, t)
    end
  else if op =? opBatch then
    match msg with
    | MBatch m => let r := on_storage t (SetBatch now st m index) in (status_result (fst r), snd r)
    | _ => (Panic, t)
    end
  else if op =? opReclaim then
    match msg with
    | MReclaim m => let r := on_storage t (Reclaim st m) in (reclaimed_result (fst r), snd r)
    | _ => (Panic, t)
    end
  else (Ret (err_result (ErrNew (str "unhandled raft op"))), t).

Definition Apply (now : Z) (t : FSM) (entry : RaftLog) : result fsmResult * FSM :=
  let t := advanceChain now t entry in
  match decodeCommand (lg_Data entry) with
  | (_, Fail err) => (Ret (err_result err), t)
  | (_, Panic) => (Panic, t)
  | (op, Ret msg) => dispatch now t (lg_Index entry) op msg
  end.

(** A snapshot keeps a reference to the storage and reads it when it is persisted. *)
Definition Persist (t : FSM) : result bytes :=
  '(dump, _) ← errors_Wrap "backup storage into snapshot sink" (Backup (fsm_Storage t) 0);
  Ret dump.

Definition Restore (t : FSM) (dump : bytes) : result unit * FSM :=
  let '(r, st) := Load (fsm_Storage t) dump in
  (errors_Wrap "restore snapshot into storage" r, {| fsm_Storage := st; fsm_chain := fsm_chain t |}).

(** A replica applies a committed log, each entry at its own clock. *)
Fixpoint apply_all (clock : RaftLog -> Z) (t : FSM) (log : list RaftLog) : list (result fsmResult) * FSM :=
  match log with
  | [] => ([], t)
  | e :: rest =>
      let '(r, t) := Apply (clock e) t e in
      let '(rs, t) := apply_all clock t rest in
      (r :: rs, t)
  end.

(** ** The abstract state machine *)

Definition status_of (r : effect Status) : result fsmResult * model * list HubEvent :=
  let '(r, m, evs) := r in (status_result r, m, evs).
Definition incr_of (r : effect IncrementResponse) : result fsmResult * model * list HubEvent :=
  let '(r, m, evs) := r in (incr_result r, m, evs).
Definition reclaimed_of (r : effect Z) : result fsmResult * model * list HubEvent :=
  let '(r, m, evs) := r in (reclaimed_result r, m, evs).

(** What one command does to the contents. *)
Definition command_spec (now : Z) (m : model) (index op : Z) (msg : message) :
    result fsmResult * model * list HubEvent :=
  match msg with
  | MRecord r => if op =? opPut then status_of (put_spec now m r index)
                 else status_of (touch_spec now m r index)
  | MKey r => status_of (remove_spec m r)
  | MIncrement r => incr_of (increment_spec now m r index)
  | MBatch r => status_of (batch_spec now m r index)
  | MReclaim r => reclaimed_of (reclaim_spec m r)
  end.

Definition head_spec (now : Z) (m : model) (c : HashChain) (index : Z) : model * list HubEvent :=
  match Marshal {| hr_Index := hc_index c; hr_Digest := hc_digest c |} with
  | Ret v =>
      match Pack v with
      | Ret raw => let '(_, m', evs) := put_spec now m (head_request raw) index in (m', evs)
      | _ => (m, [])
      end
  | _ => (m, [])
  end.

Definition apply_spec (now : Z) (m : model) (c : HashChain) (e : RaftLog) :
    result fsmResult * model * HashChain * list HubEvent :=
  let c := Advance c (lg_Index e) (lg_Term e) (lg_Data e) in
  let '(m, evs) := head_spec now m c (lg_Index e) in
  match decodeCommand (lg_Data e) with
  | (_, Fail err) => (Ret (err_result err), m, c, evs)
  | (_, Panic) => (Panic, m, c, evs)
  | (op, Ret msg) =>
      let '(r, m', evs') := command_spec now m (lg_Index e) op msg in (r, m', c, evs ++ evs')
  end.

(** The widths of a command's integers. *)
Definition message_ok (msg : message) : Prop :=
  match msg with
  | MRecord r => is_int64 (rr_ExpiresAt r)
  | MKey _ => True
  | MIncrement r => is_int64 (ir_ExpiresAt r)
  | MBatch r => Forall (fun x => is_int64 (rr_ExpiresAt x)) (br_Records r)
  | MReclaim _ => True
  end.

(** The command's effect does not depend on the clock of the replica that applies it. *)
Definition message_stamped (msg : message) : Prop :=
  match msg with
  | MRecord r => record_stamped r
  | MKey _ => True
  | MIncrement r => increment_stamped r
  | MBatch r => Forall record_stamped (br_Records r)
  | MReclaim _ => True
  end.

Definition entry_holds (P : message -> Prop) (e : RaftLog) : Prop :=
  forall op msg, decodeCommand (lg_Data e) = (op, Ret msg) -> P msg.

Definition entry_ok (e : RaftLog) : Prop :=
  is_uint64 (lg_Index e) /\ lg_Index e <> 0 /\ is_uint64 (lg_Term e) /\ entry_holds message_ok e.

End Fsm.
