(* ===== verification/FsmProps.v ===== *)
(** * Properties of the replicated state machine

    Replicas that apply the same log agree whatever their clocks; the hash chain survives a
    restart; and where the code falls short: replayed increments and restored snapshots. *)

From S2P Require Import Prelude Sha256 Pb Keys Engine Storage StorageSpec StorageReads StorageProps Value Command Service Ledger Fsm.

Section Props.
Context `{UuidPkg} `{!UuidLaws} `{Badger} `{!BadgerSpec} `{StorePkg} `{!StoreLaws}.
Context `{Payloads} `{!PayloadLaws} `{!Struct headRecord} `{!StructLaws headRecord}.

(** ** The state machine implements its specification *)

(** A step of the state machine that leaves the chain alone. *)
Definition fsm_does (t : FSM) (op : result fsmResult * FSM)
    (sp : result fsmResult * model * list HubEvent) : Prop :=
  fst op = fst (fst sp) /\ contents (fsm_Storage (snd op)) = snd (fst sp) /\
  hub (fsm_Storage (snd op)) = emit (hub (fsm_Storage t)) (snd sp) /\ fsm_chain (snd op) = fsm_chain t.

(** A storage step, wrapped as a result of the state machine. *)
Lemma fsm_does_lift {A} (t : FSM) (op : result A * KeyValueStorageCtx) (sp : effect A)
    (f : result A -> result fsmResult) :
  BadgerReliable -> refines (fsm_Storage t) op sp ->
  fsm_does t (let r := on_storage t op in (f (fst r), snd r)) (let '(r, m, evs) := sp in (f r, m, evs)).
Proof.
  intros HR Hop. apply (refines_reliable _ _ _ HR) in Hop as (Er & Ec & Eh).
  destruct sp as [[r m] evs]. cbn in *. by subst r.
Qed.

Lemma dispatch_does now t index op msg :
  BadgerReliable -> is_uint64 index -> payload_ok op msg = true -> message_ok msg ->
  fsm_does t (dispatch now t index op msg) (command_spec now (contents (fsm_Storage t)) index op msg).
Proof.
  intros HR Hi Hp Hok.
  unfold dispatch, command_spec, payload_ok, status_of, incr_of, reclaimed_of in *.
  destruct msg as [m|m|m|m|m]; cbn [message_ok] in Hok;
    [apply orb_true_iff in Hp as [Hp|Hp]|..]; apply Z.eqb_eq in Hp; subst op; cbn.
  - apply fsm_does_lift; [done|]. by apply Put_refines.
  - apply fsm_does_lift; [done|]. by apply Touch_refines.
  - apply fsm_does_lift; [done|]. apply Remove_refines.
  - apply fsm_does_lift; [done|]. by apply Increment_refines.
  - apply fsm_does_lift; [done|]. apply SetBatch_refines; [done|by right|done].
  - apply fsm_does_lift; [done|]. apply Reclaim_refines.
Qed.

Lemma StoreHead_does now st c index :
  BadgerReliable -> is_uint64 index ->
  let st' := StoreHead now st (hc_index c) (hc_digest c) index in
  contents st' = fst (head_spec now (contents st) c index) /\
  hub st' = emit (hub st) (snd (head_spec now (contents st) c index)).
Proof.
  intros HR Hi. unfold StoreHead, head_spec.
  destruct (Marshal _) as [v|?|]; [|cbn; by rewrite emit_nil..].
  destruct (Pack v) as [raw|?|]; [|cbn; by rewrite emit_nil..].
  assert (is_int64 (rr_ExpiresAt (head_request raw))) as He by (unfold is_int64; cbn; lia).
  destruct (refines_reliable _ _ _ HR (Put_refines now st (head_request raw) index He Hi)) as (_ & Ec & Eh).
  change (@hs_Put _ storage_head_store) with Put.
  by destruct (put_spec now (contents st) (head_request raw) index) as [[r m] evs].
Qed.

(** [Apply] computes the abstract step. *)
Lemma Apply_does now t e c r m c' evs :
  BadgerReliable -> entry_ok e -> fsm_chain t = Some c ->
  apply_spec now (contents (fsm_Storage t)) c e = (r, m, c', evs) ->
  exists t', Apply now t e = (r, t') /\ contents (fsm_Storage t') = m /\ fsm_chain t' = Some c' /\
    hub (fsm_Storage t') = emit (hub (fsm_Storage t)) evs.
Proof.
  intros HR (Hi & _ & _ & Hm) Hc. unfold Apply, apply_spec, advanceChain, ensureChain. rewrite Hc.
  set (c1 := Advance c (lg_Index e) (lg_Term e) (lg_Data e)). cbn [HashChain_Head].
  destruct (StoreHead_does now (fsm_Storage t) c1 (lg_Index e) HR Hi) as [Ec Eh].
  destruct (head_spec now (contents (fsm_Storage t)) c1 (lg_Index e)) as [m1 evs1]. cbn [fst snd] in Ec, Eh.
  match goal with |- context [dispatch now ?t1 _ _ _] => set (t1' := t1) end.
  destruct (decodeCommand (lg_Data e)) as [op [msg|err|]] eqn:Ed; [| |].
  - assert (payload_ok op msg = true) as Hp by (by apply (decodeCommand_payload (lg_Data e))).
    pose proof (dispatch_does now t1' (lg_Index e) op msg HR Hi Hp (Hm op msg Ed)) as (Er & Ec2 & Eh2 & Ech).
    assert (contents (fsm_Storage t1') = m1) as Hm1 by (exact Ec). rewrite Hm1 in Er, Ec2, Eh2.
    destruct (command_spec now m1 (lg_Index e) op msg) as [[r2 m2] evs2].
    destruct (dispatch now t1' (lg_Index e) op msg) as [r3 t3]. cbn in *.
    intros [= <- <- <- <-]. exists t3. subst r3. split; [done|]. split; [done|]. split; [done|].
    rewrite Eh2, Eh. apply emit_app.
  - intros [= <- <- <- <-]. exists t1'. done.
  - intros [= <- <- <- <-]. exists t1'. done.
Qed.

(** ** Clock independence *)

Lemma put_spec_clock now now' m r cv : record_stamped r -> put_spec now m r cv = put_spec now' m r cv.
Proof. intros Hs. unfold put_spec. by rewrite !Hs. Qed.

Lemma batch_fold_clock now now' cv rs m :
  Forall record_stamped rs -> batch_fold now cv rs m = batch_fold now' cv rs m.
Proof.
  intros Hs. revert m. induction Hs as [|r rs Hr Hs IH]; intros m; [done|]. cbn [batch_fold].
  destruct (rr_Key r); [|done]. cbn [need_key mbind outcome_bind]. rewrite !Hr. by rewrite IH.
Qed.

Lemma command_spec_clock now now' m index op msg :
  message_stamped msg -> command_spec now m index op msg = command_spec now' m index op msg.
Proof.
  intros Hs. destruct msg as [r|r|r|r|r]; cbn [command_spec message_stamped] in *; [|done| | |done].
  - destruct (op =? opPut); f_equal; [by apply put_spec_clock|]. unfold touch_spec. by rewrite !Hs.
  - f_equal. unfold increment_spec. by rewrite !Hs.
  - f_equal. unfold batch_spec. by rewrite (batch_fold_clock now now').
Qed.

Lemma head_request_stamped raw : record_stamped (head_request raw).
Proof. by intros now. Qed.

Lemma apply_spec_clock now now' m c e :
  entry_holds message_stamped e -> apply_spec now m c e = apply_spec now' m c e.
Proof.
  intros Hs. unfold apply_spec, head_spec.
  destruct (Marshal _) as [v|?|]; [destruct (Pack v) as [raw|?|]|..].
  1: rewrite (put_spec_clock now now') by (apply head_request_stamped);
     destruct (put_spec now' m (head_request raw) (lg_Index e)) as [[r1 m1] evs1].
  all: destruct (decodeCommand (lg_Data e)) as [op [msg|err|]] eqn:Ed; [|done|done].
  all: by rewrite (command_spec_clock now now') by (by apply (Hs op)).
Qed.

(** ** Convergence *)

(** Two replicas show the same data, the same chain and the same events. *)
Definition replicas_agree (t1 t2 : FSM) : Prop :=
  contents (fsm_Storage t1) = contents (fsm_Storage t2) /\
  hub (fsm_Storage t1) = hub (fsm_Storage t2) /\
  fsm_chain t1 = fsm_chain t2 /\ fsm_chain t1 <> None.

Lemma Apply_agree now1 now2 t1 t2 e :
  BadgerReliable -> entry_ok e -> entry_holds message_stamped e -> replicas_agree t1 t2 ->
  fst (Apply now1 t1 e) = fst (Apply now2 t2 e) /\
  replicas_agree (snd (Apply now1 t1 e)) (snd (Apply now2 t2 e)).
Proof.
  intros HR Hok Hs (Hc & Hh & Hch & Hn). destruct (fsm_chain t1) as [c|] eqn:E1; [|done].
  symmetry in Hch.
  destruct (apply_spec now1 (contents (fsm_Storage t1)) c e) as [[[r m] c'] evs] eqn:Es.
  destruct (Apply_does now1 t1 e c r m c' evs HR Hok E1 Es) as (t1' & -> & Hc1 & Hch1 & Hh1).
  rewrite (apply_spec_clock now1 now2 _ _ _ Hs), Hc in Es.
  destruct (Apply_does now2 t2 e c r m c' evs HR Hok Hch Es) as (t2' & -> & Hc2 & Hch2 & Hh2).
  cbn. split; [done|]. unfold replicas_agree. rewrite Hc1, Hc2, Hch1, Hch2, Hh1, Hh2, Hh. done.
Qed.

(** A successful step keeps the chain it computes. *)
Lemma Apply_chain now t e c :
  fsm_chain t = Some c ->
  fsm_chain (snd (Apply now t e)) = Some (Advance c (lg_Index e) (lg_Term e) (lg_Data e)).
Proof.
  intros Hc. unfold Apply, advanceChain, ensureChain. rewrite Hc. cbn [HashChain_Head].
  destruct (decodeCommand (lg_Data e)) as [op [msg|err|]]; [|done|done].
  unfold dispatch. repeat (match goal with |- context [if ?b then _ else _] => destruct b end; [by destruct msg|]).
  done.
Qed.

Lemma apply_all_chain clock t log c :
  fsm_chain t = Some c -> fsm_chain (snd (apply_all clock t log)) = Some (advance_all c log).
Proof.
  revert t c. induction log as [|e log IH]; intros t c Hc; [done|]. cbn [apply_all].
  pose proof (Apply_chain (clock e) t e c Hc) as H1'.
  destruct (Apply (clock e) t e) as [r t1]. specialize (IH t1 _ H1').
  by destruct (apply_all clock t1 log) as [rs t2].
Qed.

(** ** No panics *)

Lemma command_spec_no_panic now m index op msg : fst (fst (command_spec now m index op msg)) <> Panic.
Proof.
  destruct msg as [r|r|r|r|r]; cbn [command_spec].
  - destruct (op =? opPut); [unfold put_spec|unfold touch_spec]; destruct (rr_Key r); try done.
    + by destruct (_ && _)%bool.
    + by destruct (m !! _).
  - unfold remove_spec. by destruct (kr_Key r).
  - unfold increment_spec. by destruct (ir_Key r).
  - unfold batch_spec. pose proof (batch_fold_no_panic now index (br_Records r) m).
    by destruct (batch_fold now index (br_Records r) m) as [[? ?]|?|].
  - unfold reclaim_spec. by destruct (reclaim_fold (rc_Entries r) m).
Qed.

Lemma apply_spec_no_panic now m c e : fst (fst (fst (apply_spec now m c e))) <> Panic.
Proof.
  unfold apply_spec. destruct (head_spec now m _ (lg_Index e)) as [m1 evs1].
  pose proof (decodeCommand_total (lg_Data e)) as HT.
  destruct (decodeCommand (lg_Data e)) as [op [msg|err|]]; [|done|done].
  pose proof (command_spec_no_panic now m1 (lg_Index e) op msg) as HP.
  by destruct (command_spec now m1 (lg_Index e) op msg) as [[r m2] evs2].
Qed.

(** ** Versions *)

(** A step at a log index writes only entries of that version. *)
Definition writes_version (index : Z) (m m' : model) : Prop :=
  forall k e, m' !! k = Some e -> m !! k = Some e \/ e_version e = index.

Lemma writes_version_trans index m1 m2 m3 :
  writes_version index m1 m2 -> writes_version index m2 m3 -> writes_version index m1 m3.
Proof. intros W1 W2 k e Hk. destruct (W2 k e Hk) as [Hk2|]; [by apply W1|by right]. Qed.

Lemma writes_version_refl index m : writes_version index m m.
Proof. intros k e Hk. by left. Qed.

Lemma writes_version_insert index m k e : e_version e = index -> writes_version index m (<[k := e]> m).
Proof. intros Hv k' e'. rewrite lookup_insert. case_decide; [|by left]. intros [= <-]. by right. Qed.

Lemma writes_version_delete index m k : writes_version index m (delete k m).
Proof. intros k' e'. rewrite lookup_delete. case_decide; [done|]. by left. Qed.

Lemma next_version_index index old : index <> 0 -> next_version index old = index.
Proof. intros Hi. unfold next_version. by rewrite (proj2 (Z.eqb_neq index 0) Hi). Qed.

Lemma batch_fold_version now index rs m m' evs :
  index <> 0 -> batch_fold now index rs m = Ret (m', evs) -> writes_version index m m'.
Proof.
  intros Hi. revert m m' evs. induction rs as [|r rs IH]; intros m m' evs; cbn [batch_fold].
  { intros [= <- _]. apply writes_version_refl. }
  destruct (rr_Key r) as [key|]; cbn [need_key mbind outcome_bind]; [|done].
  rewrite next_version_index by done.
  match goal with |- context [batch_fold now index rs ?m1] =>
    destruct (batch_fold now index rs m1) as [[m2 e2]|?|] eqn:E end; [|done|done].
  cbn [mbind outcome_bind]. intros [= <- <-].
  eapply writes_version_trans; [|eapply IH, E]. by apply writes_version_insert.
Qed.

Lemma put_spec_version now m r index :
  index <> 0 -> writes_version index m (snd (fst (put_spec now m r index))).
Proof.
  intros Hi. unfold put_spec. destruct (rr_Key r) as [key|]; [|apply writes_version_refl].
  destruct (_ && _)%bool; [apply writes_version_refl|]. apply writes_version_insert.
  by apply next_version_index.
Qed.

Lemma command_spec_version now m index op msg :
  index <> 0 -> writes_version index m (snd (fst (command_spec now m index op msg))).
Proof.
  intros Hi. destruct msg as [r|r|r|r|r]; cbn [command_spec].
  - destruct (op =? opPut).
    + pose proof (put_spec_version now m r index Hi). by destruct (put_spec now m r index) as [[? ?] ?].
    + unfold touch_spec. destruct (rr_Key r) as [key|]; [|apply writes_version_refl].
      destruct (m !! enc_key key); [|apply writes_version_refl]. apply writes_version_insert.
      by apply next_version_index.
  - unfold remove_spec. destruct (kr_Key r); [apply writes_version_delete|apply writes_version_refl].
  - unfold increment_spec. destruct (ir_Key r); [|apply writes_version_refl].
    apply writes_version_insert. by apply next_version_index.
  - unfold batch_spec. destruct (batch_fold now index (br_Records r) m) as [[m' evs]|?|] eqn:E;
      [by eapply batch_fold_version|apply writes_version_refl..].
  - unfold reclaim_spec. destruct (reclaim_fold (rc_Entries r) m) as [m' d] eqn:E. cbn.
    intros k e Hk. left. rewrite (reclaim_fold_lookup _ _ _ _ k E) in Hk.
    destruct (m !! k) as [e0|]; [|done]. by destruct (listed (rc_Entries r) k e0).
Qed.

Lemma head_spec_version now m c index :
  index <> 0 -> writes_version index m (fst (head_spec now m c index)).
Proof.
  intros Hi. unfold head_spec.
  destruct (Marshal _) as [v|?|]; [|apply writes_version_refl..].
  destruct (Pack v) as [raw|?|]; [|apply writes_version_refl..].
  pose proof (put_spec_version now m (head_request raw) index Hi).
  by destruct (put_spec now m (head_request raw) index) as [[? ?] ?].
Qed.

Lemma apply_spec_version now m c e r m' c' evs :
  lg_Index e <> 0 -> apply_spec now m c e = (r, m', c', evs) -> writes_version (lg_Index e) m m'.
Proof.
  intros Hi. unfold apply_spec.
  pose proof (head_spec_version now m (Advance c (lg_Index e) (lg_Term e) (lg_Data e)) (lg_Index e) Hi) as HV.
  destruct (head_spec now m _ (lg_Index e)) as [m1 evs1]. cbn [fst] in HV.
  destruct (decodeCommand (lg_Data e)) as [op [msg|err|]]; [|by intros [= <- <- <- <-]..].
  pose proof (command_spec_version now m1 (lg_Index e) op msg Hi) as HC.
  destruct (command_spec now m1 (lg_Index e) op msg) as [[r2 m2] evs2].
  intros [= <- <- <- <-]. by eapply writes_version_trans.
Qed.

(** Applying a log of entries past an index leaves, of every version up to it, only entries
    that were there before. *)
Lemma apply_all_versions clock t log c n :
  BadgerReliable -> Forall entry_ok log -> Forall (fun e => n < lg_Index e) log -> fsm_chain t = Some c ->
  forall k e, contents (fsm_Storage (snd (apply_all clock t log))) !! k = Some e -> e_version e <= n ->
    contents (fsm_Storage t) !! k = Some e.
Proof.
  intros HR Hok Hn. revert t c Hok Hn. induction log as [|x log IH]; intros t c Hok Hn Hc k e; [done|].
  inversion Hok as [|? ? Hx Hoks]; subst. inversion Hn as [|? ? Hnx Hns]; subst. cbn [apply_all].
  destruct (apply_spec (clock x) (contents (fsm_Storage t)) c x) as [[[r m] c'] evs] eqn:Es.
  destruct (Apply_does (clock x) t x c r m c' evs HR Hx Hc Es) as (t1 & -> & Hc1 & Hch1 & _).
  specialize (IH t1 c' Hoks Hns Hch1 k e).
  destruct (apply_all clock t1 log) as [rs t2]. cbn [snd] in *. intros Hk Hv.
  specialize (IH Hk Hv). rewrite Hc1 in IH. destruct Hx as (_ & Hne & _).
  destruct (apply_spec_version _ _ _ _ _ _ _ _ Hne Es k e IH) as [|Ev]; [done|]. lia.
Qed.

(** ** The persisted head *)

(** The command leaves the record of the chain head alone. *)
Definition avoids (k : bytes) (msg : message) : Prop :=
  match msg with
  | MRecord r => enc_key <$> rr_Key r <> Some k
  | MKey r => enc_key <$> kr_Key r <> Some k
  | MIncrement r => enc_key <$> ir_Key r <> Some k
  | MBatch r => Forall (fun x => enc_key <$> rr_Key x <> Some k) (br_Records r)
  | MReclaim r => Forall (fun x => re_EntryKey x <> k) (rc_Entries r)
  end.

Lemma batch_fold_avoids now index rs m m' evs k :
  Forall (fun x => enc_key <$> rr_Key x <> Some k) rs ->
  batch_fold now index rs m = Ret (m', evs) -> m' !! k = m !! k.
Proof.
  intros Ha. revert m m' evs. induction Ha as [|r rs Hr Ha IH]; intros m m' evs; cbn [batch_fold].
  { by intros [= <- _]. }
  destruct (rr_Key r) as [key|]; cbn [need_key mbind outcome_bind]; [|done].
  match goal with |- context [batch_fold now index rs ?m1] =>
    destruct (batch_fold now index rs m1) as [[m2 e2]|?|] eqn:E end; [|done|done].
  cbn [mbind outcome_bind]. intros [= <- <-]. rewrite (IH _ _ _ E). apply lookup_insert_ne.
  intros Hk. apply Hr. exact (f_equal Some Hk).
Qed.

Lemma command_spec_avoids now m index op msg k :
  avoids k msg -> snd (fst (command_spec now m index op msg)) !! k = m !! k.
Proof.
  intros Ha. destruct msg as [r|r|r|r|r]; cbn [command_spec avoids] in *.
  - destruct (op =? opPut); [unfold put_spec|unfold touch_spec]; destruct (rr_Key r) as [key|]; try done.
    + destruct (_ && _)%bool; [done|]. cbn. apply lookup_insert_ne. intros Hk. apply Ha. exact (f_equal Some Hk).
    + destruct (m !! enc_key key); [|done]. cbn. apply lookup_insert_ne. intros Hk. apply Ha. exact (f_equal Some Hk).
  - unfold remove_spec. destruct (kr_Key r) as [key|]; [|done]. cbn. apply lookup_delete_ne.
    intros Hk. apply Ha. exact (f_equal Some Hk).
  - unfold increment_spec. destruct (ir_Key r) as [key|]; [|done]. cbn. apply lookup_insert_ne.
    intros Hk. apply Ha. exact (f_equal Some Hk).
  - unfold batch_spec. destruct (batch_fold now index (br_Records r) m) as [[m' evs]|?|] eqn:E; [|done|done].
    by eapply batch_fold_avoids.
  - unfold reclaim_spec. destruct (reclaim_fold (rc_Entries r) m) as [m' d] eqn:E. cbn.
    rewrite (reclaim_fold_lookup _ _ _ _ k E). destruct (m !! k) as [e0|]; [|done].
    unfold listed. rewrite bool_decide_eq_false_2; [done|]. intros Hin.
    rewrite Forall_forall in Ha. by apply Ha in Hin.
Qed.

(** The record that holds a chain head, and reading it back. *)
Lemma LoadHead_stored now st c raw v index :
  BadgerReliable -> Marshal {| hr_Index := hc_index c; hr_Digest := hc_digest c |} = Ret v -> Pack v = Ret raw ->
  0 < len raw -> length (hc_digest c) = 32%nat ->
  contents st !! enc_key headKey = Some {| e_version := index; e_expires := 0; e_value := raw; e_meta := 0 |} ->
  LoadHead now st = HashChain_Head c.
Proof.
  intros HR Hm Hp Hraw Hd Hk. unfold LoadHead. change (@hs_Get _ storage_head_store) with Get.
  destruct (Get_cases now st headKey false 0) as [[size ->]|[HN _]]; [|done].
  unfold get_spec_rec. rewrite Hk. unfold live. cbn [e_expires]. rewrite no_expiry. cbn [negb].
  cbn [entry_record rec_Value e_value]. rewrite (proj2 (Z.eqb_neq (len raw) 0)) by lia.
  rewrite (unpack_pack _ _ Hp), (unmarshal_marshal _ _ Hm). cbn [hr_Digest hr_Index].
  unfold len. by rewrite Hd.
Qed.

(** One application of an increment entry moves the counter by its delta. *)
Lemma Apply_increment (now : Z) (t : FSM) (e : RaftLog) (key : Key) (req : IncrementRequest) (c : HashChain) :
  BadgerReliable -> entry_ok e -> decodeCommand (lg_Data e) = (opIncrement, Ret (MIncrement req)) ->
  ir_Key req = Some key -> enc_key key <> enc_key headKey -> fsm_chain t = Some c ->
  counter_of (ir_Initial req) (contents (fsm_Storage (snd (Apply now t e))) !! enc_key key) =
  int64 (counter_of (ir_Initial req) (contents (fsm_Storage t) !! enc_key key) + ir_Delta req).
Proof.
  intros HR Hok Hdec Hkey Hne Hc.
  destruct (apply_spec now (contents (fsm_Storage t)) c e) as [[[r m] c'] evs] eqn:Es.
  destruct (Apply_does now t e c r m c' evs HR Hok Hc Es) as (t' & -> & Hm & _). cbn [snd].
  rewrite Hm. unfold apply_spec in Es. rewrite Hdec in Es.
  set (c1 := Advance c (lg_Index e) (lg_Term e) (lg_Data e)) in Es.
  assert (fst (head_spec now (contents (fsm_Storage t)) c1 (lg_Index e)) !! enc_key key
          = contents (fsm_Storage t) !! enc_key key) as Hh.
  { unfold head_spec. destruct (Marshal _) as [v|?|]; [|done..]. destruct (Pack v) as [raw|?|]; [|done..].
    unfold put_spec. cbn. by apply lookup_insert_ne. }
  destruct (head_spec now (contents (fsm_Storage t)) c1 (lg_Index e)) as [m1 evs1]. cbn [fst] in Hh.
  cbn [command_spec] in Es. unfold increment_spec in Es. rewrite Hkey, Hh in Es.
  cbn [incr_of] in Es. injection Es as <- <- <- <-. rewrite lookup_insert_eq.
  etrans; [|apply int64_idem].
  exact (counter_of_encoded _ (int64 (counter_of _ (contents (fsm_Storage t) !! enc_key key) + ir_Delta req)) _ _ _).
Qed.

(** After an entry that leaves the head record alone, the record holds the new head. *)
Lemma Apply_stores_head (now : Z) (t : FSM) (e : RaftLog) (c : HashChain) (v : Value) (raw : bytes) :
  BadgerReliable -> entry_ok e -> entry_holds (avoids (enc_key headKey)) e -> fsm_chain t = Some c ->
  let c1 := Advance c (lg_Index e) (lg_Term e) (lg_Data e) in
  Marshal {| hr_Index := hc_index c1; hr_Digest := hc_digest c1 |} = Ret v -> Pack v = Ret raw ->
  contents (fsm_Storage (snd (Apply now t e))) !! enc_key headKey =
    Some {| e_version := lg_Index e; e_expires := 0; e_value := raw; e_meta := 0 |}.
Proof.
  intros HR Hok Hav Hc c1 Hm Hp.
  destruct (apply_spec now (contents (fsm_Storage t)) c e) as [[[r m] c'] evs] eqn:Es.
  destruct (Apply_does now t e c r m c' evs HR Hok Hc Es) as (t2 & -> & Hc2 & _). cbn [snd]. rewrite Hc2.
  unfold apply_spec in Es. fold c1 in Es. unfold head_spec in Es. rewrite Hm, Hp in Es.
  unfold put_spec in Es. cbn [head_request rr_Key rr_CompareAndSet andb rr_TtlSeconds rr_ExpiresAt rr_Value rr_Metadata] in Es.
  destruct Hok as (_ & Hne & _). rewrite next_version_index in Es by done.
  destruct (decodeCommand (lg_Data e)) as [op [msg|err|]] eqn:Ed.
  - match type of Es with context [command_spec now ?m1 _ _ _] =>
      pose proof (command_spec_avoids now m1 (lg_Index e) op msg _ (Hav op msg Ed)) as HA;
      destruct (command_spec now m1 (lg_Index e) op msg) as [[r2 m2] evs2] end.
    injection Es as <- <- <- <-. cbn [fst snd] in HA. rewrite HA. apply lookup_insert_eq.
  - injection Es as <- <- <- <-. apply lookup_insert_eq.
  - injection Es as <- <- <- <-. apply lookup_insert_eq.
Qed.

(** ** Properties *)

(** C2: replicas converge. Two replicas that agree, apply the same committed log of stamped
    commands, each at clocks of its own, and whose engines do not fail, return the same
    results, none of them a panic, and agree again: same contents, same watch events, same
    hash chain. *)
Theorem replicas_converge (clock1 clock2 : RaftLog -> Z) (t1 t2 : FSM) (log : list RaftLog) :
  BadgerReliable -> Forall entry_ok log -> Forall (entry_holds message_stamped) log ->
  replicas_agree t1 t2 ->
  fst (apply_all clock1 t1 log) = fst (apply_all clock2 t2 log) /\
  Forall (fun r => r <> Panic) (fst (apply_all clock1 t1 log)) /\
  replicas_agree (snd (apply_all clock1 t1 log)) (snd (apply_all clock2 t2 log)).
Proof.
  intros HR Hok Hs. revert t1 t2. induction Hok as [|e log He Hok IH]; intros t1 t2 Hag; [done|].
  inversion Hs as [|? ? Hse Hss]; subst. specialize (IH Hss). cbn [apply_all].
  destruct (Apply_agree (clock1 e) (clock2 e) t1 t2 e HR He Hse Hag) as [Er Hag'].
  assert (fst (Apply (clock1 e) t1 e) <> Panic) as HP.
  { destruct Hag as (_ & _ & _ & Hn). destruct (fsm_chain t1) as [c|] eqn:Ec; [|done].
    pose proof (apply_spec_no_panic (clock1 e) (contents (fsm_Storage t1)) c e) as HN.
    destruct (apply_spec (clock1 e) (contents (fsm_Storage t1)) c e) as [[[r m] c'] evs] eqn:Es.
    by destruct (Apply_does (clock1 e) t1 e c r m c' evs HR He Ec Es) as (t' & -> & _). }
  destruct (Apply (clock1 e) t1 e) as [r1 t1'], (Apply (clock2 e) t2 e) as [r2 t2']. cbn [fst snd] in *.
  destruct (IH t1' t2' Hag') as (Er' & Hp' & Hag2).
  destruct (apply_all clock1 t1' log) as [rs1 t1''], (apply_all clock2 t2' log) as [rs2 t2'']. cbn [fst snd] in *.
  split; [congruence|]. split; [by constructor|done].
Qed.


(** Any storage with the contents a replica has after an entry persists the replica's head. *)
Lemma applied_head_loads (now now' : Z) (t : FSM) (e : RaftLog) (c : HashChain) (st : KeyValueStorageCtx) :
  BadgerReliable -> StructReliable headRecord ->
  (forall m v raw, Marshal m = Ret v -> Pack v = Ret raw -> 0 < len raw) ->
  entry_ok e -> entry_holds (avoids (enc_key headKey)) e ->
  fsm_chain t = Some c -> length (hc_digest c) = 32%nat ->
  contents st = contents (fsm_Storage (snd (Apply now t e))) ->
  LoadHead now' st = HashChain_Head (Advance c (lg_Index e) (lg_Term e) (lg_Data e)).
Proof.
  intros HR Henc Hpos Hok Hav Hc Hd Hst.
  set (c1 := Advance c (lg_Index e) (lg_Term e) (lg_Data e)).
  destruct (encodes {| hr_Index := hc_index c1; hr_Digest := hc_digest c1 |}) as (v & raw & Hm & Hp).
  assert (length (hc_digest c1) = 32%nat) as Hd1.
  { unfold c1, Advance. destruct (lg_Index e <=? hc_index c); [done|]. apply length_NextDigest. }
  apply (LoadHead_stored now' st c1 raw v (lg_Index e) HR Hm Hp (Hpos _ _ _ Hm Hp) Hd1). rewrite Hst.
  by apply (Apply_stores_head now t e c v raw).
Qed.

(** C28: the chain survives a restart. After an entry whose command does not write the head
    record itself is applied, a state machine that starts again on the same storage seeds its
    chain with exactly the head the running one had. *)
Theorem restart_recovers_chain (now now' : Z) (t : FSM) (e : RaftLog) (c : HashChain) :
  BadgerReliable -> StructReliable headRecord ->
  (forall m v raw, Marshal m = Ret v -> Pack v = Ret raw -> 0 < len raw) ->
  entry_ok e -> entry_holds (avoids (enc_key headKey)) e ->
  fsm_chain t = Some c -> length (hc_digest c) = 32%nat ->
  let t' := snd (Apply now t e) in
  fsm_chain (PostConstruct now' {| fsm_Storage := fsm_Storage t'; fsm_chain := None |}) = fsm_chain t'.
Proof.
  intros HR Henc Hpos Hok Hav Hc Hd t'.
  assert (fsm_chain t' = Some (Advance c (lg_Index e) (lg_Term e) (lg_Data e))) as -> by (by apply Apply_chain).
  unfold PostConstruct. cbn [fsm_Storage].
  rewrite (applied_head_loads now now' t e c (fsm_Storage t') HR Henc Hpos Hok Hav Hc Hd eq_refl).
  cbn [HashChain_Head fsm_chain]. by destruct (Advance c _ _ _).
Qed.

(** An installed snapshot does not bring its chain head. A follower that started on an
    empty store and restores the snapshot of a leader that applied a non-empty log gets the
    leader's contents, but goes on folding from its own genesis head: after the next entry
    its digest differs from the leader's, short of a break of SHA-256. *)
Theorem restore_leaves_stale_chain (clock : RaftLog -> Z) (now : Z) (leader follower follower' : FSM)
    (log : list RaftLog) (dump : bytes) (e : RaftLog) :
  Forall uint64_entry (log ++ [e]) -> fresh_entries 0 log <> [] ->
  (forall x, x ∈ log -> lg_Index x < lg_Index e) -> 0 < lg_Index e ->
  fsm_chain leader = Some (NewHashChain 0 GenesisDigest) ->
  fsm_chain follower = Some (NewHashChain 0 GenesisDigest) ->
  db_view (db (fsm_Storage follower)) = ∅ ->
  let leader1 := snd (apply_all clock leader log) in
  Persist leader1 = Ret dump -> Restore follower dump = (Ret tt, follower') ->
  contents (fsm_Storage follower') = contents (fsm_Storage leader1) /\
  (fst (ChainHead now (snd (Apply now follower' e))) <> fst (ChainHead now (snd (Apply now leader1 e))) \/
   sha256_collision \/ exists x, Sha256.sum x = GenesisDigest).
Proof.
  intros Hw Hfresh Hlt Hpos Hl Hf Hempty leader1 HP HRs. split.
  { unfold Persist, Backup in HP. destruct (db_Backup (db (fsm_Storage leader1)) 0) as [[d ver]|?|] eqn:EB; [|done|done].
    cbn in HP. injection HP as ->. unfold Restore, Load in HRs.
    destruct (db_Load (db (fsm_Storage follower)) dump) as [r db'] eqn:EL. injection HRs as Er <-.
    destruct r as [[]|?|]; [|done|done]. unfold contents. cbn [fsm_Storage with_db db].
    by rewrite (backup_load_spec _ _ _ _ _ Hempty EB EL). }
  assert (fsm_chain follower' = Some (NewHashChain 0 GenesisDigest)) as Hf'.
  { unfold Restore in HRs. destruct (Load (fsm_Storage follower) dump) as [r st].
    injection HRs as _ <-. exact Hf. }
  pose proof (apply_all_chain clock leader log _ Hl) as Hl1. fold leader1 in Hl1.
  apply Forall_app in Hw as [Hw He].
  unfold ChainHead, ensureChain. rewrite (Apply_chain now _ e _ Hf'), (Apply_chain now _ e _ Hl1).
  cbn [fst HashChain_Head].
  set (g := NewHashChain 0 GenesisDigest) in *.
  destruct (decide (hc_digest (advance_all g [e]) = hc_digest (advance_all g (log ++ [e])))) as [E|E].
  - right. rewrite !advance_all_fresh in E. cbn [g NewHashChain hc_index hc_digest] in E.
    apply digest_of_inj in E as [E|HX]; [|done|by apply fresh_entries_Forall|
      apply fresh_entries_Forall; by apply Forall_app].
    exfalso. cbn [fresh_entries] in E. rewrite (proj2 (Z.leb_gt _ _) Hpos) in E.
    rewrite fresh_entries_snoc in E by done. destruct (fresh_entries 0 log) as [|y l]; [done|].
    cbn [app] in E. injection E as _ E. by destruct l.
  - left. intros Eh. apply E. unfold advance_all in *. rewrite fold_left_app. cbn [fold_left].
    by injection Eh as _ Eh.
Qed.

(** Replay is not idempotent for counters. When raft applies an increment entry a second
    time, as it does after a restart for the entries past the last snapshot while the storage
    kept its contents, the chain ignores the entry but the counter moves by the delta again. *)
Theorem replayed_increment_counts_twice (now1 now2 : Z) (t : FSM) (e : RaftLog) (key : Key)
    (req : IncrementRequest) (c : HashChain) :
  BadgerReliable -> entry_ok e -> decodeCommand (lg_Data e) = (opIncrement, Ret (MIncrement req)) ->
  ir_Key req = Some key -> enc_key key <> enc_key headKey -> fsm_chain t = Some c ->
  let t1 := snd (Apply now1 t e) in let t2 := snd (Apply now2 t1 e) in
  let counter t := counter_of (ir_Initial req) (contents (fsm_Storage t) !! enc_key key) in
  fsm_chain t2 = fsm_chain t1 /\
  counter t1 = int64 (counter t + ir_Delta req) /\
  counter t2 = int64 (counter t + ir_Delta req + ir_Delta req).
Proof.
  intros HR Hok Hdec Hkey Hne Hc t1 t2 counter.
  assert (forall now u cu, fsm_chain u = Some cu ->
    counter (snd (Apply now u e)) = int64 (counter u + ir_Delta req)) as Hstep
    by (intros now u cu; by apply (Apply_increment now u e key req cu)).
  pose proof (Apply_chain now1 t e c Hc) as Hc1. fold t1 in Hc1.
  pose proof (Apply_chain now2 t1 e _ Hc1) as Hc2. fold t2 in Hc2. split; [|split].
  - rewrite Hc2, Hc1. f_equal. unfold Advance. destruct (Z.leb_spec (lg_Index e) (hc_index c)).
    + by rewrite (proj2 (Z.leb_le _ _)).
    + cbn [hc_index]. by rewrite Z.leb_refl.
  - exact (Hstep now1 t c Hc).
  - unfold t2. rewrite (Hstep now2 t1 _ Hc1). unfold t1. rewrite (Hstep now1 t c Hc).
    apply int64_add_int64.
Qed.

End Props.

(** ** Witnesses: the properties on a concrete replica *)

Section Witness.
#[local] Existing Instances flat_uuid flat_uuid_laws mem_badger mem_spec flat_store flat_store_laws
  flat_value flat_payloads flat_payload_laws.
#[local] Instance flat_head : Struct headRecord := flat_struct headRecord.
#[local] Instance flat_head_laws : StructLaws headRecord := flat_struct_laws headRecord.

Definition demo_fsm : FSM :=
  {| fsm_Storage := demo_storage; fsm_chain := Some (NewHashChain 0 GenesisDigest) |}.

Definition demo_entry_at (index op : Z) (msg : message) : RaftLog :=
  {| lg_Index := index; lg_Term := 1;
     lg_Data := match encodeCommand op msg with Ret d => d | _ => [] end |}.

Definition demo_put_log : RaftLog :=
  demo_entry_at 5 opPut (MRecord (stamp_record 100 (demo_record (str "v") 60 false 0))).

Definition demo_incr_log : RaftLog := demo_entry_at 6 opIncrement (MIncrement demo_increment).

Lemma demo_entry_decodes index op msg data :
  encodeCommand op msg = Ret data -> payload_ok op msg = true ->
  decodeCommand (lg_Data (demo_entry_at index op msg)) = (op, Ret msg).
Proof. intros He Hp. unfold demo_entry_at. cbn [lg_Data]. rewrite He. by apply encode_decode. Qed.

Lemma demo_put_decodes :
  decodeCommand (lg_Data demo_put_log) = (opPut, Ret (MRecord (stamp_record 100 (demo_record (str "v") 60 false 0)))).
Proof. by eapply demo_entry_decodes. Qed.

Lemma demo_incr_decodes :
  decodeCommand (lg_Data demo_incr_log) = (opIncrement, Ret (MIncrement demo_increment)).
Proof. by eapply demo_entry_decodes. Qed.

Lemma demo_put_ok : entry_ok demo_put_log.
Proof.
  split; [unfold is_uint64; cbn; lia|]. split; [done|]. split; [unfold is_uint64; cbn; lia|].
  intros op msg HD. rewrite demo_put_decodes in HD. injection HD as <- <-.
  apply resolveExpiry_int64. unfold is_int64. cbn. lia.
Qed.

Lemma demo_incr_ok : entry_ok demo_incr_log.
Proof.
  split; [unfold is_uint64; cbn; lia|]. split; [done|]. split; [unfold is_uint64; cbn; lia|].
  intros op msg HD. rewrite demo_incr_decodes in HD. injection HD as <- <-. change (is_int64 0). unfold is_int64. lia.
Qed.

Lemma demo_put_stamped : entry_holds message_stamped demo_put_log.
Proof.
  intros op msg HD. rewrite demo_put_decodes in HD. injection HD as <- <-. apply stamp_record_stamped.
Qed.

Lemma replicas_converge_witness :
  replicas_agree (snd (apply_all (fun _ => 100) demo_fsm [demo_put_log]))
                 (snd (apply_all (fun _ => 9000) demo_fsm [demo_put_log])).
Proof.
  refine (proj2 (proj2 (replicas_converge (fun _ => 100) (fun _ => 9000) demo_fsm demo_fsm [demo_put_log]
    mem_reliable _ _ _))).
  - constructor; [exact demo_put_ok|constructor].
  - constructor; [exact demo_put_stamped|constructor].
  - repeat split. discriminate.
Defined.


Lemma restart_recovers_chain_witness :
  let t' := snd (Apply 100 demo_fsm demo_put_log) in
  fsm_chain (PostConstruct 200 {| fsm_Storage := fsm_Storage t'; fsm_chain := None |}) = fsm_chain t'.
Proof.
  refine (restart_recovers_chain 100 200 demo_fsm demo_put_log (NewHashChain 0 GenesisDigest)
    mem_reliable (flat_struct_reliable headRecord) _ demo_put_ok _ eq_refl _).
  - intros m v raw [= <-] [= <-]. apply pos_bytes_nonempty.
  - intros op msg HD. rewrite demo_put_decodes in HD. injection HD as <- <-. vm_compute. discriminate.
  - reflexivity.
Defined.

Definition demo_leader : FSM := snd (apply_all (fun _ => 100) demo_fsm [demo_put_log]).

Definition demo_dump : bytes := match Persist demo_leader with Ret d => d | _ => [] end.

Lemma restore_leaves_stale_chain_witness :
  let follower' := snd (Restore demo_fsm demo_dump) in
  contents (fsm_Storage follower') = contents (fsm_Storage demo_leader).
Proof.
  refine (proj1 (restore_leaves_stale_chain (fun _ => 100) 100 demo_fsm demo_fsm (snd (Restore demo_fsm demo_dump))
    [demo_put_log] demo_dump demo_incr_log _ _ _ _ eq_refl eq_refl eq_refl eq_refl _)).
  - repeat constructor; unfold is_uint64; cbn; lia.
  - cbn. discriminate.
  - intros x Hx. apply list_elem_of_singleton in Hx. subst x. cbn. lia.
  - cbn. lia.
  - apply pair_by_fst. vm_compute. reflexivity.
Defined.

Lemma replayed_increment_counts_twice_witness :
  let t1 := snd (Apply 100 demo_fsm demo_incr_log) in let t2 := snd (Apply 200 t1 demo_incr_log) in
  counter_of 10 (contents (fsm_Storage t1) !! enc_key demo_key) = 15 /\
  counter_of 10 (contents (fsm_Storage t2) !! enc_key demo_key) = 20.
Proof.
  destruct (replayed_increment_counts_twice 100 200 demo_fsm demo_incr_log demo_key demo_increment
    (NewHashChain 0 GenesisDigest) mem_reliable demo_incr_ok demo_incr_decodes eq_refl) as (_ & HT1 & HT2).
  - vm_compute. discriminate.
  - reflexivity.
  - intros t1 t2. split; [etrans; [exact HT1|]|etrans; [exact HT2|]]; vm_compute; reflexivity.
Defined.

End Witness.
