(* ===== verification/Iam.v ===== *)
(** * Identities and authorization policy ([pkg/iam/iam.go], [pkg/iam/policy.go], [pkg/iam/token.go])

    The layout of the system tenant, the identity and policy records, and the compiled policy
    snapshot a node evaluates every request against. Go strings are [bytes]; a Go map is a
    [gmap], read with the zero value for a missing key. *)

From S2P Require Import Prelude Sha256 Pb Engine Value Ledger.

(** ** Layout of the system tenant *)

Definition SystemTenant : bytes := str "__system".
Definition Region : bytes := str "IAM".
Definition UserPrefix : bytes := str "user/".
Definition ServiceAccountPrefix : bytes := str "sa/".
Definition CertPrefix : bytes := str "cert/".
Definition GenesisMinor : bytes := str "cluster/genesis".

Definition PrincipalUser (name : bytes) : bytes := str "user:" ++ name.
Definition PrincipalServiceAccount (name : bytes) : bytes := str "serviceAccount:" ++ name.

(** [strings.IndexByte(s, c)] as a split at the first occurrence. *)
Fixpoint split_at (c : byte) (s : bytes) : option (bytes * bytes) :=
  match s with
  | [] => None
  | x :: r =>
      if decide (x = c) then Some ([], r)
      else match split_at c r with Some (a, b) => Some (x :: a, b) | None => None end
  end.

(** [(kind, name, true)], or [None] when there is no colon. *)
Definition ParsePrincipal (principal : bytes) : option (bytes * bytes) := split_at x3a principal.

Definition PrincipalStorageMinor (principal : bytes) : option bytes :=
  match ParsePrincipal principal with
  | None => None
  | Some (kind, name) =>
      if bool_decide (name = []) then None
      else if bool_decide (kind = str "user") then Some (UserPrefix ++ name)
      else if bool_decide (kind = str "serviceAccount") then Some (ServiceAccountPrefix ++ name)
      else None
  end.

Definition iam_Key (minor : bytes) : Key :=
  {| MajorKey := SystemTenant; RegionName := Region; MinorKey := minor; Timestamp := None |}.

(** ** Identity records *)

Record GenesisRecord : Type := { gn_InitializedAt : Z; gn_CreatedBy : bytes }.

Record UserRecord : Type := {
  us_Name : bytes; us_PasswordHash : bytes; us_Admin : bool; us_Disabled : bool; us_CreatedAt : Z }.

Record ServiceAccountRecord : Type := {
  sa_Name : bytes; sa_TokenHash : bytes; sa_Disabled : bool; sa_CreatedAt : Z }.

Record CertIndexRecord : Type := { ci_Principal : bytes; ci_Issued : bool; ci_CreatedAt : Z }.

Record TokenRecord : Type := {
  tk_Principal : bytes; tk_ExpiresAt : Z; tk_Label : bytes; tk_CreatedAt : Z }.

Record GroupRecord : Type := { gr_Name : bytes; gr_Members : list bytes }.

Record RoleRecord : Type := { ro_Name : bytes; ro_Permissions : list bytes }.

Record Binding : Type := { bd_Role : bytes; bd_Members : list bytes }.

Record PolicyRecord : Type := { po_Bindings : list Binding }.

(** [iam.Encode] and [iam.Decode]. *)
Definition iam_Encode `{ValuePkg} {M} `{!Struct M} (obj : M) : result bytes := v ← Marshal obj; Pack v.

Definition iam_Decode `{ValuePkg} {M} `{!Struct M} (raw : bytes) : result M := v ← Unpack raw; Unmarshal v.

(** Records of a type are always encoded, to some bytes, and read back. *)
Class Codable `{ValuePkg} (M : Type) `{!Struct M} : Prop := {
  coded : forall m : M, exists raw, iam_Encode m = Ret raw /\ raw <> [] /\ iam_Decode raw = Ret m
}.

Lemma flat_codable (M : Type) `{Countable M} : @Codable flat_value M (flat_struct M).
Proof.
  split. intros m. exists (pos_bytes (encode m)). split; [done|]. split.
  - intros E. pose proof (pos_bytes_nonempty (encode m)) as Hp. by rewrite E in Hp.
  - unfold iam_Decode. cbn. by rewrite bytes_pos_bytes, decode_encode.
Qed.

(** ** Tokens *)

Definition TokenPrefixServiceAccount : bytes := str "sa-".
Definition TokenPrefixUser : bytes := str "pat-".
Definition TokenIndexPrefix : bytes := str "token/".

Definition HashToken (token : bytes) : bytes := DigestHex (Sha256.sum token).

Definition TokenIndexKey (hash : bytes) : bytes := TokenIndexPrefix ++ hash.

(** [secret] are the 32 bytes read from the random source. *)
Definition NewToken (prefix secret : bytes) : bytes * bytes :=
  let token := prefix ++ DigestHex secret in (token, HashToken token).

(** ** Permissions and roles *)

Definition PermRecordsGet := str "cdb.records.get".
Definition PermRecordsPut := str "cdb.records.put".
Definition PermRecordsDelete := str "cdb.records.delete".
Definition PermRecordsIncrement := str "cdb.records.increment".
Definition PermRecordsBatch := str "cdb.records.batch".
Definition PermRecordsEnumerate := str "cdb.records.enumerate".
Definition PermRecordsWatch := str "cdb.records.watch".
Definition PermIamGet := str "cdb.iam.get".
Definition PermIamSet := str "cdb.iam.set".
Definition PermBackupsCreate := str "cdb.backups.create".
Definition PermBackupsRestore := str "cdb.backups.restore".
Definition PermProofsRead := str "cdb.proofs.read".
Definition PermClusterAdmin := str "cdb.cluster.admin".

Definition AllPermissions : list bytes :=
  [PermRecordsGet; PermRecordsPut; PermRecordsDelete; PermRecordsIncrement;
   PermRecordsBatch; PermRecordsEnumerate; PermRecordsWatch;
   PermIamGet; PermIamSet; PermBackupsCreate; PermBackupsRestore; PermProofsRead; PermClusterAdmin].

Definition IsPermission (p : bytes) : bool := existsb (fun known => bool_decide (known = p)) AllPermissions.

Definition GroupPrefix : bytes := str "group/".
Definition RolePrefix : bytes := str "role/".
Definition PolicyInstance : bytes := str "policy/i".
Definition PolicyTenantPrefix : bytes := str "policy/t/".
Definition PolicyRegionPrefix : bytes := str "policy/r/".

Definition RoleAdmin : bytes := str "roles/cdb.admin".

Definition PolicyTenantMinor (tenant : bytes) : bytes := PolicyTenantPrefix ++ tenant.

Definition PolicyRegionMinor (tenant region : bytes) : bytes :=
  PolicyRegionPrefix ++ tenant ++ str "/" ++ region.

Definition PrincipalGroup (name : bytes) : bytes := str "group:" ++ name.

Definition viewer_perms : list bytes := [PermRecordsGet; PermRecordsEnumerate; PermRecordsWatch].
Definition editor_perms : list bytes :=
  [PermRecordsPut; PermRecordsDelete; PermRecordsIncrement; PermRecordsBatch] ++ viewer_perms.

Definition PredefinedRoles : gmap bytes (list bytes) :=
  list_to_map [
    (str "roles/cdb.viewer", viewer_perms);
    (str "roles/cdb.editor", editor_perms);
    (str "roles/cdb.auditor", PermProofsRead :: viewer_perms);
    (str "roles/cdb.admin",
       [PermRecordsGet; PermRecordsPut; PermRecordsDelete; PermRecordsIncrement;
        PermRecordsBatch; PermRecordsEnumerate; PermRecordsWatch;
        PermIamGet; PermIamSet; PermBackupsCreate; PermBackupsRestore; PermProofsRead; PermClusterAdmin])].

Definition EffectivePermission (perm tenant : bytes) : bytes :=
  if negb (bool_decide (tenant = SystemTenant)) then perm
  else if bool_decide (perm = PermRecordsGet) || bool_decide (perm = PermRecordsEnumerate)
          || bool_decide (perm = PermRecordsWatch) then PermIamGet
  else PermIamSet.

(** ** The compiled snapshot *)

Record Snapshot : Type := {
  Admins : gmap bytes bool;
  Disabled : gmap bytes bool;
  MemberGroups : gmap bytes (list bytes);
  Roles : gmap bytes (list bytes);
  Policies : gmap bytes (list Binding)
}.

Definition NewSnapshot : Snapshot :=
  {| Admins := ∅; Disabled := ∅; MemberGroups := ∅; Roles := PredefinedRoles; Policies := ∅ |}.

(** The scope keys that apply to a request, narrowest first. *)
Definition scopes_for (tenant region : bytes) : list bytes :=
  (if negb (bool_decide (tenant = [])) && negb (bool_decide (region = []))
   then [str "r/" ++ tenant ++ str "/" ++ region] else []) ++
  (if negb (bool_decide (tenant = [])) then [str "t/" ++ tenant] else []) ++
  [str "i"].

(** [members[m]]: the principal itself or one of its groups. *)
Definition is_member (s : Snapshot) (principal m : bytes) : bool :=
  bool_decide (m = principal) ||
  existsb (fun g => bool_decide (m = g)) (default [] (MemberGroups s !! principal)).

(** One binding grants the permission to the principal. *)
Definition binding_grants (s : Snapshot) (principal permission : bytes) (b : Binding) : bool :=
  existsb (is_member s principal) (bd_Members b) &&
  existsb (fun p => bool_decide (p = permission)) (default [] (Roles s !! bd_Role b)).

Definition Snapshot_Authorize (s : Snapshot) (principal permission tenant region : bytes) : bool :=
  if bool_decide (principal = []) || default false (Disabled s !! principal) then false
  else if default false (Admins s !! principal) then true
  else existsb (fun scope => existsb (binding_grants s principal permission)
                               (default [] (Policies s !! scope))) (scopes_for tenant region).

Definition PolicyScopeKey (minor : bytes) : option bytes :=
  if bool_decide (minor = PolicyInstance) then Some (str "i")
  else if HasPrefix minor PolicyTenantPrefix then Some (str "t/" ++ drop (length PolicyTenantPrefix) minor)
  else if HasPrefix minor PolicyRegionPrefix then Some (str "r/" ++ drop (length PolicyRegionPrefix) minor)
  else None.

(** ** Numberings of the records *)

#[global] Instance UserRecord_eq_dec : EqDecision UserRecord.
Proof. solve_decision. Defined.
#[global] Instance UserRecord_countable : Countable UserRecord.
Proof.
  refine (inj_countable' (fun r => (us_Name r, us_PasswordHash r, us_Admin r, us_Disabled r, us_CreatedAt r))
    (fun '(a, b, c, d, e) => {| us_Name := a; us_PasswordHash := b; us_Admin := c; us_Disabled := d; us_CreatedAt := e |}) _).
  by intros [].
Defined.

#[global] Instance ServiceAccountRecord_eq_dec : EqDecision ServiceAccountRecord.
Proof. solve_decision. Defined.
#[global] Instance ServiceAccountRecord_countable : Countable ServiceAccountRecord.
Proof.
  refine (inj_countable' (fun r => (sa_Name r, sa_TokenHash r, sa_Disabled r, sa_CreatedAt r))
    (fun '(a, b, c, d) => {| sa_Name := a; sa_TokenHash := b; sa_Disabled := c; sa_CreatedAt := d |}) _).
  by intros [].
Defined.

#[global] Instance CertIndexRecord_eq_dec : EqDecision CertIndexRecord.
Proof. solve_decision. Defined.
#[global] Instance CertIndexRecord_countable : Countable CertIndexRecord.
Proof.
  refine (inj_countable' (fun r => (ci_Principal r, ci_Issued r, ci_CreatedAt r))
    (fun '(a, b, c) => {| ci_Principal := a; ci_Issued := b; ci_CreatedAt := c |}) _). by intros [].
Defined.

#[global] Instance TokenRecord_eq_dec : EqDecision TokenRecord.
Proof. solve_decision. Defined.
#[global] Instance TokenRecord_countable : Countable TokenRecord.
Proof.
  refine (inj_countable' (fun r => (tk_Principal r, tk_ExpiresAt r, tk_Label r, tk_CreatedAt r))
    (fun '(a, b, c, d) => {| tk_Principal := a; tk_ExpiresAt := b; tk_Label := c; tk_CreatedAt := d |}) _).
  by intros [].
Defined.

#[global] Instance GroupRecord_eq_dec : EqDecision GroupRecord.
Proof. solve_decision. Defined.
#[global] Instance GroupRecord_countable : Countable GroupRecord.
Proof.
  refine (inj_countable' (fun r => (gr_Name r, gr_Members r)) (fun '(a, b) => {| gr_Name := a; gr_Members := b |}) _).
  by intros [].
Defined.

#[global] Instance RoleRecord_eq_dec : EqDecision RoleRecord.
Proof. solve_decision. Defined.
#[global] Instance RoleRecord_countable : Countable RoleRecord.
Proof.
  refine (inj_countable' (fun r => (ro_Name r, ro_Permissions r)) (fun '(a, b) => {| ro_Name := a; ro_Permissions := b |}) _).
  by intros [].
Defined.

#[global] Instance Binding_eq_dec : EqDecision Binding.
Proof. solve_decision. Defined.
#[global] Instance Binding_countable : Countable Binding.
Proof.
  refine (inj_countable' (fun r => (bd_Role r, bd_Members r)) (fun '(a, b) => {| bd_Role := a; bd_Members := b |}) _).
  by intros [].
Defined.

#[global] Instance PolicyRecord_eq_dec : EqDecision PolicyRecord.
Proof. solve_decision. Defined.
#[global] Instance PolicyRecord_countable : Countable PolicyRecord.
Proof. refine (inj_countable' po_Bindings (fun a => {| po_Bindings := a |}) _). by intros []. Defined.
