(* ===== verification/IamProps.v ===== *)
(** * Properties of the authorization policy

    What [Authorize] decides, how far a grant reaches, and that the data roles never reach the
    system tenant. *)

From S2P Require Import Prelude Pb Iam.

(** ** The decision, declaratively *)

(** [m] names the principal or a group it belongs to. *)
Definition acts_as (s : Snapshot) (principal m : bytes) : Prop :=
  m = principal \/ exists gs, MemberGroups s !! principal = Some gs /\ m ∈ gs.

(** Some binding at a scope grants the permission. *)
Definition granted_at (s : Snapshot) (principal permission scope : bytes) : Prop :=
  exists bs b ps, Policies s !! scope = Some bs /\ b ∈ bs /\
    (exists m, m ∈ bd_Members b /\ acts_as s principal m) /\
    Roles s !! bd_Role b = Some ps /\ permission ∈ ps.

(** A name usable in a scope key. *)
Definition no_slash (s : bytes) : Prop := x2f ∉ s.

(** ** Lemmas *)

Lemma existsb_exists_iff {A} (f : A -> bool) l : existsb f l = true <-> exists x, x ∈ l /\ f x = true.
Proof. rewrite existsb_exists. split; intros (x & Hx & Hf); exists x; by rewrite list_elem_of_In in *. Qed.

(** A Go map of slices read with the nil slice for a missing key. *)
Lemma elem_of_default {A} (o : option (list A)) x : x ∈ default [] o <-> exists l, o = Some l /\ x ∈ l.
Proof. destruct o as [l|]; cbn; [naive_solver|]. rewrite elem_of_nil. naive_solver. Qed.

Lemma is_member_spec s principal m : is_member s principal m = true <-> acts_as s principal m.
Proof.
  unfold is_member, acts_as. rewrite orb_true_iff, bool_decide_eq_true, existsb_exists_iff.
  setoid_rewrite bool_decide_eq_true. setoid_rewrite elem_of_default. naive_solver.
Qed.

Lemma binding_grants_spec s principal permission b :
  binding_grants s principal permission b = true <->
  (exists m, m ∈ bd_Members b /\ acts_as s principal m) /\
  (exists ps, Roles s !! bd_Role b = Some ps /\ permission ∈ ps).
Proof.
  unfold binding_grants. rewrite andb_true_iff, !existsb_exists_iff.
  setoid_rewrite is_member_spec. setoid_rewrite bool_decide_eq_true. setoid_rewrite elem_of_default. naive_solver.
Qed.

Lemma granted_at_spec s principal permission scope :
  existsb (binding_grants s principal permission) (default [] (Policies s !! scope)) = true <->
  granted_at s principal permission scope.
Proof.
  rewrite existsb_exists_iff. unfold granted_at.
  setoid_rewrite elem_of_default. setoid_rewrite binding_grants_spec. naive_solver.
Qed.

Lemma elem_of_scopes_for scope tenant region :
  scope ∈ scopes_for tenant region <->
  (tenant <> [] /\ region <> [] /\ scope = str "r/" ++ tenant ++ str "/" ++ region) \/
  (tenant <> [] /\ scope = str "t/" ++ tenant) \/ scope = str "i".
Proof.
  unfold scopes_for. rewrite !elem_of_app, list_elem_of_singleton.
  repeat case_bool_decide; cbn [negb andb]; rewrite ?list_elem_of_singleton, ?elem_of_nil; naive_solver.
Qed.

Lemma Authorize_spec s principal permission tenant region :
  Snapshot_Authorize s principal permission tenant region = true <->
  principal <> [] /\ default false (Disabled s !! principal) = false /\
  (default false (Admins s !! principal) = true \/
   exists scope, scope ∈ scopes_for tenant region /\ granted_at s principal permission scope).
Proof.
  unfold Snapshot_Authorize. case_bool_decide as Hp; cbn [orb]; [naive_solver|].
  destruct (default false (Disabled s !! principal)); [naive_solver|].
  destruct (default false (Admins s !! principal)); [naive_solver|].
  rewrite existsb_exists_iff. setoid_rewrite granted_at_spec. naive_solver.
Qed.

(** Splitting at the first separator is unambiguous. *)
Lemma app_sep_inj (c : byte) (a b x y : bytes) :
  c ∉ a -> c ∉ b -> a ++ c :: x = b ++ c :: y -> a = b /\ x = y.
Proof.
  revert b. induction a as [|u a IH]; intros [|v b] Ha Hb E; cbn in E.
  - by injection E as ->.
  - injection E as <- _. destruct Hb. by left.
  - injection E as -> _. destruct Ha. by left.
  - injection E as -> E. apply IH in E as [-> ->]; [done| |]; intros Hc; [apply Ha|apply Hb]; by right.
Qed.

Lemma region_scope_inj t1 r1 t2 r2 :
  no_slash t1 -> no_slash t2 ->
  str "r/" ++ t1 ++ str "/" ++ r1 = str "r/" ++ t2 ++ str "/" ++ r2 -> t1 = t2 /\ r1 = r2.
Proof. intros H1 H2 E. apply app_inv_head in E. by apply (app_sep_inj x2f) in E. Qed.

(** ** Properties *)

(** C7: the decision is exactly the documented model. [Authorize] answers yes precisely when
    the principal is named and not disabled, and is an administrator or is covered by a
    binding (directly or through one of its groups, one level deep) whose role lists the
    permission, attached at the instance, at the addressed tenant or at the addressed region. *)
Theorem Authorize_iff (s : Snapshot) (principal permission tenant region : bytes) :
  Snapshot_Authorize s principal permission tenant region = true <->
  principal <> [] /\ default false (Disabled s !! principal) = false /\
  (default false (Admins s !! principal) = true \/
   granted_at s principal permission (str "i") \/
   (tenant <> [] /\ granted_at s principal permission (str "t/" ++ tenant)) \/
   (tenant <> [] /\ region <> [] /\
    granted_at s principal permission (str "r/" ++ tenant ++ str "/" ++ region))).
Proof.
  rewrite Authorize_spec. setoid_rewrite elem_of_scopes_for.
  split; intros (Hp & Hd & HA); (split; [done|]; split; [done|]).
  - destruct HA as [Ha|(scope & Hs & Hg)]; [tauto|].
    destruct Hs as [(Ht & Hr & ->)|[(Ht & ->)| ->]]; tauto.
  - destruct HA as [Ha|[Hi|[[Ht Hg]|(Ht & Hr & Hg)]]]; [by left|right; eexists; split; [|done]; tauto..].
Qed.

(** A grant is never broader than its binding's scope. If a principal that is not an
    administrator is only granted a permission through the policy of one region, it is
    authorized for exactly that tenant and region and nowhere else: not tenant-wide, not
    instance-wide, not in another region, as long as tenant names have no slash. *)
Theorem region_grant_confined (s : Snapshot) (principal permission t r tenant region : bytes) :
  no_slash t -> no_slash tenant ->
  default false (Admins s !! principal) = false ->
  (forall scope, granted_at s principal permission scope -> scope = str "r/" ++ t ++ str "/" ++ r) ->
  Snapshot_Authorize s principal permission tenant region = true ->
  tenant = t /\ region = r.
Proof.
  intros Ht Htn Hadm Honly HA. apply Authorize_spec in HA as (_ & _ & [Ha|(scope & Hs & Hg)]); [congruence|].
  apply Honly in Hg. rewrite Hg in Hs. apply elem_of_scopes_for in Hs as [(_ & _ & E)|[(_ & E)|E]].
  - by apply region_scope_inj in E as [-> ->].
  - exfalso. revert E. cbn. congruence.
  - exfalso. revert E. cbn. congruence.
Qed.

(** The data roles never reach the system tenant. A principal that is not an
    administrator and whose bindings name only the viewer, editor and auditor roles is denied
    every data-plane operation that addresses the system tenant, because the permission
    required there is one of [cdb.iam.*]. *)
Theorem data_roles_denied_system (s : Snapshot) (principal perm region : bytes) :
  default false (Admins s !! principal) = false ->
  (forall role, role ∈ [str "roles/cdb.viewer"; str "roles/cdb.editor"; str "roles/cdb.auditor"] ->
     Roles s !! role = PredefinedRoles !! role) ->
  (forall scope bs b, Policies s !! scope = Some bs -> b ∈ bs ->
     bd_Role b ∈ [str "roles/cdb.viewer"; str "roles/cdb.editor"; str "roles/cdb.auditor"]) ->
  Snapshot_Authorize s principal (EffectivePermission perm SystemTenant) SystemTenant region = false.
Proof.
  intros Hadm Hroles Hb. apply not_true_iff_false. intros HA.
  apply Authorize_spec in HA as (_ & _ & [Ha|(scope & _ & (bs & b & ps & Hp & Hin & _ & Hr & Hperm))]); [congruence|].
  assert (EffectivePermission perm SystemTenant ∈ [PermIamGet; PermIamSet]) as He.
  { unfold EffectivePermission. rewrite bool_decide_eq_true_2 by done. cbn [negb].
    destruct (_ || _ || _)%bool; [by left|right; by left]. }
  specialize (Hb scope bs b Hp Hin). rewrite (Hroles _ Hb) in Hr. clear Hp Hin Hroles Hadm.
  assert (forall x p, x ∈ [str "roles/cdb.viewer"; str "roles/cdb.editor"; str "roles/cdb.auditor"] ->
    PredefinedRoles !! x = Some p -> PermIamGet ∉ p /\ PermIamSet ∉ p) as HX.
  { intros x p Hx Hl.
    repeat (apply elem_of_cons in Hx as [->|Hx]; [vm_compute in Hl; injection Hl as <-;
      split; apply (bool_decide_unpack _); vm_compute; exact I|]). by apply not_elem_of_nil in Hx. }
  destruct (HX _ _ Hb Hr) as [H1 H2].
  apply elem_of_cons in He as [E|He]; [congruence|]. apply list_elem_of_singleton in He. congruence.
Qed.

(** Region scopes are only unambiguous without slashes. A binding attached at tenant "a",
    region "b/c" also authorizes tenant "a/b", region "c", for every principal and permission:
    the restriction the comment states on names is not enforced by the scope key. *)
Theorem slash_scopes_collide (s : Snapshot) (principal permission a b c : bytes) :
  a <> [] -> c <> [] ->
  Snapshot_Authorize s principal permission a (b ++ str "/" ++ c) = true ->
  (forall scope, granted_at s principal permission scope ->
     scope = str "r/" ++ a ++ str "/" ++ (b ++ str "/" ++ c)) ->
  Snapshot_Authorize s principal permission (a ++ str "/" ++ b) c = true.
Proof.
  intros Ha Hc HA Honly. apply Authorize_spec in HA as (Hp & Hd & HA).
  apply Authorize_spec. split; [done|]. split; [done|]. destruct HA as [HA|(scope & _ & Hg)]; [by left|right].
  exists scope. split; [|done]. rewrite (Honly _ Hg). apply elem_of_scopes_for. left.
  split; [by destruct a|]. split; [done|]. by rewrite <- !app_assoc.
Qed.

(** ** Witnesses *)

(** Bob may edit one region of one tenant. *)
Definition demo_bob : bytes := PrincipalUser (str "bob").

Definition demo_snapshot (scope : bytes) : Snapshot := {|
  Admins := ∅; Disabled := ∅; MemberGroups := ∅; Roles := PredefinedRoles;
  Policies := {[ scope := [{| bd_Role := str "roles/cdb.editor"; bd_Members := [demo_bob] |}] ]} |}.

Lemma demo_snapshot_grants scope p perm s : granted_at (demo_snapshot scope) p perm s -> s = scope.
Proof. intros (bs & b & ps & Hp & _). cbn [Policies demo_snapshot] in Hp. by apply lookup_singleton_Some in Hp as [<- _]. Qed.

Lemma demo_no_slash : no_slash (str "acme").
Proof. apply (bool_decide_unpack _). vm_compute. exact I. Qed.

Lemma region_grant_confined_witness :
  Snapshot_Authorize (demo_snapshot (str "r/acme/USERS")) demo_bob PermRecordsPut (str "acme") (str "USERS") = true /\
  str "acme" = str "acme" /\ str "USERS" = str "USERS".
Proof.
  split; [vm_compute; reflexivity|].
  apply (region_grant_confined (demo_snapshot (str "r/acme/USERS")) demo_bob PermRecordsPut
           (str "acme") (str "USERS") (str "acme") (str "USERS") demo_no_slash demo_no_slash).
  - reflexivity.
  - intros scope HG. apply demo_snapshot_grants in HG. rewrite HG. reflexivity.
  - vm_compute. reflexivity.
Defined.

Lemma data_roles_denied_system_witness :
  Snapshot_Authorize (demo_snapshot (str "i")) demo_bob
    (EffectivePermission PermRecordsGet SystemTenant) SystemTenant Region = false.
Proof.
  apply data_roles_denied_system.
  - reflexivity.
  - intros role _. reflexivity.
  - intros scope bs b Hp Hb. cbn [Policies demo_snapshot] in Hp. apply lookup_singleton_Some in Hp as [_ <-].
    apply list_elem_of_singleton in Hb as ->. right. left.
Defined.

Lemma slash_scopes_collide_witness :
  Snapshot_Authorize (demo_snapshot (str "r/a/b/c")) demo_bob PermRecordsPut (str "a/b") (str "c") = true.
Proof.
  apply (slash_scopes_collide (demo_snapshot (str "r/a/b/c")) demo_bob PermRecordsPut (str "a") (str "b") (str "c")).
  - discriminate.
  - discriminate.
  - vm_compute. reflexivity.
  - intros scope HG. apply demo_snapshot_grants in HG. rewrite HG. reflexivity.
Defined.
