(* ===== verification/PolicyService.v ===== *)
(** * The data-plane authorizer ([pkg/server/policy_service.go], [pkg/server/authz_guard.go])

    The policy service compiles the IAM records of the system tenant into a snapshot, marks it
    stale when a change of the system tenant is watched, and rebuilds it on the next request;
    the guards in front of the handlers ask it with the (tenant, region) of the request key. *)

From S2P Require Import Prelude Pb Keys Engine Storage StorageSpec StorageReads Value Service Iam.

Section Policy.
Context `{UuidPkg} `{Badger} `{StorePkg} `{ValuePkg}.

(** The marshalling of the IAM records. *)
Class IamStructs : Type := {
  struct_user :: Struct UserRecord;
  struct_sa :: Struct ServiceAccountRecord;
  struct_cert :: Struct CertIndexRecord;
  struct_token :: Struct TokenRecord;
  struct_group :: Struct GroupRecord;
  struct_role :: Struct RoleRecord;
  struct_policy :: Struct PolicyRecord
}.

Context `{IamStructs}.

(** ** Compiling the snapshot *)

(** [snap.MemberGroups[m] = append(snap.MemberGroups[m], gp)] for each member. *)
Definition add_members (gp : bytes) (members : list bytes) (g : gmap bytes (list bytes)) :
    gmap bytes (list bytes) :=
  fold_left (fun g m => <[m := default [] (g !! m) ++ [gp]]> g) members g.

(** The switch of [rebuild] on one record. *)
Definition add_record (snap : Snapshot) (rec : Rec) : Snapshot :=
  match rec_Key rec with
  | None => snap
  | Some key =>
      if len (rec_Value rec) =? 0 then snap else
      let minor := MinorKey key in
      if HasPrefix minor UserPrefix then
        match iam_Decode (rec_Value rec) with
        | Ret u =>
            let p := PrincipalUser (us_Name u) in
            {| Admins := <[p := us_Admin u]> (Admins snap); Disabled := <[p := us_Disabled u]> (Disabled snap);
               MemberGroups := MemberGroups snap; Roles := Roles snap; Policies := Policies snap |}
        | _ => snap
        end
      else if HasPrefix minor ServiceAccountPrefix then
        match iam_Decode (rec_Value rec) with
        | Ret sa =>
            {| Admins := Admins snap;
               Disabled := <[PrincipalServiceAccount (sa_Name sa) := sa_Disabled sa]> (Disabled snap);
               MemberGroups := MemberGroups snap; Roles := Roles snap; Policies := Policies snap |}
        | _ => snap
        end
      else if HasPrefix minor GroupPrefix then
        match iam_Decode (rec_Value rec) with
        | Ret g =>
            {| Admins := Admins snap; Disabled := Disabled snap;
               MemberGroups := add_members (PrincipalGroup (gr_Name g)) (gr_Members g) (MemberGroups snap);
               Roles := Roles snap; Policies := Policies snap |}
        | _ => snap
        end
      else if HasPrefix minor RolePrefix then
        match iam_Decode (rec_Value rec) with
        | Ret r =>
            match Roles snap !! ro_Name r with
            | Some _ => snap
            | None =>
                {| Admins := Admins snap; Disabled := Disabled snap; MemberGroups := MemberGroups snap;
                   Roles := <[ro_Name r := ro_Permissions r]> (Roles snap); Policies := Policies snap |}
            end
        | _ => snap
        end
      else
        match PolicyScopeKey minor with
        | Some scope =>
            match iam_Decode (rec_Value rec) with
            | Ret p =>
                {| Admins := Admins snap; Disabled := Disabled snap; MemberGroups := MemberGroups snap;
                   Roles := Roles snap; Policies := <[scope := po_Bindings p]> (Policies snap) |}
            | _ => snap
            end
        | None => snap
        end
  end.

Definition compile (recs : list Rec) : Snapshot := fold_left add_record recs NewSnapshot.

Definition iam_area : KeyRequest := {|
  kr_Key := Some {| MajorKey := SystemTenant; RegionName := Region; MinorKey := []; Timestamp := None |};
  kr_HeadOnly := false; kr_Timeout := 0 |}.

(** [rebuild]: the new snapshot, or the error that leaves the old one in place. *)
Definition rebuild (now : Z) (st : KeyValueStorageCtx) : result Snapshot :=
  match GetArea now st iam_area RegionNameField collectSender [] with
  | (Ret _, records) => Ret (compile records)
  | (Fail e, _) => Fail e
  | (Panic, _) => Panic
  end.

(** ** The service *)

Record PolicyService : Type := {
  ps_Enabled : bool;
  ps_snap : option Snapshot;
  ps_dirty : bool
}.

Definition policy_PostConstruct (now : Z) (st : KeyValueStorageCtx) (t : PolicyService) :
    result unit * PolicyService :=
  if negb (ps_Enabled t) then (Ret tt, t) else
  match rebuild now st with
  | Ret snap => (Ret tt, {| ps_Enabled := ps_Enabled t; ps_snap := Some snap; ps_dirty := ps_dirty t |})
  | Fail e => (Fail e, t)
  | Panic => (Panic, t)
  end.

(** The watch on the system tenant: an event under its prefix marks the snapshot stale. *)
Definition policy_event (t : PolicyService) (ev : HubEvent) : PolicyService :=
  match EncodeKeyPrefix {| MajorKey := SystemTenant; RegionName := []; MinorKey := []; Timestamp := None |}
          MajorKeyField with
  | Ret prefix =>
      if HasPrefix (he_Key ev) prefix
      then {| ps_Enabled := ps_Enabled t; ps_snap := ps_snap t; ps_dirty := true |} else t
  | _ => t
  end.

(** The stale snapshot is rebuilt first; a failed rebuild is retried on the next request. *)
Definition refresh (now : Z) (st : KeyValueStorageCtx) (t : PolicyService) : PolicyService :=
  if ps_dirty t then
    match rebuild now st with
    | Ret snap => {| ps_Enabled := ps_Enabled t; ps_snap := Some snap; ps_dirty := false |}
    | _ => {| ps_Enabled := ps_Enabled t; ps_snap := ps_snap t; ps_dirty := true |}
    end
  else t.

Definition denied : error := RpcError CodeUnauthenticated (str "permission denied").

(** [t == nil] is [None]. *)
Definition Authorize (now : Z) (st : KeyValueStorageCtx) (t : option PolicyService)
    (principal permission tenant region : bytes) : result unit * option PolicyService :=
  match t with
  | None => (Ret tt, None)
  | Some t =>
      if negb (ps_Enabled t) then (Ret tt, Some t) else
      let t := refresh now st t in
      let effective := EffectivePermission permission tenant in
      match ps_snap t with
      | Some snap =>
          if Snapshot_Authorize snap principal effective tenant region then (Ret tt, Some t)
          else (Fail denied, Some t)
      | None => (Fail denied, Some t)
      end
  end.

(** ** Guards *)

Definition scopeOf (key : option Key) : bytes * bytes :=
  match key with None => ([], []) | Some k => (MajorKey k, RegionName k) end.

(** [guardKey]: authorize, then run the handler. The handler runs on the node state [W]. *)
Definition guardKey {W Req Resp} (now : Z) (st : KeyValueStorageCtx) (p : option PolicyService)
    (principal perm : bytes) (keyOf : Req -> option Key) (fn : W -> Req -> result Resp * W)
    (w : W) (req : Req) : result Resp * W * option PolicyService :=
  let '(tenant, region) := scopeOf (keyOf req) in
  match Authorize now st p principal perm tenant region with
  | (Ret _, p') => (fn w req, p')
  | (Fail e, p') => (Fail e, w, p')
  | (Panic, p') => (Panic, w, p')
  end.

(** [batchScope]: the single scope of a batch, or [None] for a mixed one. *)
Definition batchScope (req : BatchRequest) : option (bytes * bytes) :=
  match br_Records req with
  | [] => Some ([], [])
  | r :: rest =>
      let scope := scopeOf (rr_Key r) in
      if forallb (fun x => bool_decide (scopeOf (rr_Key x) = scope)) rest then Some scope else None
  end.

End Policy.

(** ** Properties *)

Section Props.
Context `{UuidPkg} `{Badger} `{StorePkg} `{ValuePkg} `{!IamStructs}.

Lemma add_record_roles snap rec name perms :
  Roles snap !! name = Some perms -> Roles (add_record snap rec) !! name = Some perms.
Proof.
  intros Hr. unfold add_record. destruct (rec_Key rec) as [key|]; [|done].
  destruct (len (rec_Value rec) =? 0); [done|].
  destruct (HasPrefix (MinorKey key) UserPrefix); [by destruct (iam_Decode _)|].
  destruct (HasPrefix (MinorKey key) ServiceAccountPrefix); [by destruct (iam_Decode _)|].
  destruct (HasPrefix (MinorKey key) GroupPrefix); [by destruct (iam_Decode _)|].
  destruct (HasPrefix (MinorKey key) RolePrefix).
  - destruct (iam_Decode (rec_Value rec)) as [r|?|]; [|done|done].
    destruct (Roles snap !! ro_Name r) eqn:E; [done|]. cbn. rewrite lookup_insert_ne by congruence. done.
  - destruct (PolicyScopeKey (MinorKey key)); [|done]. by destruct (iam_Decode (rec_Value rec)).
Qed.

Lemma compile_roles recs snap name perms :
  Roles snap !! name = Some perms -> Roles (fold_left add_record recs snap) !! name = Some perms.
Proof.
  revert snap. induction recs as [|rec recs IH]; intros snap Hr; [done|]. cbn [fold_left].
  apply IH. by apply add_record_roles.
Qed.

(** The refreshed snapshot is the compilation of the stored records. *)
Lemma refresh_snap now st t :
  ps_snap (refresh now st t) =
  if ps_dirty t then match rebuild now st with Ret snap => Some snap | _ => ps_snap t end else ps_snap t.
Proof. unfold refresh. destruct (ps_dirty t); [|done]. by destruct (rebuild now st). Qed.

(** Predefined roles cannot be overridden. Whatever records are stored in the system
    tenant, custom roles of the same name included, the compiled snapshot gives each
    predefined role exactly its compiled-in permissions. *)
Theorem predefined_roles_fixed (recs : list Rec) (name : bytes) (perms : list bytes) :
  PredefinedRoles !! name = Some perms -> Roles (compile recs) !! name = Some perms.
Proof. intros Hp. by apply compile_roles. Qed.

(** Enforcement is fresh and fails closed. With authorization on, a request is let through
    only if the snapshot in force authorizes the effective permission; that snapshot is
    compiled from the records stored now whenever a change was seen, and a rebuild that fails
    keeps the previous one (denying everything if there is none) and stays due. *)
Theorem Authorize_enforces (now : Z) (st : KeyValueStorageCtx) (t : PolicyService)
    (principal permission tenant region : bytes) :
  ps_Enabled t = true ->
  let snap := if ps_dirty t then match rebuild now st with Ret s => Some s | _ => ps_snap t end
              else ps_snap t in
  exists t', snd (Authorize now st (Some t) principal permission tenant region) = Some t' /\
    ps_snap t' = snap /\ ps_Enabled t' = true /\
    (ps_dirty t' = true <-> ps_dirty t = true /\ forall s, rebuild now st <> Ret s) /\
    (fst (Authorize now st (Some t) principal permission tenant region) = Ret tt <->
     exists s, snap = Some s /\
       Snapshot_Authorize s principal (EffectivePermission permission tenant) tenant region = true).
Proof.
  intros He snap. unfold Authorize. rewrite He. cbn [negb].
  exists (refresh now st t).
  assert (ps_snap (refresh now st t) = snap) as Hs by apply refresh_snap. rewrite Hs.
  assert (ps_Enabled (refresh now st t) = true) as He'
    by (unfold refresh; destruct (ps_dirty t); [by destruct (rebuild now st)|done]).
  assert (ps_dirty (refresh now st t) = true <-> ps_dirty t = true /\ forall s, rebuild now st <> Ret s) as Hd.
  { unfold refresh. destruct (ps_dirty t) eqn:E; [|rewrite E; naive_solver].
    destruct (rebuild now st) as [s|?|]; cbn; split; try done; intros [_ HN]; by destruct (HN s). }
  destruct snap as [s|]; [|naive_solver].
  destruct (Snapshot_Authorize s principal (EffectivePermission permission tenant) tenant region) eqn:EA;
    cbn [fst snd]; (split; [done|]; split; [done|]; split; [done|]; split; [done|]); naive_solver congruence.
Qed.

(** A watched change of the system tenant makes the snapshot stale. Every event on a key
    of the system tenant, and no event of another tenant, marks it. *)
Theorem policy_event_marks_system (uuid_laws : UuidLaws) (t : PolicyService) (ev : HubEvent) (key : Key) :
  key_ok key = true -> he_Key ev = enc_key key ->
  ps_dirty (policy_event t ev) = true <-> ps_dirty t = true \/ MajorKey key = SystemTenant.
Proof.
  intros Hok Hk. unfold policy_event.
  set (sys := {| MajorKey := SystemTenant; RegionName := []; MinorKey := []; Timestamp := None |}).
  pose proof (EncodeKeyPrefix_layout sys MajorKeyField) as HL. cbn [enc_prefix] in HL. rewrite HL, Hk.
  assert (key_ok sys = true) as Hsys by (vm_compute; done).
  pose proof (enc_prefix_agree sys key MajorKeyField _ Hsys Hok eq_refl) as HA.
  rewrite <- HasPrefix_spec in HA. cbn [agree_upto] in HA.
  destruct (HasPrefix (enc_key key) (enc_field (MajorKey sys))); cbn [ps_dirty].
  - split; [|done]. intros _. right. symmetry. by apply HA.
  - split; [by left|]. intros [?|E]; [done|]. symmetry in E. by apply HA in E.
Qed.

(** A guard that refuses a request leaves the node as it was and does not run the
    handler; one that admits it runs exactly the handler. *)
Theorem guardKey_confines {W Req Resp : Type} (now : Z) (st : KeyValueStorageCtx) (t : PolicyService)
    (principal perm : bytes) (keyOf : Req -> option Key) (fn : W -> Req -> result Resp * W) (w : W) (req : Req) :
  ps_Enabled t = true ->
  let '(tenant, region) := scopeOf (keyOf req) in
  let '(r, w', _) := guardKey now st (Some t) principal perm keyOf fn w req in
  (exists s, ps_snap (refresh now st t) = Some s /\
     Snapshot_Authorize s principal (EffectivePermission perm tenant) tenant region = true /\
     (r, w') = fn w req) \/
  (r = Fail denied /\ w' = w).
Proof.
  intros He. unfold guardKey. destruct (scopeOf (keyOf req)) as [tenant region].
  unfold Authorize. rewrite He. cbn [negb]. destruct (ps_snap (refresh now st t)) as [s|] eqn:Es; [|by right].
  destruct (Snapshot_Authorize s principal (EffectivePermission perm tenant) tenant region) eqn:EA; [|by right].
  destruct (fn w req) as [r w']. left. by exists s.
Qed.

End Props.

(** ** Witnesses *)

Definition flat_iam_structs : @IamStructs flat_value :=
  @Build_IamStructs flat_value (flat_struct _) (flat_struct _) (flat_struct _) (flat_struct _)
    (flat_struct _) (flat_struct _) (flat_struct _).

Section Witness.
#[local] Existing Instances flat_uuid flat_uuid_laws mem_badger mem_spec flat_store flat_store_laws
  flat_value flat_iam_structs.

(** A stored custom role that takes the name of a predefined one. *)
Definition demo_role_record : Rec := {|
  rec_Key := Some (iam_Key (RolePrefix ++ str "evil")); rec_Head := None;
  rec_Value := match iam_Encode {| ro_Name := str "roles/cdb.viewer"; ro_Permissions := AllPermissions |} with
               | Ret b => b | _ => [] end |}.

Lemma predefined_roles_fixed_witness :
  Roles (compile [demo_role_record]) !! str "roles/cdb.viewer" = Some viewer_perms.
Proof. apply predefined_roles_fixed. vm_compute. reflexivity. Defined.

Definition demo_policy : PolicyService := {| ps_Enabled := true; ps_snap := None; ps_dirty := true |}.

Definition demo_empty : KeyValueStorageCtx := {| db := ∅; hub := None |}.

Lemma Authorize_enforces_witness :
  exists t', snd (Authorize 5 demo_empty (Some demo_policy) (str "user:bob") PermRecordsGet (str "acme") (str "USERS")) = Some t' /\
    ps_Enabled t' = true.
Proof.
  destruct (Authorize_enforces 5 demo_empty demo_policy (str "user:bob") PermRecordsGet (str "acme") (str "USERS") eq_refl)
    as (t' & HT & _ & HE & _).
  exists t'. exact (conj HT HE).
Defined.

Lemma policy_event_marks_system_witness :
  ps_dirty (policy_event {| ps_Enabled := true; ps_snap := None; ps_dirty := false |}
    {| he_Key := enc_key (iam_Key (str "user/bob")); he_Value := []; he_Type := WatchSet; he_Version := 1 |}) = true.
Proof.
  apply (policy_event_marks_system flat_uuid_laws {| ps_Enabled := true; ps_snap := None; ps_dirty := false |}
    {| he_Key := enc_key (iam_Key (str "user/bob")); he_Value := []; he_Type := WatchSet; he_Version := 1 |}
    (iam_Key (str "user/bob"))).
  - vm_compute. reflexivity.
  - reflexivity.
  - right. reflexivity.
Defined.

Lemma guardKey_confines_witness :
  let '(r, w', _) := guardKey 5 demo_empty (Some demo_policy) (str "user:bob") PermRecordsPut
    (fun k : option Key => k) (fun (w : Z) _ => (Ret tt, w + 1)) 7 (Some demo_key) in
  (exists s, ps_snap (refresh 5 demo_empty demo_policy) = Some s /\
     Snapshot_Authorize s (str "user:bob") (EffectivePermission PermRecordsPut (str "acme")) (str "acme") (str "USERS") = true /\
     (r, w') = (Ret tt, 8)) \/ (r = Fail denied /\ w' = 7).
Proof.
  exact (guardKey_confines 5 demo_empty demo_policy (str "user:bob") PermRecordsPut
    (fun k : option Key => k) (fun (w : Z) _ => (Ret tt, w + 1)) 7 (Some demo_key) eq_refl).
Defined.

End Witness.
