(* ===== verification/PolicyRace.v ===== *)
(** * The authorizer under concurrency ([pkg/server/policy_service.go])

    [PolicyService] gives each operation of the policy service as one step. Here the requests of
    many clients, the writes of the state machine and the watcher's goroutine interleave at the
    places where the code touches shared state: the atomic flag, the mutex around [rebuild], the
    atomic snapshot pointer, and the watch hub. The hub is the store package's: an event reaches
    the callbacks of the watchers registered when it is notified, in order, and a watcher that
    still has undelivered events may lose the next one. *)

From S2P Require Import Prelude Pb Keys Engine Storage StorageSpec StorageReads StorageProps ScanProps Value Service Iam PolicyService.

(** A call of [Authorize], and where it stands. *)
Record request : Type := { rq_principal : bytes; rq_permission : bytes; rq_tenant : bytes; rq_region : bytes }.

Inductive phase : Type :=
  | Swap                    (* before [t.dirty.Swap(false)] *)
  | Lock                    (* in [rebuild], before [t.mu.Lock()] *)
  | Build                   (* holding the mutex, before the scan *)
  | Store (s : Snapshot)    (* the snapshot is compiled, before [t.snap.Store] *)
  | Retry                   (* [rebuild] failed, before [t.dirty.Store(true)] *)
  | Load                    (* before [t.snap.Load] *)
  | Done (r : result unit).

Section Race.
Context `{UuidPkg} `{Badger} `{StorePkg} `{ValuePkg} `{!IamStructs}.

(** The service, its mutex and its watcher, the requests under way, and the events on their way:
    those of committed writes that are not notified yet, and those the hub holds for the watcher.
    [r_lost] records that an event of the system tenant met no watcher; [r_stopped] that [Destroy] has
    cancelled the watch. *)
Record race : Type := {
  r_db : DB;
  r_ps : PolicyService;
  r_mu : option nat;
  r_calls : gmap nat (request * phase);
  r_watching : bool;
  r_notify : list HubEvent;
  r_buffer : list HubEvent;
  r_lost : bool;
  r_stopped : bool
}.

Definition r_storage (s : race) : KeyValueStorageCtx := {| db := r_db s; hub := Some [] |}.

Definition with_call (i : nat) (rq : request) (ph : phase) (s : race) : race := {|
  r_db := r_db s; r_ps := r_ps s; r_mu := r_mu s; r_calls := <[i := (rq, ph)]> (r_calls s);
  r_watching := r_watching s; r_notify := r_notify s; r_buffer := r_buffer s; r_lost := r_lost s; r_stopped := r_stopped s |}.

Definition with_mu (m : option nat) (s : race) : race := {|
  r_db := r_db s; r_ps := r_ps s; r_mu := m; r_calls := r_calls s;
  r_watching := r_watching s; r_notify := r_notify s; r_buffer := r_buffer s; r_lost := r_lost s; r_stopped := r_stopped s |}.

Definition with_ps (t : PolicyService) (s : race) : race := {|
  r_db := r_db s; r_ps := t; r_mu := r_mu s; r_calls := r_calls s;
  r_watching := r_watching s; r_notify := r_notify s; r_buffer := r_buffer s; r_lost := r_lost s; r_stopped := r_stopped s |}.

Definition with_dirty (d : bool) (s : race) : race :=
  with_ps {| ps_Enabled := ps_Enabled (r_ps s); ps_snap := ps_snap (r_ps s); ps_dirty := d |} s.

Definition with_snap (x : Snapshot) (s : race) : race :=
  with_ps {| ps_Enabled := ps_Enabled (r_ps s); ps_snap := Some x; ps_dirty := ps_dirty (r_ps s) |} s.

(** The answer of a request under a snapshot. *)
Definition decide_by (snap : option Snapshot) (rq : request) : result unit :=
  match snap with
  | Some x =>
      if Snapshot_Authorize x (rq_principal rq) (EffectivePermission (rq_permission rq) (rq_tenant rq)) (rq_tenant rq) (rq_region rq)
      then Ret tt else Fail denied
  | None => Fail denied
  end.

(** [PostConstruct] up to the start of the watcher's goroutine. *)
Definition race_start (now : Z) (d : DB) : result race :=
  match policy_PostConstruct now {| db := d; hub := Some [] |} {| ps_Enabled := true; ps_snap := None; ps_dirty := false |} with
  | (Ret _, t) => Ret {| r_db := d; r_ps := t; r_mu := None; r_calls := ∅; r_watching := false; r_notify := []; r_buffer := []; r_lost := false; r_stopped := false |}
  | (Fail e, _) => Fail e
  | (Panic, _) => Panic
  end.

(** One step of a request. A panic in [rebuild] stops the process. *)
Definition request_step (now : Z) (i : nat) (s : race) : option race :=
  match r_calls s !! i with
  | None => None
  | Some (rq, ph) =>
      match ph with
      | Swap => if ps_dirty (r_ps s) then Some (with_call i rq Lock (with_dirty false s)) else Some (with_call i rq Load s)
      | Lock => match r_mu s with None => Some (with_call i rq Build (with_mu (Some i) s)) | Some _ => None end
      | Build =>
          match rebuild now (r_storage s) with
          | Ret x => Some (with_call i rq (Store x) s)
          | Fail _ => Some (with_call i rq Retry (with_mu None s))
          | Panic => None
          end
      | Store x => Some (with_call i rq Load (with_mu None (with_snap x s)))
      | Retry => Some (with_call i rq Load (with_dirty true s))
      | Load => Some (with_call i rq (Done (decide_by (ps_snap (r_ps s)) rq)) s)
      | Done _ => None
      end
  end.

(** A request on its own, for at most [n] steps. *)
Fixpoint solo (now : Z) (i n : nat) (s : race) : race :=
  match n with
  | O => s
  | S n' => match request_step now i s with Some s' => solo now i n' s' | None => s end
  end.

(** The prefix the watcher registers. *)
Definition watch_prefix : bytes :=
  match EncodeKeyPrefix {| MajorKey := SystemTenant; RegionName := []; MinorKey := []; Timestamp := None |} MajorKeyField with
  | Ret p => p | _ => [] end.

(** A write commits; its events are notified afterwards. *)
Definition commit (now : Z) (w : write) (s : race) : race :=
  let st := run_write now (r_storage s) w in {|
  r_db := db st; r_ps := r_ps s; r_mu := r_mu s; r_calls := r_calls s; r_watching := r_watching s;
  r_notify := r_notify s ++ default [] (hub st); r_buffer := r_buffer s; r_lost := r_lost s; r_stopped := r_stopped s |}.

(** [hub.Notify] of the oldest event; [drop] chooses to lose it, for a watcher that fell behind. *)
Definition notify_step (drop : bool) (s : race) : option race :=
  match r_notify s with
  | [] => None
  | ev :: rest =>
      let matching := HasPrefix (he_Key ev) watch_prefix in
      if matching && r_watching s && drop && bool_decide (r_buffer s = []) then None else
      Some {| r_db := r_db s; r_ps := r_ps s; r_mu := r_mu s; r_calls := r_calls s; r_watching := r_watching s; r_notify := rest;
              r_buffer := if matching && r_watching s && negb drop then r_buffer s ++ [ev] else r_buffer s;
              r_lost := r_lost s || (matching && negb (r_watching s)); r_stopped := r_stopped s |}
  end.

(** The watcher's goroutine registers with the hub. *)
Definition watch_step (s : race) : race := {|
  r_db := r_db s; r_ps := r_ps s; r_mu := r_mu s; r_calls := r_calls s; r_watching := true;
  r_notify := r_notify s; r_buffer := r_buffer s; r_lost := r_lost s; r_stopped := r_stopped s |}.

(** [Destroy]: the watch ends, and what the hub still held for it is gone. *)
Definition destroy_step (s : race) : race := {|
  r_db := r_db s; r_ps := r_ps s; r_mu := r_mu s; r_calls := r_calls s; r_watching := false;
  r_notify := r_notify s; r_buffer := []; r_lost := r_lost s || negb (bool_decide (r_buffer s = [])); r_stopped := true |}.

(** The callback runs on the oldest event held for the watcher. *)
Definition deliver_step (s : race) : option race :=
  match r_buffer s with
  | [] => None
  | ev :: rest =>
      Some {| r_db := r_db s; r_ps := policy_event (r_ps s) ev; r_mu := r_mu s; r_calls := r_calls s; r_watching := r_watching s;
              r_notify := r_notify s; r_buffer := rest; r_lost := r_lost s; r_stopped := r_stopped s |}
  end.

Context `{!UuidLaws} `{!BadgerSpec} `{!StoreLaws}.

Inductive race_step : race -> race -> Prop :=
| step_arrive i rq s : r_calls s !! i = None -> race_step s (with_call i rq Swap s)
| step_request now i s s' : request_step now i s = Some s' -> race_step s s'
| step_commit now w s : write_ok w -> race_step s (commit now w s)
| step_notify drop s s' : notify_step drop s = Some s' -> race_step s s'
| step_watch s : r_stopped s = false -> race_step s (watch_step s)
| step_destroy s : race_step s (destroy_step s)
| step_deliver s s' : deliver_step s = Some s' -> race_step s s'.

Inductive race_reachable : race -> Prop :=
| race_init now d s : keys_wf (contents {| db := d; hub := Some [] |}) -> race_start now d = Ret s -> race_reachable s
| race_next s s' : race_reachable s -> race_step s s' -> race_reachable s'.

(** A request between taking the stale flag and giving it back or compiling a snapshot. *)
Definition rebuilding (ph : phase) : bool := match ph with Lock | Build | Retry => true | _ => false end.

Definition storing (ph : phase) : bool := match ph with Store _ => true | _ => false end.

(** Nothing is under way: no stale flag, no event on its way, no rebuild. *)
Definition quiescent (s : race) : Prop :=
  ps_dirty (r_ps s) = false /\ r_buffer s = [] /\
  Forall (fun ev => HasPrefix (he_Key ev) watch_prefix = false) (r_notify s) /\
  map_Forall (fun _ c => rebuilding (snd c) = false /\ storing (snd c) = false) (r_calls s).

(** The snapshot is the compilation of the records stored now. *)
Definition is_current (d : DB) (x : Snapshot) : Prop := exists now, rebuild now {| db := d; hub := Some [] |} = Ret x.

End Race.
