(* ===== verification/PolicyRaceProps.v ===== *)
(** * Properties of the authorizer under concurrency

    Once every change that was watched has been delivered and no rebuild is under way, the snapshot
    in force is the compilation of the stored records, however requests, writes and deliveries
    interleaved; a request that runs alone is the sequential [Authorize]. Two ways to miss a change
    remain: one committed before the watcher registered, and a restored dump. *)

From S2P Require Import Prelude Pb Keys Engine Storage StorageSpec StorageReads StorageProps ScanProps Value Service Iam PolicyService PolicyRace.

Section Props.
Context `{UuidPkg} `{!UuidLaws} `{Badger} `{!BadgerSpec} `{StorePkg} `{!StoreLaws} `{ValuePkg} `{!IamStructs}.

(** ** A rebuild reads the IAM region only *)

Definition rec_kv (r : Rec) : option Key * bytes := (rec_Key r, rec_Value r).

Lemma compile_kv recs1 recs2 : rec_kv <$> recs1 = rec_kv <$> recs2 -> compile recs1 = compile recs2.
Proof.
  unfold compile. generalize NewSnapshot. revert recs2.
  induction recs1 as [|r1 recs1 IH]; intros [|r2 recs2] snap E; cbn in E; try discriminate; [done|]. cbn [fold_left].
  injection E as Ek Ev E. replace (add_record snap r1) with (add_record snap r2); [by apply IH|]. unfold add_record. by rewrite Ek, Ev.
Qed.

Definition item_kv (it : Item) : bytes * entry := (item_Key it, item_entry it).

Definition kv_record (now : Z) (kv : bytes * entry) : option (option Key * bytes) :=
  match DecodeKey (fst kv) with Ret key => if live now (snd kv) then Some (Some key, e_value (snd kv)) else None | _ => None end.

Lemma yields_kv now st o seek :
  BadgerReliable -> keys_wf (contents st) ->
  rec_kv <$> yields now false (txn_Iterate (NewTransaction (db st) false) o seek)
  = omap (kv_record now) (item_kv <$> txn_Iterate (NewTransaction (db st) false) o seek).
Proof.
  intros HR Hwf.
  assert (Forall (fun it => exists key, DecodeKey (item_Key it) = Ret key) (txn_Iterate (NewTransaction (db st) false) o seek)) as HF.
  { apply Forall_forall. intros it (Hl & _)%elem_of_items. destruct (Hwf _ _ Hl) as (key & Hok & ->). exists key. by apply DecodeKey_enc. }
  induction HF as [|it items [key Hk] _ IH]; [done|]. unfold yields in *. cbn. rewrite (visit_spec now false it key HR Hk).
  unfold kv_record at 1. cbn. rewrite Hk. destruct (live now (item_entry it)); cbn; by rewrite IH.
Qed.

Definition kv_lt (a b : bytes * entry) : Prop := bytes_compare (fst a) (fst b) = Lt.

Lemma items_kv_sorted st o seek : it_Reverse o = false -> StronglySorted kv_lt (item_kv <$> txn_Iterate (NewTransaction (db st) false) o seek).
Proof.
  intros Ho. pose proof (items_sorted st o seek) as HS. rewrite Ho in HS. induction HS as [|x l _ IH Hx]; cbn; [constructor|].
  constructor; [done|]. by apply Forall_fmap.
Qed.

Lemma kv_lt_asym a b : kv_lt a b -> kv_lt b a -> a = b.
Proof. unfold kv_lt. rewrite (bytes_compare_antisym (fst a) (fst b)). intros ->. done. Qed.

Lemma kv_sorted_nodup l : StronglySorted kv_lt l -> NoDup l.
Proof.
  induction 1 as [|x l _ IH Hx]; constructor; [|done]. intros Hin. pose proof (proj1 (Forall_forall _ _) Hx x Hin) as Hlt.
  unfold kv_lt in Hlt. by rewrite (proj2 (bytes_compare_eq _ _) eq_refl) in Hlt.
Qed.

Lemma items_kv_agree st1 st2 o seek :
  it_Reverse o = false -> (forall k, it_Prefix o `prefix_of` k -> contents st1 !! k = contents st2 !! k) ->
  item_kv <$> txn_Iterate (NewTransaction (db st1) false) o seek = item_kv <$> txn_Iterate (NewTransaction (db st2) false) o seek.
Proof.
  intros Ho Hag.
  assert (forall st st' x, (forall k, it_Prefix o `prefix_of` k -> contents st !! k = contents st' !! k) ->
    x ∈ item_kv <$> txn_Iterate (NewTransaction (db st) false) o seek -> x ∈ item_kv <$> txn_Iterate (NewTransaction (db st') false) o seek) as Hsub.
  { intros st st' x HA (it & -> & (Hl & Hp & Hs)%elem_of_items)%list_elem_of_fmap. rewrite (HA _ Hp) in Hl.
    destruct (items_elem_of st' o seek _ _ Hl Hp Hs) as (it' & Hin & Hk & He). apply list_elem_of_fmap. exists it'. split; [|done].
    unfold item_kv. by rewrite Hk, He. }
  eapply (StronglySorted_unique_strong kv_lt); [intros; by apply kv_lt_asym|by apply items_kv_sorted..|].
  apply NoDup_Permutation; [by apply kv_sorted_nodup, items_kv_sorted..|]. intros x. split; apply Hsub; [done|]. intros k Hk. by rewrite Hag.
Qed.

(** The prefix [rebuild] scans. *)
Definition area_prefix : bytes := enc_field SystemTenant ++ enc_field Region.

Lemma rebuild_yields now st :
  BadgerReliable -> keys_wf (contents st) ->
  rebuild now st = Ret (compile (yields now false (txn_Iterate (NewTransaction (db st) false) {| it_Reverse := false; it_Prefix := area_prefix |} (Some area_prefix)))).
Proof.
  intros HR Hwf. unfold rebuild, GetArea. cbn [iam_area kr_Key kr_HeadOnly].
  pose proof (EncodeKeyPrefix_layout {| MajorKey := SystemTenant; RegionName := Region; MinorKey := []; Timestamp := None |} RegionNameField) as HL.
  cbn [enc_prefix MajorKey RegionName] in HL. fold area_prefix in HL. rewrite HL.
  rewrite stream_loop_spec by (by apply items_no_panic). by rewrite send_all_collect, concat_blocks_of.
Qed.

(** Two stores with the same IAM region compile to the same snapshot. *)
Lemma rebuild_agree now st1 st2 :
  BadgerReliable -> keys_wf (contents st1) -> keys_wf (contents st2) ->
  (forall k, area_prefix `prefix_of` k -> contents st1 !! k = contents st2 !! k) -> rebuild now st1 = rebuild now st2.
Proof.
  intros HR W1 W2 Hag. rewrite (rebuild_yields now st1 HR W1), (rebuild_yields now st2 HR W2). f_equal. apply compile_kv.
  rewrite !yields_kv by done. f_equal. by apply items_kv_agree.
Qed.

(** ** Every change of the contents has its event *)

Definition announced (m m' : model) (evs : list HubEvent) : Prop :=
  forall k, m' !! k <> m !! k -> exists ev, ev ∈ evs /\ he_Key ev = k.

Lemma announced_same m evs : announced m m evs.
Proof. intros k Hk. done. Qed.

Lemma announced_insert m k e ev : he_Key ev = k -> announced m (<[k := e]> m) [ev].
Proof. intros <- k' Hk. exists ev. split; [left|]. destruct (decide (k' = he_Key ev)) as [->|Hne]; [done|]. by rewrite lookup_insert_ne in Hk. Qed.

Lemma announced_delete m k ev : he_Key ev = k -> announced m (delete k m) [ev].
Proof. intros <- k' Hk. exists ev. split; [left|]. destruct (decide (k' = he_Key ev)) as [->|Hne]; [done|]. by rewrite lookup_delete_ne in Hk. Qed.

Lemma announced_trans m m' m'' evs evs' : announced m m' evs -> announced m' m'' evs' -> announced m m'' (evs ++ evs').
Proof.
  intros A1 A2 k Hk. destruct (decide (m'' !! k = m' !! k)) as [E|E].
  - rewrite E in Hk. destruct (A1 k Hk) as (ev & Hin & He). exists ev. split; [|done]. apply elem_of_app. by left.
  - destruct (A2 k E) as (ev & Hin & He). exists ev. split; [|done]. apply elem_of_app. by right.
Qed.

Lemma batch_announced now cv records m m' evs : batch_fold now cv records m = Ret (m', evs) -> announced m m' evs.
Proof.
  revert m m' evs. induction records as [|r records IH]; intros m m' evs; cbn [batch_fold]; [intros [= <- <-]; apply announced_same|].
  destruct (need_key (rr_Key r)) as [key|?|]; cbn [mbind outcome_bind]; [|done..].
  match goal with |- context [batch_fold now cv records ?m1] => destruct (batch_fold now cv records m1) as [[m2 e2]|?|] eqn:E end; [|done..].
  cbn [mbind outcome_bind]. intros [= <- <-]. eapply (announced_trans _ _ _ [_]); [|by apply IH]. by apply announced_insert.
Qed.

Lemma reclaim_announced es m : announced m (fst (reclaim_fold es m)) (delete_event <$> snd (reclaim_fold es m)).
Proof.
  revert m. induction es as [|e es IH]; intros m; cbn [reclaim_fold]; [apply announced_same|].
  destruct (m !! re_EntryKey e) as [x|]; [|apply IH]. destruct (e_version x =? re_Version e); [|apply IH].
  specialize (IH (delete (re_EntryKey e) m)). destruct (reclaim_fold es _) as [m' d]. cbn [fst snd] in *.
  apply (announced_trans _ _ _ [_] _ (announced_delete m (re_EntryKey e) (delete_event (re_EntryKey e)) eq_refl) IH).
Qed.

Lemma refines_announced {A : Type} (st : KeyValueStorageCtx) (op : result A * KeyValueStorageCtx) (sp : effect A) :
  hub st = Some [] -> refines st op sp -> announced (contents st) (snd (fst sp)) (snd sp) ->
  announced (contents st) (contents (snd op)) (default [] (hub (snd op))).
Proof. intros Hh [(_ & Hc & He)|[_ [e ->]]] Ha; [|apply announced_same]. rewrite Hc, He, Hh. exact Ha. Qed.

Lemma run_write_announced now st w :
  write_ok w -> hub st = Some [] -> announced (contents st) (contents (run_write now st w)) (default [] (hub (run_write now st w))).
Proof.
  intros Hok Hh. destruct w as [req cv|req cv|req|req cv|req cv|req]; cbn [run_write write_ok] in *.
  - destruct Hok as (_ & Hex & Hcv). apply (refines_announced _ _ _ Hh (Put_refines now st req cv Hex Hcv)). unfold put_spec.
    destruct (rr_Key req); [|apply announced_same]. destruct (_ && _)%bool; [apply announced_same|by apply announced_insert].
  - destruct Hok as (_ & Hex & Hcv). apply (refines_announced _ _ _ Hh (Touch_refines now st req cv Hex Hcv)). unfold touch_spec.
    destruct (rr_Key req); [|apply announced_same]. destruct (contents st !! _); [by apply announced_insert|apply announced_same].
  - apply (refines_announced _ _ _ Hh (Remove_refines st req)). unfold remove_spec. destruct (kr_Key req); [by apply announced_delete|apply announced_same].
  - destruct Hok as (_ & Hex & Hcv). apply (refines_announced _ _ _ Hh (Increment_refines now st req cv Hex Hcv)). unfold increment_spec.
    destruct (ir_Key req); [by apply announced_insert|apply announced_same].
  - destruct Hok as (Hr & Hcv & Hor). eapply (refines_announced _ _ _ Hh); [apply SetBatch_refines; [done|done|]|].
    { eapply Forall_impl; [exact Hr|]. by intros r [_ ?]. }
    unfold batch_spec. destruct (batch_fold now cv (br_Records req) (contents st)) as [[m' evs]|?|] eqn:E; [by eapply batch_announced|apply announced_same..].
  - apply (refines_announced _ _ _ Hh (Reclaim_refines st req)). unfold reclaim_spec.
    pose proof (reclaim_announced (rc_Entries req) (contents st)) as Ha. by destruct (reclaim_fold _ _).
Qed.

(** ** The invariant *)

Section Run.
Hypothesis engine : BadgerReliable.

Lemma watch_prefix_field : watch_prefix = enc_field SystemTenant.
Proof.
  unfold watch_prefix. pose proof (EncodeKeyPrefix_layout {| MajorKey := SystemTenant; RegionName := []; MinorKey := []; Timestamp := None |} MajorKeyField) as HL.
  cbn [enc_prefix MajorKey] in HL. by rewrite HL.
Qed.

Lemma area_watched k : area_prefix `prefix_of` k -> HasPrefix k watch_prefix = true.
Proof. intros [l ->]. apply HasPrefix_spec. rewrite watch_prefix_field. unfold area_prefix. rewrite <- app_assoc. by eexists. Qed.

(** A change is still to be taken up. *)
Definition flagged (s : race) : Prop :=
  ps_dirty (r_ps s) = true \/ r_buffer s <> [] \/ (exists ev, ev ∈ r_notify s /\ HasPrefix (he_Key ev) watch_prefix = true) \/
  exists i c, r_calls s !! i = Some c /\ rebuilding (snd c) = true.

(** The snapshot that will be in force when no rebuild is under way is up to date. *)
Definition settled (s : race) : Prop :=
  (exists i rq x, r_calls s !! i = Some (rq, Store x) /\ is_current (r_db s) x) \/
  ((forall i c, r_calls s !! i = Some c -> storing (snd c) = false) /\ exists x, ps_snap (r_ps s) = Some x /\ is_current (r_db s) x).

(** The mutex is held by exactly the request that scans or stores. *)
Definition exclusive (s : race) : Prop :=
  forall i c, r_calls s !! i = Some c -> (snd c = Build \/ storing (snd c) = true) -> r_mu s = Some i.

Record race_inv (s : race) : Prop := {
  ri_wf : keys_wf (contents (r_storage s));
  ri_mu : exclusive s;
  ri_buffer : Forall (fun ev => HasPrefix (he_Key ev) watch_prefix = true) (r_buffer s);
  ri_fresh : r_lost s = false -> flagged s \/ settled s
}.

Lemma is_current_agree d d' x :
  keys_wf (contents {| db := d; hub := Some [] |}) -> keys_wf (contents {| db := d'; hub := Some [] |}) ->
  (forall k, area_prefix `prefix_of` k -> contents {| db := d; hub := Some [] |} !! k = contents {| db := d'; hub := Some [] |} !! k) ->
  is_current d x -> is_current d' x.
Proof. intros W1 W2 Hag [now Hx]. exists now. by rewrite <- (rebuild_agree now _ _ engine W1 W2 Hag). Qed.

(** What of the calls the invariant looks at when one of them moves. *)
Lemma flagged_call s s' i c :
  r_calls s !! i = Some c -> rebuilding (snd c) = false -> ps_dirty (r_ps s') = ps_dirty (r_ps s) -> r_buffer s' = r_buffer s -> r_notify s' = r_notify s ->
  (forall j, j <> i -> r_calls s' !! j = r_calls s !! j) -> flagged s -> flagged s'.
Proof.
  intros Hi Hc Ed Eb En Hj [Hd|[Hb|[Hn|(j & cj & Hcj & Hr)]]]; [left; congruence|right; left; congruence|right; right; left; by rewrite En|].
  right; right; right. exists j, cj. split; [|done]. rewrite Hj; [done|]. intros ->. congruence.
Qed.

Lemma exclusive_unheld s i rq ph : exclusive s -> ph <> Build -> storing ph = false -> exclusive (with_call i rq ph s).
Proof.
  intros HX Hb Hs j c Hj Hc. cbn in *. apply lookup_insert_Some in Hj as [[<- <-]|[Hne Hj]]; [cbn in Hc; destruct Hc; congruence|]. by apply (HX j c).
Qed.

Lemma exclusive_release s i rq ph : exclusive s -> r_mu s = Some i -> ph <> Build -> storing ph = false -> exclusive (with_call i rq ph (with_mu None s)).
Proof.
  intros HX Hm Hb Hs j c Hj Hc. cbn in *. apply lookup_insert_Some in Hj as [[<- <-]|[Hne Hj]]; [cbn in Hc; destruct Hc; congruence|].
  pose proof (HX j c Hj Hc). congruence.
Qed.

(** A request that neither scans nor stores moves on. *)
Lemma settled_call s i rq ph ph' :
  r_calls s !! i = Some (rq, ph) -> storing ph = false -> storing ph' = false -> settled s -> settled (with_call i rq ph' s).
Proof.
  intros Hi Hp Hp' [(j & rqj & x & Hj & Hx)|(Hall & Hx)]; [left|right].
  - exists j, rqj, x. split; [|done]. cbn. rewrite lookup_insert_ne; [done|]. intros ->. rewrite Hi in Hj. injection Hj as <- ->. done.
  - split; [|done]. intros j c Hj. cbn in Hj. apply lookup_insert_Some in Hj as [[<- <-]|[_ Hj]]; [done|]. by apply (Hall j).
Qed.

(** A request in a phase that holds the stale flag. *)
Lemma flagged_self s i rq ph : rebuilding ph = true -> flagged (with_call i rq ph s).
Proof. intros Hr. right; right; right. exists i, (rq, ph). split; [apply lookup_insert_eq|done]. Qed.

Lemma fresh_call s i rq ph ph' :
  r_calls s !! i = Some (rq, ph) -> rebuilding ph = false -> storing ph = false -> storing ph' = false ->
  flagged s \/ settled s -> flagged (with_call i rq ph' s) \/ settled (with_call i rq ph' s).
Proof.
  intros Hi Hr Hp Hp' [Hf|Hs]; [left|right; by apply (settled_call s i rq ph)].
  apply (flagged_call s _ i _ Hi Hr); [done..| |done]. intros j Hne. cbn. by rewrite lookup_insert_ne.
Qed.

(** Storing the snapshot settles the service, unless a later change is still flagged. *)
Lemma fresh_store s i rq x :
  exclusive s -> r_calls s !! i = Some (rq, Store x) -> flagged s \/ settled s ->
  let s' := with_call i rq Load (with_mu None (with_snap x s)) in flagged s' \/ settled s'.
Proof.
  intros HX Hi HF. assert (r_mu s = Some i) as Hm by (apply (HX i _ Hi); by right). destruct HF as [Hf|[(j & rqj & y & Hj & Hy)|(Hall & _)]].
  - left. apply (flagged_call s _ i _ Hi); [done..| |done]. intros j Hne. cbn. by rewrite lookup_insert_ne.
  - right; right. pose proof (HX j _ Hj (or_intror eq_refl)) as Hmj. assert (j = i) as -> by congruence. rewrite Hi in Hj. injection Hj as <- <-.
    split; [|by exists x]. intros j c Hj. cbn in Hj. apply lookup_insert_Some in Hj as [[<- <-]|[Hne Hj]]; [done|].
    destruct (storing (snd c)) eqn:Es; [|done]. pose proof (HX j c Hj (or_intror Es)). congruence.
  - by pose proof (Hall i _ Hi).
Qed.

Lemma inv_request now i s s' : race_inv s -> request_step now i s = Some s' -> race_inv s'.
Proof.
  intros [HW HX HB HF] Hst. unfold request_step in Hst. destruct (r_calls s !! i) as [[rq ph]|] eqn:Hi; [|done].
  destruct ph as [| | |x| | |r].
  - destruct (ps_dirty (r_ps s)); injection Hst as <-; split; try done; [by apply exclusive_unheld| |by apply exclusive_unheld|].
    + intros _. left. by apply flagged_self.
    + intros Hl. by apply (fresh_call s i rq Swap); [..|apply HF].
  - destruct (r_mu s) eqn:Hm; [done|]. injection Hst as <-. split; [done| |done|intros _; left; by apply flagged_self].
    intros j c Hj Hc. cbn in *. apply lookup_insert_Some in Hj as [[<- <-]|[Hne Hj]]; [done|]. pose proof (HX j c Hj Hc). congruence.
  - assert (r_mu s = Some i) as Hm by (apply (HX i _ Hi); by left).
    destruct (rebuild now (r_storage s)) as [x|?|] eqn:Hb; [| |done]; injection Hst as <-.
    + split; [done| |done|].
      * intros j c Hj Hc. cbn in *. apply lookup_insert_Some in Hj as [[<- <-]|[Hne Hj]]; [done|]. by apply (HX j c).
      * intros _. right; left. exists i, rq, x. split; [apply lookup_insert_eq|by exists now].
    + split; [done|by apply exclusive_release|done|intros _; left; by apply flagged_self].
  - injection Hst as <-. split; [done| |done|intros Hl; by apply fresh_store; [..|apply HF]].
    apply (exclusive_release (with_snap x s)); [done| |done..]. apply (HX i _ Hi). by right.
  - injection Hst as <-. split; [done|by apply exclusive_unheld|done|]. intros _. by left; left.
  - injection Hst as <-. split; [done|by apply exclusive_unheld|done|]. intros Hl. by apply (fresh_call s i rq Load); [..|apply HF].
  - done.
Qed.

Lemma inv_arrive i rq s : race_inv s -> r_calls s !! i = None -> race_inv (with_call i rq Swap s).
Proof.
  intros [HW HX HB HF] Hi. split; [done|by apply exclusive_unheld|done|]. intros Hl.
  destruct (HF Hl) as [[Hd|[Hb|[Hn|(j & c & Hj & Hr)]]]|[(j & rqj & x & Hj & Hx)|(Hall & Hx)]].
  - by left; left.
  - by left; right; left.
  - by left; right; right; left.
  - left; right; right; right. exists j, c. cbn. rewrite lookup_insert_ne by congruence. done.
  - right; left. exists j, rqj, x. cbn. rewrite lookup_insert_ne by congruence. done.
  - right; right. split; [|done]. intros j c Hj. cbn in Hj. apply lookup_insert_Some in Hj as [[<- <-]|[_ Hj]]; [done|]. by apply (Hall j).
Qed.

(** A write either leaves the region as it was or announces a change of it. *)
Lemma commit_watched now w s :
  write_ok w -> (exists ev, ev ∈ r_notify (commit now w s) /\ HasPrefix (he_Key ev) watch_prefix = true) \/
  forall k, area_prefix `prefix_of` k -> contents (r_storage s) !! k = contents (r_storage (commit now w s)) !! k.
Proof.
  intros Hok. pose proof (run_write_announced now (r_storage s) w Hok eq_refl) as HA.
  destruct (decide (Exists (fun ev => HasPrefix (he_Key ev) watch_prefix = true) (default [] (hub (run_write now (r_storage s) w))))) as [HE|HE].
  - left. apply Exists_exists in HE as (ev & Hin & Hp). exists ev. split; [|done]. cbn. apply elem_of_app. by right.
  - right. intros k Hk. destruct (decide (contents (run_write now (r_storage s) w) !! k = contents (r_storage s) !! k)) as [E|E]; [by rewrite <- E|].
    destruct (HA k E) as (ev & Hin & He). destruct HE. apply Exists_exists. exists ev. split; [done|]. rewrite He. by apply area_watched.
Qed.

Lemma inv_commit now w s : race_inv s -> write_ok w -> race_inv (commit now w s).
Proof.
  intros [HW HX HB HF] Hok. assert (keys_wf (contents (r_storage (commit now w s)))) as HW' by exact (run_write_wf now (r_storage s) w Hok HW).
  split; [done|done|done|]. intros Hl. destruct (commit_watched now w s Hok) as [Hn|Hag]; [by left; right; right; left|].
  destruct (HF Hl) as [[Hd|[Hb|[(ev & Hin & Hp)|Hr]]]|[(j & rqj & x & Hj & Hx)|(Hall & x & Hs & Hx)]].
  - by left; left.
  - by left; right; left.
  - left; right; right; left. exists ev. split; [|done]. cbn. apply elem_of_app. by left.
  - by left; right; right; right.
  - right; left. exists j, rqj, x. split; [done|]. by apply (is_current_agree (r_db s)).
  - right; right. split; [done|]. exists x. split; [done|]. by apply (is_current_agree (r_db s)).
Qed.

Lemma inv_notify drop s s' : race_inv s -> notify_step drop s = Some s' -> race_inv s'.
Proof.
  intros [HW HX HB HF] Hst. unfold notify_step in Hst. destruct (r_notify s) as [|ev rest] eqn:En; [done|].
  destruct (HasPrefix (he_Key ev) watch_prefix) eqn:Hp.
  - destruct (r_watching s) eqn:Hw; [|cbn in Hst; injection Hst as <-; split; [done..|]; cbn; by rewrite orb_true_r].
    destruct drop; cbn in Hst.
    + case_bool_decide as Hb; [done|]. injection Hst as <-. split; [done..|]. intros _. left; right; by left.
    + injection Hst as <-. split; [done|done| |].
      * cbn. apply Forall_app. split; [done|]. by constructor.
      * intros _. left; right; left. cbn. intros E. by apply app_eq_nil in E as [_ ?].
  - cbn in Hst. injection Hst as <-. split; [done..|]. cbn. rewrite orb_false_r. intros Hl.
    destruct (HF Hl) as [[Hd|[Hb|[(ev' & Hin & Hp')|Hr]]]|Hs]; [by left; left|by left; right; left| |by left; right; right; right|by right].
    rewrite En in Hin. apply elem_of_cons in Hin as [->|Hin]; [congruence|]. left; right; right; left. by exists ev'.
Qed.

Lemma policy_event_marks t ev : HasPrefix (he_Key ev) watch_prefix = true -> ps_dirty (policy_event t ev) = true.
Proof.
  intros Hp. unfold policy_event. unfold watch_prefix in Hp.
  pose proof (EncodeKeyPrefix_layout {| MajorKey := SystemTenant; RegionName := []; MinorKey := []; Timestamp := None |} MajorKeyField) as HL.
  cbn [enc_prefix MajorKey] in HL. rewrite HL in Hp |- *. by rewrite Hp.
Qed.

Lemma inv_deliver s s' : race_inv s -> deliver_step s = Some s' -> race_inv s'.
Proof.
  intros [HW HX HB HF] Hst. unfold deliver_step in Hst. destruct (r_buffer s) as [|ev rest]; [done|]. injection Hst as <-.
  inversion HB; subst. split; [done..|]. intros _. left; left. by apply policy_event_marks.
Qed.

Lemma inv_destroy s : race_inv s -> race_inv (destroy_step s).
Proof.
  intros [HW HX HB HF]. split; [done|done|constructor|]. cbn. rewrite orb_false_iff, negb_false_iff, bool_decide_eq_true. intros [Hl Eb].
  destruct (HF Hl) as [[Hd|[Hb|[Hn|Hr]]]|Hs]; [by left; left|done|by left; right; right; left|by left; right; right; right|by right].
Qed.

Lemma policy_step_inv s s' : race_inv s -> race_step s s' -> race_inv s'.
Proof.
  intros HI Hst. destruct Hst as [i rq s Hi|now i s s' Hr|now w s Hok|drop s s' Hn|s Hs|s|s s' Hd];
    [by apply inv_arrive|by eapply inv_request|by apply inv_commit|by eapply inv_notify|by destruct HI|by apply inv_destroy|by eapply inv_deliver].
Qed.

Lemma race_reachable_inv s : race_reachable s -> race_inv s.
Proof.
  induction 1 as [now d s Hwf Hst|s s' _ IH Hst]; [|by eapply policy_step_inv].
  unfold race_start, policy_PostConstruct in Hst. cbn [ps_Enabled negb] in Hst.
  destruct (rebuild now _) as [x|?|] eqn:Hb; [|done..]. injection Hst as <-. split; cbn; [done|done|constructor|].
  intros _. right; right. split; [done|]. exists x. split; [done|by exists now].
Qed.

(** C8: the policy in force converges. However requests, writes, notifications and deliveries
    interleave, in every state in which no change of the system tenant is on its way, the stale
    flag is down and no rebuild is under way, the snapshot in force is the compilation of the
    records stored now, provided no change met the hub before the watcher registered; so every
    request from then on is decided by the stored policy. *)
Theorem policy_converges (s : race) :
  race_reachable s -> quiescent s -> r_lost s = false ->
  exists x, ps_snap (r_ps s) = Some x /\ is_current (r_db s) x /\
    forall i rq, r_calls s !! i = Some (rq, Load) -> forall now, request_step now i s = Some (with_call i rq (Done (decide_by (Some x) rq)) s).
Proof.
  intros [_ _ _ HF]%race_reachable_inv (Hd & Hb & Hn & Hc) Hl.
  assert (exists x, ps_snap (r_ps s) = Some x /\ is_current (r_db s) x) as (x & Hs & Hx).
  { destruct (HF Hl) as [[E|[E|[(ev & Hin & Hp)|(i & c & Hi & Hr)]]]|[(i & rq & x & Hi & Hx)|(_ & HS)]]; [congruence|done| | | |done].
    - pose proof (proj1 (Forall_forall _ _) Hn ev Hin). cbn in *. congruence.
    - pose proof (Hc i c Hi) as [Hr' _]. congruence.
    - by pose proof (Hc i _ Hi) as [_ Hst]. }
  exists x. split; [done|]. split; [done|]. intros i rq Hi now. unfold request_step. by rewrite Hi, Hs.
Qed.

(** The next step of a request whose phase is known. *)
Lemma solo_at now i n rq ph s :
  solo now i (S n) (with_call i rq ph s) =
  let s0 := with_call i rq ph s in
  match ph with
  | Swap => if ps_dirty (r_ps s0) then solo now i n (with_call i rq Lock (with_dirty false s0)) else solo now i n (with_call i rq Load s0)
  | Lock => match r_mu s0 with None => solo now i n (with_call i rq Build (with_mu (Some i) s0)) | Some _ => s0 end
  | Build =>
      match rebuild now (r_storage s0) with
      | Ret x => solo now i n (with_call i rq (Store x) s0)
      | Fail _ => solo now i n (with_call i rq Retry (with_mu None s0))
      | Panic => s0
      end
  | Store x => solo now i n (with_call i rq Load (with_mu None (with_snap x s0)))
  | Retry => solo now i n (with_call i rq Load (with_dirty true s0))
  | Load => solo now i n (with_call i rq (Done (decide_by (ps_snap (r_ps s0)) rq)) s0)
  | Done _ => s0
  end.
Proof.
  cbn [solo]. unfold request_step. cbn [r_calls with_call]. rewrite lookup_insert_eq. cbn zeta.
  destruct ph; try done; [by destruct (ps_dirty _)|by destruct (r_mu _)|by destruct (rebuild _ _)].
Qed.

(** A request that meets no other is the sequential [Authorize]. From any state in which the
    mutex is free, a new request alone reaches its answer in at most five steps; the answer and the
    service it leaves are those of [Authorize], and the mutex is free again. *)
Theorem solo_request_is_Authorize (now : Z) (i : nat) (rq : request) (s : race) :
  ps_Enabled (r_ps s) = true -> r_mu s = None -> rebuild now (r_storage s) <> Panic ->
  let s' := solo now i 5 (with_call i rq Swap s) in
  let '(r, t) := Authorize now (r_storage s) (Some (r_ps s)) (rq_principal rq) (rq_permission rq) (rq_tenant rq) (rq_region rq) in
  r_calls s' !! i = Some (rq, Done r) /\ t = Some (r_ps s') /\ r_mu s' = None /\ r_db s' = r_db s.
Proof.
  intros He Hm Hp. cbn zeta. remember (solo now i 5 (with_call i rq Swap s)) as s' eqn:Es. unfold Authorize. rewrite He. cbn [negb].
  unfold refresh. rewrite solo_at in Es. cbn [r_ps with_call] in Es. destruct (ps_dirty (r_ps s)) eqn:Ed.
  - rewrite solo_at in Es. cbn [r_mu with_call with_dirty with_ps] in Es. rewrite Hm in Es. rewrite solo_at in Es.
    change (r_storage _) with (r_storage s) in Es. destruct (rebuild now (r_storage s)) as [x|e|]; [| |done]; rewrite !solo_at in Es; subst s'; cbn; rewrite He.
    + by destruct (Snapshot_Authorize _ _ _ _ _); cbn; rewrite lookup_insert_eq.
    + unfold decide_by. destruct (ps_snap (r_ps s)) as [y|]; [destruct (Snapshot_Authorize _ _ _ _ _)|]; cbn; by rewrite lookup_insert_eq.
  - rewrite !solo_at in Es. subst s'. cbn. unfold decide_by.
    destruct (ps_snap (r_ps s)) as [y|]; [destruct (Snapshot_Authorize _ _ _ _ _)|]; cbn; by rewrite lookup_insert_eq.
Qed.

(** Events notified before the watcher is there are gone. *)
Lemma drain_unwatched s :
  race_reachable s -> r_watching s = false ->
  exists s', race_reachable s' /\ r_watching s' = false /\ r_stopped s' = r_stopped s /\ r_notify s' = [] /\
    r_db s' = r_db s /\ r_ps s' = r_ps s /\ r_calls s' = r_calls s /\ r_buffer s' = r_buffer s.
Proof.
  remember (r_notify s) as evs eqn:E. revert s E. induction evs as [|ev evs IH]; intros s E HR Hw; [by exists s|].
  assert (exists s1, notify_step false s = Some s1 /\ r_notify s1 = evs /\ r_watching s1 = false /\ r_stopped s1 = r_stopped s /\ r_db s1 = r_db s /\ r_ps s1 = r_ps s /\
    r_calls s1 = r_calls s /\ r_buffer s1 = r_buffer s) as (s1 & Hst & En & Hw1 & <- & <- & <- & <- & <-).
  { unfold notify_step. rewrite <- E, Hw, !andb_false_r. cbn. by eexists. }
  apply (IH s1); [done| |done]. eapply race_next; [exact HR|]. by eapply step_notify.
Qed.

(** A change made before the watcher registers is never taken up. [PostConstruct] compiles the
    policy and only then starts the goroutine that registers the watch: any write committed and
    notified in between leads to a state with the watcher in place and nothing under way, in which
    the service still holds the policy from before the write and every request is decided by it. *)
Theorem early_change_missed (now now' : Z) (d : DB) (w : write) (s0 : race) :
  keys_wf (contents {| db := d; hub := Some [] |}) -> race_start now d = Ret s0 -> write_ok w ->
  exists s, race_reachable s /\ quiescent s /\ r_watching s = true /\
    r_db s = db (run_write now' {| db := d; hub := Some [] |} w) /\ ps_snap (r_ps s) = ps_snap (r_ps s0) /\
    forall i rq later, r_calls (solo later i 5 (with_call i rq Swap s)) !! i = Some (rq, Done (decide_by (ps_snap (r_ps s0)) rq)).
Proof.
  intros Hwf Hst Hok. pose proof (race_init now d s0 Hwf Hst) as HR. unfold race_start, policy_PostConstruct in Hst. cbn [ps_Enabled negb] in Hst.
  destruct (rebuild now _) as [x|?|]; [|done..]. injection Hst as <-.
  destruct (drain_unwatched (commit now' w _) (race_next _ _ HR (step_commit now' w _ Hok)) eq_refl) as (s1 & HR1 & Hw1 & Es & En & Ed & Ep & Ec & Eb).
  exists (watch_step s1). split; [eapply race_next; [exact HR1|apply step_watch; by rewrite Es]|]. split; [|split; [done|split; [exact Ed|split; [cbn; by rewrite Ep|]]]].
  - unfold quiescent. cbn. rewrite Ep, Eb, En, Ec. split; [done|]. split; [done|]. split; [constructor|apply map_Forall_empty].
  - intros i rq later. rewrite solo_at. cbn [r_ps with_call watch_step]. rewrite Ep. cbn [ps_dirty]. rewrite !solo_at. cbn. by rewrite lookup_insert_eq, Ep.
Qed.

End Run.

(** A restored dump changes the records without an event: the service stays as it was, whatever
    the dump holds. *)
Theorem restore_unnoticed (now : Z) (st st' : KeyValueStorageCtx) (dump : bytes) (r : result unit) (t : PolicyService) (x : Snapshot) (rq : request) :
  Storage.Load st dump = (r, st') -> ps_Enabled t = true -> ps_dirty t = false -> ps_snap t = Some x ->
  hub st' = hub st /\
  Authorize now st' (Some t) (rq_principal rq) (rq_permission rq) (rq_tenant rq) (rq_region rq) = (decide_by (Some x) rq, Some t).
Proof.
  intros HL He Hd Hs. unfold Storage.Load in HL. destruct (db_Load (db st) dump) as [r' d']. injection HL as <- <-. split; [done|].
  unfold Authorize, refresh, decide_by. rewrite He, Hd. cbn [negb]. rewrite Hs. by destruct (Snapshot_Authorize _ _ _ _ _).
Qed.

End Props.

(** ** Witnesses *)

Section Witness.
#[local] Existing Instances flat_uuid flat_uuid_laws mem_badger mem_spec flat_store flat_store_laws flat_value flat_iam_structs.

Definition race_user (disabled : bool) : RecordRequest := {|
  rr_Key := Some (iam_Key (UserPrefix ++ str "ann"));
  rr_Value := match iam_Encode {| us_Name := str "ann"; us_PasswordHash := []; us_Admin := true; us_Disabled := disabled; us_CreatedAt := 0 |} with Ret b => b | _ => [] end;
  rr_Metadata := 0; rr_TtlSeconds := 0; rr_CompareAndSet := false; rr_Version := 0; rr_Timeout := 0; rr_ExpiresAt := 0 |}.

(** A store in which ann is an administrator. *)
Definition race_db : DB := db (run_write 100 {| db := ∅; hub := Some [] |} (WPut (race_user false) 1)).

(** She is disabled. *)
Definition race_disable : write := WPut (race_user true) 2.

Definition race_request : request := {|
  rq_principal := str "user:ann"; rq_permission := PermRecordsGet; rq_tenant := str "acme"; rq_region := str "USERS" |}.

Lemma race_write_ok b cv : is_uint64 cv -> write_ok (WPut (race_user b) cv).
Proof. intros Hcv. split; [reflexivity|]. split; [cbn; unfold is_int64; lia|done]. Qed.

Lemma race_db_wf : keys_wf (contents {| db := race_db; hub := Some [] |}).
Proof.
  exact (run_write_wf 100 {| db := ∅; hub := Some [] |} (WPut (race_user false) 1) (race_write_ok false 1 ltac:(unfold is_uint64; lia)) keys_wf_empty).
Qed.

Definition race_s0 : race := match race_start 100 race_db with Ret s => s | _ => {|
  r_db := race_db; r_ps := {| ps_Enabled := true; ps_snap := None; ps_dirty := false |}; r_mu := None; r_calls := ∅;
  r_watching := false; r_notify := []; r_buffer := []; r_lost := false; r_stopped := false |} end.

Lemma race_s0_start : race_start 100 race_db = Ret race_s0.
Proof.
  assert (match race_start 100 race_db with Ret _ => true | _ => false end = true) as E by (vm_compute; reflexivity).
  unfold race_s0. by destruct (race_start 100 race_db).
Qed.

(** The change is watched, delivered and taken up by the next request. *)
Definition race_s1 : race := commit 150 race_disable (watch_step race_s0).
Definition race_s2 : race := default race_s1 (notify_step false race_s1).
Definition race_s3 : race := default race_s2 (deliver_step race_s2).
Definition race_s4 : race := with_call 0 race_request Swap race_s3.
Definition race_s5 : race := default race_s4 (request_step 160 0 race_s4).
Definition race_s6 : race := default race_s5 (request_step 160 0 race_s5).
Definition race_s7 : race := default race_s6 (request_step 160 0 race_s6).
Definition race_s8 : race := default race_s7 (request_step 160 0 race_s7).

Lemma race_s8_reachable : race_reachable race_s8.
Proof.
  eapply race_next; [eapply race_next; [eapply race_next; [eapply race_next; [eapply race_next; [eapply race_next; [eapply race_next;
    [eapply race_next; [eapply race_next; [exact (race_init 100 race_db race_s0 race_db_wf race_s0_start)|]|]|]|]|]|]|]|]|].
  - apply step_watch. vm_compute. reflexivity.
  - apply (step_commit 150 race_disable). apply race_write_ok. unfold is_uint64. lia.
  - apply (step_notify false race_s1 race_s2), some_default. vm_compute. reflexivity.
  - apply (step_deliver race_s2 race_s3), some_default. vm_compute. reflexivity.
  - apply (step_arrive 0 race_request race_s3). vm_compute. reflexivity.
  - apply (step_request 160 0 race_s4 race_s5), some_default. vm_compute. reflexivity.
  - apply (step_request 160 0 race_s5 race_s6), some_default. vm_compute. reflexivity.
  - apply (step_request 160 0 race_s6 race_s7), some_default. vm_compute. reflexivity.
  - apply (step_request 160 0 race_s7 race_s8), some_default. vm_compute. reflexivity.
Qed.

Lemma policy_converges_witness : exists x, ps_snap (r_ps race_s8) = Some x /\ is_current (r_db race_s8) x.
Proof.
  destruct (policy_converges mem_reliable race_s8 race_s8_reachable) as (x & Hs & Hx & _); [|vm_compute; reflexivity|exists x; exact (conj Hs Hx)].
  split; [vm_compute; reflexivity|]. split; [vm_compute; reflexivity|]. split; [vm_compute; constructor|].
  apply map_Forall_to_list. vm_compute. repeat constructor.
Defined.

Lemma solo_request_is_Authorize_witness :
  let s' := solo 160 0 5 (with_call 0 race_request Swap race_s0) in
  r_calls s' !! 0%nat = Some (race_request, Done (fst (Authorize 160 (r_storage race_s0) (Some (r_ps race_s0)) (str "user:ann") PermRecordsGet (str "acme") (str "USERS")))).
Proof.
  pose proof (solo_request_is_Authorize 160 0 race_request race_s0 ltac:(vm_compute; reflexivity) ltac:(vm_compute; reflexivity)) as HS.
  destruct (Authorize 160 (r_storage race_s0) (Some (r_ps race_s0)) (rq_principal race_request) (rq_permission race_request) (rq_tenant race_request) (rq_region race_request)) as [r t] eqn:EA.
  change (str "user:ann") with (rq_principal race_request). change PermRecordsGet with (rq_permission race_request).
  change (str "acme") with (rq_tenant race_request). change (str "USERS") with (rq_region race_request). cbn zeta. rewrite EA.
  apply HS. rewrite rebuild_yields; [discriminate|exact mem_reliable|]. assert (r_db race_s0 = race_db) as E by (unfold race_s0; destruct (race_start 100 race_db) eqn:Er; [|reflexivity..];
    unfold race_start in Er; destruct (policy_PostConstruct _ _ _) as [[?|?|] ?]; [injection Er as <-; reflexivity|discriminate..]).
  unfold r_storage. rewrite E. exact race_db_wf.
Defined.

(** Ann is disabled in the window and stays an administrator. *)
Lemma early_change_missed_witness :
  exists s, race_reachable s /\ quiescent s /\
    r_calls (solo 200 0 5 (with_call 0 race_request Swap s)) !! 0%nat = Some (race_request, Done (Ret tt)) /\
    match rebuild 200 (r_storage s) with Ret x => decide_by (Some x) race_request | _ => Ret tt end = Fail denied.
Proof.
  destruct (early_change_missed 100 150 race_db race_disable race_s0 race_db_wf race_s0_start (race_write_ok true 2 ltac:(unfold is_uint64; lia)))
    as (s & HR & HQ & _ & Hd & _ & Hdec).
  exists s. split; [exact HR|]. split; [exact HQ|]. split.
  - rewrite Hdec. assert (decide_by (ps_snap (r_ps race_s0)) race_request = Ret tt) as -> by (vm_compute; reflexivity). reflexivity.
  - unfold r_storage. rewrite Hd. vm_compute. reflexivity.
Defined.

Lemma restore_unnoticed_witness :
  hub (snd (Storage.Load {| db := race_db; hub := Some [] |} [x01])) = Some [] /\
  Authorize 5 (snd (Storage.Load {| db := race_db; hub := Some [] |} [x01])) (Some (r_ps race_s0)) (str "user:ann") PermRecordsGet (str "acme") (str "USERS")
  = (Ret tt, Some (r_ps race_s0)).
Proof.
  destruct (Storage.Load {| db := race_db; hub := Some [] |} [x01]) as [r st'] eqn:EL.
  assert (ps_snap (r_ps race_s0) = Some (default NewSnapshot (ps_snap (r_ps race_s0)))) as Ex by (apply some_default; vm_compute; reflexivity).
  destruct (restore_unnoticed 5 _ st' [x01] r (r_ps race_s0) _ race_request EL ltac:(vm_compute; reflexivity) ltac:(vm_compute; reflexivity) Ex) as [E1 E2].
  split; [exact E1|]. change (str "user:ann") with (rq_principal race_request). etransitivity; [exact E2|]. rewrite <- Ex.
  assert (decide_by (ps_snap (r_ps race_s0)) race_request = Ret tt) as -> by (vm_compute; reflexivity). reflexivity.
Defined.

End Witness.
