(* ===== verification/Codecs.v ===== *)
(** * The wire codecs of the data plane ([pkg/server/vrpc_data.go], the value.Map codecs)

    Requests and responses travel as dynamic maps of the value package. The map operations the
    codecs call are a class parameter with the laws of reading back what was put; the instance
    at the end is an association list. *)

From S2P Require Import Prelude Pb.

(** ** Dynamic maps *)

(** [value.Value]s of the kinds the codecs build, and [value.Map]. The getters combine the
    typed lookup with the conversion the code applies to it ([GetString(k).Raw()],
    [GetNumber(k).Long()], [GetBool(k).Boolean()]). *)
Class ValueMaps : Type := {
  WVal : Type;
  WMap : Type;
  EmptyMap : WMap;
  MPut : WMap -> bytes -> WVal -> WMap;
  VRaw : bytes -> WVal;
  VLong : Z -> WVal;
  VBoolean : bool -> WVal;
  VMap : WMap -> WVal;
  VList : list WVal -> WVal;
  AsMap : WVal -> option WMap;
  GetRaw : WMap -> bytes -> bytes;
  GetLong : WMap -> bytes -> Z;
  GetBool : WMap -> bytes -> bool;
  GetMap : WMap -> bytes -> option WMap;
  GetList : WMap -> bytes -> option (list WVal)
}.

(** Reading back: the last value put under a key, and the zero value for an absent key. *)
Class ValueMapLaws `{ValueMaps} : Prop := {
  as_map : forall m, AsMap (VMap m) = Some m;
  raw_empty : forall k, GetRaw EmptyMap k = [];
  long_empty : forall k, GetLong EmptyMap k = 0;
  bool_empty : forall k, GetBool EmptyMap k = false;
  raw_put : forall m k b, GetRaw (MPut m k (VRaw b)) k = b;
  long_put : forall m k z, is_int64 z -> GetLong (MPut m k (VLong z)) k = z;
  bool_put : forall m k b, GetBool (MPut m k (VBoolean b)) k = b;
  map_put : forall m k x, GetMap (MPut m k (VMap x)) k = Some x;
  list_put : forall m k x, GetList (MPut m k (VList x)) k = Some x;
  raw_other : forall m k k' v, bool_decide (k = k') = false -> GetRaw (MPut m k v) k' = GetRaw m k';
  long_other : forall m k k' v, bool_decide (k = k') = false -> GetLong (MPut m k v) k' = GetLong m k';
  bool_other : forall m k k' v, bool_decide (k = k') = false -> GetBool (MPut m k v) k' = GetBool m k';
  map_other : forall m k k' v, bool_decide (k = k') = false -> GetMap (MPut m k v) k' = GetMap m k';
  list_other : forall m k k' v, bool_decide (k = k') = false -> GetList (MPut m k v) k' = GetList m k'
}.

(** UTF-8 strings: [value.Utf8(s)] and [GetString(k).String()]. *)
Class TextMaps `{ValueMaps} : Type := {
  VUtf8 : bytes -> WVal;
  GetText : WMap -> bytes -> bytes
}.

Section Codecs.
Context `{ValueMaps}.

(** ** Keys *)

Definition encodeKey (k : option Key) : WMap :=
  match k with
  | None => EmptyMap
  | Some k =>
      let m := MPut (MPut (MPut EmptyMap (str "major") (VRaw (MajorKey k)))
                      (str "region") (VRaw (RegionName k))) (str "minor") (VRaw (MinorKey k)) in
      match Timestamp k with
      | Some ts =>
          MPut (MPut (MPut m (str "ts_most") (VLong (MostSigBits ts)))
                  (str "ts_least") (VLong (LeastSigBits ts))) (str "ts") (VBoolean true)
      | None => m
      end
  end.

(** [m == nil] is [None]. *)
Definition decodeKey (m : option WMap) : option Key :=
  match m with
  | None => None
  | Some m =>
      Some {| MajorKey := GetRaw m (str "major"); RegionName := GetRaw m (str "region");
              MinorKey := GetRaw m (str "minor");
              Timestamp := if GetBool m (str "ts")
                           then Some {| MostSigBits := GetLong m (str "ts_most");
                                        LeastSigBits := GetLong m (str "ts_least") |}
                           else None |}
  end.

Definition asMap (v : WVal) (what : string) : result WMap :=
  match AsMap v with Some m => Ret m | None => Fail (ErrNew (str what ++ str ": expected a map")) end.

(** ** Requests and responses (the nil requests of the encoders are left out) *)

Definition keyRequest_Encode (r : KeyRequest) : WVal :=
  VMap (MPut (MPut EmptyMap (str "key") (VMap (encodeKey (kr_Key r))))
          (str "head_only") (VBoolean (kr_HeadOnly r))).

Definition keyRequest_Decode (v : WVal) : result KeyRequest :=
  m ← asMap v "key request";
  Ret {| kr_Key := decodeKey (GetMap m (str "key")); kr_HeadOnly := GetBool m (str "head_only");
         kr_Timeout := 0 |}.

Definition recordRequest_Encode (r : RecordRequest) : WVal :=
  VMap (MPut (MPut (MPut (MPut (MPut (MPut (MPut EmptyMap
    (str "key") (VMap (encodeKey (rr_Key r))))
    (str "value") (VRaw (rr_Value r)))
    (str "metadata") (VLong (rr_Metadata r)))
    (str "ttl") (VLong (rr_TtlSeconds r)))
    (str "cas") (VBoolean (rr_CompareAndSet r)))
    (str "version") (VLong (int64 (rr_Version r))))
    (str "expires_at") (VLong (rr_ExpiresAt r))).

Definition recordRequest_Decode (v : WVal) : result RecordRequest :=
  m ← asMap v "record request";
  Ret {| rr_Key := decodeKey (GetMap m (str "key"));
         rr_Value := GetRaw m (str "value");
         rr_Metadata := int32 (GetLong m (str "metadata"));
         rr_TtlSeconds := GetLong m (str "ttl");
         rr_CompareAndSet := GetBool m (str "cas");
         rr_Version := wrap64 (GetLong m (str "version"));
         rr_Timeout := 0;
         rr_ExpiresAt := GetLong m (str "expires_at") |}.

Definition record_Encode (r : Rec) : WVal :=
  let m := MPut (MPut (MPut EmptyMap (str "key") (VMap (encodeKey (rec_Key r))))
                  (str "value") (VRaw (rec_Value r)))
             (str "found") (VBoolean (match rec_Head r with Some _ => true | None => false end)) in
  VMap match rec_Head r with
       | Some h =>
           MPut (MPut (MPut (MPut m
             (str "version") (VLong (int64 (hd_Version h))))
             (str "expires_at") (VLong (int64 (hd_ExpiresAt h))))
             (str "disk_size") (VLong (hd_DiskSize h)))
             (str "metadata") (VLong (hd_Metadata h))
       | None => m
       end.

Definition record_Decode (v : WVal) : result Rec :=
  m ← asMap v "record";
  Ret {| rec_Key := decodeKey (GetMap m (str "key"));
         rec_Head := if GetBool m (str "found")
                     then Some {| hd_Version := wrap64 (GetLong m (str "version"));
                                  hd_ExpiresAt := wrap64 (GetLong m (str "expires_at"));
                                  hd_DiskSize := GetLong m (str "disk_size");
                                  hd_Metadata := int32 (GetLong m (str "metadata")) |}
                     else None;
         rec_Value := GetRaw m (str "value") |}.

Definition status_Encode (s : Status) : WVal :=
  VMap (MPut EmptyMap (str "updated") (VBoolean (Updated s))).

Definition status_Decode (v : WVal) : result Status :=
  m ← asMap v "status"; Ret {| Updated := GetBool m (str "updated") |}.

Definition incrementRequest_Encode (r : IncrementRequest) : WVal :=
  VMap (MPut (MPut (MPut (MPut (MPut EmptyMap
    (str "key") (VMap (encodeKey (ir_Key r))))
    (str "initial") (VLong (ir_Initial r)))
    (str "delta") (VLong (ir_Delta r)))
    (str "ttl") (VLong (ir_TtlSeconds r)))
    (str "expires_at") (VLong (ir_ExpiresAt r))).

Definition incrementRequest_Decode (v : WVal) : result IncrementRequest :=
  m ← asMap v "increment request";
  Ret {| ir_Key := decodeKey (GetMap m (str "key"));
         ir_Initial := GetLong m (str "initial");
         ir_Delta := GetLong m (str "delta");
         ir_TtlSeconds := GetLong m (str "ttl");
         ir_Timeout := 0;
         ir_ExpiresAt := GetLong m (str "expires_at") |}.

Definition incrementResponse_Encode (r : IncrementResponse) : WVal :=
  VMap (MPut (MPut (MPut EmptyMap
    (str "previous") (VLong (Previous r)))
    (str "current") (VLong (Current r)))
    (str "version") (VLong (int64 (ir_Version r)))).

Definition incrementResponse_Decode (v : WVal) : result IncrementResponse :=
  m ← asMap v "increment response";
  Ret {| Previous := GetLong m (str "previous"); Current := GetLong m (str "current");
         ir_Version := wrap64 (GetLong m (str "version")) |}.

Definition watchRequest_Encode (r : WatchRequest) : WVal :=
  VMap (MPut EmptyMap (str "prefix") (VMap (encodeKey (wr_Prefix r)))).

Definition watchRequest_Decode (v : WVal) : result WatchRequest :=
  m ← asMap v "watch request";
  Ret {| wr_Prefix := decodeKey (GetMap m (str "prefix")); wr_Timeout := 0 |}.

(** [pb.ChangeType] is an int32: 0 is a set, 1 a delete; other numbers have no name. *)
Definition change_code (t : ChangeType) : Z := match t with WATCH_SET => 0 | WATCH_DELETE => 1 end.

Definition change_of (z : Z) : option ChangeType :=
  if z =? 0 then Some WATCH_SET else if z =? 1 then Some WATCH_DELETE else None.

Definition watchEvent_Encode (e : WatchEvent) : WVal :=
  VMap (MPut (MPut (MPut (MPut EmptyMap
    (str "key") (VMap (encodeKey (we_Key e))))
    (str "value") (VRaw (we_Value e)))
    (str "version") (VLong (int64 (we_Version e))))
    (str "type") (VLong (change_code (we_Type e)))).

(** The type number is kept beside the event, since any int32 decodes. *)
Definition watchEvent_Decode (v : WVal) : result (option Key * bytes * Z * Z) :=
  m ← asMap v "watch event";
  Ret (decodeKey (GetMap m (str "key")), GetRaw m (str "value"), wrap64 (GetLong m (str "version")),
       int32 (GetLong m (str "type"))).

Definition enumerateRequest_Encode (r : EnumerateRequest) : WVal :=
  VMap (MPut (MPut (MPut EmptyMap
    (str "prefix") (VMap (encodeKey (en_Prefix r))))
    (str "ordered") (VBoolean (en_Ordered r)))
    (str "reverse") (VBoolean (en_Reverse r))).

Definition enumerateRequest_Decode (v : WVal) : result EnumerateRequest :=
  m ← asMap v "enumerate request";
  Ret {| en_Prefix := decodeKey (GetMap m (str "prefix")); en_Ordered := GetBool m (str "ordered");
         en_Reverse := GetBool m (str "reverse"); en_Timeout := 0 |}.

Definition batchRequest_Encode (r : BatchRequest) : WVal :=
  VMap (MPut EmptyMap (str "records") (VList (recordRequest_Encode <$> br_Records r))).

(** [list.GetMapAt(i)] is nil for an element that is not a map, which the record decoder
    refuses. *)
Fixpoint decode_records (l : list WVal) : result (list RecordRequest) :=
  match l with
  | [] => Ret []
  | v :: rest =>
      rec ← recordRequest_Decode v;
      recs ← decode_records rest;
      Ret (rec :: recs)
  end.

Definition batchRequest_Decode (v : WVal) : result BatchRequest :=
  m ← asMap v "batch request";
  match GetList m (str "records") with
  | Some list => recs ← decode_records list; Ret {| br_Records := recs; br_Timeout := 0 |}
  | None => Ret {| br_Records := []; br_Timeout := 0 |}
  end.

(** ** Widths and what survives the wire *)

Definition key_width (k : option Key) : Prop :=
  match k with
  | Some k => match Timestamp k with Some ts => is_int64 (MostSigBits ts) /\ is_int64 (LeastSigBits ts) | None => True end
  | None => True
  end.

Definition empty_key : Key := {| MajorKey := []; RegionName := []; MinorKey := []; Timestamp := None |}.

(** A missing key arrives as the empty key. *)
Definition wire_key (k : option Key) : option Key := Some (default empty_key k).

Definition record_width (r : RecordRequest) : Prop :=
  key_width (rr_Key r) /\ is_int32 (rr_Metadata r) /\ is_int64 (rr_TtlSeconds r) /\
  is_uint64 (rr_Version r) /\ is_int64 (rr_ExpiresAt r).

Definition wire_record (r : RecordRequest) : RecordRequest := {|
  rr_Key := wire_key (rr_Key r); rr_Value := rr_Value r; rr_Metadata := rr_Metadata r;
  rr_TtlSeconds := rr_TtlSeconds r; rr_CompareAndSet := rr_CompareAndSet r; rr_Version := rr_Version r;
  rr_Timeout := 0; rr_ExpiresAt := rr_ExpiresAt r |}.

End Codecs.

(** ** Lemmas *)

(** Reads a built map: each getter goes past the other keys to the one it asks for. *)
Ltac read_map :=
  repeat first
    [ rewrite raw_put | rewrite bool_put | rewrite map_put | rewrite list_put
    | rewrite long_put by (first [assumption|apply int64_range|unfold is_int64, is_int32 in *; lia])
    | rewrite raw_other by (vm_compute; reflexivity) | rewrite bool_other by (vm_compute; reflexivity)
    | rewrite map_other by (vm_compute; reflexivity) | rewrite list_other by (vm_compute; reflexivity)
    | rewrite long_other by (vm_compute; reflexivity)
    | rewrite raw_empty | rewrite bool_empty | rewrite long_empty ].

Section Lemmas.
Context `{ValueMaps} `{!ValueMapLaws}.

Lemma decode_encode_key (k : option Key) : key_width k -> decodeKey (Some (encodeKey k)) = wire_key k.
Proof.
  unfold wire_key, decodeKey, encodeKey. destruct k as [[ma rg mi [[a b]|]]|]; cbn; intros Hw.
  - destruct Hw as [Ha Hb]. read_map. done.
  - read_map. done.
  - read_map. done.
Qed.

Lemma recordRequest_roundtrip (r : RecordRequest) :
  record_width r -> recordRequest_Decode (recordRequest_Encode r) = Ret (wire_record r).
Proof.
  intros (Hk & Hm & Ht & Hv & He). unfold recordRequest_Decode, recordRequest_Encode, asMap.
  rewrite as_map. cbn [mbind outcome_bind]. read_map.
  rewrite decode_encode_key by done. unfold wire_record.
  by rewrite int32_small, wrap64_int64, wrap64_small.
Qed.

Lemma decode_records_encode (rs : list RecordRequest) :
  Forall record_width rs -> decode_records (recordRequest_Encode <$> rs) = Ret (wire_record <$> rs).
Proof.
  induction 1 as [|r rs Hr Hrs IH]; [done|]. rewrite fmap_cons. cbn [decode_records].
  rewrite recordRequest_roundtrip by done. cbn [mbind outcome_bind]. by rewrite IH.
Qed.

(** Requests survive the wire. Every request the client encodes is decoded by the server
    to the same request, for all values of its fields at their machine widths, except that a
    missing key arrives as the empty key and the client-side timeout stays behind; batches
    keep their records in order. *)
Theorem requests_roundtrip (k : KeyRequest) (r : RecordRequest) (i : IncrementRequest)
    (w : WatchRequest) (e : EnumerateRequest) (b : BatchRequest) :
  key_width (kr_Key k) -> record_width r -> key_width (ir_Key i) ->
  is_int64 (ir_Initial i) -> is_int64 (ir_Delta i) -> is_int64 (ir_TtlSeconds i) -> is_int64 (ir_ExpiresAt i) ->
  key_width (wr_Prefix w) -> key_width (en_Prefix e) -> Forall record_width (br_Records b) ->
  keyRequest_Decode (keyRequest_Encode k)
    = Ret {| kr_Key := wire_key (kr_Key k); kr_HeadOnly := kr_HeadOnly k; kr_Timeout := 0 |} /\
  recordRequest_Decode (recordRequest_Encode r) = Ret (wire_record r) /\
  incrementRequest_Decode (incrementRequest_Encode i)
    = Ret {| ir_Key := wire_key (ir_Key i); ir_Initial := ir_Initial i; ir_Delta := ir_Delta i;
             ir_TtlSeconds := ir_TtlSeconds i; ir_Timeout := 0; ir_ExpiresAt := ir_ExpiresAt i |} /\
  watchRequest_Decode (watchRequest_Encode w) = Ret {| wr_Prefix := wire_key (wr_Prefix w); wr_Timeout := 0 |} /\
  enumerateRequest_Decode (enumerateRequest_Encode e)
    = Ret {| en_Prefix := wire_key (en_Prefix e); en_Ordered := en_Ordered e; en_Reverse := en_Reverse e;
             en_Timeout := 0 |} /\
  batchRequest_Decode (batchRequest_Encode b)
    = Ret {| br_Records := wire_record <$> br_Records b; br_Timeout := 0 |}.
Proof.
  intros Hk Hr Hik Hi Hd Ht He Hw Hen Hb.
  split; [unfold keyRequest_Decode, keyRequest_Encode, asMap|].
  { rewrite as_map. cbn [mbind outcome_bind]. read_map. by rewrite decode_encode_key. }
  split; [by apply recordRequest_roundtrip|].
  split; [unfold incrementRequest_Decode, incrementRequest_Encode, asMap|].
  { rewrite as_map. cbn [mbind outcome_bind]. read_map. by rewrite decode_encode_key. }
  split; [unfold watchRequest_Decode, watchRequest_Encode, asMap|].
  { rewrite as_map. cbn [mbind outcome_bind]. read_map. by rewrite decode_encode_key. }
  split; [unfold enumerateRequest_Decode, enumerateRequest_Encode, asMap|].
  { rewrite as_map. cbn [mbind outcome_bind]. read_map. by rewrite decode_encode_key. }
  unfold batchRequest_Decode, batchRequest_Encode, asMap.
  rewrite as_map. cbn [mbind outcome_bind]. read_map. by rewrite decode_records_encode.
Qed.

(** The widths of a head as the storage builds it. *)
Definition head_width (h : Head) : Prop :=
  is_uint64 (hd_Version h) /\ is_uint64 (hd_ExpiresAt h) /\ is_int64 (hd_DiskSize h) /\ is_int32 (hd_Metadata h).

(** Responses survive the wire. A record, found or not, a status, a counter response and
    a watch event are decoded by the client to what the server encoded, versions and expiries
    at full unsigned 64-bit range included. *)
Theorem responses_roundtrip (r : Rec) (s : Status) (i : IncrementResponse) (e : WatchEvent) :
  key_width (rec_Key r) -> (forall h, rec_Head r = Some h -> head_width h) ->
  is_int64 (Previous i) -> is_int64 (Current i) -> is_uint64 (ir_Version i) ->
  key_width (we_Key e) -> is_uint64 (we_Version e) ->
  record_Decode (record_Encode r)
    = Ret {| rec_Key := wire_key (rec_Key r); rec_Head := rec_Head r; rec_Value := rec_Value r |} /\
  status_Decode (status_Encode s) = Ret s /\
  incrementResponse_Decode (incrementResponse_Encode i) = Ret i /\
  watchEvent_Decode (watchEvent_Encode e)
    = Ret (wire_key (we_Key e), we_Value e, we_Version e, change_code (we_Type e)) /\
  change_of (change_code (we_Type e)) = Some (we_Type e).
Proof.
  intros Hk Hh Hp Hc Hv Hwk Hwv.
  split; [unfold record_Decode, record_Encode, asMap|].
  { rewrite as_map. cbn [mbind outcome_bind]. destruct r as [k [h|] v]; cbn [rec_Key rec_Head rec_Value] in *.
    - destruct (Hh h eq_refl) as (H1' & H2' & H3' & H4'). read_map. rewrite decode_encode_key by done.
      rewrite !wrap64_int64, !wrap64_small, int32_small by done. by destruct h.
    - read_map. by rewrite decode_encode_key. }
  split; [unfold status_Decode, status_Encode, asMap; rewrite as_map; cbn [mbind outcome_bind]; read_map; by destruct s|].
  split; [unfold incrementResponse_Decode, incrementResponse_Encode, asMap|].
  { rewrite as_map. cbn [mbind outcome_bind]. read_map. rewrite wrap64_int64, wrap64_small by done. by destruct i. }
  split; [unfold watchEvent_Decode, watchEvent_Encode, asMap|by destruct (we_Type e)].
  rewrite as_map. cbn [mbind outcome_bind].
  assert (is_int64 (change_code (we_Type e))) by (destruct (we_Type e); unfold is_int64; cbn; lia).
  read_map. rewrite decode_encode_key, wrap64_int64, wrap64_small, int32_small by (done || destruct (we_Type e); unfold is_int32; cbn; lia).
  done.
Qed.

End Lemmas.

(** ** A concrete map *)

Inductive wval : Type :=
| WRaw (b : bytes)
| WLong (z : Z)
| WBool (b : bool)
| WMapV (m : list (bytes * wval))
| WListV (l : list wval).

Fixpoint assoc (m : list (bytes * wval)) (k : bytes) : option wval :=
  match m with [] => None | (k', v) :: r => if bool_decide (k' = k) then Some v else assoc r k end.

Definition flat_maps : ValueMaps := {|
  WVal := wval;
  WMap := list (bytes * wval);
  EmptyMap := [];
  MPut := fun m k v => (k, v) :: m;
  VRaw := WRaw;
  VLong := WLong;
  VBoolean := WBool;
  VMap := WMapV;
  VList := WListV;
  AsMap := fun v => match v with WMapV m => Some m | _ => None end;
  GetRaw := fun m k => match assoc m k with Some (WRaw b) => b | _ => [] end;
  GetLong := fun m k => match assoc m k with Some (WLong z) => z | _ => 0 end;
  GetBool := fun m k => match assoc m k with Some (WBool b) => b | _ => false end;
  GetMap := fun m k => match assoc m k with Some (WMapV x) => Some x | _ => None end;
  GetList := fun m k => match assoc m k with Some (WListV x) => Some x | _ => None end
|}.

Lemma flat_maps_laws : @ValueMapLaws flat_maps.
Proof.
  split; cbn; intros; try done; try (rewrite bool_decide_eq_true_2 by done; done);
    by rewrite H.
Qed.

Definition flat_text : @TextMaps flat_maps :=
  @Build_TextMaps flat_maps WRaw (fun m k => match assoc m k with Some (WRaw b) => b | _ => [] end).

(** ** Witnesses *)

Definition wire_demo_key : Key := {|
  MajorKey := str "t"; RegionName := str "r"; MinorKey := str "m";
  Timestamp := Some {| MostSigBits := -5; LeastSigBits := 9 |} |}.

Definition wire_demo_record : RecordRequest := {|
  rr_Key := Some wire_demo_key; rr_Value := str "v"; rr_Metadata := -1; rr_TtlSeconds := 3;
  rr_CompareAndSet := true; rr_Version := 2 ^ 64 - 1; rr_Timeout := 7; rr_ExpiresAt := -4 |}.

Lemma wire_demo_width : record_width wire_demo_record.
Proof. unfold record_width, key_width, is_int32, is_int64, is_uint64. cbn. lia. Qed.

Lemma requests_roundtrip_witness :
  @recordRequest_Decode flat_maps (@recordRequest_Encode flat_maps wire_demo_record) = Ret (wire_record wire_demo_record).
Proof.
  refine (proj1 (proj2 (@requests_roundtrip flat_maps flat_maps_laws
    {| kr_Key := Some wire_demo_key; kr_HeadOnly := true; kr_Timeout := 1 |} wire_demo_record
    {| ir_Key := None; ir_Initial := 1; ir_Delta := -2; ir_TtlSeconds := 3; ir_Timeout := 4; ir_ExpiresAt := 5 |}
    {| wr_Prefix := None; wr_Timeout := 0 |}
    {| en_Prefix := None; en_Ordered := true; en_Reverse := false; en_Timeout := 0 |}
    {| br_Records := [wire_demo_record]; br_Timeout := 0 |} _ wire_demo_width _ _ _ _ _ _ _ _))).
  all: try (unfold key_width, is_int64; cbn; lia).
  constructor; [exact wire_demo_width|constructor].
Defined.

Lemma responses_roundtrip_witness :
  @status_Decode flat_maps (@status_Encode flat_maps {| Updated := true |}) = Ret {| Updated := true |}.
Proof.
  refine (proj1 (proj2 (@responses_roundtrip flat_maps flat_maps_laws
    (RecordHead (Some wire_demo_key) (2 ^ 64 - 1) 5 6 7) {| Updated := true |}
    {| Previous := 1; Current := 2; ir_Version := 3 |}
    {| we_Key := None; we_Value := []; we_Version := 4; we_Type := WATCH_DELETE |} _ _ _ _ _ _ _))).
  all: try (unfold key_width, is_int64, is_uint64; cbn; lia).
  intros h [= <-]. unfold head_width, is_int64, is_int32, is_uint64. cbn. lia.
Defined.
