(* ===== verification/DataPlane.v ===== *)
(** * The data-plane handlers ([pkg/server/vrpc_data.go])

    Every kv.* function as it is registered: the authorization guard, the redirect of writes
    to the leader, the call of the service or of the storage, and the two streams. A stream is
    the list of values put on its channel; a client that goes away after [n] values is the
    budget [Some n] (the context is cancelled then), [None] is one that stays. *)

From S2P Require Import Prelude Pb Keys Engine Storage StorageSpec StorageReads StorageProps ScanProps Value Service Iam PolicyService.

Definition NotLeaderPrefix : bytes := str "not-leader:".

(** [redirectable]: a not-leader error becomes an unavailable error naming the leader. *)
Definition redirectable {Resp} (r : result Resp) : result Resp :=
  match r with
  | Fail e =>
      match AsNotLeader e with
      | Some (_, _, endpoint) => Fail (RpcError CodeUnavailable (NotLeaderPrefix ++ endpoint))
      | None => Fail e
      end
  | r => r
  end.

(** [areaField]: the depth of an enumeration, [None] for a full scan. *)
Definition areaField (key : option Key) : option Field :=
  match key with
  | None => None
  | Some key =>
      if 0 <? len (MinorKey key) then Some MinorKeyField
      else if 0 <? len (RegionName key) then Some RegionNameField
      else if 0 <? len (MajorKey key) then Some MajorKeyField
      else None
  end.

(** The channel of a stream and how many more values its reader takes. *)
Record Chan (A : Type) : Type := { co_out : list A; co_left : option nat }.
Arguments co_out {A} _.
Arguments co_left {A} _.

Definition ctx_done : error := ErrNew (str "context canceled").

(** [chanBlockSender.Send]: one value after the other until the context is done. *)
Fixpoint send_records (recs : list Rec) (c : Chan Rec) : option error * Chan Rec :=
  match recs with
  | [] => (None, c)
  | r :: rest =>
      match co_left c with
      | Some O => (Some ctx_done, c)
      | Some (S n) => send_records rest {| co_out := co_out c ++ [r]; co_left := Some n |}
      | None => send_records rest {| co_out := co_out c ++ [r]; co_left := None |}
      end
  end.

Definition chanBlockSender : BlockSender (Chan Rec) := fun block c => send_records (blk_Record block) c.

Definition take_opt {A} (n : option nat) (l : list A) : list A :=
  match n with Some n => take n l | None => l end.

(** The comparison of an ordered enumeration. *)
Definition minor_of (r : Rec) : bytes := match rec_Key r with Some k => MinorKey k | None => [] end.

Definition minor_le (rev : bool) (a b : Rec) : Prop :=
  if rev then bytes_le (minor_of b) (minor_of a) else bytes_le (minor_of a) (minor_of b).

#[global] Instance minor_le_dec rev : RelDecision (minor_le rev).
Proof. intros a b. unfold minor_le. destruct rev; apply _. Defined.

#[global] Instance minor_le_total rev : Total (minor_le rev).
Proof. intros a b. unfold minor_le. destruct rev; apply (total bytes_le). Qed.

#[global] Instance minor_le_trans rev : Transitive (minor_le rev).
Proof. intros a b c. unfold minor_le. destruct rev; intros; by etrans. Qed.

Section Handlers.
Context `{UuidPkg} `{Badger} `{StorePkg} `{ValuePkg} `{!IamStructs}.
Context {W : Type} `{!HasStorage W}.

(** The beans the service is built from: the replicator, nil when not wired in. *)
Variable replicator : option (Replicator W).

(** A call: the principal of the connection and the clocks at which the policy is evaluated
    and the request is applied. *)
Record Call : Type := { principal : bytes; clock : Z; clock' : Z }.

Definition guarded {Req Resp} (c : Call) (p : option PolicyService) (perm : bytes)
    (keyOf : Req -> option Key) (fn : W -> Req -> result Resp * W) (w : W) (req : Req) :
    result Resp * W * option PolicyService :=
  guardKey (clock c) (get_storage w) p (principal c) perm keyOf fn w req.

Definition redirected {Req Resp} (fn : W -> Req -> result Resp * W) : W -> Req -> result Resp * W :=
  fun w req => let '(r, w') := fn w req in (redirectable r, w').

Definition kv_get (c : Call) (p : option PolicyService) (w : W) (req : KeyRequest) :=
  guarded c p PermRecordsGet kr_Key (fun w r => (svc_Get (clock' c) w r, w)) w req.

Definition kv_getrecent (c : Call) (p : option PolicyService) (w : W) (req : KeyRequest) :=
  guarded c p PermRecordsGet kr_Key (fun w r => (svc_GetRecent (clock' c) w r, w)) w req.

Definition kv_put (c : Call) (p : option PolicyService) (w : W) (req : RecordRequest) :=
  guarded c p PermRecordsPut rr_Key (redirected (svc_Put replicator (clock c) (clock' c))) w req.

Definition kv_touch (c : Call) (p : option PolicyService) (w : W) (req : RecordRequest) :=
  guarded c p PermRecordsPut rr_Key (redirected (svc_Touch replicator (clock c) (clock' c))) w req.

Definition kv_remove (c : Call) (p : option PolicyService) (w : W) (req : KeyRequest) :=
  guarded c p PermRecordsDelete kr_Key (redirected (svc_Remove replicator)) w req.

Definition kv_increment (c : Call) (p : option PolicyService) (w : W) (req : IncrementRequest) :=
  guarded c p PermRecordsIncrement ir_Key (redirected (svc_Increment replicator (clock c) (clock' c))) w req.

Definition guardedBatch (c : Call) (p : option PolicyService) (w : W) (req : BatchRequest) :
    result Status * W * option PolicyService :=
  match batchScope req with
  | None => (Fail (RpcError CodeInvalidArgument (str "batch must target a single tenant and region")), w, p)
  | Some (tenant, region) =>
      match Authorize (clock c) (get_storage w) p (principal c) PermRecordsBatch tenant region with
      | (Ret _, p') => (redirected (svc_Batch replicator (clock c) (clock' c)) w req, p')
      | (Fail e, p') => (Fail e, w, p')
      | (Panic, p') => (Panic, w, p')
      end
  end.

(** ** Streams *)

Definition enumerate_scan {S} (now : Z) (st : KeyValueStorageCtx) (req : EnumerateRequest)
    (send : BlockSender S) (s : S) : result unit * S :=
  match areaField (en_Prefix req) with
  | Some field =>
      GetArea now st {| kr_Key := en_Prefix req; kr_HeadOnly := false; kr_Timeout := 0 |} field send s
  | None => Scan now st {| sc_HeadOnly := false |} send s
  end.

(** What the goroutine of [enumerate] puts on the channel; a scan error is only logged. *)
Definition enumerate_records (now : Z) (st : KeyValueStorageCtx) (req : EnumerateRequest)
    (budget : option nat) : result (list Rec) :=
  if negb (en_Ordered req) then
    match enumerate_scan now st req chanBlockSender {| co_out := []; co_left := budget |} with
    | (Panic, _) => Panic
    | (_, c) => Ret (co_out c)
    end
  else
    match enumerate_scan now st req collectSender [] with
    | (Panic, _) => Panic
    | (Fail _, _) => Ret []
    | (Ret _, records) => Ret (take_opt budget (merge_sort (minor_le (en_Reverse req)) records))
    end.

Definition enumerate (c : Call) (p : option PolicyService) (w : W) (req : EnumerateRequest)
    (budget : option nat) : result (list Rec) * option PolicyService :=
  let '(tenant, region) := scopeOf (en_Prefix req) in
  match Authorize (clock c) (get_storage w) p (principal c) PermRecordsEnumerate tenant region with
  | (Ret _, p') => (enumerate_records (clock' c) (get_storage w) req budget, p')
  | (Fail e, p') => (Fail e, p')
  | (Panic, p') => (Panic, p')
  end.

(** The event of the data plane for an event of the hub; an undecodable key is skipped. *)
Definition watch_event (ev : HubEvent) : result (option WatchEvent) :=
  match DecodeKey (he_Key ev) with
  | Ret key =>
      Ret (Some {| we_Key := Some key; we_Value := he_Value ev; we_Version := wrap64 (he_Version ev);
                   we_Type := match he_Type ev with WatchSet => WATCH_SET | WatchDelete => WATCH_DELETE end |})
  | Fail _ => Ret None
  | Panic => Panic
  end.

Fixpoint watch_events (evs : list HubEvent) : result (list WatchEvent) :=
  match evs with
  | [] => Ret []
  | ev :: rest =>
      e ← watch_event ev;
      es ← watch_events rest;
      Ret (match e with Some e => e :: es | None => es end)
  end.

(** [watch]: the hub calls back for the events under the prefix, of which [evs] are all. *)
Definition watch (c : Call) (p : option PolicyService) (w : W) (req : WatchRequest) (evs : list HubEvent) :
    result (list WatchEvent) * option PolicyService :=
  let '(tenant, region) := scopeOf (wr_Prefix req) in
  match Authorize (clock c) (get_storage w) p (principal c) PermRecordsWatch tenant region with
  | (Ret _, p') =>
      (prefix ← watchPrefix (wr_Prefix req);
       watch_events (filter (fun ev => HasPrefix (he_Key ev) prefix = true) evs), p')
  | (Fail e, p') => (Fail e, p')
  | (Panic, p') => (Panic, p')
  end.

End Handlers.
