(* ===== verification/DataPlaneProps.v ===== *)
(** * Properties of the data plane

    Streams stay inside the scope that was authorized, ordered enumerations are sorted
    permutations of the scan, batches have one scope, and the gap left by an enumeration
    without a prefix. *)

From S2P Require Import Prelude Pb Keys Engine Storage StorageSpec StorageReads StorageProps ScanProps Value Service Iam IamProps PolicyService DataPlane.

(** ** The channel sender *)

Lemma send_records_spec recs c :
  send_records recs c =
  (match co_left c with
   | Some n => if (length recs <=? n)%nat then None else Some ctx_done
   | None => None
   end,
   {| co_out := co_out c ++ take_opt (co_left c) recs;
      co_left := match co_left c with Some n => Some (n - length recs)%nat | None => None end |}).
Proof.
  revert c. induction recs as [|r recs IH]; intros [out left]; cbn [send_records co_left co_out].
  { destruct left as [n|]; cbn [take_opt length]; rewrite ?take_nil, app_nil_r; [|done].
    by rewrite Nat.sub_0_r. }
  destruct left as [[|n]|]; cbn [take_opt]; [by rewrite app_nil_r| |].
  - rewrite IH. cbn [co_left co_out take_opt take length]. by rewrite <- app_assoc.
  - rewrite IH. cbn [co_left co_out take_opt]. by rewrite <- app_assoc.
Qed.

(** Blocks sent on the channel: the records in order, as many as the reader takes. *)
Lemma send_all_chan bs c :
  co_out (snd (send_all chanBlockSender bs c)) = co_out c ++ take_opt (co_left c) (concat (blk_Record <$> bs)).
Proof.
  revert c. induction bs as [|b bs IH]; intros c; cbn [send_all].
  { cbn. destruct (co_left c); cbn; by rewrite ?take_nil, app_nil_r. }
  unfold chanBlockSender at 1. rewrite send_records_spec. rewrite fmap_cons. cbn [concat].
  destruct (co_left c) as [n|]; cbn [take_opt].
  - destruct (Nat.leb_spec (length (blk_Record b)) n) as [Hle|Hgt].
    + rewrite IH. cbn [co_out co_left take_opt]. rewrite take_app, (take_ge (blk_Record b)) by done.
      by rewrite <- app_assoc.
    + cbn [snd co_out]. rewrite take_app_le by lia. done.
  - rewrite IH. cbn [co_out co_left take_opt]. by rewrite <- app_assoc.
Qed.

Section Props.
Context `{UuidPkg} `{!UuidLaws} `{Badger} `{!BadgerSpec} `{StorePkg} `{!StoreLaws} `{ValuePkg} `{!IamStructs}.
Context {W : Type} `{!HasStorage W}.

(** ** What an enumeration scans *)

Definition enumerate_options (req : EnumerateRequest) : result (IteratorOptions * option bytes) :=
  match areaField (en_Prefix req), en_Prefix req with
  | Some f, Some key =>
      p ← EncodeKeyPrefix key f; Ret ({| it_Reverse := false; it_Prefix := p |}, Some p)
  | _, _ => Ret ({| it_Reverse := false; it_Prefix := [] |}, None)
  end.

(** A prefix inferred from the set fields never asks for a TimeUUID. *)
Lemma areaField_prefix key f :
  areaField (Some key) = Some f -> exists p, enc_prefix key f = Some p /\ EncodeKeyPrefix key f = Ret p.
Proof.
  intros Hf. pose proof (EncodeKeyPrefix_layout key f) as HL. unfold areaField in Hf.
  repeat (match type of Hf with context [if ?b then _ else _] => destruct b end; [simplify_eq; cbn in *; eauto|]).
  done.
Qed.

(** The records an enumeration selects. *)
Definition enumerated (now : Z) (st : KeyValueStorageCtx) (req : EnumerateRequest) : list Rec :=
  match enumerate_options req with
  | Ret (o, seek) => yields now false (txn_Iterate (NewTransaction (db st) false) o seek)
  | _ => []
  end.

Lemma enumerate_scan_spec {S} now st req (send : BlockSender S) s :
  BadgerReliable -> reachable st ->
  enumerate_scan now st req send s = send_all send (blocks_of [] (enumerated now st req)) s.
Proof.
  intros HR Hreach. unfold enumerate_scan, enumerated, enumerate_options.
  destruct (areaField (en_Prefix req)) as [f|] eqn:Ef.
  - destruct (en_Prefix req) as [key|]; [|done].
    destruct (areaField_prefix key f Ef) as (p & _ & Ep).
    unfold GetArea. cbn [kr_Key kr_HeadOnly]. rewrite Ep. cbn [mbind outcome_bind].
    apply stream_loop_spec, items_no_panic; [done|by apply reachable_wf].
  - unfold Scan. cbn [sc_HeadOnly].
    apply stream_loop_spec, items_no_panic; [done|by apply reachable_wf].
Qed.

Lemma enumerate_records_spec now st req budget :
  BadgerReliable -> reachable st ->
  enumerate_records now st req budget =
  Ret (take_opt budget (if en_Ordered req then merge_sort (minor_le (en_Reverse req)) (enumerated now st req)
                        else enumerated now st req)).
Proof.
  intros HR Hreach. unfold enumerate_records. destruct (en_Ordered req); cbn [negb].
  - rewrite enumerate_scan_spec by done. rewrite send_all_collect, concat_blocks_of. done.
  - rewrite enumerate_scan_spec by done.
    pose proof (send_all_chan (blocks_of [] (enumerated now st req)) {| co_out := []; co_left := budget |}) as HC.
    assert (fst (send_all chanBlockSender (blocks_of [] (enumerated now st req)) {| co_out := []; co_left := budget |})
            <> Panic) as HP.
    { generalize (blocks_of [] (enumerated now st req)), {| co_out := @nil Rec; co_left := budget |}.
      intros bs. induction bs as [|b bs IH]; intros c; cbn [send_all]; [done|].
      destruct (chanBlockSender b c) as [[e|] c']; [done|apply IH]. }
    destruct (send_all chanBlockSender _ _) as [[[]|e|] c]; cbn [fst snd] in *; [| |done];
      rewrite HC; cbn [co_out co_left]; by rewrite concat_blocks_of.
Qed.

Lemma elem_of_enumerated now st req r :
  BadgerReliable -> reachable st -> (forall key, en_Prefix req = Some key -> key_ok key = true) ->
  r ∈ enumerated now st req ->
  exists key e, key_ok key = true /\ shows false r key e /\ contents st !! enc_key key = Some e /\ live now e = true /\
    (forall f p, areaField (en_Prefix req) = Some f -> en_Prefix req = Some p -> agree_upto f p key).
Proof.
  intros HR Hreach Hok Hr. unfold enumerated, enumerate_options in Hr.
  destruct (areaField (en_Prefix req)) as [f|] eqn:Ef.
  - destruct (en_Prefix req) as [p|] eqn:Ep; [|done].
    destruct (areaField_prefix p f Ef) as (pre & Hpre & Epre). rewrite Epre in Hr. cbn [mbind outcome_bind] in Hr.
    apply elem_of_yields in Hr as (key & e & Hk & Hs & Hl & Hlv & Hp & _); [|done|by apply reachable_wf].
    exists key, e. repeat split; try done. intros f' p' [= <-] [= <-].
    by apply (enc_prefix_agree p key f pre (Hok p eq_refl) Hk Hpre).
  - apply elem_of_yields in Hr as (key & e & Hk & Hs & Hl & Hlv & Hp & _); [|done|by apply reachable_wf].
    by exists key, e.
Qed.

(** Agreement down to the inferred depth is agreement on the set scope fields. *)
Lemma area_scope p key f :
  areaField (Some p) = Some f -> agree_upto f p key -> MajorKey p = MajorKey key /\
  (RegionName p <> [] -> RegionName p = RegionName key).
Proof.
  unfold areaField. intros Hf Ha.
  assert (0 <? len (RegionName p) = false -> RegionName p = []) as Hnil.
  { destruct (RegionName p) as [|x l]; [done|]. rewrite len_cons. pose proof (len_nonneg l). intros E%Z.ltb_ge. lia. }
  repeat (match type of Hf with context [if ?b then _ else _] => destruct b eqn:? end; [simplify_eq; cbn in Ha|]); [| | |done].
  - destruct Ha as (? & ? & ?). done.
  - destruct Ha as (? & ?). done.
  - split; [done|]. intros HN. by destruct HN; apply Hnil.
Qed.

(** ** Properties *)


(** An ordered enumeration is a sorted permutation. A client that stays connected receives
    exactly the records of the unordered enumeration, sorted by minor key in byte order, or in
    the reverse order when asked. *)
Theorem enumerate_ordered (now : Z) (st : KeyValueStorageCtx) (prefix : option Key) (rev : bool) (tmo : Z) :
  BadgerReliable -> reachable st ->
  exists recs all,
    enumerate_records now st {| en_Prefix := prefix; en_Ordered := true; en_Reverse := rev; en_Timeout := tmo |} None
      = Ret recs /\
    enumerate_records now st {| en_Prefix := prefix; en_Ordered := false; en_Reverse := rev; en_Timeout := tmo |} None
      = Ret all /\
    Permutation recs all /\ StronglySorted (minor_le rev) recs.
Proof.
  intros HR Hreach. rewrite !enumerate_records_spec by done. cbn [en_Ordered en_Reverse take_opt].
  eexists _, _. split; [done|]. split; [done|]. split; [apply merge_sort_Permutation|].
  apply StronglySorted_merge_sort; apply _.
Qed.

(** A batch that is let through has one scope and is authorized for it. If [guardedBatch]
    changes the node, every record of the batch addresses the same tenant and region and the
    snapshot in force grants the principal the batch permission there. *)
Theorem guardedBatch_single_scope (replicator : option (Replicator W)) (c : Call) (t : PolicyService)
    (w : W) (req : BatchRequest) (r : result Status) (w' : W) (p' : option PolicyService) :
  ps_Enabled t = true -> guardedBatch replicator c (Some t) w req = (r, w', p') -> w' <> w ->
  exists tenant region s,
    Forall (fun x => scopeOf (rr_Key x) = (tenant, region)) (br_Records req) /\
    ps_snap (refresh (clock c) (get_storage w) t) = Some s /\
    Snapshot_Authorize s (principal c) (EffectivePermission PermRecordsBatch tenant) tenant region = true.
Proof.
  intros He HG Hne. unfold guardedBatch in HG.
  destruct (batchScope req) as [[tenant region]|] eqn:Eb; [|by simplify_eq].
  unfold Authorize in HG. rewrite He in HG. cbn [negb] in HG.
  destruct (ps_snap (refresh (clock c) (get_storage w) t)) as [s|] eqn:Es; [|by simplify_eq].
  destruct (Snapshot_Authorize s (principal c) _ tenant region) eqn:EA; [|by simplify_eq].
  exists tenant, region, s. split; [|done]. unfold batchScope in Eb.
  destruct (br_Records req) as [|x xs]; [constructor|].
  destruct (forallb _ xs) eqn:EF; [|done]. injection Eb as Eb. constructor; [done|].
  apply Forall_forall. intros y Hy. rewrite forallb_forall in EF. apply list_elem_of_In in Hy.
  specialize (EF y Hy). apply bool_decide_eq_true_1 in EF. by rewrite EF.
Qed.

(** An enumeration without a prefix reaches the system tenant. A principal that holds the
    plain enumerate permission at instance scope, but is refused every operation on the system
    tenant, is admitted to an enumeration with no prefix and receives the live records of the
    system tenant. *)
Theorem unprefixed_enumerate_reveals_system (c : Call) (t : PolicyService) (w : W) (s : Snapshot)
    (key : Key) (e : entry) (tmo : Z) :
  BadgerReliable -> reachable (get_storage w) ->
  ps_Enabled t = true -> ps_dirty t = false -> ps_snap t = Some s ->
  Snapshot_Authorize s (principal c) PermRecordsEnumerate [] [] = true ->
  Snapshot_Authorize s (principal c) (EffectivePermission PermRecordsEnumerate SystemTenant) SystemTenant (RegionName key) = false ->
  key_ok key = true -> MajorKey key = SystemTenant ->
  contents (get_storage w) !! enc_key key = Some e -> live (clock' c) e = true ->
  let whole := {| en_Prefix := None; en_Ordered := false; en_Reverse := false; en_Timeout := tmo |} in
  let only := {| en_Prefix := Some key; en_Ordered := false; en_Reverse := false; en_Timeout := tmo |} in
  fst (enumerate c (Some t) w only None) = Fail denied /\
  exists recs r, fst (enumerate c (Some t) w whole None) = Ret recs /\ r ∈ recs /\
    rec_Key r = Some key /\ rec_Value r = e_value e.
Proof.
  intros HR Hreach He Hd Hs Hyes Hno Hok Hm Hl Hlv whole only.
  unfold enumerate, Authorize, refresh. rewrite He, Hd. cbn [negb]. rewrite Hs.
  cbn [only whole en_Prefix scopeOf]. rewrite Hm, Hno. split; [done|].
  assert (EffectivePermission PermRecordsEnumerate [] = PermRecordsEnumerate) as -> by done.
  rewrite Hyes. cbn [fst]. rewrite enumerate_records_spec by done. cbn [take_opt en_Ordered].
  destruct (yields_elem_of (clock' c) false (get_storage w) {| it_Reverse := false; it_Prefix := [] |} None key e)
    as (r & [size ->] & Hin); try done; [apply prefix_nil|].
  eexists _, _. split; [done|]. split; [exact Hin|]. done.
Qed.

End Props.

(** ** Witnesses *)

Section Witness.
#[local] Existing Instances flat_uuid flat_uuid_laws mem_badger mem_spec flat_store flat_store_laws
  flat_value flat_iam_structs.

Definition demo_region : Key :=
  {| MajorKey := str "acme"; RegionName := str "USERS"; MinorKey := []; Timestamp := None |}.

Definition demo_enumerate (prefix : option Key) : EnumerateRequest :=
  {| en_Prefix := prefix; en_Ordered := false; en_Reverse := false; en_Timeout := 0 |}.


Lemma enumerate_ordered_witness :
  exists recs all,
    enumerate_records 120 demo_stored {| en_Prefix := None; en_Ordered := true; en_Reverse := true; en_Timeout := 0 |} None = Ret recs /\
    enumerate_records 120 demo_stored {| en_Prefix := None; en_Ordered := false; en_Reverse := true; en_Timeout := 0 |} None = Ret all /\
    Permutation recs all /\ StronglySorted (minor_le true) recs.
Proof. exact (enumerate_ordered 120 demo_stored None true 0 mem_reliable demo_reachable). Defined.

(** Bob may edit the region of the demonstration batch. *)
Definition demo_editor : PolicyService :=
  {| ps_Enabled := true; ps_snap := Some (demo_snapshot (str "r/acme/USERS")); ps_dirty := false |}.

Definition demo_call : Call := {| principal := demo_bob; clock := 100; clock' := 100 |}.

Lemma guardedBatch_single_scope_witness :
  exists tenant region s,
    Forall (fun x => scopeOf (rr_Key x) = (tenant, region)) (br_Records demo_batch) /\
    ps_snap (refresh 100 demo_storage demo_editor) = Some s /\
    Snapshot_Authorize s demo_bob (EffectivePermission PermRecordsBatch tenant) tenant region = true.
Proof.
  refine (guardedBatch_single_scope None demo_call demo_editor demo_storage demo_batch
    (fst (fst (guardedBatch None demo_call (Some demo_editor) demo_storage demo_batch)))
    (snd (fst (guardedBatch None demo_call (Some demo_editor) demo_storage demo_batch)))
    (snd (guardedBatch None demo_call (Some demo_editor) demo_storage demo_batch)) eq_refl _ _).
  - destruct (guardedBatch None demo_call (Some demo_editor) demo_storage demo_batch) as [[r w] p]. reflexivity.
  - intros E. apply (f_equal (fun st => length <$> hub st)) in E. vm_compute in E. discriminate.
Defined.

(** Bob may enumerate at instance scope, but holds no permission on the system tenant. *)
Definition demo_viewer : PolicyService :=
  {| ps_Enabled := true; ps_snap := Some (demo_snapshot (str "i")); ps_dirty := false |}.

Definition demo_user_record : RecordRequest := {|
  rr_Key := Some (iam_Key (str "user/root")); rr_Value := str "secret"; rr_Metadata := 0; rr_TtlSeconds := 0;
  rr_CompareAndSet := false; rr_Version := 0; rr_Timeout := 0; rr_ExpiresAt := 0 |}.

Definition demo_system : KeyValueStorageCtx := snd (Put 100 demo_storage demo_user_record 3).

Lemma demo_system_reachable : reachable demo_system.
Proof.
  apply (reach_write 100 demo_storage (WPut demo_user_record 3)).
  - split; [reflexivity|]. unfold is_int64, is_uint64. simpl. lia.
  - apply reach_empty. exact (fmap_empty (M := gmap bytes) decode_stored).
Qed.

Lemma unprefixed_enumerate_reveals_system_witness :
  exists recs r, fst (enumerate demo_call (Some demo_viewer) demo_system (demo_enumerate None) None) = Ret recs /\
    r ∈ recs /\ rec_Key r = Some (iam_Key (str "user/root")) /\ rec_Value r = str "secret".
Proof.
  refine (proj2 (unprefixed_enumerate_reveals_system demo_call demo_viewer demo_system (demo_snapshot (str "i"))
    (iam_Key (str "user/root")) {| e_version := 3; e_expires := 0; e_value := str "secret"; e_meta := 0 |} 0
    mem_reliable demo_system_reachable eq_refl eq_refl eq_refl _ _ _ eq_refl _ _));
    vm_compute; reflexivity.
Defined.

End Witness.
