(* ===== verification/Wire.v ===== *)
(** * The data plane over value-rpc ([pkg/server/vrpc_data.go])

    The functions that [VrpcDataService] registers on the value-rpc server, with their codecs and
    guards, and the client's calls. The server and the client of value-rpc are class parameters: a
    function registered under a free name decodes its argument, runs its handler and encodes the
    answer; a client of a server calls it with the encoded request and decodes what comes back. *)

From S2P Require Import Prelude Pb Keys Engine Storage StorageSpec StorageReads StorageProps ScanProps Value Service Iam PolicyService Codecs DataPlane.

(** ** [go.arpabet.com/value-rpc] *)

(** A handler: the call, the state of the node, the request. *)
Definition handler (St Req Resp : Type) : Type := Call -> St -> Req -> result Resp * St.

(** The codecs around a handler. *)
Definition unary_wire `{ValueMaps} {St Req Resp} (dec : WVal -> result Req) (enc : Resp -> WVal) (h : handler St Req Resp) : handler St WVal WVal :=
  fun c st v => match dec v with
                | Ret req => let '(r, st') := h c st req in (x ← r; Ret (enc x), st')
                | Fail e => (Fail e, st)
                | Panic => (Panic, st)
                end.

Definition stream_wire `{ValueMaps} {St Req Item} (dec : WVal -> result Req) (enc : Item -> WVal) (h : handler St Req (list Item)) : handler St WVal (list WVal) :=
  fun c st v => match dec v with
                | Ret req => let '(r, st') := h c st req in (l ← r; Ret (map enc l), st')
                | Fail e => (Fail e, st)
                | Panic => (Panic, st)
                end.

(** What a typed stream delivers: the items up to the first that does not decode, and that error. *)
Fixpoint decode_until `{ValueMaps} {Item} (dec : WVal -> result Item) (vs : list WVal) : list Item * option error :=
  match vs with
  | [] => ([], None)
  | v :: rest =>
      match dec v with
      | Ret x => let '(l, e) := decode_until dec rest in (x :: l, e)
      | Fail e => ([], Some e)
      | Panic => ([], None)
      end
  end.

(** [Auth] is the type of authenticators. [invoke] and [open_stream] are what a peer observes. *)
Class ValueRpc `{ValueMaps} (St Auth : Type) : Type := {
  Server : Type;
  SetAuthenticator : Server -> Auth -> Server;
  AddUnary : forall {Req Resp : Type}, Server -> bytes -> (WVal -> result Req) -> (Resp -> WVal) -> handler St Req Resp -> option error * Server;
  AddOutgoingStreamTyped : forall {Req Item : Type}, Server -> bytes -> (WVal -> result Req) -> (Item -> WVal) -> handler St Req (list Item) -> option error * Server;
  authenticator : Server -> option Auth;
  functions : Server -> list bytes;
  invoke : Server -> bytes -> handler St WVal WVal;
  open_stream : Server -> bytes -> handler St WVal (list WVal);
  Client : Type;
  connected : Client -> Server -> Call -> Prop;
  CallUnary : forall {Req Resp : Type}, Client -> bytes -> Req -> (Req -> WVal) -> (WVal -> result Resp) -> St -> result Resp * St;
  GetStreamTyped : forall {Req Item : Type}, Client -> bytes -> Req -> (Req -> WVal) -> (WVal -> result Item) -> St -> result (list Item * option error) * St
}.

(** A server that differs from [s] only in the function [n]. *)
Definition adds `{ValueRpc} (s s' : Server) (n : bytes) : Prop :=
  functions s' = n :: functions s /\ authenticator s' = authenticator s /\
  forall n', n' <> n -> invoke s' n' = invoke s n' /\ open_stream s' n' = open_stream s n'.

Class ValueRpcLaws `{ValueRpc} : Prop := {
  set_auth : forall s a, authenticator (SetAuthenticator s a) = Some a /\ functions (SetAuthenticator s a) = functions s;
  add_unary : forall {Req Resp : Type} s n dec enc (h : handler St Req Resp), n ∉ functions s ->
    let '(e, s') := AddUnary s n dec enc h in e = None /\ adds s s' n /\ invoke s' n = unary_wire dec enc h;
  add_stream : forall {Req Item : Type} s n dec enc (h : handler St Req (list Item)), n ∉ functions s ->
    let '(e, s') := AddOutgoingStreamTyped s n dec enc h in e = None /\ adds s s' n /\ open_stream s' n = stream_wire dec enc h;
  call_unary : forall {Req Resp : Type} cli s c n req (enc : Req -> WVal) (dec : WVal -> result Resp) st, connected cli s c ->
    CallUnary cli n req enc dec st = let '(r, st') := invoke s n c st (enc req) in (v ← r; dec v, st');
  get_stream : forall {Req Item : Type} cli s c n req (enc : Req -> WVal) (dec : WVal -> result Item) st, connected cli s c ->
    GetStreamTyped cli n req enc dec st = let '(r, st') := open_stream s n c st (enc req) in (vs ← r; Ret (decode_until dec vs), st')
}.

(** ** The registrations *)

Section Wire.
Context `{UuidPkg} `{Badger} `{StorePkg} `{ValuePkg} `{!IamStructs} `{ValueMaps}.
Context {W : Type} `{!HasStorage W} {Auth : Type}.

(** The state of the node and its policy service. *)
Abbreviation node := (W * option PolicyService)%type.

Context `{!ValueRpc node Auth}.

Variable replicator : option (Replicator W).

(** A guarded function as a handler. *)
Definition unary {Req Resp} (f : Call -> option PolicyService -> W -> Req -> result Resp * W * option PolicyService) : handler node Req Resp :=
  fun c st req => let '(r, w, p) := f c (snd st) (fst st) req in (r, (w, p)).

Definition streaming {Req Item} (f : Call -> option PolicyService -> W -> Req -> result (list Item) * option PolicyService) : handler node Req (list Item) :=
  fun c st req => let '(r, p) := f c (snd st) (fst st) req in (r, (fst st, p)).

(** A failed registration is only logged. *)
Definition must (r : option error * Server) : Server := snd r.

(** The reader of a stream takes [budget] values; the hub notifies [evs] while a watch is open. *)
Variables (budget : option nat) (evs : list HubEvent).

(** [PostConstruct]. [auth] is the authenticator bean: absent, or its switch and its function. *)
Definition VrpcData_PostConstruct (auth : option (bool * Auth)) (srv : Server) : Server :=
  let srv := match auth with Some (true, a) => SetAuthenticator srv a | _ => srv end in
  let srv := must (AddUnary srv (str "kv.get") keyRequest_Decode record_Encode (unary kv_get)) in
  let srv := must (AddUnary srv (str "kv.getrecent") keyRequest_Decode record_Encode (unary kv_getrecent)) in
  let srv := must (AddUnary srv (str "kv.put") recordRequest_Decode status_Encode (unary (kv_put replicator))) in
  let srv := must (AddUnary srv (str "kv.touch") recordRequest_Decode status_Encode (unary (kv_touch replicator))) in
  let srv := must (AddUnary srv (str "kv.remove") keyRequest_Decode status_Encode (unary (kv_remove replicator))) in
  let srv := must (AddUnary srv (str "kv.increment") incrementRequest_Decode incrementResponse_Encode (unary (kv_increment replicator))) in
  let srv := must (AddUnary srv (str "kv.batch") batchRequest_Decode status_Encode (unary (guardedBatch replicator))) in
  let srv := must (AddOutgoingStreamTyped srv (str "kv.enumerate") enumerateRequest_Decode record_Encode (streaming (fun c p w req => enumerate c p w req budget))) in
  must (AddOutgoingStreamTyped srv (str "kv.watch") watchRequest_Decode watchEvent_Encode (streaming (fun c p w req => watch c p w req evs))).

(** ** The client's calls *)

Definition CallGet (cli : Client) (req : KeyRequest) : node -> result Rec * node := CallUnary cli (str "kv.get") req keyRequest_Encode record_Decode.
Definition CallGetRecent (cli : Client) (req : KeyRequest) : node -> result Rec * node := CallUnary cli (str "kv.getrecent") req keyRequest_Encode record_Decode.
Definition CallPut (cli : Client) (req : RecordRequest) : node -> result Status * node := CallUnary cli (str "kv.put") req recordRequest_Encode status_Decode.
Definition CallTouch (cli : Client) (req : RecordRequest) : node -> result Status * node := CallUnary cli (str "kv.touch") req recordRequest_Encode status_Decode.
Definition CallRemove (cli : Client) (req : KeyRequest) : node -> result Status * node := CallUnary cli (str "kv.remove") req keyRequest_Encode status_Decode.
Definition CallIncrement (cli : Client) (req : IncrementRequest) : node -> result IncrementResponse * node :=
  CallUnary cli (str "kv.increment") req incrementRequest_Encode incrementResponse_Decode.
Definition CallBatch (cli : Client) (req : BatchRequest) : node -> result Status * node := CallUnary cli (str "kv.batch") req batchRequest_Encode status_Decode.

(** The records and the error left in [errp] once the channel is closed. *)
Definition EnumerateStream (cli : Client) (req : EnumerateRequest) : node -> result (list Rec * option error) * node :=
  GetStreamTyped cli (str "kv.enumerate") req enumerateRequest_Encode record_Decode.
Definition WatchStream (cli : Client) (req : WatchRequest) : node -> result (list (option Key * bytes * Z * Z) * option error) * node :=
  GetStreamTyped cli (str "kv.watch") req watchRequest_Encode watchEvent_Decode.

End Wire.

(** ** Properties *)

Section Props.
Context `{UuidPkg} `{Badger} `{StorePkg} `{ValuePkg} `{!IamStructs} `{ValueMaps} `{!ValueMapLaws}.
Context {W : Type} `{!HasStorage W} {Auth : Type} `{!ValueRpc (W * option PolicyService) Auth} `{!ValueRpcLaws}.
Variables (replicator : option (Replicator W)) (budget : option nat) (evs : list HubEvent).

Definition kv_names : list bytes :=
  str <$> ["kv.watch"; "kv.enumerate"; "kv.batch"; "kv.increment"; "kv.remove"; "kv.touch"; "kv.put"; "kv.getrecent"; "kv.get"]%string.

Lemma must_unary {Req Resp : Type} s n dec enc (h : handler (W * option PolicyService) Req Resp) :
  n ∉ functions s -> let s' := must (AddUnary s n dec enc h) in adds s s' n /\ invoke s' n = unary_wire dec enc h.
Proof. intros Hn. unfold must. pose proof (add_unary s n dec enc h Hn) as HA. destruct (AddUnary s n dec enc h) as [e s']. by destruct HA as (_ & ? & ?). Qed.

Lemma must_stream {Req Item : Type} s n dec enc (h : handler (W * option PolicyService) Req (list Item)) :
  n ∉ functions s -> let s' := must (AddOutgoingStreamTyped s n dec enc h) in adds s s' n /\ open_stream s' n = stream_wire dec enc h.
Proof. intros Hn. unfold must. pose proof (add_stream s n dec enc h Hn) as HA. destruct (AddOutgoingStreamTyped s n dec enc h) as [e s']. by destruct HA as (_ & ? & ?). Qed.

(** Every function is served by its guarded handler behind its codecs. *)
Record served (s : Server) : Prop := {
  sv_get : invoke s (str "kv.get") = unary_wire keyRequest_Decode record_Encode (unary kv_get);
  sv_getrecent : invoke s (str "kv.getrecent") = unary_wire keyRequest_Decode record_Encode (unary kv_getrecent);
  sv_put : invoke s (str "kv.put") = unary_wire recordRequest_Decode status_Encode (unary (kv_put replicator));
  sv_touch : invoke s (str "kv.touch") = unary_wire recordRequest_Decode status_Encode (unary (kv_touch replicator));
  sv_remove : invoke s (str "kv.remove") = unary_wire keyRequest_Decode status_Encode (unary (kv_remove replicator));
  sv_increment : invoke s (str "kv.increment") = unary_wire incrementRequest_Decode incrementResponse_Encode (unary (kv_increment replicator));
  sv_batch : invoke s (str "kv.batch") = unary_wire batchRequest_Decode status_Encode (unary (guardedBatch replicator));
  sv_enumerate : open_stream s (str "kv.enumerate") = stream_wire enumerateRequest_Decode record_Encode (streaming (fun c p w req => enumerate c p w req budget));
  sv_watch : open_stream s (str "kv.watch") = stream_wire watchRequest_Decode watchEvent_Encode (streaming (fun c p w req => watch c p w req evs))
}.

(** Two names are different. *)
Ltac other_name := vm_compute; discriminate.

(** The name is free: it is none of those added since, and it was free before. *)
Ltac free_name Hfree :=
  repeat match goal with F : functions ?s = _ :: _ |- _ ∉ functions ?s => rewrite F end;
  repeat match goal with |- ?n ∉ _ :: _ => apply not_elem_of_cons; split; [other_name|]
                    | F : functions ?s = _ :: _ |- _ ∉ functions ?s => rewrite F end;
  apply Hfree; vm_compute; repeat first [left|right].

(** A later registration of another name keeps a function. *)
Ltac keeps O :=
  match goal with
  | |- invoke _ ?n = _ => rewrite (proj1 (O n ltac:(other_name)))
  | |- open_stream _ ?n = _ => rewrite (proj2 (O n ltac:(other_name)))
  end.

Lemma PostConstruct_serves auth srv :
  (forall n, n ∈ kv_names -> n ∉ functions srv) ->
  let s := VrpcData_PostConstruct replicator budget evs auth srv in
  served s /\ functions s = kv_names ++ functions srv /\
  authenticator s = match auth with Some (true, a) => Some a | _ => authenticator srv end.
Proof.
  intros Hfree. unfold VrpcData_PostConstruct. cbn zeta.
  set (s0 := match auth with Some (true, a) => SetAuthenticator srv a | _ => srv end).
  assert (functions s0 = functions srv /\ authenticator s0 = match auth with Some (true, a) => Some a | _ => authenticator srv end) as [F0 A0].
  { unfold s0. destruct auth as [[[] a]|]; [|done..]. by destruct (set_auth srv a) as [-> ->]. }
  rewrite <- F0 in Hfree |- *. rewrite <- A0. clearbody s0. clear F0 A0.
  destruct (must_unary s0 (str "kv.get") keyRequest_Decode record_Encode (unary kv_get)) as [(F1 & A1 & O1) I1]; [free_name Hfree|].
  set (s1 := must (AddUnary s0 _ _ _ _)) in *. clearbody s1.
  destruct (must_unary s1 (str "kv.getrecent") keyRequest_Decode record_Encode (unary kv_getrecent)) as [(F2 & A2 & O2) I2]; [free_name Hfree|].
  set (s2 := must (AddUnary s1 _ _ _ _)) in *. clearbody s2.
  destruct (must_unary s2 (str "kv.put") recordRequest_Decode status_Encode (unary (kv_put replicator))) as [(F3 & A3 & O3) I3]; [free_name Hfree|].
  set (s3 := must (AddUnary s2 _ _ _ _)) in *. clearbody s3.
  destruct (must_unary s3 (str "kv.touch") recordRequest_Decode status_Encode (unary (kv_touch replicator))) as [(F4 & A4 & O4) I4]; [free_name Hfree|].
  set (s4 := must (AddUnary s3 _ _ _ _)) in *. clearbody s4.
  destruct (must_unary s4 (str "kv.remove") keyRequest_Decode status_Encode (unary (kv_remove replicator))) as [(F5 & A5 & O5) I5]; [free_name Hfree|].
  set (s5 := must (AddUnary s4 _ _ _ _)) in *. clearbody s5.
  destruct (must_unary s5 (str "kv.increment") incrementRequest_Decode incrementResponse_Encode (unary (kv_increment replicator))) as [(F6 & A6 & O6) I6]; [free_name Hfree|].
  set (s6 := must (AddUnary s5 _ _ _ _)) in *. clearbody s6.
  destruct (must_unary s6 (str "kv.batch") batchRequest_Decode status_Encode (unary (guardedBatch replicator))) as [(F7 & A7 & O7) I7]; [free_name Hfree|].
  set (s7 := must (AddUnary s6 _ _ _ _)) in *. clearbody s7.
  destruct (must_stream s7 (str "kv.enumerate") enumerateRequest_Decode record_Encode (streaming (fun c p w req => enumerate c p w req budget))) as [(F8 & A8 & O8) I8]; [free_name Hfree|].
  set (s8 := must (AddOutgoingStreamTyped s7 _ _ _ _)) in *. clearbody s8.
  destruct (must_stream s8 (str "kv.watch") watchRequest_Decode watchEvent_Encode (streaming (fun c p w req => watch c p w req evs))) as [(F9 & A9 & O9) I9]; [free_name Hfree|].
  set (s9 := must (AddOutgoingStreamTyped s8 _ _ _ _)) in *. clearbody s9.
  split; [|split; [by rewrite F9, F8, F7, F6, F5, F4, F3, F2, F1|congruence]].
  split; try assumption; keeps O9; try assumption; keeps O8; try assumption; keeps O7; try assumption; keeps O6;
    try assumption; keeps O5; try assumption; keeps O4; try assumption; keeps O3; try assumption; keeps O2; assumption.
Qed.

(** The request as it arrives. *)
Definition wire_key_request (r : KeyRequest) : KeyRequest := {| kr_Key := wire_key (kr_Key r); kr_HeadOnly := kr_HeadOnly r; kr_Timeout := 0 |}.
Definition wire_increment (i : IncrementRequest) : IncrementRequest := {|
  ir_Key := wire_key (ir_Key i); ir_Initial := ir_Initial i; ir_Delta := ir_Delta i; ir_TtlSeconds := ir_TtlSeconds i; ir_Timeout := 0; ir_ExpiresAt := ir_ExpiresAt i |}.
Definition wire_batch (b : BatchRequest) : BatchRequest := {| br_Records := wire_record <$> br_Records b; br_Timeout := 0 |}.
Definition wire_enumerate (e : EnumerateRequest) : EnumerateRequest := {|
  en_Prefix := wire_key (en_Prefix e); en_Ordered := en_Ordered e; en_Reverse := en_Reverse e; en_Timeout := 0 |}.

Definition increment_width (i : IncrementRequest) : Prop :=
  key_width (ir_Key i) /\ is_int64 (ir_Initial i) /\ is_int64 (ir_Delta i) /\ is_int64 (ir_TtlSeconds i) /\ is_int64 (ir_ExpiresAt i).

(** A record as it comes back, and the widths that let it. *)
Definition wire_rec (r : Rec) : Rec := {| rec_Key := wire_key (rec_Key r); rec_Head := rec_Head r; rec_Value := rec_Value r |}.
Definition rec_width (r : Rec) : Prop := key_width (rec_Key r) /\ forall h, rec_Head r = Some h -> head_width h.
Definition response_width (i : IncrementResponse) : Prop := is_int64 (Previous i) /\ is_int64 (Current i) /\ is_uint64 (ir_Version i).

(** The answer of a guarded function, changed on success by [f]. *)
Definition via {A B} (f : A -> B) (x : result A * W * option PolicyService) : result B * (W * option PolicyService) :=
  let '(r, w, p) := x in (a ← r; Ret (f a), (w, p)).

Lemma unary_call {Req Resp : Type} cli s c n (req req' : Req) encq decq (encr : Resp -> WVal) decr f st (g : Resp -> Resp) :
  connected cli s c -> invoke s n = unary_wire decq encr (unary f) -> decq (encq req) = Ret req' ->
  (forall x, fst (fst (f c (snd st) (fst st) req')) = Ret x -> decr (encr x) = Ret (g x)) ->
  CallUnary cli n req encq decr st = via g (f c (snd st) (fst st) req').
Proof.
  intros Hc Hi Hd Hg. rewrite (call_unary cli s c _ _ _ _ _ Hc), Hi. unfold unary_wire, unary, via. rewrite Hd.
  destruct (f c (snd st) (fst st) req') as [[[x|e|] w] p]; cbn; [|done..]. by rewrite (Hg x).
Qed.

Lemma status_roundtrip (x : Status) : status_Decode (status_Encode x) = Ret x.
Proof. unfold status_Decode, status_Encode, asMap. rewrite as_map. cbn [mbind outcome_bind]. read_map. by destruct x. Qed.

(** Any instance of the other messages serves to use the round trips of one. *)
Lemma rec_roundtrip (r : Rec) : rec_width r -> record_Decode (record_Encode r) = Ret (wire_rec r).
Proof.
  intros [Hk Hh]. apply (responses_roundtrip r {| Updated := true |} {| Previous := 0; Current := 0; ir_Version := 0 |}
    {| we_Key := None; we_Value := []; we_Version := 0; we_Type := WATCH_SET |}); [done..| | | | |]; unfold key_width, is_int64, is_uint64; cbn; lia || done.
Qed.

Lemma increment_roundtrip (i : IncrementResponse) : response_width i -> incrementResponse_Decode (incrementResponse_Encode i) = Ret i.
Proof.
  intros (Hp & Hc & Hv). apply (responses_roundtrip (RecordNotFound None) {| Updated := true |} i
    {| we_Key := None; we_Value := []; we_Version := 0; we_Type := WATCH_SET |}); try done; unfold is_uint64; cbn; lia.
Qed.

Lemma arrived (k : KeyRequest) (r : RecordRequest) (i : IncrementRequest) (b : BatchRequest) (e : EnumerateRequest) :
  key_width (kr_Key k) -> record_width r -> increment_width i -> Forall record_width (br_Records b) -> key_width (en_Prefix e) ->
  keyRequest_Decode (keyRequest_Encode k) = Ret (wire_key_request k) /\ recordRequest_Decode (recordRequest_Encode r) = Ret (wire_record r) /\
  incrementRequest_Decode (incrementRequest_Encode i) = Ret (wire_increment i) /\ batchRequest_Decode (batchRequest_Encode b) = Ret (wire_batch b) /\
  enumerateRequest_Decode (enumerateRequest_Encode e) = Ret (wire_enumerate e).
Proof.
  intros Hk Hr (Hik & Hi & Hd & Ht & He) Hb Hen.
  destruct (requests_roundtrip k r i {| wr_Prefix := None; wr_Timeout := 0 |} e b) as (E1 & E2 & E3 & _ & E4 & E5); done.
Qed.


End Props.

(** ** A concrete server *)

Section Flat.
Context (St Auth : Type).
#[local] Existing Instance flat_maps.

Record flat_server : Type := {
  fs_auth : option Auth; fs_names : list bytes; fs_unary : bytes -> handler St WVal WVal; fs_stream : bytes -> handler St WVal (list WVal) }.

Definition flat_rpc : ValueRpc St Auth := {|
  Server := flat_server;
  SetAuthenticator := fun s a => {| fs_auth := Some a; fs_names := fs_names s; fs_unary := fs_unary s; fs_stream := fs_stream s |};
  AddUnary := fun Req Resp s n dec enc h =>
    if bool_decide (n ∈ fs_names s) then (Some (ErrNew (str "function exists")), s)
    else (None, {| fs_auth := fs_auth s; fs_names := n :: fs_names s; fs_stream := fs_stream s;
                   fs_unary := fun n' => if bool_decide (n' = n) then unary_wire dec enc h else fs_unary s n' |});
  AddOutgoingStreamTyped := fun Req Item s n dec enc h =>
    if bool_decide (n ∈ fs_names s) then (Some (ErrNew (str "function exists")), s)
    else (None, {| fs_auth := fs_auth s; fs_names := n :: fs_names s; fs_unary := fs_unary s;
                   fs_stream := fun n' => if bool_decide (n' = n) then stream_wire dec enc h else fs_stream s n' |});
  authenticator := fs_auth;
  functions := fs_names;
  invoke := fs_unary;
  open_stream := fs_stream;
  Client := flat_server * Call;
  connected := fun cli s c => cli = (s, c);
  CallUnary := fun Req Resp cli n req enc dec st => let '(r, st') := fs_unary (fst cli) n (snd cli) st (enc req) in (v ← r; dec v, st');
  GetStreamTyped := fun Req Item cli n req enc dec st =>
    let '(r, st') := fs_stream (fst cli) n (snd cli) st (enc req) in (vs ← r; Ret (decode_until dec vs), st')
|}.

#[local] Existing Instance flat_rpc.

Lemma flat_rpc_laws : ValueRpcLaws.
Proof.
  split; cbn; try done.
  - intros Req Resp s n dec enc h Hn. rewrite bool_decide_eq_false_2 by done. split; [done|]. cbn. rewrite bool_decide_eq_true_2 by done.
    split; [|done]. split; [done|]. split; [done|]. intros n' Hne. cbn. by rewrite bool_decide_eq_false_2.
  - intros Req Item s n dec enc h Hn. rewrite bool_decide_eq_false_2 by done. split; [done|]. cbn. rewrite bool_decide_eq_true_2 by done.
    split; [|done]. split; [done|]. split; [done|]. intros n' Hne. cbn. by rewrite bool_decide_eq_false_2.
  - by intros Req Resp cli s c n req enc dec st ->.
  - by intros Req Item cli s c n req enc dec st ->.
Qed.

Definition flat_none : flat_server := {|
  fs_auth := None; fs_names := [];
  fs_unary := fun _ _ st _ => (Fail (ErrNew (str "no such function")), st); fs_stream := fun _ _ st _ => (Fail (ErrNew (str "no such function")), st) |}.

End Flat.

(** ** Witness: a put through the wire *)

Section Witness.
#[local] Existing Instances flat_uuid flat_uuid_laws mem_badger mem_spec flat_store flat_store_laws flat_value flat_iam_structs flat_maps flat_maps_laws.
#[local] Instance wire_rpc : ValueRpc (KeyValueStorageCtx * option PolicyService) unit := flat_rpc _ unit.
#[local] Instance wire_rpc_laws : ValueRpcLaws := flat_rpc_laws _ unit.

Ltac wire_widths := repeat split; cbn; lia.

Definition wire_call : Call := {| principal := []; clock := 100; clock' := 100 |}.

Definition wire_server : @Server _ _ _ wire_rpc := flat_none _ unit.

Definition wire_client : @Client _ _ _ wire_rpc := (VrpcData_PostConstruct None None [] None wire_server, wire_call).


End Witness.
