(* ===== verification/Replication.v ===== *)
(** * The raft write path ([pkg/replication/replicator.go], [pkg/replication/reclaimer.go])

    The replicator encodes a write as a raft command and commits it on the leader; the
    reclaimer finds expired entries on the leader and proposes their removal. Raft itself
    (hashicorp/raft and its server bean) is a class parameter: whether it is initialized and
    leading, who leads, and [Apply]. *)

From S2P Require Import Prelude Sha256 Pb Keys Engine Storage StorageSpec StorageReads StorageProps ScanProps Value Command Service Ledger Fsm FsmProps.

Section Replication.
Context `{UuidPkg} `{Badger} `{StorePkg} `{Payloads} `{!Struct headRecord}.

(** A node [W]: [raft_Apply] is [r.Apply(data, timeout)] with [future.Error()] as the failure
    and [future.Response()], asserted to the result type of the state machine, as the value
    ([None] when the assertion fails). *)
Class Raft (W : Type) : Type := {
  raft_initialized : W -> bool;
  raft_is_leader : W -> bool;
  LeaderWithID : W -> bytes * bytes;
  raft_Apply : W -> bytes -> result (option fsmResult) * W
}.

Section Node.
Context {W : Type} `{!Raft W}.

(** [Replicator.Pool]: the API endpoint for a raft address, nil when absent. *)
Variable Pool : option (bytes -> bytes).

Definition Replicator_Enabled (w : W) : bool := raft_initialized w.

Definition IsLeader (w : W) : bool := raft_initialized w && raft_is_leader w.

Definition applyCommand (w : W) (op : Z) (msg : message) : result fsmResult * W :=
  if negb (raft_initialized w) then (Fail (ErrNew (str "raft not initialized")), w) else
  if negb (raft_is_leader w) then
    let '(addr, id) := LeaderWithID w in
    let endpoint :=
      match Pool with
      | Some endpoint_of => if negb (bool_decide (addr = [])) then endpoint_of addr else []
      | None => []
      end in
    (Fail (NotLeaderError id addr endpoint), w)
  else
    match encodeCommand op msg with
    | Fail e => (Fail e, w)
    | Panic => (Panic, w)
    | Ret data =>
        match raft_Apply w data with
        | (Fail e, w') => (Fail (ErrWrap (str "raft apply") e), w')
        | (Panic, w') => (Panic, w')
        | (Ret None, w') => (Fail (ErrNew (str "unexpected fsm response type")), w')
        | (Ret (Some res), w') => (Ret res, w')
        end
    end.

(** [return res.status, res.err]; a nil status is what its codec encodes it as. *)
Definition apply_result {A} (zero : A) (field : fsmResult -> option A) (r : result fsmResult * W) : result A * W :=
  match r with
  | (Ret res, w) =>
      (match fr_err res with Some e => Fail e | None => Ret (default zero (field res)) end, w)
  | (Fail e, w) => (Fail e, w)
  | (Panic, w) => (Panic, w)
  end.

Definition apply (w : W) (op : Z) (msg : message) : result Status * W :=
  apply_result {| Updated := false |} fr_status (applyCommand w op msg).

Definition repl_Put (w : W) (req : RecordRequest) := apply w opPut (MRecord req).
Definition repl_Touch (w : W) (req : RecordRequest) := apply w opTouch (MRecord req).
Definition repl_Remove (w : W) (req : KeyRequest) := apply w opRemove (MKey req).
Definition repl_Batch (w : W) (req : BatchRequest) := apply w opBatch (MBatch req).

Definition repl_Increment (w : W) (req : IncrementRequest) : result IncrementResponse * W :=
  apply_result {| Previous := 0; Current := 0; ir_Version := 0 |} fr_incr
    (applyCommand w opIncrement (MIncrement req)).

Definition repl_Reclaim (w : W) (req : ReclaimRequest) : result Z * W :=
  apply_result 0 (fun r => Some (fr_reclaimed r)) (applyCommand w opReclaim (MReclaim req)).

(** The replicator as the service sees it. *)
Definition raft_replicator : Replicator W := {|
  Enabled := Replicator_Enabled;
  rep_Put := repl_Put;
  rep_Touch := repl_Touch;
  rep_Remove := repl_Remove;
  rep_Increment := repl_Increment;
  rep_Batch := repl_Batch
|}.

(** ** The reclaimer *)

(** [replicator] is false when the bean is nil. *)
Definition ReclaimExpired `{!HasStorage W} (replicator : bool) (now : Z) (ctxErr : nat -> option error)
    (limit : Z) (w : W) : result Z * W :=
  let replicated := replicator && Replicator_Enabled w in
  if replicated && negb (IsLeader w) then (Ret 0, w) else
  match ScanExpired now (get_storage w) ctxErr limit with
  | (_, Some e) => (Fail e, w)
  | (entries, None) =>
      if len entries =? 0 then (Ret 0, w) else
      let req := {| rc_Entries := entries |} in
      if replicated then repl_Reclaim w req
      else on_storage w (Reclaim (get_storage w) req)
  end.

End Node.

(** ** What raft promises *)

(** A successful [Apply] committed the command at some index and applied it to the local state
    machine, possibly with other committed entries before and after it, and returned the
    state machine's answer for it. *)
Class RaftSpec (W : Type) `{!Raft W} : Type := {
  node_fsm : W -> FSM;
  raft_apply_spec : forall w data resp w',
    raft_Apply w data = (Ret resp, w') ->
    exists clock before e after,
      lg_Data e = data /\ is_uint64 (lg_Index e) /\ lg_Index e <> 0 /\ is_uint64 (lg_Term e) /\
      Some (fst (Apply (clock e) (snd (apply_all clock (node_fsm w) before)) e)) = Ret <$> resp /\
      node_fsm w' = snd (apply_all clock (node_fsm w) (before ++ [e] ++ after))
}.

End Replication.

Section Props.
Context `{UuidPkg} `{!UuidLaws} `{Badger} `{!BadgerSpec} `{StorePkg} `{!StoreLaws}.
Context `{Payloads} `{!PayloadLaws} `{!Struct headRecord} `{!StructLaws headRecord}.
Context {W : Type} `{!Raft W} `{!RaftSpec W} `{!HasStorage W}.

Lemma applyCommand_ret Pool w op msg res w' :
  applyCommand Pool w op msg = (Ret res, w') ->
  exists data, encodeCommand op msg = Ret data /\ raft_Apply w data = (Ret (Some res), w').
Proof.
  unfold applyCommand. destruct (raft_initialized w); cbn [negb]; [|done].
  destruct (raft_is_leader w); cbn [negb]; [|by destruct (LeaderWithID w)].
  destruct (encodeCommand op msg) as [data|?|]; [|done|done].
  destruct (raft_Apply w data) as [[[r|]|?|] w1] eqn:EA; [|done|done|done].
  intros [= -> ->]. by exists data.
Qed.

(** A committed command was applied at a log index, and its answer is the answer of the
    abstract command at that point of the log. *)
Lemma applyCommand_linearizes Pool w op msg res w' c :
  BadgerReliable -> payload_ok op msg = true -> message_ok msg -> message_stamped msg ->
  fsm_chain (node_fsm w) = Some c ->
  applyCommand Pool w op msg = (Ret res, w') ->
  exists clock before e after,
    decodeCommand (lg_Data e) = (op, Ret msg) /\
    node_fsm w' = snd (apply_all clock (node_fsm w) (before ++ [e] ++ after)) /\
    let t := snd (apply_all clock (node_fsm w) before) in
    forall now', let '(r, _, _, _) := apply_spec now' (contents (fsm_Storage t)) (advance_all c before) e in
    r = Ret res.
Proof.
  intros HR Hp Hok Hst Hc HA. apply applyCommand_ret in HA as (data & He & HA).
  apply raft_apply_spec in HA as (clock & before & e & after & Hd & Hi & Hne & Ht & Hr & Hn).
  apply (encode_decode op msg data Hp) in He. rewrite <- Hd in He.
  exists clock, before, e, after. split; [done|]. split; [done|]. intros t now'.
  assert (entry_ok e) as Hek by (split; [done|]; split; [done|]; split; [done|]; intros o m Hm; congruence).
  assert (entry_holds message_stamped e) as Hes by (intros o m Hm; congruence).
  assert (fsm_chain t = Some (advance_all c before)) as Hct by (by apply apply_all_chain).
  rewrite (apply_spec_clock now' (clock e) _ _ _ Hes).
  destruct (apply_spec (clock e) (contents (fsm_Storage t)) (advance_all c before) e) as [[[r m] c'] evs] eqn:Es.
  destruct (Apply_does (clock e) t e _ r m c' evs HR Hek Hct Es) as (t' & Ea & _).
  fold t in Hr. rewrite Ea in Hr. cbn in Hr. congruence.
Qed.

(** ** Properties *)

(** Replicated puts are linearized by the log. A put that the leader acknowledges was
    committed as one log entry that carries exactly the request with its expiry resolved at
    the accepting clock, and the status returned is the one the abstract store gives for the
    request at that point of the log, with the log index as its version. *)
Theorem replicated_put_linearizes (Pool : option (bytes -> bytes)) (now now' : Z) (w w' : W)
    (req : RecordRequest) (s : Status) (c : HashChain) :
  BadgerReliable -> is_int64 (rr_ExpiresAt req) -> raft_initialized w = true ->
  fsm_chain (node_fsm w) = Some c ->
  svc_Put (Some (raft_replicator Pool)) now now' w req = (Ret s, w') ->
  exists clock before e after,
    decodeCommand (lg_Data e) = (opPut, Ret (MRecord (stamp_record now req))) /\
    node_fsm w' = snd (apply_all clock (node_fsm w) (before ++ [e] ++ after)) /\
    let t := snd (apply_all clock (node_fsm w) before) in
    let m := fst (head_spec now (contents (fsm_Storage t))
                    (Advance (advance_all c before) (lg_Index e) (lg_Term e) (lg_Data e)) (lg_Index e)) in
    fst (fst (put_spec now m req (lg_Index e))) = Ret s.
Proof.
  intros HR Hex Hi Hc HP. unfold svc_Put, replicates in HP. cbn [raft_replicator Enabled] in HP.
  unfold Replicator_Enabled in HP. rewrite Hi in HP. cbn [rep_Put raft_replicator] in HP.
  unfold repl_Put, apply, apply_result in HP.
  destruct (applyCommand Pool w opPut (MRecord (stamp_record now req))) as [[res|?|] w1] eqn:EA; [|done|done].
  injection HP as HP ->.
  destruct (applyCommand_linearizes Pool w opPut (MRecord (stamp_record now req)) res w' c HR eq_refl)
    as (clock & before & e & after & Hd & Hn & HL); try done.
  { by apply resolveExpiry_int64. }
  { apply stamp_record_stamped. }
  exists clock, before, e, after. split; [done|]. split; [done|]. intros t m. specialize (HL now).
  fold t in HL. unfold apply_spec in HL. rewrite Hd in HL. unfold m.
  destruct (head_spec now (contents (fsm_Storage t)) _ (lg_Index e)) as [m1 evs1]. cbn [fst].
  cbn [command_spec] in HL. change (opPut =? opPut) with true in HL. cbn iota in HL.
  rewrite put_spec_stamp in HL.
  destruct (put_spec now m1 req (lg_Index e)) as [[r2 m2] evs2]. cbn [status_of] in HL. cbn [fst].
  destruct r2 as [s2|e2|]; cbn [status_result] in HL; [| |done]; injection HL as <-; cbn in HP; by simplify_eq.
Qed.

(** A follower writes nothing. On a node that is not the leader every replicated write
    returns the not-leader error naming the leader, its address and its endpoint, and leaves
    the node unchanged. *)
Theorem follower_redirects (Pool : option (bytes -> bytes)) (now now' : Z) (w : W) (addr id : bytes)
    (r : RecordRequest) (i : IncrementRequest) (k : KeyRequest) (b : BatchRequest) :
  raft_initialized w = true -> raft_is_leader w = false -> LeaderWithID w = (addr, id) -> addr <> [] ->
  let endpoint := match Pool with Some f => f addr | None => [] end in
  let svc := Some (raft_replicator Pool) in
  svc_Put svc now now' w r = (Fail (NotLeaderError id addr endpoint), w) /\
  svc_Touch svc now now' w r = (Fail (NotLeaderError id addr endpoint), w) /\
  svc_Remove svc w k = (Fail (NotLeaderError id addr endpoint), w) /\
  svc_Increment svc now now' w i = (Fail (NotLeaderError id addr endpoint), w) /\
  svc_Batch svc now now' w b = (Fail (NotLeaderError id addr endpoint), w).
Proof.
  intros Hi Hl Ha Hne endpoint svc.
  assert (forall op msg, applyCommand Pool w op msg = (Fail (NotLeaderError id addr endpoint), w)) as HA.
  { intros op msg. unfold applyCommand. rewrite Hi, Hl, Ha. cbn [negb]. unfold endpoint.
    rewrite bool_decide_eq_false_2 by done. by destruct Pool. }
  unfold svc, svc_Put, svc_Touch, svc_Remove, svc_Increment, svc_Batch, replicates.
  cbn [raft_replicator Enabled]. unfold Replicator_Enabled. rewrite Hi.
  cbn [raft_replicator rep_Put rep_Touch rep_Remove rep_Increment rep_Batch].
  unfold repl_Put, repl_Touch, repl_Remove, repl_Increment, repl_Batch, apply, apply_result.
  by rewrite !HA.
Qed.

(** The sweep is driven by the leader alone and spares the living. On a replicated node
    that is not the leader [ReclaimExpired] removes nothing and reports zero, whatever has
    expired on its clock; with replication off every entry that is live at the sweep's clock
    is still there, unchanged, after it. *)
Theorem ReclaimExpired_safe (Pool : option (bytes -> bytes)) (now : Z) (ctxErr : nat -> option error)
    (limit : Z) (w w' : W) (n : Z) (k : bytes) (e : entry) :
  BadgerReliable -> (forall i, ctxErr i = None) ->
  (forall (w : W) st, get_storage (set_storage w st) = st) ->
  (raft_initialized w = true -> raft_is_leader w = false ->
   ReclaimExpired Pool true now ctxErr limit w = (Ret 0, w)) /\
  (ReclaimExpired Pool false now ctxErr limit w = (Ret n, w') ->
   contents (get_storage w) !! k = Some e -> live now e = true -> contents (get_storage w') !! k = Some e).
Proof.
  intros HR Hctx Hgs. split.
  { intros Hi Hl. unfold ReclaimExpired, IsLeader, Replicator_Enabled. rewrite Hi, Hl. done. }
  intros HRc Hk Hlive. unfold ReclaimExpired in HRc. cbn [andb] in HRc.
  destruct (ScanExpired now (get_storage w) ctxErr limit) as [es [er|]] eqn:ES; [done|].
  destruct (len es =? 0); [by simplify_eq|]. unfold on_storage in HRc. injection HRc as HRc <-.
  rewrite Hgs. destruct (Reclaim (get_storage w) {| rc_Entries := es |}) as [r st1] eqn:ER. cbn [fst snd] in *. subst r.
  destruct (refines_ret _ _ _ _ _ ER (Reclaim_refines (get_storage w) _)) as (_ & -> & _).
  unfold reclaim_spec. cbn [rc_Entries].
  destruct (reclaim_fold es (contents (get_storage w))) as [m d] eqn:Ef. cbn [fst snd].
  rewrite (reclaim_fold_lookup _ _ _ d k Ef), Hk.
  unfold listed. rewrite bool_decide_eq_false_2; [done|]. intros Hin.
  destruct (ScanExpired_sound _ _ _ _ _ _ _ HR Hctx ES Hin) as (e' & He' & Hx & _). cbn in He'. congruence.
Qed.

End Props.

(** ** A single-node raft, and witnesses *)

Section Witness.
#[local] Existing Instances flat_uuid flat_uuid_laws mem_badger mem_spec flat_store flat_store_laws
  flat_value flat_payloads flat_payload_laws.
#[local] Existing Instances flat_head flat_head_laws.

Record SoloNode : Type := { solo_fsm : FSM; solo_next : Z; solo_leads : bool }.

(** A node that leads commits each command at its next index and applies it at once. *)
#[local] Instance solo_raft : Raft SoloNode := {|
  raft_initialized := fun _ => true;
  raft_is_leader := solo_leads;
  LeaderWithID := fun _ => (str "10.0.0.1:7000", str "n1");
  raft_Apply := fun w data =>
    if (1 <=? solo_next w) && (solo_next w <? 2 ^ 64) then
      match Apply 100 (solo_fsm w) {| lg_Index := solo_next w; lg_Term := 1; lg_Data := data |} with
      | (Ret r, t) => (Ret (Some r), {| solo_fsm := t; solo_next := solo_next w + 1; solo_leads := solo_leads w |})
      | _ => (Panic, w)
      end
    else (Fail (ErrNew (str "log full")), w)
|}.

#[local] Instance solo_spec : RaftSpec SoloNode.
Proof.
  refine {| node_fsm := solo_fsm |}. intros w data resp w' HA. cbn [raft_Apply solo_raft] in HA.
  destruct ((1 <=? solo_next w) && (solo_next w <? 2 ^ 64))%bool eqn:EB; [|done]. apply andb_true_iff in EB as [E1 E2].
  set (e := {| lg_Index := solo_next w; lg_Term := 1; lg_Data := data |}) in *.
  destruct (Apply 100 (solo_fsm w) e) as [[r|?|] t] eqn:EA; [|done|done]. injection HA as <- <-.
  exists (fun _ => 100), [], e, []. cbn [apply_all app snd fst]. rewrite EA. cbn.
  repeat split; unfold is_uint64; cbn; lia.
Defined.

#[local] Instance solo_storage : HasStorage SoloNode := {|
  get_storage := fun w => fsm_Storage (solo_fsm w);
  set_storage := fun w st => {| solo_fsm := {| fsm_Storage := st; fsm_chain := fsm_chain (solo_fsm w) |};
                                solo_next := solo_next w; solo_leads := solo_leads w |} |}.

Definition demo_solo : SoloNode := {| solo_fsm := demo_fsm; solo_next := 5; solo_leads := true |}.

Lemma replicated_put_linearizes_witness :
  let req := demo_record (str "v") 60 false 0 in
  exists clock before e after,
    decodeCommand (lg_Data e) = (opPut, Ret (MRecord (stamp_record 90 req))) /\
    node_fsm (snd (svc_Put (Some (raft_replicator None)) 90 95 demo_solo req)) =
      snd (apply_all clock demo_fsm (before ++ [e] ++ after)).
Proof.
  intros req.
  destruct (replicated_put_linearizes None 90 95 demo_solo
    (snd (svc_Put (Some (raft_replicator None)) 90 95 demo_solo req)) req {| Updated := true |}
    (NewHashChain 0 GenesisDigest) mem_reliable) as (clock & before & e & after & Hd & Hn & _).
  - unfold is_int64. simpl. lia.
  - reflexivity.
  - reflexivity.
  - apply pair_by_fst. vm_compute. reflexivity.
  - exists clock, before, e, after. exact (conj Hd Hn).
Defined.

Lemma follower_redirects_witness :
  let w := {| solo_fsm := demo_fsm; solo_next := 5; solo_leads := false |} in
  svc_Put (Some (raft_replicator None)) 90 95 w (demo_record (str "v") 60 false 0)
    = (Fail (NotLeaderError (str "n1") (str "10.0.0.1:7000") []), w).
Proof.
  intros w.
  refine (proj1 (follower_redirects None 90 95 w (str "10.0.0.1:7000") (str "n1")
    (demo_record (str "v") 60 false 0) demo_increment demo_get demo_batch eq_refl eq_refl eq_refl _)).
  discriminate.
Defined.

Lemma ReclaimExpired_safe_witness :
  let w := {| solo_fsm := demo_fsm; solo_next := 5; solo_leads := false |} in
  ReclaimExpired None true 200 (fun _ => None) 10 w = (Ret 0, w).
Proof.
  intros w.
  exact (proj1 (ReclaimExpired_safe None 200 (fun _ => None) 10 w w 0 [] demo_entry mem_reliable
    (fun _ => eq_refl) (fun _ _ => eq_refl)) eq_refl eq_refl).
Defined.

End Witness.
