(* ===== verification/Cluster.v ===== *)
(** * A cluster of replicas ([pkg/server/server.go], [pkg/replication/replicator.go], [pkg/replication/fsm.go])

    The writes of many clients over many nodes, as a step relation. A write is split where the
    replicator hands it to raft: what happens before [r.Apply] ([submit]) and what happens to the
    answer of the future ([finish]); [ClusterProps] shows that the service's operations are
    exactly these two around [r.Apply]. Raft itself is what the steps allow: one log of committed
    entries with growing indexes, which every node applies in order at clocks of its own; a future
    that resolves with the answer of the node's own state machine for its entry; or one that fails
    at any time, whether or not the entry is, or will be, committed. *)

From S2P Require Import Prelude Sha256 Pb Keys Engine Storage StorageSpec StorageReads StorageProps Value Command Service Ledger Fsm FsmProps Replication.

(** ** Writes *)

Inductive call : Type :=
  | CPut (r : RecordRequest)
  | CTouch (r : RecordRequest)
  | CRemove (r : KeyRequest)
  | CIncrement (r : IncrementRequest)
  | CBatch (r : BatchRequest)
  | CReclaim (r : ReclaimRequest).

Inductive answer : Type :=
  | AStatus (s : Status)
  | AIncrement (i : IncrementResponse)
  | ACount (n : Z).

Section Cluster.
Context `{UuidPkg} `{Badger} `{StorePkg} `{Payloads} `{!Struct headRecord}.

(** The command of a write: the expiry is resolved once, at the accepting clock. *)
Definition command_of (now : Z) (c : call) : Z * message :=
  match c with
  | CPut r => (opPut, MRecord (stamp_record now r))
  | CTouch r => (opTouch, MRecord (stamp_record now r))
  | CRemove r => (opRemove, MKey r)
  | CIncrement r => (opIncrement, MIncrement (stamp_increment now r))
  | CBatch r => (opBatch, MBatch (stamp_batch now r))
  | CReclaim r => (opReclaim, MReclaim r)
  end.

(** The bytes handed to [r.Apply]. *)
Definition submit (now : Z) (c : call) : result bytes := let '(op, msg) := command_of now c in encodeCommand op msg.

(** The field of the result that a write returns; a nil one is what its codec encodes it as. *)
Definition result_answer (c : call) (res : fsmResult) : answer :=
  match c with
  | CIncrement _ => AIncrement (default {| Previous := 0; Current := 0; ir_Version := 0 |} (fr_incr res))
  | CReclaim _ => ACount (fr_reclaimed res)
  | _ => AStatus (default {| Updated := false |} (fr_status res))
  end.

(** From the outcome of the future to the answer of the write. *)
Definition finish (c : call) (r : result (option fsmResult)) : result answer :=
  match r with
  | Fail e => Fail (ErrWrap (str "raft apply") e)
  | Panic => Panic
  | Ret None => Fail (ErrNew (str "unexpected fsm response type"))
  | Ret (Some res) => match fr_err res with Some e => Fail e | None => Ret (result_answer c res) end
  end.

(** The service's operations on a write. *)
Definition serve {W} `{!HasStorage W} `{!Raft W} (Pool : option (bytes -> bytes)) (now now' : Z) (w : W) (c : call) : result answer * W :=
  let svc := Some (raft_replicator Pool) in
  let answers {A} (f : A -> answer) (r : result A * W) : result answer * W := (x ← fst r; Ret (f x), snd r) in
  match c with
  | CPut r => answers AStatus (svc_Put svc now now' w r)
  | CTouch r => answers AStatus (svc_Touch svc now now' w r)
  | CRemove r => answers AStatus (svc_Remove svc w r)
  | CIncrement r => answers AIncrement (svc_Increment svc now now' w r)
  | CBatch r => answers AStatus (svc_Batch svc now now' w r)
  | CReclaim r => answers ACount (repl_Reclaim Pool w r)
  end.

(** ** The cluster *)

(** A node: its state machine and how many entries it has applied. *)
Record member : Type := { mb_fsm : FSM; mb_applied : nat }.

(** A write under way: the node that took it and its clock there, the bytes handed to raft, the
    place of its entry once committed, the answer of the node's state machine, and the reply. *)
Record ticket : Type := {
  tk_call : call; tk_clock : Z; tk_node : nat; tk_data : bytes;
  tk_pos : option nat; tk_res : option fsmResult; tk_reply : option (result answer) }.

Inductive event : Type := Invoked (id : nat) | Replied (id : nat) (r : result answer).

Record cl_state : Type := { cl_log : list RaftLog; cl_nodes : gmap nat member; cl_calls : gmap nat ticket; cl_history : list event }.

(** The integers of a request are of their width. *)
Definition call_ok (c : call) : Prop :=
  match c with
  | CPut r | CTouch r => is_int64 (rr_ExpiresAt r)
  | CIncrement r => is_int64 (ir_ExpiresAt r)
  | CBatch r => Forall (fun x => is_int64 (rr_ExpiresAt x)) (br_Records r)
  | CRemove _ | CReclaim _ => True
  end.

Definition place (p : nat) (tk : ticket) : ticket := {|
  tk_call := tk_call tk; tk_clock := tk_clock tk; tk_node := tk_node tk; tk_data := tk_data tk;
  tk_pos := Some p; tk_res := tk_res tk; tk_reply := tk_reply tk |}.

(** The future of an entry that the node itself proposed resolves when the node applies it. *)
Definition resolve (n p : nat) (res : fsmResult) (tk : ticket) : ticket :=
  if bool_decide (tk_node tk = n /\ tk_pos tk = Some p) then {|
    tk_call := tk_call tk; tk_clock := tk_clock tk; tk_node := tk_node tk; tk_data := tk_data tk;
    tk_pos := tk_pos tk; tk_res := Some res; tk_reply := tk_reply tk |}
  else tk.

Definition reply (r : result answer) (tk : ticket) : ticket := {|
  tk_call := tk_call tk; tk_clock := tk_clock tk; tk_node := tk_node tk; tk_data := tk_data tk;
  tk_pos := tk_pos tk; tk_res := tk_res tk; tk_reply := Some r |}.

(** Every node starts from the same state machine. *)
Variable fsm0 : FSM.

Inductive cl_step : cl_state -> cl_state -> Prop :=
| cl_join log nodes calls h n :
    nodes !! n = None ->
    cl_step {| cl_log := log; cl_nodes := nodes; cl_calls := calls; cl_history := h |}
            {| cl_log := log; cl_nodes := <[n := {| mb_fsm := fsm0; mb_applied := 0 |}]> nodes; cl_calls := calls; cl_history := h |}
| cl_invoke log nodes calls h id n now c data :
    calls !! id = None -> call_ok c -> submit now c = Ret data ->
    cl_step {| cl_log := log; cl_nodes := nodes; cl_calls := calls; cl_history := h |}
            {| cl_log := log; cl_nodes := nodes;
               cl_calls := <[id := {| tk_call := c; tk_clock := now; tk_node := n; tk_data := data; tk_pos := None; tk_res := None; tk_reply := None |}]> calls;
               cl_history := h ++ [Invoked id] |}
| cl_commit log nodes calls h id tk index term :
    calls !! id = Some tk -> tk_pos tk = None -> is_uint64 index -> index <> 0 -> is_uint64 term -> Forall (fun e => lg_Index e < index) log ->
    cl_step {| cl_log := log; cl_nodes := nodes; cl_calls := calls; cl_history := h |}
            {| cl_log := log ++ [{| lg_Index := index; lg_Term := term; lg_Data := tk_data tk |}]; cl_nodes := nodes;
               cl_calls := <[id := place (length log) tk]> calls; cl_history := h |}
| cl_apply log nodes calls h n mb e clock res t' :
    nodes !! n = Some mb -> log !! mb_applied mb = Some e -> Apply clock (mb_fsm mb) e = (Ret res, t') ->
    cl_step {| cl_log := log; cl_nodes := nodes; cl_calls := calls; cl_history := h |}
            {| cl_log := log; cl_nodes := <[n := {| mb_fsm := t'; mb_applied := S (mb_applied mb) |}]> nodes;
               cl_calls := resolve n (mb_applied mb) res <$> calls; cl_history := h |}
| cl_reply log nodes calls h id tk res r :
    calls !! id = Some tk -> tk_reply tk = None -> tk_res tk = Some res -> finish (tk_call tk) (Ret (Some res)) = r ->
    cl_step {| cl_log := log; cl_nodes := nodes; cl_calls := calls; cl_history := h |}
            {| cl_log := log; cl_nodes := nodes; cl_calls := <[id := reply r tk]> calls; cl_history := h ++ [Replied id r] |}
| cl_fail log nodes calls h id tk e r :
    calls !! id = Some tk -> tk_reply tk = None -> finish (tk_call tk) (Fail e) = r ->
    cl_step {| cl_log := log; cl_nodes := nodes; cl_calls := calls; cl_history := h |}
            {| cl_log := log; cl_nodes := nodes; cl_calls := <[id := reply r tk]> calls; cl_history := h ++ [Replied id r] |}.

Definition cl_empty : cl_state := {| cl_log := []; cl_nodes := ∅; cl_calls := ∅; cl_history := [] |}.

Inductive cl_reachable : cl_state -> Prop :=
| reach_empty : cl_reachable cl_empty
| reach_step s s' : cl_reachable s -> cl_step s s' -> cl_reachable s'.

(** ** The sequential store *)

(** A write on the abstract store, at the clock at which it was accepted and with a log index as its
    version. *)
Definition call_spec (now : Z) (m : model) (index : Z) (c : call) : result answer * model :=
  let answers {A} (f : A -> answer) (r : effect A) : result answer * model := let '(x, m', _) := r in (a ← x; Ret (f a), m') in
  match c with
  | CPut r => answers AStatus (put_spec now m r index)
  | CTouch r => answers AStatus (touch_spec now m r index)
  | CRemove r => answers AStatus (remove_spec m r)
  | CIncrement r => answers AIncrement (increment_spec now m r index)
  | CBatch r => answers AStatus (batch_spec now m r index)
  | CReclaim r => answers ACount (reclaim_spec m r)
  end.

End Cluster.

Section Sequential.
Context `{UuidPkg} `{Badger} `{StorePkg} `{Payloads} `{!Struct headRecord}.

(** The store and the chain at the start. *)
Variables (m0 : model) (c0 : HashChain).

(** The abstract store and chain after a log; the clock does not matter. *)
Definition spec_step (s : model * HashChain) (e : RaftLog) : model * HashChain :=
  let '(_, m, c, _) := apply_spec 0 (fst s) (snd s) e in (m, c).

Definition spec_state (log : list RaftLog) : model * HashChain :=
  fold_left spec_step log (m0, c0).

(** The answer of the abstract state machine to the entry at a place. *)
Definition spec_result (log : list RaftLog) (p : nat) : option (result fsmResult) :=
  match log !! p with
  | Some e => let '(m, c) := spec_state (take p log) in Some (fst (fst (fst (apply_spec 0 m c e))))
  | None => None
  end.

(** The store an entry meets: that after the entries before it, with the head of the chain, this
    entry included, written into it. *)
Definition store_before (log : list RaftLog) (p : nat) (e : RaftLog) : model :=
  let '(m, c) := spec_state (take p log) in
  fst (head_spec 0 m (Advance c (lg_Index e) (lg_Term e) (lg_Data e)) (lg_Index e)).

(** One event comes before another. *)
Definition precedes (x y : event) (h : list event) : Prop := exists h1 h2 h3, h = h1 ++ x :: h2 ++ y :: h3.

End Sequential.
