(* ===== verification/ClusterProps.v ===== *)
(** * Properties of the cluster

    Writes are linearizable: every answer is the answer of one sequential store that executes the
    writes in the order of the log, and the log respects the order of writes that do not overlap.
    Every node shows that store after a prefix of the log, and a committed write can always be
    answered. *)

From S2P Require Import Prelude Sha256 Pb Keys Engine Storage StorageSpec StorageReads StorageProps Value Command Service Ledger Fsm FsmProps Replication Cluster.

Section Props.
Context `{UuidPkg} `{!UuidLaws} `{Badger} `{!BadgerSpec} `{StorePkg} `{!StoreLaws}.
Context `{Payloads} `{!PayloadLaws} `{!Struct headRecord} `{!StructLaws headRecord}.

(** ** The two halves of a write *)

Lemma applyCommand_split {W} `{!Raft W} Pool (w : W) op msg :
  raft_initialized w = true -> raft_is_leader w = true ->
  applyCommand Pool w op msg =
  match encodeCommand op msg with
  | Fail e => (Fail e, w)
  | Panic => (Panic, w)
  | Ret data =>
      let '(r, w') := raft_Apply w data in
      (match r with
       | Fail e => Fail (ErrWrap (str "raft apply") e) | Panic => Panic
       | Ret None => Fail (ErrNew (str "unexpected fsm response type")) | Ret (Some res) => Ret res end, w')
  end.
Proof.
  intros Hi Hl. unfold applyCommand. rewrite Hi, Hl. cbn [negb]. destruct (encodeCommand op msg) as [data|?|]; [|done..].
  by destruct (raft_Apply w data) as [[[res|]|?|] w'].
Qed.

(** What the leader's service does with a write is [submit], raft's [Apply] and [finish]. *)
Lemma serve_split {W} `{!HasStorage W} `{!Raft W} Pool now now' (w : W) c :
  raft_initialized w = true -> raft_is_leader w = true ->
  serve Pool now now' w c =
  match submit now c with
  | Fail e => (Fail e, w)
  | Panic => (Panic, w)
  | Ret data => let '(r, w') := raft_Apply w data in (finish c r, w')
  end.
Proof.
  intros Hi Hl. unfold serve, submit.
  destruct c as [r|r|r|r|r|r]; cbn [command_of];
    unfold svc_Put, svc_Touch, svc_Remove, svc_Increment, svc_Batch, replicates; cbn [raft_replicator Enabled];
    unfold Replicator_Enabled; rewrite ?Hi; cbn [raft_replicator rep_Put rep_Touch rep_Remove rep_Increment rep_Batch];
    unfold repl_Put, repl_Touch, repl_Remove, repl_Increment, repl_Batch, repl_Reclaim, apply, apply_result;
    rewrite applyCommand_split by done; (destruct (encodeCommand _ _) as [data|?|]; [|done..]);
    (destruct (raft_Apply w data) as [[[res|]|?|] w']; [|done..]); cbn [finish result_answer fst snd]; by destruct (fr_err res).
Qed.

Lemma command_of_ok now c : call_ok c ->
  payload_ok (fst (command_of now c)) (snd (command_of now c)) = true /\ message_ok (snd (command_of now c)) /\ message_stamped (snd (command_of now c)).
Proof.
  destruct c as [r|r|r|r|r|r]; cbn; intros Hc; (split; [done|]); split; try done; try (by apply resolveExpiry_int64);
    try apply stamp_record_stamped; try apply stamp_increment_stamped; try apply stamp_batch_stamped.
  apply Forall_fmap. eapply Forall_impl; [exact Hc|]. intros x Hx. by apply resolveExpiry_int64.
Qed.

Lemma submit_decodes now c data : call_ok c -> submit now c = Ret data -> decodeCommand data = (fst (command_of now c), Ret (snd (command_of now c))).
Proof.
  intros Hc. unfold submit. destruct (command_of_ok now c Hc) as [Hp _]. destruct (command_of now c) as [op msg]. by apply encode_decode.
Qed.

(** The specification of a command is the specification of its write. *)
Lemma command_call_spec now now' m index c :
  exists r evs, command_spec now' m index (fst (command_of now c)) (snd (command_of now c)) = (r, snd (call_spec now m index c), evs) /\
    forall res, r = Ret res -> finish c (Ret (Some res)) = fst (call_spec now m index c).
Proof.
  destruct c as [q|q|q|q|q|q]; cbn [command_of fst snd command_spec call_spec].
  1: change (opPut =? opPut) with true; rewrite put_spec_stamp; destruct (put_spec now m q index) as [[[x|e|] m'] evs].
  4: change (opTouch =? opPut) with false; rewrite touch_spec_stamp; destruct (touch_spec now m q index) as [[[x|e|] m'] evs].
  7: destruct (remove_spec m q) as [[[x|e|] m'] evs].
  10: rewrite increment_spec_stamp; destruct (increment_spec now m q index) as [[[x|e|] m'] evs].
  13: rewrite batch_spec_stamp; destruct (batch_spec now m q index) as [[[x|e|] m'] evs].
  16: destruct (reclaim_spec m q) as [[[x|e|] m'] evs].
  all: cbn [status_of incr_of reclaimed_of status_result incr_result reclaimed_result]; eexists _, evs; (split; [reflexivity|]).
  all: by intros res [= <-].
Qed.

(** ** The sequential store along a growing log *)

(** The abstract state machine answers every entry: errors are part of the answer. *)
Lemma apply_spec_answers now m c e : exists res, fst (fst (fst (apply_spec now m c e))) = Ret res.
Proof.
  pose proof (apply_spec_no_panic now m c e) as HP. unfold apply_spec in *. destruct (head_spec now m _ (lg_Index e)) as [m1 evs1].
  destruct (decodeCommand (lg_Data e)) as [op [msg|err|]]; [|by eexists|done].
  assert (forall r, (exists x, r = status_result x) \/ (exists y, r = incr_result y) \/ (exists z, r = reclaimed_result z) ->
    r <> Panic -> exists res, r = Ret res) as HS.
  { intros r [[x ->]|[[y ->]|[z ->]]] Hr; [destruct x|destruct y|destruct z]; cbn in *; eauto; done. }
  destruct msg as [q|q|q|q|q]; cbn [command_spec] in *; unfold status_of, incr_of, reclaimed_of in *;
    repeat match goal with |- context [if ?b then _ else _] => destruct b end;
    match goal with |- context [let '(_, _) := match ?sp with pair _ _ => _ end in _] => destruct sp as [[x m2] evs2] end; cbn [fst snd] in *;
    apply HS; try done; eauto.
Qed.

Section Run.
Variables (fsm0 : FSM) (c0 : HashChain).
Hypothesis fsm0_chain : fsm_chain fsm0 = Some c0.
Hypothesis engine : BadgerReliable.

Let m0 := contents (fsm_Storage fsm0).

Lemma spec_state_snoc log e : spec_state m0 c0 (log ++ [e]) = spec_step (spec_state m0 c0 log) e.
Proof. unfold spec_state. by rewrite fold_left_app. Qed.

Lemma spec_result_app log more p : (p < length log)%nat -> spec_result m0 c0 (log ++ more) p = spec_result m0 c0 log p.
Proof. intros Hp. unfold spec_result. rewrite lookup_app_l, take_app_le by lia. done. Qed.

Lemma take_next {A} (l : list A) p x : l !! p = Some x -> take (S p) l = take p l ++ [x].
Proof. apply take_S_r. Qed.

(** A state machine that shows the sequential store after a log. *)
Definition shows (t : FSM) (log : list RaftLog) : Prop :=
  contents (fsm_Storage t) = fst (spec_state m0 c0 log) /\ fsm_chain t = Some (snd (spec_state m0 c0 log)).

Lemma shows_start : shows fsm0 [].
Proof. by split. Qed.

(** Applying the next entry gives the sequential answer and keeps up with the sequential store. *)
Lemma shows_apply clock t log e p :
  shows t (take p log) -> log !! p = Some e -> entry_ok e -> entry_holds message_stamped e ->
  exists res t', Apply clock t e = (Ret res, t') /\ shows t' (take (S p) log) /\ spec_result m0 c0 log p = Some (Ret res).
Proof.
  intros [Hc Hch] He Hok Hs. unfold shows, spec_result. rewrite He, (take_next _ _ _ He), spec_state_snoc.
  destruct (spec_state m0 c0 (take p log)) as [m c]. cbn [fst snd] in *. unfold spec_step. cbn [fst snd].
  pose proof (apply_spec_clock clock 0 m c e Hs) as EC. subst m.
  destruct (apply_spec 0 (contents (fsm_Storage t)) c e) as [[[r m'] c'] evs] eqn:Es. cbn [fst snd] in *.
  destruct (Apply_does clock t e c r m' c' evs engine Hok Hch EC) as (t' & EA & Hm & Hch' & _).
  pose proof (apply_spec_answers 0 (contents (fsm_Storage t)) c e) as [res Hres]. rewrite Es in Hres. cbn [fst] in Hres. subst r.
  exists res, t'. done.
Qed.

(** ** The invariant *)

Definition ticket_ok (log : list RaftLog) (tk : ticket) : Prop :=
  call_ok (tk_call tk) /\ submit (tk_clock tk) (tk_call tk) = Ret (tk_data tk) /\
  (forall p, tk_pos tk = Some p -> exists e, log !! p = Some e /\ lg_Data e = tk_data tk) /\
  (forall res, tk_res tk = Some res -> exists p, tk_pos tk = Some p /\ spec_result m0 c0 log p = Some (Ret res)) /\
  (forall a, tk_reply tk = Some (Ret a) -> exists res, tk_res tk = Some res /\ finish (tk_call tk) (Ret (Some res)) = Ret a).

Definition member_ok (log : list RaftLog) (mb : member) : Prop :=
  (mb_applied mb <= length log)%nat /\ shows (mb_fsm mb) (take (mb_applied mb) log).

(** The replies that were given, and the order of places. *)
Definition history_ok (calls : gmap nat ticket) (h : list event) : Prop :=
  (forall id, Invoked id ∈ h -> is_Some (calls !! id)) /\
  (forall id r, Replied id r ∈ h -> exists tk, calls !! id = Some tk /\ tk_reply tk = Some r) /\
  (forall id1 id2 a tk2 p2, precedes (Replied id1 (Ret a)) (Invoked id2) h -> calls !! id2 = Some tk2 -> tk_pos tk2 = Some p2 ->
     exists tk1 p1, calls !! id1 = Some tk1 /\ tk_pos tk1 = Some p1 /\ (p1 < p2)%nat).

Record cl_inv (s : cl_state) : Prop := {
  inv_entries : Forall (fun e => entry_ok e /\ entry_holds message_stamped e) (cl_log s);
  inv_nodes : map_Forall (fun _ => member_ok (cl_log s)) (cl_nodes s);
  inv_calls : map_Forall (fun _ => ticket_ok (cl_log s)) (cl_calls s);
  inv_places : forall id1 id2 tk1 tk2 p, cl_calls s !! id1 = Some tk1 -> cl_calls s !! id2 = Some tk2 ->
    tk_pos tk1 = Some p -> tk_pos tk2 = Some p -> id1 = id2;
  inv_history : history_ok (cl_calls s) (cl_history s)
}.

Lemma ticket_ok_app log e tk : ticket_ok log tk -> ticket_ok (log ++ [e]) tk.
Proof.
  intros (Hc & Hs & Hp & Hr & Ha). split; [done|]. split; [done|]. split; [|split; [|done]].
  - intros p Ep. destruct (Hp p Ep) as (x & Hx & Hd). exists x. split; [by apply lookup_app_l_Some|done].
  - intros res Er. destruct (Hr res Er) as (p & Ep & Hres). exists p. split; [done|]. rewrite spec_result_app; [done|].
    destruct (Hp p Ep) as (x & Hx & _). by eapply lookup_lt_Some.
Qed.

Lemma member_ok_app log e mb : member_ok log mb -> member_ok (log ++ [e]) mb.
Proof. intros [Hl Hs]. split; [rewrite length_app; lia|]. by rewrite take_app_le. Qed.

Lemma precedes_snoc x y h z : precedes x y (h ++ [z]) -> precedes x y h \/ (y = z /\ x ∈ h).
Proof.
  intros (h1 & h2 & h3 & E). destruct h3 as [|w h3 _] using rev_ind.
  - right. rewrite app_comm_cons, app_assoc in E. apply app_inj_tail in E as [-> ->]. split; [done|]. set_solver.
  - left. rewrite !app_comm_cons, !app_assoc in E. apply app_inj_tail in E as [-> _]. exists h1, h2, h3. by rewrite <- !app_assoc.
Qed.

Lemma precedes_in x y h : precedes x y h -> x ∈ h /\ y ∈ h.
Proof. intros (h1 & h2 & h3 & ->). set_solver. Qed.

(** Steps that add nothing to the history keep it right when replies stay and a new place is past
    every old one. *)
Lemma history_ok_calls (calls calls' : gmap nat ticket) h :
  history_ok calls h ->
  (forall id tk, calls !! id = Some tk -> exists tk', calls' !! id = Some tk' /\ tk_reply tk' = tk_reply tk /\ (forall p, tk_pos tk = Some p -> tk_pos tk' = Some p)) ->
  (forall id tk' p, calls' !! id = Some tk' -> tk_pos tk' = Some p ->
     (exists tk, calls !! id = Some tk /\ tk_pos tk = Some p) \/ (forall id1 tk1 a, calls !! id1 = Some tk1 -> tk_reply tk1 = Some (Ret a) -> exists p1, tk_pos tk1 = Some p1 /\ (p1 < p)%nat)) ->
  history_ok calls' h.
Proof.
  intros (HI & HR & HO) Hkeep Hnew. split; [|split].
  - intros id Hin. destruct (HI id Hin) as [tk Htk]. destruct (Hkeep id tk Htk) as (tk' & -> & _). by eexists.
  - intros id r Hin. destruct (HR id r Hin) as (tk & Htk & Hr). destruct (Hkeep id tk Htk) as (tk' & Hk & Er & _). exists tk'. split; [done|congruence].
  - intros id1 id2 a tk2 p2 Hpr K2 P2. destruct (precedes_in _ _ _ Hpr) as [Hin _]. destruct (HR id1 (Ret a) Hin) as (tk1 & K1 & R1).
    assert (exists p1, tk_pos tk1 = Some p1 /\ (p1 < p2)%nat) as (p1 & P1 & Hlt).
    { destruct (Hnew id2 tk2 p2 K2 P2) as [(tk2' & K2' & P2')|HN]; [|by apply (HN id1 tk1 a)].
      destruct (HO id1 id2 a tk2' p2 Hpr K2' P2') as (tk1' & p1 & E1 & P1 & Hlt). exists p1. split; [congruence|done]. }
    destruct (Hkeep id1 tk1 K1) as (tk1' & E1 & _ & Hp). exists tk1', p1. split; [done|]. split; [by apply Hp|done].
Qed.

Lemma replied_placed (log : list RaftLog) (calls : gmap nat ticket) id tk a :
  map_Forall (fun _ => ticket_ok log) calls -> calls !! id = Some tk -> tk_reply tk = Some (Ret a) -> exists p, tk_pos tk = Some p /\ (p < length log)%nat.
Proof.
  intros HF Hk Hr. destruct (HF id tk Hk) as (_ & _ & Hp & Hres & Ha). destruct (Ha a Hr) as (res & Er & _). destruct (Hres res Er) as (p & Ep & _).
  exists p. split; [done|]. destruct (Hp p Ep) as (e & He & _). by eapply lookup_lt_Some.
Qed.

Lemma elem_snoc {A} (x y : A) l : x ∈ l ++ [y] <-> x ∈ l \/ x = y.
Proof. by rewrite elem_of_app, list_elem_of_singleton. Qed.

Lemma history_invoke (calls : gmap nat ticket) h id tk :
  history_ok calls h -> calls !! id = None -> tk_pos tk = None -> history_ok (<[id := tk]> calls) (h ++ [Invoked id]).
Proof.
  intros (HI & HR & HO) Hid Hp. assert (forall x tk', calls !! x = Some tk' -> <[id := tk]> calls !! x = Some tk') as Hold
    by (intros x tk' Hx; rewrite lookup_insert_ne; [done|congruence]).
  split; [|split].
  - intros x [Hx|[= ->]]%elem_snoc; [|by rewrite lookup_insert_eq; eexists]. destruct (HI x Hx) as [tk' Hk]. exists tk'. by apply Hold.
  - intros x r [Hx|?]%elem_snoc; [|done]. destruct (HR x r Hx) as (tk' & Hk & Hr). exists tk'. split; [by apply Hold|done].
  - intros id1 id2 a tk2 p2 Hpr [[<- <-]|[N2 K2]]%lookup_insert_Some P2; [congruence|].
    destruct (precedes_snoc _ _ _ _ Hpr) as [Hpr'|[[= <-] _]]; [|done].
    destruct (HO id1 id2 a tk2 p2 Hpr' K2 P2) as (tk1 & p1 & K1 & P1 & Hlt). exists tk1, p1. split; [by apply Hold|done].
Qed.

Lemma history_reply (calls : gmap nat ticket) h id tk r :
  history_ok calls h -> calls !! id = Some tk -> tk_reply tk = None -> history_ok (<[id := reply r tk]> calls) (h ++ [Replied id r]).
Proof.
  intros (HI & HR & HO) Hid Hn.
  assert (forall x tk', calls !! x = Some tk' -> exists tk'', <[id := reply r tk]> calls !! x = Some tk'' /\ tk_pos tk'' = tk_pos tk' /\ (x <> id -> tk'' = tk')) as Hold.
  { intros x tk' Hx. destruct (decide (x = id)) as [->|Hne]; [rewrite lookup_insert_eq|rewrite lookup_insert_ne by done]; eexists; (split; [done|]).
    - split; [|done]. cbn. congruence.
    - by split. }
  split; [|split].
  - intros x [Hx|?]%elem_snoc; [|done]. destruct (HI x Hx) as [tk' Hk]. destruct (Hold x tk' Hk) as (tk'' & -> & _). by eexists.
  - intros x r' [Hx|[= -> ->]]%elem_snoc; [|rewrite lookup_insert_eq; by eexists]. destruct (HR x r' Hx) as (tk' & Hk & Hr).
    destruct (Hold x tk' Hk) as (tk'' & E & _ & Es). exists tk''. split; [done|]. rewrite Es; [done|]. intros ->. congruence.
  - intros id1 id2 a tk2 p2 Hpr K2 P2. destruct (precedes_snoc _ _ _ _ Hpr) as [Hpr'|[? _]]; [|done].
    destruct (precedes_in _ _ _ Hpr') as [_ Hin]. destruct (HI id2 Hin) as [tk2' K2']. destruct (Hold id2 tk2' K2') as (tk2'' & E2 & Ep2 & _).
    destruct (HO id1 id2 a tk2' p2 Hpr' K2' ltac:(congruence)) as (tk1 & p1 & K1 & P1 & Hlt). destruct (Hold id1 tk1 K1) as (tk1' & E1 & Ep1 & _).
    exists tk1', p1. split; [done|]. split; [congruence|done].
Qed.

Lemma resolve_pos n p res tk : tk_pos (resolve n p res tk) = tk_pos tk.
Proof. unfold resolve. by case_bool_decide. Qed.

Lemma resolve_reply n p res tk : tk_reply (resolve n p res tk) = tk_reply tk.
Proof. unfold resolve. by case_bool_decide. Qed.

(** Resolving a future a second time gives the same answer. *)
Lemma ticket_ok_resolve log n p res tk : ticket_ok log tk -> spec_result m0 c0 log p = Some (Ret res) -> ticket_ok log (resolve n p res tk).
Proof.
  intros (Hc & Hs & Hp & Hr & Ha) Hres. unfold resolve. case_bool_decide as E; [|done]. destruct E as [_ Ep].
  split; [done|]. split; [done|]. split; [done|]. split; cbn.
  - intros res' [= <-]. exists p. done.
  - intros a Hra. destruct (Ha a Hra) as (res' & Er & Hcmp). destruct (Hr res' Er) as (p' & Ep' & Hres'). exists res. split; [done|].
    assert (p' = p) as -> by congruence. rewrite Hres in Hres'. injection Hres' as <-. done.
Qed.

Lemma ticket_ok_reply log r tk : ticket_ok log tk -> (forall a, r = Ret a -> exists res, tk_res tk = Some res /\ finish (tk_call tk) (Ret (Some res)) = Ret a) ->
  ticket_ok log (reply r tk).
Proof. intros (Hc & Hs & Hp & Hr & _) Ha. repeat (split; [done|]). cbn. intros a [= ->]. by apply Ha. Qed.

(** Places of tickets that were changed without being moved. *)
Lemma places_insert (calls : gmap nat ticket) id tk tk' :
  calls !! id = Some tk -> tk_pos tk' = tk_pos tk ->
  (forall id1 id2 tk1 tk2 p, calls !! id1 = Some tk1 -> calls !! id2 = Some tk2 -> tk_pos tk1 = Some p -> tk_pos tk2 = Some p -> id1 = id2) ->
  forall id1 id2 tk1 tk2 p, <[id := tk']> calls !! id1 = Some tk1 -> <[id := tk']> calls !! id2 = Some tk2 -> tk_pos tk1 = Some p -> tk_pos tk2 = Some p -> id1 = id2.
Proof.
  intros Hid Hpos HP id1 id2 tk1 tk2 p [[<- <-]|[N1 K1]]%lookup_insert_Some [[<- <-]|[N2 K2]]%lookup_insert_Some P1 P2; try done.
  - apply (HP id id2 tk tk2 p); congruence.
  - apply (HP id1 id tk1 tk p); congruence.
  - by eapply HP.
Qed.

Lemma inv_reply log nodes calls h id tk r :
  cl_inv {| cl_log := log; cl_nodes := nodes; cl_calls := calls; cl_history := h |} -> calls !! id = Some tk -> tk_reply tk = None ->
  (forall a, r = Ret a -> exists res, tk_res tk = Some res /\ finish (tk_call tk) (Ret (Some res)) = Ret a) ->
  cl_inv {| cl_log := log; cl_nodes := nodes; cl_calls := <[id := reply r tk]> calls; cl_history := h ++ [Replied id r] |}.
Proof.
  intros [HE HN HC HP HH] Hid Hr Ha. cbn in *. split; cbn; [done|done| | |].
  - apply map_Forall_insert_2; [|done]. apply ticket_ok_reply; [by apply (HC id)|done].
  - by apply (places_insert calls id tk).
  - by apply history_reply.
Qed.

Lemma cluster_commit_inv log nodes calls h id tk index term :
  cl_inv {| cl_log := log; cl_nodes := nodes; cl_calls := calls; cl_history := h |} ->
  calls !! id = Some tk -> tk_pos tk = None -> is_uint64 index -> index <> 0 -> is_uint64 term ->
  cl_inv {| cl_log := log ++ [{| lg_Index := index; lg_Term := term; lg_Data := tk_data tk |}]; cl_nodes := nodes;
            cl_calls := <[id := place (length log) tk]> calls; cl_history := h |}.
Proof.
  intros [HE HN HC HP HH] Hid Hpos Hi Hi0 Ht. cbn in *. destruct (HC id tk Hid) as (Hc & Hs & _ & Hres & Ha).
  pose proof (submit_decodes _ _ _ Hc Hs) as Hd. destruct (command_of_ok (tk_clock tk) (tk_call tk) Hc) as (_ & Hok & Hst).
  split; cbn.
  - apply Forall_app. split; [done|]. apply Forall_singleton. split; [repeat (split; [done|])|]; intros op msg E; cbn in E; congruence.
  - intros n mb Hn. by apply member_ok_app, (HN n).
  - apply map_Forall_insert_2; [|intros x tk' Hx; by apply ticket_ok_app, (HC x)]. split; [done|]. split; [done|]. split; [|split; [|done]]; cbn.
    + intros p [= <-]. eexists. split; [by apply list_lookup_middle|done].
    + intros res Er. destruct (Hres res Er) as (p & Ep & _). congruence.
  - assert (forall x tk', calls !! x = Some tk' -> tk_pos tk' <> Some (length log)) as Hfresh.
    { intros x tk' Hx Ep. destruct (HC x tk' Hx) as (_ & _ & Hp & _). destruct (Hp _ Ep) as (e & He & _). apply lookup_lt_Some in He. lia. }
    intros id1 id2 tk1 tk2 p [[<- <-]|[N1 K1]]%lookup_insert_Some [[<- <-]|[N2 K2]]%lookup_insert_Some P1 P2; try done.
    + injection P1 as <-. by destruct (Hfresh id2 tk2 K2).
    + injection P2 as <-. by destruct (Hfresh id1 tk1 K1).
    + by eapply HP.
  - apply (history_ok_calls calls); [done| |].
    + intros x tk' Hx. destruct (decide (x = id)) as [->|Hne]; [rewrite lookup_insert_eq|rewrite lookup_insert_ne by done]; eexists; (split; [done|]).
      * assert (tk' = tk) as -> by congruence. split; [done|]. congruence.
      * by split.
    + intros x tk' p [[<- <-]|[Hne Hx]]%lookup_insert_Some Ep; [|left; by exists tk']. right. injection Ep as <-.
      intros id1 tk1 a K1 R1. by apply (replied_placed log calls id1 tk1 a).
Qed.

Lemma inv_apply log nodes calls h n mb e clock res t' :
  cl_inv {| cl_log := log; cl_nodes := nodes; cl_calls := calls; cl_history := h |} ->
  nodes !! n = Some mb -> log !! mb_applied mb = Some e -> Apply clock (mb_fsm mb) e = (Ret res, t') ->
  cl_inv {| cl_log := log; cl_nodes := <[n := {| mb_fsm := t'; mb_applied := S (mb_applied mb) |}]> nodes;
            cl_calls := resolve n (mb_applied mb) res <$> calls; cl_history := h |}.
Proof.
  intros [HE HN HC HP HH] Hn He HA. cbn in *. destruct (HN n mb Hn) as [Hle Hsh].
  pose proof (proj1 (Forall_lookup _ _) HE _ _ He) as [Hok Hst].
  destruct (shows_apply clock _ log e _ Hsh He Hok Hst) as (res' & t1 & HA' & Hsh' & Hres). rewrite HA in HA'. injection HA' as <- <-.
  split; cbn; [done| | | |].
  - apply map_Forall_insert_2; [|done]. split; [cbn; by apply lookup_lt_Some in He|done].
  - intros x tk' (tk & <- & Hx)%lookup_fmap_Some. apply ticket_ok_resolve; [by apply (HC x)|done].
  - intros id1 id2 tk1 tk2 p (tk1' & <- & K1)%lookup_fmap_Some (tk2' & <- & K2)%lookup_fmap_Some.
    rewrite !resolve_pos. by apply HP.
  - apply (history_ok_calls calls); [done| |].
    + intros x tk Hx. exists (resolve n (mb_applied mb) res tk). by rewrite lookup_fmap, Hx, resolve_pos, resolve_reply.
    + intros x tk' p (tk & <- & Hx)%lookup_fmap_Some Ep. left. exists tk. by rewrite resolve_pos in Ep.
Qed.

Lemma inv_step s s' : cl_inv s -> cl_step fsm0 s s' -> cl_inv s'.
Proof.
  intros HI Hst. destruct Hst as [log nodes calls h n Hn|log nodes calls h id n now c data Hid Hc Hs|log nodes calls h id tk index term Hid Hpos Hi Hi0 Ht Hgrow
    |log nodes calls h n mb e clock res t' Hn He HA|log nodes calls h id tk res r Hid Hr Hres Hcomp|log nodes calls h id tk e r Hid Hr Hcomp].
  - destruct HI as [HE HN HC HP HH]. split; cbn in *; try done. apply map_Forall_insert_2; [|done]. split; [cbn; lia|]. cbn. apply shows_start.
  - destruct HI as [HE HN HC HP HH]. split; cbn in *; try done.
    + apply map_Forall_insert_2; [|done]. by repeat (split; [done|]).
    + intros id1 id2 tk1 tk2 p [[<- <-]|[N1 K1]]%lookup_insert_Some [[<- <-]|[N2 K2]]%lookup_insert_Some P1 P2; try done. by eapply HP.
    + by apply history_invoke.
  - by apply cluster_commit_inv.
  - by eapply inv_apply.
  - apply inv_reply; [done..|]. intros a ->. by exists res.
  - apply inv_reply; [done..|]. intros a ->. done.
Qed.

Lemma reachable_inv s : cl_reachable fsm0 s -> cl_inv s.
Proof.
  induction 1 as [|s s' _ IH Hst]; [|by apply (inv_step s)]. split; cbn; [constructor|apply map_Forall_empty|apply map_Forall_empty|done|].
  split; [|split]; [intros id Hin|intros id r Hin|intros id1 id2 a tk2 p2 _ K2; done]; by apply not_elem_of_nil in Hin.
Qed.

(** What the entry of a write does to the sequential store. *)
Lemma entry_call_spec log p e now c :
  log !! p = Some e -> decodeCommand (lg_Data e) = (fst (command_of now c), Ret (snd (command_of now c))) ->
  fst (spec_state m0 c0 (take (S p) log)) = snd (call_spec now (store_before m0 c0 log p e) (lg_Index e) c) /\
  forall res, spec_result m0 c0 log p = Some (Ret res) -> finish c (Ret (Some res)) = fst (call_spec now (store_before m0 c0 log p e) (lg_Index e) c).
Proof.
  intros He Hd. unfold spec_result, store_before. rewrite He, (take_next _ _ _ He), spec_state_snoc.
  destruct (spec_state m0 c0 (take p log)) as [m ch]. unfold spec_step, apply_spec. cbn [fst snd]. rewrite Hd.
  destruct (head_spec 0 m _ (lg_Index e)) as [m1 evs1]. cbn [fst].
  destruct (command_call_spec now 0 m1 (lg_Index e) c) as (r & evs & -> & HC). cbn [fst snd]. split; [done|]. intros res [= ->]. by apply HC.
Qed.


(** Any number of steps. *)
Inductive cl_steps (s : cl_state) : cl_state -> Prop :=
| cl_refl : cl_steps s s
| cl_more s1 s2 : cl_steps s s1 -> cl_step fsm0 s1 s2 -> cl_steps s s2.

Lemma cl_steps_reachable s s' : cl_reachable fsm0 s -> cl_steps s s' -> cl_reachable fsm0 s'.
Proof. intros Hs. induction 1; [done|]. by eapply reach_step. Qed.

(** A node can always go on applying. *)
Lemma node_catches_up s n mb k :
  cl_reachable fsm0 s -> cl_nodes s !! n = Some mb -> (mb_applied mb + k <= length (cl_log s))%nat ->
  exists s' mb', cl_steps s s' /\ cl_log s' = cl_log s /\ cl_nodes s' !! n = Some mb' /\ mb_applied mb' = (mb_applied mb + k)%nat /\
    forall id tk, cl_calls s !! id = Some tk -> exists tk', cl_calls s' !! id = Some tk' /\ tk_call tk' = tk_call tk /\ tk_pos tk' = tk_pos tk /\
      tk_node tk' = tk_node tk /\ tk_reply tk' = tk_reply tk /\
      (tk_node tk = n -> forall p, tk_pos tk = Some p -> (mb_applied mb <= p < mb_applied mb + k)%nat -> is_Some (tk_res tk')) /\ (is_Some (tk_res tk) -> is_Some (tk_res tk')).
Proof.
  intros Hs Hn Hk. induction k as [|k IH].
  - exists s, mb. split; [constructor|]. split; [done|]. split; [done|]. split; [lia|]. intros id tk Htk. exists tk. repeat (split; [done|]). split; [lia|done].
  - destruct IH as (s1 & mb1 & Hst & Hlog & Hn1 & Ha1 & Hcalls); [lia|]. pose proof (reachable_inv s1 (cl_steps_reachable s s1 Hs Hst)) as HI.
    destruct s1 as [log nodes calls h]. cbn in *. subst log. destruct (lookup_lt_is_Some_2 (cl_log s) (mb_applied mb1)) as [e He]; [lia|].
    destruct HI as [HE HN _ _ _]. cbn in *. pose proof (proj1 (Forall_lookup _ _) HE _ _ He) as [Hok Hstm]. destruct (HN n mb1 Hn1) as [_ Hsh].
    destruct (shows_apply 0 _ _ e _ Hsh He Hok Hstm) as (res & t' & HA & _). eexists _, _.
    split; [eapply cl_more; [exact Hst|]; eapply (cl_apply fsm0 (cl_log s) nodes calls h n mb1 e 0 res t' Hn1 He HA)|]. cbn.
    split; [done|]. split; [apply lookup_insert_eq|]. split; [cbn; lia|]. intros id tk Htk.
    destruct (Hcalls id tk Htk) as (tk1 & K1 & Ec & Ep & En & Er & HR1 & HR2). exists (resolve n (mb_applied mb1) res tk1).
    split; [by rewrite lookup_fmap, K1|]. rewrite resolve_pos, resolve_reply. unfold resolve. case_bool_decide as E; cbn; do 4 (split; [done|]); [split; intros; by eexists|].
    split; [|done]. intros Hnode p Hp Hr.
    destruct (decide (p = mb_applied mb1)) as [->|Hne]; [destruct E; split; congruence|]. apply (HR1 Hnode p Hp). lia.
Qed.


End Run.
End Props.

(** ** Witnesses: one write through a cluster of one node *)

Section Witness.
#[local] Existing Instances flat_uuid flat_uuid_laws mem_badger mem_spec flat_store flat_store_laws
  flat_value flat_payloads flat_payload_laws flat_head flat_head_laws.

Definition demo_write : call := CPut (demo_record (str "v") 60 false 0).

Definition demo_ticket : ticket := {|
  tk_call := demo_write; tk_clock := 100; tk_node := 0; tk_data := lg_Data demo_put_log; tk_pos := None; tk_res := None; tk_reply := None |}.

Definition demo_committed : cl_state := {|
  cl_log := [demo_put_log]; cl_nodes := <[0%nat := {| mb_fsm := demo_fsm; mb_applied := 0 |}]> ∅;
  cl_calls := <[0%nat := place 0 demo_ticket]> (<[0%nat := demo_ticket]> ∅); cl_history := [Invoked 0] |}.

Lemma demo_committed_reachable : cl_reachable demo_fsm demo_committed.
Proof.
  eapply reach_step; [eapply reach_step; [eapply reach_step; [apply reach_empty|]|]|].
  - apply (cl_join demo_fsm [] ∅ ∅ [] 0). reflexivity.
  - apply (cl_invoke demo_fsm [] _ ∅ [] 0 0 100 demo_write (lg_Data demo_put_log)); [reflexivity|cbn; unfold is_int64; lia|reflexivity].
  - apply (cl_commit demo_fsm [] _ _ _ 0 demo_ticket 5 1); [reflexivity|reflexivity|unfold is_uint64; lia|lia|unfold is_uint64; lia|constructor].
Qed.

Definition demo_applied : result fsmResult * FSM := Apply 9000 demo_fsm demo_put_log.

Definition demo_result : fsmResult := match fst demo_applied with Ret r => r | _ => {| fr_status := None; fr_incr := None; fr_reclaimed := 0; fr_err := None |} end.

Definition demo_resolved : ticket := resolve 0 0 demo_result (place 0 demo_ticket).

Definition demo_answered : cl_state := {|
  cl_log := [demo_put_log]; cl_nodes := <[0%nat := {| mb_fsm := snd demo_applied; mb_applied := 1 |}]> (cl_nodes demo_committed);
  cl_calls := <[0%nat := reply (Ret (AStatus {| Updated := true |})) demo_resolved]> (resolve 0 0 demo_result <$> cl_calls demo_committed);
  cl_history := [Invoked 0; Replied 0 (Ret (AStatus {| Updated := true |}))] |}.

Lemma demo_answered_reachable : cl_reachable demo_fsm demo_answered.
Proof.
  eapply reach_step; [eapply reach_step; [exact demo_committed_reachable|]|].
  - apply (cl_apply demo_fsm [demo_put_log] _ _ _ 0 {| mb_fsm := demo_fsm; mb_applied := 0 |} demo_put_log 9000 demo_result (snd demo_applied));
      [apply lookup_insert_eq|reflexivity|]. apply pair_by_fst. vm_compute. reflexivity.
  - apply (cl_reply demo_fsm _ _ _ [Invoked 0] 0 demo_resolved demo_result);
      [rewrite lookup_fmap; unfold demo_committed; cbn [cl_calls]; rewrite lookup_insert_eq; reflexivity|reflexivity|reflexivity|vm_compute; reflexivity].
Qed.



End Witness.
