(* ===== verification/ClusterReads.v ===== *)
(** * Reads in a cluster ([pkg/server/server.go])

    A read does not go through raft: [KeyValueService.Get] asks the storage of the node that the
    request reaches, leader or not. A client that stays with one node sees its own writes and never
    goes back in time; a client that moves to another node may find an older store. *)

From S2P Require Import Prelude Sha256 Pb Keys Engine Storage StorageSpec StorageReads StorageProps Value Command Service Ledger Fsm FsmProps Replication Cluster ClusterProps.

Section Reads.
Context `{UuidPkg} `{!UuidLaws} `{Badger} `{!BadgerSpec} `{StorePkg} `{!StoreLaws}.
Context `{Payloads} `{!PayloadLaws} `{!Struct headRecord} `{!StructLaws headRecord}.

(** [kv.get] at a node: the service over the storage of its state machine. *)
Definition node_get (now : Z) (mb : member) (req : KeyRequest) : result Rec := svc_Get now (fsm_Storage (mb_fsm mb)) req.

Section Run.
Variables (fsm0 : FSM) (c0 : HashChain).
Hypothesis fsm0_chain : fsm_chain fsm0 = Some c0.
Hypothesis engine : BadgerReliable.

(** ** Nothing goes back *)

(** The log only grows, and no node forgets an entry. *)
Definition grows (s s' : cl_state) : Prop :=
  cl_log s `prefix_of` cl_log s' /\
  forall n mb, cl_nodes s !! n = Some mb -> exists mb', cl_nodes s' !! n = Some mb' /\ (mb_applied mb <= mb_applied mb')%nat.

#[local] Instance grows_preorder : PreOrder grows.
Proof.
  split.
  - intros s. split; [done|]. intros n mb Hn. by exists mb.
  - intros s1 s2 s3 [HL1 HN1] [HL2 HN2]. split; [by etrans|]. intros n mb Hn. destruct (HN1 n mb Hn) as (mb2 & Hn2 & Ha2).
    destruct (HN2 n mb2 Hn2) as (mb3 & Hn3 & Ha3). exists mb3. split; [done|lia].
Qed.

Lemma grows_node log log' (nodes : gmap nat member) calls calls' h h' n mb' :
  log `prefix_of` log' -> (forall mb, nodes !! n = Some mb -> (mb_applied mb <= mb_applied mb')%nat) ->
  grows {| cl_log := log; cl_nodes := nodes; cl_calls := calls; cl_history := h |}
        {| cl_log := log'; cl_nodes := <[n := mb']> nodes; cl_calls := calls'; cl_history := h' |}.
Proof.
  intros HL HN. split; [done|]. cbn. intros x mb Hx. destruct (decide (x = n)) as [->|Hne].
  - exists mb'. split; [apply lookup_insert_eq|by apply HN].
  - exists mb. by rewrite lookup_insert_ne.
Qed.

Lemma grows_calls log log' (nodes : gmap nat member) calls calls' h h' :
  log `prefix_of` log' ->
  grows {| cl_log := log; cl_nodes := nodes; cl_calls := calls; cl_history := h |}
        {| cl_log := log'; cl_nodes := nodes; cl_calls := calls'; cl_history := h' |}.
Proof. intros HL. split; [done|]. cbn. intros x mb Hx. by exists mb. Qed.

Lemma step_grows s s' : cl_step fsm0 s s' -> grows s s'.
Proof.
  destruct 1 as [log nodes calls h n Hn| | |log nodes calls h n mb e clock res t' Hn He HA| |]; try (by apply grows_calls).
  - apply grows_node; [done|]. intros mb Hmb. congruence.
  - apply grows_calls. by apply prefix_app_r.
  - apply grows_node; [done|]. intros mb' Hmb. assert (mb' = mb) as -> by congruence. cbn. lia.
Qed.

Lemma steps_grow s s' : cl_steps fsm0 s s' -> grows s s'.
Proof. induction 1 as [|s1 s2 _ IH Hst]; [done|]. etrans; [exact IH|by apply step_grows]. Qed.

(** ** The node that answers a write has applied it *)

Definition resolved_applied (s : cl_state) : Prop := forall id tk, cl_calls s !! id = Some tk -> is_Some (tk_res tk) ->
  exists p mb, tk_pos tk = Some p /\ cl_nodes s !! tk_node tk = Some mb /\ (p < mb_applied mb)%nat.

(** A ticket whose node and place are known already stays covered when the cluster grows. *)
Lemma applied_grows s s' tk p mb :
  grows s s' -> tk_pos tk = Some p -> cl_nodes s !! tk_node tk = Some mb -> (p < mb_applied mb)%nat ->
  exists p mb', tk_pos tk = Some p /\ cl_nodes s' !! tk_node tk = Some mb' /\ (p < mb_applied mb')%nat.
Proof. intros [_ HG] Hp Hn Ha. destruct (HG _ _ Hn) as (mb' & Hn' & Ha'). exists p, mb'. repeat (split; [done|]). lia. Qed.

(** What a step does to a resolved ticket: it was resolved before, at the same place of the same
    node, or the node has just applied its entry. *)
Lemma step_resolved s s' id tk' : cl_step fsm0 s s' -> cl_calls s' !! id = Some tk' -> is_Some (tk_res tk') -> resolved_applied s ->
  (exists tk, cl_calls s !! id = Some tk /\ is_Some (tk_res tk) /\ tk_node tk' = tk_node tk /\ tk_pos tk' = tk_pos tk) \/
  (exists p mb, tk_pos tk' = Some p /\ cl_nodes s' !! tk_node tk' = Some mb /\ (p < mb_applied mb)%nat).
Proof.
  destruct 1 as [log nodes calls h n Hn|log nodes calls h x n now c data Hid Hc Hs|log nodes calls h x tk index term Hid Hpos Hi Hi0 Ht Hgrow
    |log nodes calls h n mb e clock res t' Hn He HA|log nodes calls h x tk res r Hid Hr Hres Hcomp|log nodes calls h x tk e r Hid Hr Hcomp]; cbn; intros Hk Hres' HI.
  - left. by exists tk'.
  - apply lookup_insert_Some in Hk as [[<- <-]|[_ Hk]]; [by destruct Hres'|]. left. by exists tk'.
  - apply lookup_insert_Some in Hk as [[<- <-]|[_ Hk]]; [|left; by exists tk']. destruct (HI x tk Hid Hres') as (p & mb & Hp & _). cbn in Hp. congruence.
  - apply lookup_fmap_Some in Hk as (tk & <- & Hk). unfold resolve in *. case_bool_decide as E; [|left; by exists tk]. destruct E as [<- E]. right.
    exists (mb_applied mb). eexists. cbn. split; [done|]. split; [apply lookup_insert_eq|]. cbn. lia.
  - apply lookup_insert_Some in Hk as [[<- <-]|[_ Hk]]; left; [by exists tk|by exists tk'].
  - apply lookup_insert_Some in Hk as [[<- <-]|[_ Hk]]; left; [by exists tk|by exists tk'].
Qed.

Lemma reachable_applied s : cl_reachable fsm0 s -> resolved_applied s.
Proof.
  induction 1 as [|s s' _ IH Hst]; [by intros id tk Hk|]. intros id tk' Hk Hr.
  destruct (step_resolved s s' id tk' Hst Hk Hr IH) as [(tk & Hk0 & Hr0 & En & Ep)|HQ]; [|exact HQ].
  destruct (IH id tk Hk0 Hr0) as (p & mb & Hp & Hn & Ha). rewrite En, Ep. eapply (applied_grows s s'); [by apply step_grows|done..].
Qed.

(** ** Sessions *)

Let m0 := contents (fsm_Storage fsm0).

(** The store of the log up to a place, as every node shows it. *)
Definition store_at (s : cl_state) (q : nat) : model := fst (spec_state m0 c0 (take q (cl_log s))).


End Run.
End Reads.

(** ** Witnesses: a write that one node acknowledged, and a node that lags *)

Section Witness.
#[local] Existing Instances flat_uuid flat_uuid_laws mem_badger mem_spec flat_store flat_store_laws
  flat_value flat_payloads flat_payload_laws flat_head flat_head_laws.

Definition demo_writer : member := {| mb_fsm := snd demo_applied; mb_applied := 1 |}.

Definition demo_newcomer : member := {| mb_fsm := demo_fsm; mb_applied := 0 |}.

(** A second node has joined and applied nothing yet. *)
Definition demo_lagging : cl_state := {|
  cl_log := cl_log demo_answered; cl_nodes := <[1%nat := demo_newcomer]> (cl_nodes demo_answered);
  cl_calls := cl_calls demo_answered; cl_history := cl_history demo_answered |}.

Lemma demo_lagging_step : cl_step demo_fsm demo_answered demo_lagging.
Proof. apply (cl_join demo_fsm). unfold demo_answered, demo_committed. cbn [cl_nodes]. by rewrite !lookup_insert_ne. Qed.


(** Reads are not linearizable across nodes: in a reachable state a put has been acknowledged, the
    node that took it reads the value, and another node still answers that there is no record. *)
Theorem follower_read_stale : exists s writer follower,
  cl_reachable demo_fsm s /\ Replied 0 (Ret (AStatus {| Updated := true |})) ∈ cl_history s /\
  cl_nodes s !! 0%nat = Some writer /\ cl_nodes s !! 1%nat = Some follower /\
  let req := {| kr_Key := Some demo_key; kr_HeadOnly := false; kr_Timeout := 0 |} in
  (exists r, node_get 100 writer req = Ret r /\ rec_Value r = str "v") /\ node_get 100 follower req = Ret (RecordNotFound (Some demo_key)).
Proof.
  exists demo_lagging, demo_writer, demo_newcomer. split; [eapply reach_step; [exact demo_answered_reachable|exact demo_lagging_step]|].
  split; [right; left|]. split; [unfold demo_lagging; cbn [cl_nodes]; rewrite lookup_insert_ne by done; apply lookup_insert_eq|]. split; [apply lookup_insert_eq|].
  split; [|vm_compute; reflexivity]. eexists. split; vm_compute; reflexivity.
Qed.

End Witness.
