(* ===== verification/Quorum.v ===== *)
(** * Checkpoints and quorum certificates ([pkg/ledger/bls.go], [ca.go], [checkpoint.go],
    [signer.go], [verify.go], [pkg/replication/ledger_service.go])

    Nodes certified by the ledger CA sign the chain head; a quorum's signatures aggregate into
    a certificate anyone can check offline. BLS (cloudflare/circl) and Ed25519 are class
    parameters: the operations, and the documented correctness of signing (what an honest
    signer produces verifies). Unforgeability is not assumed anywhere. *)

From S2P Require Import Prelude Sha256 Pb Keys Engine Storage Value Command Ledger Fsm.

(** ** Signature schemes *)

Class BlsPkg : Type := {
  PrivKey : Type;
  PubKey : Type;
  bls_PublicKey : PrivKey -> PubKey;
  bls_Sign : PrivKey -> bytes -> bytes;
  bls_Verify : PubKey -> bytes -> bytes -> bool;
  bls_Aggregate : list bytes -> result bytes;
  bls_VerifyAggregate : list PubKey -> list bytes -> bytes -> bool;
  pub_MarshalBinary : PubKey -> result bytes;
  pub_UnmarshalBinary : bytes -> result PubKey;
  pub_Validate : PubKey -> bool;
  priv_UnmarshalBinary : bytes -> result PrivKey
}.

Class BlsLaws `{BlsPkg} : Prop := {
  bls_sign_verify : forall k m, bls_Verify (bls_PublicKey k) m (bls_Sign k m) = true;
  pub_roundtrip : forall k, exists b, pub_MarshalBinary (bls_PublicKey k) = Ret b /\
    pub_UnmarshalBinary b = Ret (bls_PublicKey k);
  pub_valid : forall k, pub_Validate (bls_PublicKey k) = true;
  aggregate_verify : forall ks ms, ks <> [] -> length ks = length ms -> NoDup ms ->
    exists agg, bls_Aggregate (zip_with bls_Sign ks ms) = Ret agg /\
      bls_VerifyAggregate (bls_PublicKey <$> ks) ms agg = true
}.

Class Ed25519Pkg : Type := {
  EdPriv : Type;
  ed_Public : EdPriv -> bytes;
  ed_Sign : EdPriv -> bytes -> bytes;
  ed_Verify : bytes -> bytes -> bytes -> bool;
  ed_NewKeyFromSeed : bytes -> EdPriv;
  ed_Seed : EdPriv -> bytes
}.

Class Ed25519Laws `{Ed25519Pkg} : Prop := {
  ed_sign_verify : forall k m, ed_Verify (ed_Public k) m (ed_Sign k m) = true
}.

Definition SeedSize : Z := 32.
Definition PublicKeySize : Z := 32.
Definition SignatureSize : Z := 48.

(** ** Data *)

Record NodeCert : Type := {
  nc_NodeID : bytes;
  nc_PublicKey : bytes;
  nc_NotAfter : Z; (* int64, 0 = no expiry *)
  nc_CASig : bytes
}.

Record Checkpoint : Type := {
  ck_Height : Z; (* uint64 *)
  ck_Term : Z;   (* uint64 *)
  ck_Digest : bytes;
  ck_Unix : Z    (* int64 *)
}.

Record QuorumCertificate : Type := {
  qc_Checkpoint : Checkpoint;
  qc_Signers : list bytes;
  qc_AggSig : bytes
}.

#[global] Instance Checkpoint_eq_dec : EqDecision Checkpoint.
Proof. solve_decision. Defined.

Definition domainCert : bytes := str "cdb/ledger/nodecert/v1".
Definition domainPoP : bytes := str "cdb/ledger/pop/v1".
Definition domainCkpt : bytes := str "cdb/ledger/checkpoint/v1".

(** ** Signed messages *)

Definition certBody (nodeID pub : bytes) (notAfter : Z) : bytes :=
  domainCert ++ [x00] ++ nodeID ++ [x00] ++ pub ++ be_put 8 (wrap64 notAfter).

Definition popMessage (nodeID pub : bytes) : bytes := domainPoP ++ [x00] ++ nodeID ++ [x00] ++ pub.

(** [Checkpoint.Bytes]. *)
Definition Checkpoint_Bytes (c : Checkpoint) : bytes :=
  be_put 8 (ck_Height c) ++ be_put 8 (ck_Term c) ++ ck_Digest c ++ be_put 8 (wrap64 (ck_Unix c)).

Definition signMessage (c : Checkpoint) (nodeID : bytes) : bytes :=
  domainCkpt ++ [x00] ++ Checkpoint_Bytes c ++ [x00] ++ nodeID.

Section Ops.
Context `{BlsPkg} `{Ed25519Pkg}.

(** ** Node keys ([bls.go]) *)

Definition ParseNodePublicKey (data : bytes) : result PubKey :=
  pub ← pub_UnmarshalBinary data;
  if negb (pub_Validate pub) then Fail (ErrNew (str "ledger: invalid node public key")) else Ret pub.

Definition Aggregate (sigs : list bytes) : result bytes :=
  if len sigs =? 0 then Fail (ErrNew (str "ledger: no signatures to aggregate")) else bls_Aggregate sigs.

Definition VerifyAggregate (pubs : list PubKey) (msgs : list bytes) (aggSig : bytes) : bool :=
  if (len pubs =? 0) || negb (len pubs =? len msgs) then false else bls_VerifyAggregate pubs msgs aggSig.

(** ** The CA ([ca.go]) *)

Definition ParseCA (seed : bytes) : result EdPriv :=
  if negb (len seed =? SeedSize) then Fail (ErrNew (str "ledger: CA seed size")) else Ret (ed_NewKeyFromSeed seed).

Definition ParseCAPublicKey (data : bytes) : result bytes :=
  if negb (len data =? PublicKeySize) then Fail (ErrNew (str "ledger: CA public key size")) else Ret data.

Definition ProofOfPossession (key : PrivKey) (nodeID : bytes) : result bytes :=
  pub ← pub_MarshalBinary (bls_PublicKey key); Ret (bls_Sign key (popMessage nodeID pub)).

Definition Issue (ca : EdPriv) (nodeID : bytes) (nodePub : PubKey) (pop : bytes) (notAfter : Z) : result NodeCert :=
  pub ← pub_MarshalBinary nodePub;
  if negb (bls_Verify nodePub (popMessage nodeID pub) pop) then
    Fail (ErrNew (str "ledger: proof-of-possession failed"))
  else
    Ret {| nc_NodeID := nodeID; nc_PublicKey := pub; nc_NotAfter := notAfter;
           nc_CASig := ed_Sign ca (certBody nodeID pub notAfter) |}.

(** [CAPublicKey.Verify]; a nil cert cannot occur in a [gmap]. *)
Definition CA_Verify (ca : bytes) (cert : NodeCert) (now : Z) : result PubKey :=
  if negb (nc_NotAfter cert =? 0) && negb (now =? 0) && (nc_NotAfter cert <? now) then
    Fail (ErrNew (str "ledger: node cert expired"))
  else if negb (ed_Verify ca (certBody (nc_NodeID cert) (nc_PublicKey cert) (nc_NotAfter cert)) (nc_CASig cert)) then
    Fail (ErrNew (str "ledger: node cert not signed by this CA"))
  else ParseNodePublicKey (nc_PublicKey cert).

(** ** Checkpoints ([checkpoint.go]) *)

Definition SignCheckpoint (key : PrivKey) (nodeID : bytes) (c : Checkpoint) : bytes :=
  bls_Sign key (signMessage c nodeID).

Definition BuildQuorumCertificate (c : Checkpoint) (sigs : gmap bytes bytes) : result QuorumCertificate :=
  if Z.of_nat (size sigs) =? 0 then Fail (ErrNew (str "ledger: no signatures for quorum certificate")) else
  let ids := merge_sort bytes_le (fst <$> map_to_list sigs) in
  let ordered := (fun id => default [] (sigs !! id)) <$> ids in
  agg ← Aggregate ordered;
  Ret {| qc_Checkpoint := c; qc_Signers := ids; qc_AggSig := agg |}.

(** The loop of [VerifyQuorum] over the signers. *)
Fixpoint verify_signers (ca : bytes) (c : Checkpoint) (certs : gmap bytes NodeCert) (now : Z)
    (signers : list bytes) (seen : gset bytes) (pubs : list PubKey) (msgs : list bytes) :
    result (list PubKey * list bytes) :=
  match signers with
  | [] => Ret (pubs, msgs)
  | id :: rest =>
      if decide (id ∈ seen) then Fail (ErrNew (str "ledger: duplicate signer")) else
      match certs !! id with
      | None => Fail (ErrNew (str "ledger: no cert for signer"))
      | Some cert =>
          match CA_Verify ca cert now with
          | Fail e => Fail (ErrWrap (str "ledger: signer") e)
          | Panic => Panic
          | Ret pub =>
              verify_signers ca c certs now rest ({[id]} ∪ seen) (pubs ++ [pub]) (msgs ++ [signMessage c id])
          end
      end
  end.

Definition VerifyQuorum (ca : bytes) (qc : option QuorumCertificate) (certs : gmap bytes NodeCert)
    (threshold now : Z) : result unit :=
  match qc with
  | None => Fail (ErrNew (str "ledger: empty quorum certificate"))
  | Some qc =>
      if len (qc_Signers qc) =? 0 then Fail (ErrNew (str "ledger: empty quorum certificate")) else
      if len (qc_Signers qc) <? threshold then Fail (ErrNew (str "ledger: quorum not met")) else
      '(pubs, msgs) ← verify_signers ca (qc_Checkpoint qc) certs now (qc_Signers qc) ∅ [] [];
      if negb (VerifyAggregate pubs msgs (qc_AggSig qc)) then
        Fail (ErrNew (str "ledger: aggregate signature invalid"))
      else Ret tt
  end.

(** ** Bundles and heads ([verify.go]) *)

Definition AddCert (b : gmap bytes NodeCert) (cert : NodeCert) : gmap bytes NodeCert :=
  <[nc_NodeID cert := cert]> b.

Definition MatchesHead (qc : QuorumCertificate) (index : Z) (digest : bytes) : result unit :=
  if negb (ck_Height (qc_Checkpoint qc) =? index) then Fail (ErrNew (str "ledger: checkpoint height")) else
  if negb (bool_decide (ck_Digest (qc_Checkpoint qc) = digest)) then Fail (ErrNew (str "ledger: checkpoint digest"))
  else Ret tt.

(** ** Node signers ([signer.go]) *)

Record NodeSigner : Type := { ns_key : PrivKey; ns_cert : NodeCert }.

Definition NodeSigner_Sign (s : NodeSigner) (c : Checkpoint) : bytes :=
  SignCheckpoint (ns_key s) (nc_NodeID (ns_cert s)) c.

Definition NewNodeSigner (key : PrivKey) (cert : NodeCert) : result NodeSigner :=
  pub ← pub_MarshalBinary (bls_PublicKey key);
  if negb (bool_decide (pub = nc_PublicKey cert)) then
    Fail (ErrNew (str "ledger: node cert does not certify this key"))
  else Ret {| ns_key := key; ns_cert := cert |}.

(** ** Attestation ([ledger_service.go]) *)

Section Attest.
Context `{UuidPkg} `{Badger} `{StorePkg} `{Payloads} `{!Struct headRecord} `{!Struct NodeCert}.

Record Attestation : Type := {
  at_checkpoint : Checkpoint;
  at_nodeID : bytes;
  at_sig : bytes;
  at_cert : bytes;
  at_signed : bool
}.

Definition EncodeCert (cert : NodeCert) : result bytes := v ← Marshal cert; Pack v.

Definition DecodeCert (raw : bytes) : result NodeCert := v ← Unpack raw; Unmarshal v.

Definition unsigned_head (c : Checkpoint) : Attestation :=
  {| at_checkpoint := c; at_nodeID := []; at_sig := []; at_cert := []; at_signed := false |}.

Definition signed_head (s : NodeSigner) (c : Checkpoint) : Attestation := {|
  at_checkpoint := c; at_nodeID := nc_NodeID (ns_cert s); at_sig := NodeSigner_Sign s c;
  at_cert := match EncodeCert (ns_cert s) with Ret raw => raw | _ => [] end; at_signed := true |}.

Definition Attest (now : Z) (fsm : FSM) (signer : option NodeSigner) (want : option Checkpoint) : Attestation :=
  let '(index, digest) := fst (ChainHead now fsm) in
  let own := {| ck_Height := index; ck_Term := 0; ck_Digest := digest; ck_Unix := now |} in
  match want with
  | Some c =>
      if negb (ck_Height c =? index) || negb (bool_decide (ck_Digest c = digest)) then unsigned_head own
      else match signer with None => unsigned_head c | Some s => signed_head s c end
  | None => match signer with None => unsigned_head own | Some s => signed_head s own end
  end.

End Attest.
End Ops.
