(* ===== verification/QuorumProps.v ===== *)
(** * Properties of checkpoints and quorum certificates

    Signed messages are unambiguous and separated by domain, an accepted certificate shows a
    threshold of distinct certified signers over one checkpoint, an honest quorum is always
    accepted, and a node attests only its own head. *)

From S2P Require Import Prelude Sha256 Pb Keys Engine Storage Value Command Ledger Fsm Quorum.

(** ** Signed messages *)

Definition ck_width (c : Checkpoint) : Prop :=
  is_uint64 (ck_Height c) /\ is_uint64 (ck_Term c) /\ is_int64 (ck_Unix c).

Lemma be_put_8_inj a b : is_uint64 a -> is_uint64 b -> be_put 8 a = be_put 8 b -> a = b.
Proof.
  intros Ha Hb E. apply (f_equal be_get) in E.
  by rewrite !be_get_put_small in E by (unfold is_uint64 in *; done).
Qed.

Lemma be_put_wrap_inj a b : is_int64 a -> is_int64 b -> be_put 8 (wrap64 a) = be_put 8 (wrap64 b) -> a = b.
Proof.
  intros Ha Hb E. apply be_put_8_inj in E; [|apply wrap64_range..].
  by rewrite <- (int64_wrap64 a Ha), <- (int64_wrap64 b Hb), E.
Qed.

Lemma Checkpoint_Bytes_inj c1 c2 r1 r2 :
  ck_width c1 -> ck_width c2 -> length (ck_Digest c1) = length (ck_Digest c2) ->
  Checkpoint_Bytes c1 ++ r1 = Checkpoint_Bytes c2 ++ r2 -> c1 = c2 /\ r1 = r2.
Proof.
  intros (Hh1 & Ht1 & Hu1) (Hh2 & Ht2 & Hu2) Hl E. unfold Checkpoint_Bytes in E. rewrite <- !app_assoc in E.
  apply app_inj_1 in E as [Eh E]; [|by rewrite !length_be_put].
  apply app_inj_1 in E as [Et E]; [|by rewrite !length_be_put].
  apply app_inj_1 in E as [Ed E]; [|done].
  apply app_inj_1 in E as [Eu ->]; [|by rewrite !length_be_put].
  apply be_put_8_inj in Eh; [|done..]. apply be_put_8_inj in Et; [|done..]. apply be_put_wrap_inj in Eu; [|done..].
  destruct c1, c2; cbn in *; by subst.
Qed.

Lemma signMessage_inj c1 c2 id1 id2 :
  ck_width c1 -> ck_width c2 -> length (ck_Digest c1) = length (ck_Digest c2) ->
  signMessage c1 id1 = signMessage c2 id2 -> c1 = c2 /\ id1 = id2.
Proof.
  intros W1 W2 Hl E. unfold signMessage in E. do 2 apply app_inv_head in E.
  apply Checkpoint_Bytes_inj in E as [-> E]; [|done..]. by apply app_inv_head in E.
Qed.

(** The messages of one checkpoint differ exactly by the node id. *)
Lemma signMessage_id_inj c id1 id2 : signMessage c id1 = signMessage c id2 -> id1 = id2.
Proof. unfold signMessage. intros E. by do 4 apply app_inv_head in E. Qed.

Section Props.
Context `{BlsPkg} `{Ed25519Pkg}.

(** ** What the verification loop checks *)

(** The cert of a signer is in the map, unexpired, signed by the CA, and certifies [pub]. *)
Definition certified (ca : bytes) (certs : gmap bytes NodeCert) (now : Z) (id : bytes) (pub : PubKey) : Prop :=
  exists cert, certs !! id = Some cert /\
    ed_Verify ca (certBody (nc_NodeID cert) (nc_PublicKey cert) (nc_NotAfter cert)) (nc_CASig cert) = true /\
    (nc_NotAfter cert = 0 \/ now = 0 \/ now <= nc_NotAfter cert) /\
    pub_UnmarshalBinary (nc_PublicKey cert) = Ret pub /\ pub_Validate pub = true.

Lemma CA_Verify_ret ca cert now pub :
  CA_Verify ca cert now = Ret pub <->
  ed_Verify ca (certBody (nc_NodeID cert) (nc_PublicKey cert) (nc_NotAfter cert)) (nc_CASig cert) = true /\
  (nc_NotAfter cert = 0 \/ now = 0 \/ now <= nc_NotAfter cert) /\
  pub_UnmarshalBinary (nc_PublicKey cert) = Ret pub /\ pub_Validate pub = true.
Proof.
  unfold CA_Verify, ParseNodePublicKey.
  destruct (Z.eqb_spec (nc_NotAfter cert) 0), (Z.eqb_spec now 0), (Z.ltb_spec (nc_NotAfter cert) now);
    cbn [negb andb]; try (split; [done|intros (_ & Ht & _); lia]).
  all: destruct (ed_Verify ca _ (nc_CASig cert)); cbn [negb]; [|split; [done|intros (? & _); done]].
  all: destruct (pub_UnmarshalBinary (nc_PublicKey cert)) as [p|?|]; cbn [mbind outcome_bind];
    [|split; [done|intros (_ & _ & ? & _); done]..].
  all: destruct (pub_Validate p) eqn:EV; cbn [negb];
    (split; [try done; intros [= <-]; repeat split; try done; lia|intros (_ & _ & [= <-] & ?); congruence]).
Qed.

Lemma verify_signers_spec ca c certs now signers seen pubs msgs pubs' msgs' :
  verify_signers ca c certs now signers seen pubs msgs = Ret (pubs', msgs') ->
  NoDup signers /\ (forall id, id ∈ signers -> id ∉ seen) /\
  exists ps, pubs' = pubs ++ ps /\ msgs' = msgs ++ (signMessage c <$> signers) /\
    Forall2 (certified ca certs now) signers ps.
Proof.
  revert seen pubs msgs. induction signers as [|id rest IH]; intros seen pubs msgs; cbn [verify_signers].
  { intros [= <- <-]. split; [constructor|]. split; [by intros id Hid%not_elem_of_nil|].
    exists []. by rewrite !app_nil_r. }
  case_decide as Hs; [done|]. destruct (certs !! id) as [cert|] eqn:Ec; [|done].
  destruct (CA_Verify ca cert now) as [pub|?|] eqn:EV; [|done|done]. intros HV.
  apply IH in HV as (Hn & Hseen & ps & -> & -> & HF).
  split; [constructor; [|done]|split].
  - intros Hin. apply (Hseen id Hin). set_solver.
  - intros x [->|Hx]%elem_of_cons; [done|]. specialize (Hseen x Hx). set_solver.
  - exists (pub :: ps). rewrite <- !app_assoc. split; [done|]. split; [done|]. constructor; [|done].
    apply CA_Verify_ret in EV as (? & ? & ? & ?). by exists cert.
Qed.

(** Conversely, certified distinct signers pass the loop. *)
Lemma verify_signers_complete ca c certs now signers ps seen pubs msgs :
  NoDup signers -> (forall id, id ∈ signers -> id ∉ seen) -> Forall2 (certified ca certs now) signers ps ->
  verify_signers ca c certs now signers seen pubs msgs = Ret (pubs ++ ps, msgs ++ (signMessage c <$> signers)).
Proof.
  intros Hn Hs HF. revert seen pubs msgs Hn Hs.
  induction HF as [|id p rest ps Hc HF IH]; intros seen pubs msgs Hn Hs; cbn [verify_signers].
  { by rewrite !app_nil_r. }
  inversion Hn as [|? ? Hni Hn']; subst.
  rewrite decide_False by (apply Hs; by left). destruct Hc as (cert & -> & Hcert).
  rewrite (proj2 (CA_Verify_ret ca cert now p) Hcert). rewrite IH; [by rewrite <- !app_assoc|done|].
  intros x Hx. specialize (Hs x (proj2 (elem_of_cons _ _ _) (or_intror Hx))). set_solver.
Qed.

(** ** Properties *)

(** Signatures cannot be moved. Two attestations with digests of the same size sign the
    same bytes only if they attest the same checkpoint, all of its fields, for the same node;
    and no attestation shares its bytes with a certificate body or a proof of possession. *)
Theorem signed_messages_separate (c1 c2 : Checkpoint) (id1 id2 pub : bytes) (notAfter : Z) :
  ck_width c1 -> ck_width c2 -> length (ck_Digest c1) = length (ck_Digest c2) ->
  (signMessage c1 id1 = signMessage c2 id2 -> c1 = c2 /\ id1 = id2) /\
  signMessage c1 id1 <> popMessage id2 pub /\
  signMessage c1 id1 <> certBody id2 pub notAfter /\
  popMessage id1 pub <> certBody id2 pub notAfter.
Proof.
  intros W1 W2 Hl. split; [by apply signMessage_inj|].
  unfold signMessage, popMessage, certBody, domainCkpt, domainPoP, domainCert.
  repeat split; intros E; apply (f_equal (fun l => nth 11 l x00)) in E; vm_compute in E; discriminate.
Qed.

(** What acceptance checks. *)
Lemma VerifyQuorum_accepts (ca : bytes) (qc : QuorumCertificate) (certs : gmap bytes NodeCert)
    (threshold now : Z) :
  VerifyQuorum ca (Some qc) certs threshold now = Ret tt ->
  threshold <= len (qc_Signers qc) /\ 0 < len (qc_Signers qc) /\ NoDup (qc_Signers qc) /\
  exists pubs, Forall2 (certified ca certs now) (qc_Signers qc) pubs /\
    bls_VerifyAggregate pubs (signMessage (qc_Checkpoint qc) <$> qc_Signers qc) (qc_AggSig qc) = true.
Proof.
  unfold VerifyQuorum. destruct (Z.eqb_spec (len (qc_Signers qc)) 0) as [|Hne]; [done|].
  destruct (Z.ltb_spec (len (qc_Signers qc)) threshold) as [|Hge]; [done|].
  destruct (verify_signers ca (qc_Checkpoint qc) certs now (qc_Signers qc) ∅ [] []) as [[pubs msgs]|?|] eqn:EV;
    cbn [mbind outcome_bind]; [|done|done].
  apply verify_signers_spec in EV as (Hn & _ & ps & -> & -> & HF). rewrite !app_nil_l.
  destruct (VerifyAggregate ps _ (qc_AggSig qc)) eqn:EA; cbn [negb]; [|done]. intros _.
  pose proof (len_nonneg (qc_Signers qc)). split; [lia|]. split; [lia|]. split; [done|].
  exists ps. split; [done|]. unfold VerifyAggregate in EA. by destruct (_ || _)%bool.
Qed.


(** C14: an accepted certificate is a quorum. If [VerifyQuorum] accepts, the signers are at
    least the threshold in number and pairwise distinct, each has an unexpired certificate in
    the given set that carries a valid CA signature, and the aggregate signature verifies over
    exactly those certified keys and the attestations of this one checkpoint by these nodes. *)
Theorem VerifyQuorum_sound (ca : bytes) (qc : QuorumCertificate) (certs : gmap bytes NodeCert)
    (threshold now : Z) :
  VerifyQuorum ca (Some qc) certs threshold now = Ret tt ->
  threshold <= len (qc_Signers qc) /\ 0 < len (qc_Signers qc) /\ NoDup (qc_Signers qc) /\
  exists pubs, Forall2 (certified ca certs now) (qc_Signers qc) pubs /\
    bls_VerifyAggregate pubs (signMessage (qc_Checkpoint qc) <$> qc_Signers qc) (qc_AggSig qc) = true.
Proof. apply VerifyQuorum_accepts. Qed.

(** Bundles index certificates by the node they name. In a bundle built by [AddCert] from
    any list of certificates, the certificate found under a signer's id is for that very node
    id, so a verified signer is the node the CA certified. *)
Theorem bundle_names_match (cs : list NodeCert) (id : bytes) (cert : NodeCert) :
  fold_left AddCert cs ∅ !! id = Some cert -> nc_NodeID cert = id /\ cert ∈ cs.
Proof.
  assert (forall b, (forall i x, b !! i = Some x -> nc_NodeID x = i /\ x ∈ cs) ->
    forall l, (forall x, x ∈ l -> x ∈ cs) -> fold_left AddCert l b !! id = Some cert -> nc_NodeID cert = id /\ cert ∈ cs) as HG.
  { intros b Hb l. revert b Hb. induction l as [|x l IH]; intros b Hb Hl; cbn [fold_left]; [apply Hb|].
    apply IH; [|intros y Hy; apply Hl; by right]. intros i y. unfold AddCert. rewrite lookup_insert.
    case_decide; [|apply Hb]. intros [= <-]. split; [done|]. apply Hl. by left. }
  apply (HG ∅); [|done]. intros i x. by rewrite lookup_empty.
Qed.

Section Honest.
Context `{!BlsLaws} `{!Ed25519Laws}.

(** ** Honest quorums *)

(** The CA's certificate for a node key, issued on its proof of possession. *)
Lemma Issue_ok (ca : EdPriv) (key : PrivKey) (id : bytes) (notAfter : Z) :
  exists pop cert, ProofOfPossession key id = Ret pop /\
    Issue ca id (bls_PublicKey key) pop notAfter = Ret cert /\
    nc_NodeID cert = id /\ nc_NotAfter cert = notAfter /\
    forall certs now, certs !! id = Some cert -> (notAfter = 0 \/ now = 0 \/ now <= notAfter) ->
      certified (ed_Public ca) certs now id (bls_PublicKey key).
Proof.
  destruct (pub_roundtrip key) as (b & Hb & Hu). unfold ProofOfPossession, Issue. rewrite Hb. cbn [mbind outcome_bind].
  eexists _, _. split; [done|]. rewrite bls_sign_verify. cbn [negb]. split; [done|].
  split; [done|]. split; [done|]. intros certs now Hc Ht. eexists. split; [exact Hc|]. cbn.
  split; [apply ed_sign_verify|]. split; [done|]. split; [done|apply pub_valid].
Qed.

(** Aggregating what the keys of the signers signed. *)
Lemma aggregate_ok (keys : bytes -> PrivKey) (c : Checkpoint) (ids : list bytes) :
  ids <> [] -> NoDup ids ->
  exists agg, Aggregate ((fun id => SignCheckpoint (keys id) id c) <$> ids) = Ret agg /\
    VerifyAggregate ((fun id => bls_PublicKey (keys id)) <$> ids) (signMessage c <$> ids) agg = true.
Proof.
  intros Hne Hn.
  destruct (aggregate_verify (keys <$> ids) (signMessage c <$> ids)) as (agg & Ha & Hv).
  - by destruct ids.
  - by rewrite !length_fmap.
  - apply NoDup_fmap_2; [|done]. intros x y. apply signMessage_id_inj.
  - exists agg. unfold Aggregate, VerifyAggregate.
    assert (zip_with bls_Sign (keys <$> ids) (signMessage c <$> ids) = (fun id => SignCheckpoint (keys id) id c) <$> ids) as Ez
      by (clear; induction ids as [|x l IH]; [done|]; rewrite !fmap_cons; cbn; by f_equal).
    rewrite Ez in Ha. unfold len in *. rewrite !length_fmap.
    assert (Z.of_nat (length ids) =? 0 = false) as E0 by (by destruct ids). rewrite E0, Ha.
    rewrite Z.eqb_refl. cbn [orb negb]. split; [done|]. by rewrite <- list_fmap_compose in Hv.
Qed.

(** The sorted signers of a signature map with one signature per node. *)
Lemma signer_ids (f : bytes -> bytes) (nodes : gset bytes) :
  nodes <> ∅ ->
  let sigs : gmap bytes bytes := set_to_map (fun id => (id, f id)) nodes in
  let ids := merge_sort bytes_le (fst <$> map_to_list sigs) in
  (forall id, sigs !! id = if decide (id ∈ nodes) then Some (f id) else None) /\
  NoDup ids /\ (forall id, id ∈ ids <-> id ∈ nodes) /\ len ids = Z.of_nat (size nodes) /\
  size sigs = size nodes /\ ids <> [].
Proof.
  intros Hne sigs ids.
  assert (forall id, sigs !! id = if decide (id ∈ nodes) then Some (f id) else None) as Hl.
  { intros id. unfold sigs. apply option_eq. intros x. rewrite lookup_set_to_map by done.
    case_decide as Hid; split; naive_solver. }
  assert (NoDup ids) as Hn by (unfold ids; rewrite merge_sort_Permutation; apply NoDup_fst_map_to_list).
  assert (forall id, id ∈ ids <-> id ∈ nodes) as Hin.
  { intros id. unfold ids. rewrite merge_sort_Permutation, list_elem_of_fmap. split.
    - intros ([i x] & -> & Hx%elem_of_map_to_list). rewrite Hl in Hx. by case_decide.
    - intros Hid. exists (id, f id). split; [done|]. apply elem_of_map_to_list. rewrite Hl. by rewrite decide_True. }
  assert (len ids = Z.of_nat (size nodes)) as Hlen.
  { unfold len. f_equal. rewrite <- (size_list_to_set (C := gset bytes) ids Hn). f_equal. set_solver. }
  split; [done|]. split; [done|]. split; [done|]. split; [done|]. split.
  - apply Nat2Z.inj. rewrite <- Hlen. unfold len, ids. by rewrite merge_sort_Permutation, length_fmap, length_map_to_list.
  - intros E. apply Hne. rewrite E in Hin. apply set_eq. intros x. rewrite <- Hin. set_solver.
Qed.

(** Certified nodes that sign one checkpoint make an acceptable certificate. *)
Lemma honest_quorum (ca : EdPriv) (keys : bytes -> PrivKey) (notAfter now threshold : Z)
    (c : Checkpoint) (nodes : gset bytes) (certs : gmap bytes NodeCert) :
  nodes <> ∅ -> threshold <= Z.of_nat (size nodes) -> (notAfter = 0 \/ now = 0 \/ now <= notAfter) ->
  (forall id, id ∈ nodes -> exists pop cert, ProofOfPossession (keys id) id = Ret pop /\
     Issue ca id (bls_PublicKey (keys id)) pop notAfter = Ret cert /\ certs !! id = Some cert) ->
  let sigs := set_to_map (fun id => (id, SignCheckpoint (keys id) id c)) nodes in
  exists qc, BuildQuorumCertificate c sigs = Ret qc /\ qc_Checkpoint qc = c /\
    VerifyQuorum (ed_Public ca) (Some qc) certs threshold now = Ret tt.
Proof.
  intros Hne Hth Ht Hcerts sigs.
  destruct (signer_ids (fun id => SignCheckpoint (keys id) id c) nodes Hne) as (Hl & Hn & Hin & Hlen & Hsz & Hids).
  fold sigs in Hl, Hn, Hin, Hlen, Hsz, Hids. set (ids := merge_sort bytes_le (fst <$> map_to_list sigs)) in *.
  assert (0 < len ids) as Hpos by (unfold len; destruct ids; [done|cbn [length]; lia]).
  destruct (aggregate_ok keys c ids Hids Hn) as (agg & Hagg & Hver).
  exists {| qc_Checkpoint := c; qc_Signers := ids; qc_AggSig := agg |}. split; [|split; [done|]].
  - unfold BuildQuorumCertificate. fold ids.
    destruct (Z.eqb_spec (Z.of_nat (size sigs)) 0) as [E|_].
    { lia. }
    assert ((fun id => default [] (sigs !! id)) <$> ids = (fun id => SignCheckpoint (keys id) id c) <$> ids) as ->.
    { apply list_fmap_ext. intros i id Hid%list_elem_of_lookup_2. rewrite Hl, decide_True by (by apply Hin). done. }
    by rewrite Hagg.
  - unfold VerifyQuorum. cbn [qc_Signers qc_Checkpoint qc_AggSig].
    destruct (Z.eqb_spec (len ids) 0) as [E|_].
    { lia. }
    destruct (Z.ltb_spec (len ids) threshold); [lia|].
    rewrite (verify_signers_complete _ _ _ _ _ ((fun id => bls_PublicKey (keys id)) <$> ids)); [|done|set_solver|].
    + cbn [mbind outcome_bind app]. by rewrite Hver.
    + apply Forall2_fmap_r, Forall_Forall2_diag, Forall_forall. intros id Hid%Hin.
      destruct (Hcerts id Hid) as (pop & cert & Hpop & Hiss & Hc).
      destruct (Issue_ok ca (keys id) id notAfter) as (pop' & cert' & Hpop' & Hiss' & _ & _ & HC).
      apply HC; [|done]. congruence.
Qed.


(** An honest quorum is accepted. If the CA issued a certificate to each of a non-empty
    set of nodes on its proof of possession, none has expired, and each node signed the
    checkpoint with its own key, then the certificate built from those signatures exists and
    verifies at every threshold up to their number, whatever other certificates the verifier
    holds. *)
Theorem honest_quorum_verifies (ca : EdPriv) (keys : bytes -> PrivKey) (notAfter now threshold : Z)
    (c : Checkpoint) (nodes : gset bytes) (certs : gmap bytes NodeCert) :
  nodes <> ∅ -> threshold <= Z.of_nat (size nodes) -> (notAfter = 0 \/ now = 0 \/ now <= notAfter) ->
  (forall id, id ∈ nodes -> exists pop cert, ProofOfPossession (keys id) id = Ret pop /\
     Issue ca id (bls_PublicKey (keys id)) pop notAfter = Ret cert /\ certs !! id = Some cert) ->
  let sigs := set_to_map (fun id => (id, SignCheckpoint (keys id) id c)) nodes in
  exists qc, BuildQuorumCertificate c sigs = Ret qc /\ qc_Checkpoint qc = c /\
    VerifyQuorum (ed_Public ca) (Some qc) certs threshold now = Ret tt.
Proof. apply honest_quorum. Qed.

End Honest.

Section AttestProps.
Context `{UuidPkg} `{Badger} `{StorePkg} `{Payloads} `{!Struct headRecord} `{!Struct NodeCert}.

(** A node attests only its own head. Whatever a coordinator asks for, a signed answer
    carries the node's own chain height and digest and its own signature over that
    checkpoint; any other request is answered with the node's head, unsigned. The term of the
    requested checkpoint is signed as it came, without a check. *)
Theorem Attest_own_head (now : Z) (fsm : FSM) (signer : option NodeSigner) (want : option Checkpoint) :
  let a := Attest now fsm signer want in
  (ck_Height (at_checkpoint a), ck_Digest (at_checkpoint a)) = fst (ChainHead now fsm) /\
  (at_signed a = true -> exists s, signer = Some s /\ at_sig a = SignCheckpoint (ns_key s) (nc_NodeID (ns_cert s)) (at_checkpoint a)) /\
  (forall c s, want = Some c -> signer = Some s -> (ck_Height c, ck_Digest c) = fst (ChainHead now fsm) ->
     at_signed a = true /\ at_checkpoint a = c).
Proof.
  unfold Attest. destruct (fst (ChainHead now fsm)) as [index digest]. cbn zeta beta.
  destruct want as [c|].
  - destruct (Z.eqb_spec (ck_Height c) index) as [Eh|Eh]; cbn [negb orb].
    + case_bool_decide as Ed; cbn [negb].
      * destruct signer as [s|]; cbn; (split; [congruence|]); split; try done; [naive_solver|].
        intros c' s' [= <-] [= <-] _. done.
      * cbn. split; [done|]. split; [done|]. intros c' s' [= <-] _ [= _ E]. congruence.
    + cbn. split; [done|]. split; [done|]. intros c' s' [= <-] _ [= E _]. congruence.
  - destruct signer as [s|]; cbn; (split; [done|]); split; try done; naive_solver.
Qed.

End AttestProps.
End Props.

(** ** Witnesses *)

(** A transparent signature scheme that satisfies the laws (and protects nothing). *)
#[local] Instance toy_bls : BlsPkg := {|
  PrivKey := bytes; PubKey := bytes; bls_PublicKey := fun k => k;
  bls_Sign := fun k m => k ++ m;
  bls_Verify := fun p m s => bool_decide (s = p ++ m);
  bls_Aggregate := fun l => Ret (concat l);
  bls_VerifyAggregate := fun ps ms a => bool_decide (a = concat (zip_with app ps ms));
  pub_MarshalBinary := fun p => Ret p; pub_UnmarshalBinary := fun b => Ret b;
  pub_Validate := fun _ => true; priv_UnmarshalBinary := fun b => Ret b
|}.

#[local] Instance toy_bls_laws : BlsLaws.
Proof.
  split; cbn; intros.
  - by rewrite bool_decide_eq_true.
  - by eexists.
  - done.
  - eexists. split; [done|]. rewrite bool_decide_eq_true. do 2 f_equal. by rewrite list_fmap_id.
Defined.

#[local] Instance toy_ed : Ed25519Pkg := {|
  EdPriv := bytes; ed_Public := fun k => k; ed_Sign := fun k m => k ++ m;
  ed_Verify := fun p m s => bool_decide (s = p ++ m); ed_NewKeyFromSeed := fun s => s; ed_Seed := fun s => s
|}.

#[local] Instance toy_ed_laws : Ed25519Laws.
Proof. split. intros k m. cbn. by rewrite bool_decide_eq_true. Defined.

Definition toy_ca : EdPriv := str "ca".
Definition toy_key (id : bytes) : PrivKey := str "key-" ++ id.
Definition toy_ck : Checkpoint := {| ck_Height := 7; ck_Term := 2; ck_Digest := str "digest"; ck_Unix := 100 |}.

Definition toy_cert (id : bytes) : NodeCert :=
  {| nc_NodeID := id; nc_PublicKey := toy_key id; nc_NotAfter := 500;
     nc_CASig := ed_Sign toy_ca (certBody id (toy_key id) 500) |}.

Definition toy_certs : gmap bytes NodeCert := fold_left AddCert [toy_cert (str "n1"); toy_cert (str "n2"); toy_cert (str "n3")] ∅.

Definition toy_nodes : gset bytes := {[str "n1"; str "n3"]}.

Definition toy_qc : QuorumCertificate := {|
  qc_Checkpoint := toy_ck; qc_Signers := [str "n1"; str "n3"];
  qc_AggSig := SignCheckpoint (toy_key (str "n1")) (str "n1") toy_ck ++ SignCheckpoint (toy_key (str "n3")) (str "n3") toy_ck |}.

Lemma signed_messages_separate_witness :
  signMessage toy_ck (str "n1") <> popMessage (str "n2") (str "k").
Proof. apply (signed_messages_separate toy_ck toy_ck (str "n1") (str "n2") (str "k") 0); repeat split; done. Defined.

Lemma VerifyQuorum_sound_witness :
  VerifyQuorum toy_ca (Some toy_qc) toy_certs 2 100 = Ret tt /\ 2 <= len (qc_Signers toy_qc).
Proof.
  assert (VerifyQuorum toy_ca (Some toy_qc) toy_certs 2 100 = Ret tt) as E by (vm_compute; reflexivity).
  split; [exact E|]. apply (VerifyQuorum_sound toy_ca toy_qc toy_certs 2 100 E).
Defined.

Lemma bundle_names_match_witness : nc_NodeID (toy_cert (str "n2")) = str "n2".
Proof.
  apply (bundle_names_match [toy_cert (str "n1"); toy_cert (str "n2")] (str "n2") (toy_cert (str "n2"))).
  vm_compute. reflexivity.
Defined.

Lemma honest_quorum_verifies_witness :
  exists qc, BuildQuorumCertificate toy_ck
      (set_to_map (fun id => (id, SignCheckpoint (toy_key id) id toy_ck)) toy_nodes) = Ret qc /\
    qc_Checkpoint qc = toy_ck /\ VerifyQuorum toy_ca (Some qc) toy_certs 2 100 = Ret tt.
Proof.
  apply (honest_quorum_verifies toy_ca toy_key 500 100 2 toy_ck toy_nodes toy_certs).
  - intros E. apply (f_equal size) in E. vm_compute in E. discriminate.
  - vm_compute. discriminate.
  - lia.
  - intros id [->%elem_of_singleton| ->%elem_of_singleton]%elem_of_union; eexists _, _;
      (split; [reflexivity|]); split; vm_compute; reflexivity.
Defined.
