(* ===== verification/Password.v ===== *)
(** * Password hashes ([pkg/iam/password.go])

    The encoded argon2id form ("$argon2id$v=19$m=...,t=...,p=...$salt$hash") and its check. The
    key derivation is a class parameter; base64, [strings.Split] and the scanning of
    [fmt.Sscanf] are the standard library's, written out as the code uses them. *)

From stdpp Require Import pretty.
From S2P Require Import Prelude Pb.

(** ** The key derivation

    [argon2.IDKey(password, salt, time, memory, threads, keyLen)]; the package documents that
    it panics when [time] or [threads] is zero. *)

Class Argon2Pkg : Type := {
  argon2_IDKey : bytes -> bytes -> Z -> Z -> Z -> Z -> result bytes
}.

Class Argon2Laws `{Argon2Pkg} : Prop := {
  idkey_ok : forall pw salt time mem threads n, 1 <= time -> 1 <= threads -> 0 <= n ->
    exists key, argon2_IDKey pw salt time mem threads n = Ret key /\ len key = n;
  idkey_panics : forall pw salt time mem threads n, time < 1 \/ threads < 1 ->
    argon2_IDKey pw salt time mem threads n = Panic
}.

(** ** The standard library *)

(** [strings.Split(s, sep)] for a one-byte separator. *)
Fixpoint Split (sep : byte) (s : bytes) : list bytes :=
  match s with
  | [] => [[]]
  | c :: rest =>
      if bool_decide (c = sep) then [] :: Split sep rest
      else match Split sep rest with [] => [[c]] | p :: ps => (c :: p) :: ps end
  end.

(** [fmt.Sprintf("%d", z)]. *)
Definition fmt_d (z : Z) : bytes := str (pretty z).

(** The digits of [base64.RawStdEncoding]. *)
Definition b64_char (z : Z) : byte :=
  if z <? 26 then byte_of (65 + z) else if z <? 52 then byte_of (97 + (z - 26))
  else if z <? 62 then byte_of (48 + (z - 52)) else if z =? 62 then x2b else x2f.

Definition b64_val (b : byte) : option Z :=
  let z := byte_val b in
  if (65 <=? z) && (z <? 91) then Some (z - 65) else if (97 <=? z) && (z <? 123) then Some (z - 97 + 26)
  else if (48 <=? z) && (z <? 58) then Some (z - 48 + 52) else if z =? 43 then Some 62
  else if z =? 47 then Some 63 else None.

Fixpoint EncodeToString (l : bytes) : bytes :=
  match l with
  | a :: b :: c :: rest =>
      let v := byte_val a * 65536 + byte_val b * 256 + byte_val c in
      b64_char (v / 262144) :: b64_char (v / 4096 mod 64) :: b64_char (v / 64 mod 64) :: b64_char (v mod 64) ::
      EncodeToString rest
  | [a; b] =>
      let v := byte_val a * 65536 + byte_val b * 256 in
      [b64_char (v / 262144); b64_char (v / 4096 mod 64); b64_char (v / 64 mod 64)]
  | [a] => let v := byte_val a * 65536 in [b64_char (v / 262144); b64_char (v / 4096 mod 64)]
  | [] => []
  end.

Fixpoint decode_quanta (l : bytes) : option bytes :=
  match l with
  | a :: b :: c :: d :: rest =>
      a ← b64_val a; b ← b64_val b; c ← b64_val c; d ← b64_val d;
      let v := a * 262144 + b * 4096 + c * 64 + d in
      rest ← decode_quanta rest;
      Some (byte_of (v / 65536) :: byte_of (v / 256) :: byte_of v :: rest)
  | [a; b; c] =>
      a ← b64_val a; b ← b64_val b; c ← b64_val c;
      let v := a * 262144 + b * 4096 + c * 64 in Some [byte_of (v / 65536); byte_of (v / 256)]
  | [a; b] => a ← b64_val a; b ← b64_val b; Some [byte_of ((a * 262144 + b * 4096) / 65536)]
  | [_] => None
  | [] => Some []
  end.

(** [DecodeString]: line breaks are skipped anywhere, trailing bits are not looked at. *)
Definition DecodeString (s : bytes) : option bytes :=
  decode_quanta (filter (fun c => c <> x0a /\ c <> x0d) s).

(** The verb [%d] of [fmt.Sscanf]: spaces are skipped, a line break is an error. White space
    outside ASCII is not modelled. *)
Fixpoint skip_space (s : bytes) : option bytes :=
  match s with
  | c :: rest =>
      if bool_decide (c = x0a) then None
      else if bool_decide (c ∈ [x20; x09; x0b; x0c; x0d]) then skip_space rest else Some s
  | [] => Some []
  end.

Fixpoint digits (s : bytes) : list Z * bytes :=
  match s with
  | c :: rest =>
      let z := byte_val c in
      if (48 <=? z) && (z <? 58) then let '(ds, r) := digits rest in (z - 48 :: ds, r) else ([], s)
  | [] => ([], [])
  end.

Definition scan_number (s : bytes) : option (Z * bytes) :=
  match digits s with
  | ([], _) => None
  | (ds, rest) => Some (fold_left (fun acc d => acc * 10 + d) ds 0, rest)
  end.

(** Into an unsigned variable of [bits] bits; a value that does not fit is an error. *)
Definition scan_uint (bits : Z) (s : bytes) : option (Z * bytes) :=
  s ← skip_space s; '(z, rest) ← scan_number s;
  if z <? 2 ^ bits then Some (z, rest) else None.

(** Into an [int]. *)
Definition scan_int (s : bytes) : option (Z * bytes) :=
  s ← skip_space s;
  match s with
  | c :: rest =>
      if bool_decide (c = x2d) then
        '(z, r) ← scan_number rest; if z <=? 2 ^ 63 then Some (- z, r) else None
      else if bool_decide (c = x2b) then
        '(z, r) ← scan_number rest; if z <? 2 ^ 63 then Some (z, r) else None
      else '(z, r) ← scan_number s; if z <? 2 ^ 63 then Some (z, r) else None
  | [] => None
  end.

(** ** Hashing and checking *)

Definition argon2_Version : Z := 19.
Definition argonMemoryKiB : Z := 19 * 1024.
Definition argonTime : Z := 2.
Definition argonThreads : Z := 1.
Definition argonSaltLen : Z := 16.
Definition argonKeyLen : Z := 32.

Section Password.
Context `{Argon2Pkg}.

(** [HashPassword]; [salt] is what [rand.Read] fills the buffer with. *)
Definition HashPassword (password : bytes) (salt : result bytes) : result bytes :=
  match salt with
  | Fail e => Fail (ErrWrap (str "iam: salt") e)
  | Panic => Panic
  | Ret salt =>
      key ← argon2_IDKey password salt argonTime argonMemoryKiB argonThreads argonKeyLen;
      Ret (str "$argon2id$v=" ++ fmt_d argon2_Version ++ str "$m=" ++ fmt_d argonMemoryKiB ++ str ",t=" ++
           fmt_d argonTime ++ str ",p=" ++ fmt_d argonThreads ++ str "$" ++ EncodeToString salt ++ str "$" ++
           EncodeToString key)
  end.

(** [fmt.Sscanf(s, "v=%d", &version)]. *)
Definition scan_version (s : bytes) : option Z :=
  s ← CutPrefix s (str "v="); '(v, _) ← scan_int s; Some v.

(** [fmt.Sscanf(s, "m=%d,t=%d,p=%d", &mem, &time, &threads)]. *)
Definition scan_params (s : bytes) : option (Z * Z * Z) :=
  s ← CutPrefix s (str "m="); '(mem, s) ← scan_uint 32 s;
  s ← CutPrefix s (str ",t="); '(time, s) ← scan_uint 32 s;
  s ← CutPrefix s (str ",p="); '(threads, _) ← scan_uint 8 s;
  Some (mem, time, threads).

Definition VerifyPassword (encoded password : bytes) : result bool :=
  match Split x24 encoded with
  | [_; alg; ver; params; salt; hash] =>
      if negb (bool_decide (alg = str "argon2id")) then Ret false else
      match scan_version ver with
      | Some version =>
          if negb (version =? argon2_Version) then Ret false else
          match scan_params params with
          | Some (mem, time, threads) =>
              match DecodeString salt with
              | Some salt =>
                  match DecodeString hash with
                  | Some want =>
                      got ← argon2_IDKey password salt time mem threads (len want mod 2 ^ 32);
                      Ret (bool_decide (got = want))
                  | None => Ret false
                  end
              | None => Ret false
              end
          | None => Ret false
          end
      | None => Ret false
      end
  | _ => Ret false
  end.

End Password.

(** ** base64 round trip *)

Lemma b64_val_char z : 0 <= z < 64 -> b64_val (b64_char z) = Some z.
Proof.
  intros Hz. rewrite <- (Z2Nat.id z) by lia. assert (Z.to_nat z < 64)%nat as Hn by lia.
  generalize dependent (Z.to_nat z). clear. intros n Hn.
  do 64 (destruct n as [|n]; [reflexivity|]). lia.
Qed.

Lemma b64_char_plain z : 0 <= z < 64 -> b64_char z <> x0a /\ b64_char z <> x0d /\ b64_char z <> x24.
Proof.
  intros Hz. rewrite <- (Z2Nat.id z) by lia. assert (Z.to_nat z < 64)%nat as Hn by lia.
  generalize dependent (Z.to_nat z). clear. intros n Hn.
  do 64 (destruct n as [|n]; [by vm_compute|]). lia.
Qed.

(** Induction over a list three elements at a time. *)
Lemma list_ind3 {A} (P : list A -> Prop) :
  P [] -> (forall a, P [a]) -> (forall a b, P [a; b]) -> (forall a b c l, P l -> P (a :: b :: c :: l)) -> forall l, P l.
Proof.
  intros H0 H1 H2 H3. assert (forall l, P l /\ (forall a, P (a :: l)) /\ (forall a b, P (a :: b :: l))) as HG.
  { induction l as [|x l (IH1 & IH2 & IH3)]; [done|]. auto. }
  intros l. apply HG.
Qed.

Lemma Forall_b64 (P : byte -> Prop) l : (forall z, 0 <= z < 64 -> P (b64_char z)) -> Forall P (EncodeToString l).
Proof.
  intros HP. induction l as [|a|a b|a b c l IH] using list_ind3; cbn [EncodeToString]; [constructor|..];
    repeat match goal with x : byte |- _ => pose proof (byte_val_range x); generalize dependent (byte_val x); clear x; intros end.
  all: repeat (constructor; [apply HP; Z.to_euclidean_division_equations; lia|]); done || constructor.
Qed.

Lemma decode_quanta_encode l : decode_quanta (EncodeToString l) = Some l.
Proof.
  induction l as [|a|a b|a b c l IH] using list_ind3; cbn [EncodeToString decode_quanta]; [done|..].
  all: pose proof (byte_val_range a).
  2,3: pose proof (byte_val_range b). 3: pose proof (byte_val_range c).
  all: rewrite !b64_val_char by (Z.to_euclidean_division_equations; lia); cbn [mbind option_bind].
  3: rewrite IH; cbn [mbind option_bind].
  all: repeat f_equal; apply byte_val_inj; rewrite byte_val_of; Z.to_euclidean_division_equations; lia.
Qed.

Lemma filter_all {A} (P : A -> Prop) `{forall x, Decision (P x)} l : Forall P l -> filter P l = l.
Proof. induction 1 as [|x l Hx Hl IH]; [done|]. by rewrite filter_cons_True, IH. Qed.

Lemma DecodeString_Encode l : DecodeString (EncodeToString l) = Some l.
Proof.
  unfold DecodeString. rewrite filter_all; [apply decode_quanta_encode|].
  apply Forall_b64. intros z Hz. destruct (b64_char_plain z Hz) as (? & ? & _). done.
Qed.

(** ** Splitting *)

Lemma Split_none sep s : Forall (fun c => c <> sep) s -> Split sep s = [s].
Proof. induction 1 as [|c s Hc Hs IH]; [done|]. cbn [Split]. rewrite bool_decide_eq_false_2 by done. by rewrite IH. Qed.

Lemma Split_app sep a b : Forall (fun c => c <> sep) a -> Split sep (a ++ sep :: b) = a :: Split sep b.
Proof.
  induction 1 as [|c a Hc Ha IH]; cbn [app Split].
  - by rewrite bool_decide_eq_true_2.
  - rewrite bool_decide_eq_false_2 by done. by rewrite IH.
Qed.

Lemma b64_no_dollar l : Forall (fun c => c <> x24) (EncodeToString l).
Proof. apply Forall_b64. intros z Hz. by destruct (b64_char_plain z Hz) as (_ & _ & ?). Qed.

(** ** Checking what was hashed *)

Section Props.
Context `{Argon2Pkg} `{!Argon2Laws}.

(** Passwords are checked by their derived key. A password hash made with any salt is
    accepted for a password exactly when that password derives the same key with the salt; the
    password that was hashed always is. *)
Theorem VerifyPassword_HashPassword (password other salt : bytes) :
  exists encoded key key', HashPassword password (Ret salt) = Ret encoded /\
    argon2_IDKey password salt argonTime argonMemoryKiB argonThreads argonKeyLen = Ret key /\
    argon2_IDKey other salt argonTime argonMemoryKiB argonThreads argonKeyLen = Ret key' /\
    VerifyPassword encoded other = Ret (bool_decide (key' = key)) /\
    VerifyPassword encoded password = Ret true.
Proof.
  destruct (idkey_ok password salt argonTime argonMemoryKiB argonThreads argonKeyLen) as (key & Hk & Hl); [done..|].
  destruct (idkey_ok other salt argonTime argonMemoryKiB argonThreads argonKeyLen) as (key' & Hk' & _); [done..|].
  unfold HashPassword. rewrite Hk. cbn [mbind outcome_bind]. eexists _, key, key'. split; [done|]. split; [done|]. split; [done|].
  assert (forall pw k, argon2_IDKey pw salt argonTime argonMemoryKiB argonThreads argonKeyLen = Ret k ->
    VerifyPassword (str "$argon2id$v=" ++ fmt_d argon2_Version ++ str "$m=" ++ fmt_d argonMemoryKiB ++ str ",t=" ++
       fmt_d argonTime ++ str ",p=" ++ fmt_d argonThreads ++ str "$" ++ EncodeToString salt ++ str "$" ++
       EncodeToString key) pw = Ret (bool_decide (k = key))) as HV.
  { intros pw k Hpw. unfold VerifyPassword.
    change (str "$argon2id$v=" ++ fmt_d argon2_Version ++ str "$m=" ++ fmt_d argonMemoryKiB ++ str ",t=" ++
       fmt_d argonTime ++ str ",p=" ++ fmt_d argonThreads ++ str "$" ++ EncodeToString salt ++ str "$" ++
       EncodeToString key)
      with ([] ++ x24 :: str "argon2id" ++ x24 :: str "v=19" ++ x24 :: str "m=19456,t=2,p=1" ++ x24 ::
            EncodeToString salt ++ x24 :: EncodeToString key).
    rewrite !Split_app, Split_none by (try apply b64_no_dollar; vm_compute; repeat constructor; discriminate).
    rewrite !DecodeString_Encode, Hl.
    change (scan_version (str "v=19")) with (Some 19). change (scan_params (str "m=19456,t=2,p=1")) with (Some (19456, 2, 1)).
    unfold argonTime, argonMemoryKiB, argonThreads, argonKeyLen in *. cbn -[argon2_IDKey] in Hpw |- *. rewrite bool_decide_eq_true_2 by done. cbn [negb]. change (32 mod 2 ^ 32) with 32. change 19456 with (19 * 1024). by rewrite Hpw. }
  split; [by apply HV|]. rewrite (HV password key Hk). by rewrite bool_decide_eq_true_2.
Qed.

End Props.

(** ** Witness *)

(** A transparent key derivation with the documented domain. *)
Definition flat_argon2 : Argon2Pkg := {|
  argon2_IDKey := fun pw salt time mem threads n =>
    if (time <? 1) || (threads <? 1) then Panic else Ret (take (Z.to_nat n) (pw ++ salt ++ replicate (Z.to_nat n) x00))
|}.

Lemma flat_argon2_laws : @Argon2Laws flat_argon2.
Proof.
  split; cbn [argon2_IDKey flat_argon2].
  - intros pw salt time mem threads n Ht Hth Hn. eexists.
    rewrite (proj2 (Z.ltb_ge time 1)), (proj2 (Z.ltb_ge threads 1)) by lia. split; [done|].
    unfold len. rewrite length_take, !length_app, length_replicate. lia.
  - intros pw salt time mem threads n [Ht|Ht]; rewrite (proj2 (Z.ltb_lt _ 1) Ht); [done|]. by rewrite orb_true_r.
Qed.

Lemma VerifyPassword_HashPassword_witness :
  exists encoded, @HashPassword flat_argon2 (str "hunter22") (Ret (replicate 16 x05)) = Ret encoded /\
    @VerifyPassword flat_argon2 encoded (str "hunter23") = Ret false /\
    @VerifyPassword flat_argon2 encoded (str "hunter22") = Ret true.
Proof.
  destruct (@VerifyPassword_HashPassword flat_argon2 flat_argon2_laws (str "hunter22") (str "hunter23") (replicate 16 x05))
    as (encoded & key & key' & HE & HK & HK' & HV & HV'). exists encoded. split; [exact HE|]. split; [|exact HV'].
  rewrite HV. vm_compute in HK, HK'. injection HK as <-. injection HK' as <-. reflexivity.
Defined.
