(* ===== verification/Backup.v ===== *)
(** * The backup container ([pkg/backup/crypto.go])

    Dumps are wrapped in a self-describing container: a header, then either the raw bytes or a
    sequence of AES-GCM frames whose last one is marked. The key derivation ([Password]) and the
    cipher are class parameters with their documented behaviour: what was sealed opens and the
    tag has a fixed size. *)

From S2P Require Import Prelude Pb Password.

(** ** Ciphers *)

Class AeadPkg : Type := {
  AEAD : Type;
  (** [aes.NewCipher] followed by [cipher.NewGCM]. *)
  aes_gcm : bytes -> result AEAD;
  aead_Seal : AEAD -> bytes -> bytes -> bytes;
  aead_Open : AEAD -> bytes -> bytes -> option bytes
}.

Definition gcm_overhead : Z := 16.

Class AeadLaws `{AeadPkg} : Prop := {
  aes_gcm_ok : forall key, len key = 32 -> exists a, aes_gcm key = Ret a;
  seal_open : forall a n p, aead_Open a n (aead_Seal a n p) = Some p;
  open_len : forall a n ct p, aead_Open a n ct = Some p -> len ct = len p + gcm_overhead
}.

(** ** Constants *)

Definition magic : bytes := str "CDBBAK".
Definition formatVer : Z := 1.
Definition modePlain : Z := 0.
Definition modeEncrypt : Z := 1.

Definition chunkSize : Z := 64 * 1024.
Definition saltLen : Z := 16.
Definition noncePfxLen : Z := 4.
Definition keyLen : Z := 32.
Definition lastFlagBit : Z := Z.shiftl 1 31.

Definition argonMemKiB : Z := 64 * 1024.
Definition argonTimeCost : Z := 3.
Definition argonThreads : Z := 4.

(** ** Readers of the standard library

    An [io.Reader] delivers its bytes and then its error ([io.EOF] when it just ends). *)

Definition EOF : error := ErrNew (str "EOF").
Definition ErrUnexpectedEOF : error := ErrNew (str "unexpected EOF").

Record Source : Type := { src_data : bytes; src_err : error }.

(** [io.ReadFull] into a buffer of [n] bytes. *)
Definition ReadFull (n : Z) (s : Source) : result bytes * Source :=
  if n <=? len (src_data s) then
    (Ret (take (Z.to_nat n) (src_data s)), {| src_data := drop (Z.to_nat n) (src_data s); src_err := src_err s |})
  else
    (Fail (if bool_decide (src_err s = EOF) && (0 <? len (src_data s)) then ErrUnexpectedEOF else src_err s),
     {| src_data := []; src_err := src_err s |}).

(** An [io.Writer] as a function on its state; [bytes.Buffer] is [mem_write]. *)
Definition Writer (S : Type) : Type := bytes -> S -> option error * S.

Definition mem_write : Writer bytes := fun b s => (None, s ++ b).

Section Container.
Context `{Argon2Pkg} `{AeadPkg}.

(** ** Header and nonces *)

Definition header (mode : Z) (salt noncePfx : bytes) : bytes :=
  let h := magic ++ [byte_of formatVer; byte_of mode] in
  if mode =? modeEncrypt then
    h ++ be_put 4 argonMemKiB ++ be_put 4 argonTimeCost ++
    [byte_of argonThreads; byte_of (len salt)] ++ salt ++ noncePfx
  else h.

Definition newAEAD (password salt : bytes) : result AEAD :=
  key ← argon2_IDKey password salt argonTimeCost argonMemKiB argonThreads keyLen; aes_gcm key.

Definition nonce (noncePfx : bytes) (counter : Z) (last : bool) : bytes :=
  let n := copy_at (replicate 12 x00) 0 (take 4 noncePfx) in
  let n := copy_at n 4 (take 7 (drop 1 (be_put 8 counter))) in
  if last then <[11%nat := x01]> n else n.

(** ** The writer *)

Section Write.
Context {D : Type} (write : Writer D).

Record encWriter : Type := {
  ew_dst : D;
  ew_aead : AEAD;
  ew_noncePfx : bytes;
  ew_counter : Z; (* uint64 *)
  ew_buf : bytes;
  ew_closed : bool
}.

Inductive container : Type :=
| plainWriter (dst : D)
| encryptedWriter (w : encWriter).

(** [NewWriter]; [salt] and [noncePfx] are what [rand.Read] fills the buffers with. *)
Definition NewWriter (dst : D) (password : bytes) (salt noncePfx : result bytes) : result container :=
  if decide (password = []) then
    match write (header modePlain [] []) dst with
    | (Some e, _) => Fail e
    | (None, dst) => Ret (plainWriter dst)
    end
  else
    salt ← salt; noncePfx ← noncePfx;
    aead ← newAEAD password salt;
    match write (header modeEncrypt salt noncePfx) dst with
    | (Some e, _) => Fail e
    | (None, dst) =>
        Ret (encryptedWriter {| ew_dst := dst; ew_aead := aead; ew_noncePfx := noncePfx; ew_counter := 0;
                                ew_buf := []; ew_closed := false |})
    end.

(** [encWriter.seal]: one frame; the buffer and the counter move on even when the write fails. *)
Definition seal (last : bool) (w : encWriter) : option error * encWriter :=
  let ct := aead_Seal (ew_aead w) (nonce (ew_noncePfx w) (ew_counter w) last) (ew_buf w) in
  let w := {| ew_dst := ew_dst w; ew_aead := ew_aead w; ew_noncePfx := ew_noncePfx w;
              ew_counter := wrap64 (ew_counter w + 1); ew_buf := []; ew_closed := ew_closed w |} in
  let set_dst d := {| ew_dst := d; ew_aead := ew_aead w; ew_noncePfx := ew_noncePfx w;
                      ew_counter := ew_counter w; ew_buf := ew_buf w; ew_closed := ew_closed w |} in
  let hdr := len ct mod 2 ^ 32 in
  let hdr := if last then Z.lor hdr lastFlagBit else hdr in
  match write (be_put 4 hdr) (ew_dst w) with
  | (Some e, d) => (Some e, set_dst d)
  | (None, d) => let '(err, d) := write ct d in (err, set_dst d)
  end.

Definition set_buf (w : encWriter) (b : bytes) : encWriter :=
  {| ew_dst := ew_dst w; ew_aead := ew_aead w; ew_noncePfx := ew_noncePfx w;
     ew_counter := ew_counter w; ew_buf := b; ew_closed := ew_closed w |}.

(** The loop of [encWriter.Write]; [None] is out of fuel. *)
Fixpoint write_loop (fuel : nat) (p : bytes) (w : encWriter) : option (option error * encWriter) :=
  match fuel with
  | O => None
  | S fuel =>
      if len p =? 0 then Some (None, w) else
      let space := chunkSize - len (ew_buf w) in
      let n := if space <? len p then space else len p in
      let w := set_buf w (ew_buf w ++ take (Z.to_nat n) p) in
      let p := drop (Z.to_nat n) p in
      if len (ew_buf w) =? chunkSize then
        match seal false w with
        | (Some e, w) => Some (Some e, w)
        | (None, w) => write_loop fuel p w
        end
      else write_loop fuel p w
  end.

(** [encWriter.Write]: the number of bytes accepted and the error. *)
Definition enc_Write (p : bytes) (w : encWriter) : option (result Z * encWriter) :=
  if ew_closed w then Some (Fail (ErrNew (str "backup: write after close")), w) else
  match write_loop (S (length p)) p w with
  | None => None
  | Some (Some e, w) => Some (Fail e, w)
  | Some (None, w) => Some (Ret (len p), w)
  end.

Definition enc_Close (w : encWriter) : option error * encWriter :=
  if ew_closed w then (None, w) else
  seal true {| ew_dst := ew_dst w; ew_aead := ew_aead w; ew_noncePfx := ew_noncePfx w;
               ew_counter := ew_counter w; ew_buf := ew_buf w; ew_closed := true |}.

Definition container_Write (p : bytes) (c : container) : option (result Z * container) :=
  match c with
  | plainWriter dst =>
      let '(err, dst) := write p dst in
      Some (match err with Some e => Fail e | None => Ret (len p) end, plainWriter dst)
  | encryptedWriter w => (fun '(r, w) => (r, encryptedWriter w)) <$> enc_Write p w
  end.

Definition container_Close (c : container) : option error * container :=
  match c with
  | plainWriter dst => (None, c)
  | encryptedWriter w => let '(err, w) := enc_Close w in (err, encryptedWriter w)
  end.

End Write.

(** ** The reader *)

Record encReader : Type := {
  er_src : Source;
  er_aead : AEAD;
  er_noncePfx : bytes;
  er_counter : Z;
  er_plain : bytes; (* decrypted, not yet consumed *)
  er_done : bool
}.

Inductive reader : Type :=
| plainReader (src : Source)
| encryptedReader (r : encReader).

Definition byte_at (l : bytes) (i : nat) : Z := byte_val (nth i l x00).

Definition newEncReader (src : Source) (password : bytes) : result encReader :=
  match ReadFull 10 src with
  | (Ret head, src) =>
      let memKiB := be_get (take 4 head) in
      let timeCost := be_get (take 4 (drop 4 head)) in
      let threads := byte_at head 8 in
      let sl := byte_at head 9 in
      match ReadFull (sl + noncePfxLen) src with
      | (Ret rest, src) =>
          let salt := take (Z.to_nat sl) rest in
          let noncePfx := drop (Z.to_nat sl) rest in
          key ← argon2_IDKey password salt timeCost memKiB threads keyLen;
          aead ← aes_gcm key;
          Ret {| er_src := src; er_aead := aead; er_noncePfx := noncePfx; er_counter := 0;
                 er_plain := []; er_done := false |}
      | (Fail e, _) => Fail (ErrWrap (str "backup: read salt") e)
      | (Panic, _) => Panic
      end
  | (Fail e, _) => Fail (ErrWrap (str "backup: read kdf params") e)
  | (Panic, _) => Panic
  end.

Definition NewReader (src : Source) (password : bytes) : result reader :=
  match ReadFull (len magic + 2) src with
  | (Ret head, src) =>
      if negb (bool_decide (take (length magic) head = magic)) then
        Fail (ErrNew (str "backup: not a consensusdb dump (bad magic)"))
      else if negb (byte_at head (length magic) =? formatVer) then
        Fail (ErrNew (str "backup: unsupported format version"))
      else if byte_at head (length magic + 1) =? modePlain then
        if negb (bool_decide (password = [])) then
          Fail (ErrNew (str "backup: dump is not encrypted, no password needed"))
        else Ret (plainReader src)
      else if byte_at head (length magic + 1) =? modeEncrypt then
        if bool_decide (password = []) then
          Fail (ErrNew (str "backup: dump is encrypted, a password is required"))
        else r ← newEncReader src password; Ret (encryptedReader r)
      else Fail (ErrNew (str "backup: unknown mode"))
  | (Fail e, _) => Fail (ErrWrap (str "backup: read header") e)
  | (Panic, _) => Panic
  end.

Definition set_src (r : encReader) (s : Source) : encReader :=
  {| er_src := s; er_aead := er_aead r; er_noncePfx := er_noncePfx r; er_counter := er_counter r;
     er_plain := er_plain r; er_done := er_done r |}.

(** [encReader.next]: the error, and the reader with the next frame buffered. *)
Definition next (r : encReader) : option error * encReader :=
  match ReadFull 4 (er_src r) with
  | (Ret raw, src) =>
      let hdr := be_get raw in
      let last := negb (Z.land hdr lastFlagBit =? 0) in
      match ReadFull (Z.ldiff hdr lastFlagBit) src with
      | (Ret ct, src) =>
          match aead_Open (er_aead r) (nonce (er_noncePfx r) (er_counter r) last) ct with
          | Some pt =>
              (None, {| er_src := src; er_aead := er_aead r; er_noncePfx := er_noncePfx r;
                        er_counter := wrap64 (er_counter r + 1); er_plain := pt;
                        er_done := er_done r || last |})
          | None => (Some (ErrNew (str "backup: decryption failed (wrong password or corrupt dump)")), set_src r src)
          end
      | (Fail e, src) => (Some (ErrWrap (str "backup: truncated frame") e), set_src r src)
      | (Panic, src) => (None, set_src r src) (* ReadFull does not panic *)
      end
  | (Fail e, src) =>
      (Some (if bool_decide (e = EOF) || bool_decide (e = ErrUnexpectedEOF)
             then ErrNew (str "backup: truncated dump (no final chunk)") else e), set_src r src)
  | (Panic, src) => (None, set_src r src)
  end.

(** The loop of [encReader.Read] that fills the buffer. *)
Fixpoint fill (fuel : nat) (r : encReader) : option (option error * encReader) :=
  match fuel with
  | O => None
  | S fuel =>
      if negb (len (er_plain r) =? 0) then Some (None, r) else
      if er_done r then Some (Some EOF, r) else
      match next r with
      | (Some e, r) => Some (Some e, r)
      | (None, r) => fill fuel r
      end
  end.

(** Every round of the loop but the first consumes a frame header. *)
Definition fill_fuel (r : encReader) : nat := S (S (S (length (src_data (er_src r))))).

(** [encReader.Read] into a buffer of [n] bytes. *)
Definition enc_Read (n : nat) (r : encReader) : option (result bytes * encReader) :=
  match fill (fill_fuel r) r with
  | None => None
  | Some (Some e, r) => Some (Fail e, r)
  | Some (None, r) =>
      Some (Ret (take n (er_plain r)),
            {| er_src := er_src r; er_aead := er_aead r; er_noncePfx := er_noncePfx r;
               er_counter := er_counter r; er_plain := drop n (er_plain r); er_done := er_done r |})
  end.

(** Reading a source to its end with buffers of [n] bytes, as [io.ReadAll] does. *)
Fixpoint enc_ReadAll (fuel n : nat) (r : encReader) (acc : bytes) : option (result bytes) :=
  match fuel with
  | O => None
  | S fuel =>
      match enc_Read n r with
      | None => None
      | Some (Ret p, r) => enc_ReadAll fuel n r (acc ++ p)
      | Some (Fail e, r) => Some (if decide (e = EOF) then Ret acc else Fail e)
      | Some (Panic, r) => Some Panic
      end
  end.

Definition ReadAll (fuel n : nat) (r : reader) : option (result bytes) :=
  match r with
  | plainReader src => Some (if decide (src_err src = EOF) then Ret (src_data src) else Fail (src_err src))
  | encryptedReader r => enc_ReadAll fuel n r []
  end.

End Container.
Arguments encWriter {_} D.
Arguments container {_} D.
