(* ===== verification/BackupProps.v ===== *)
(** * Properties of the backup container

    What was written reads back; a cut dump is always refused; the bytes a reader delivers are
    exactly the chunks the cipher accepted, in order, up to a marked last one; nonces are not
    repeated; and reading any source terminates. *)

From S2P Require Import Prelude Pb Password Backup.

(** ** Frame headers and nonces *)

Lemma testbit_31_small l : 0 <= l < 2 ^ 31 -> Z.testbit l 31 = false.
Proof. intros Hl. rewrite Z.testbit_false by lia. by rewrite Z.div_small. Qed.

Lemma lastFlagBit_pow : lastFlagBit = 2 ^ 31.
Proof. reflexivity. Qed.

Lemma land_flag l : 0 <= l < 2 ^ 31 -> Z.land l lastFlagBit = 0.
Proof.
  intros Hl. rewrite lastFlagBit_pow. apply Z.bits_inj'. intros i Hi.
  rewrite Z.land_spec, Z.pow2_bits_eqb, Z.bits_0 by lia.
  destruct (Z.eqb_spec 31 i) as [<-|]; [by rewrite testbit_31_small|]. by rewrite andb_false_r.
Qed.

Lemma ldiff_flag l : 0 <= l < 2 ^ 31 -> Z.ldiff l lastFlagBit = l.
Proof.
  intros Hl. rewrite lastFlagBit_pow. apply Z.bits_inj'. intros i Hi.
  rewrite Z.ldiff_spec, Z.pow2_bits_eqb by lia.
  destruct (Z.eqb_spec 31 i) as [<-|]; [by rewrite testbit_31_small|]. by rewrite andb_true_r.
Qed.

Lemma lor_flag l : 0 <= l < 2 ^ 31 -> Z.lor l lastFlagBit = l + 2 ^ 31.
Proof.
  intros Hl. rewrite lastFlagBit_pow. rewrite <- Z.add_lor_land. pose proof (land_flag l Hl) as E.
  rewrite lastFlagBit_pow in E. lia.
Qed.

Lemma land_lor_flag l : 0 <= l < 2 ^ 31 -> Z.land (Z.lor l lastFlagBit) lastFlagBit = 2 ^ 31.
Proof.
  intros Hl. rewrite lastFlagBit_pow. rewrite Z.land_lor_distr_l. pose proof (land_flag l Hl) as E.
  rewrite lastFlagBit_pow in E. by rewrite E.
Qed.

Lemma ldiff_lor_flag l : 0 <= l < 2 ^ 31 -> Z.ldiff (Z.lor l lastFlagBit) lastFlagBit = l.
Proof.
  intros Hl. apply Z.bits_inj'. intros i Hi.
  rewrite lastFlagBit_pow, Z.ldiff_spec, Z.lor_spec, Z.pow2_bits_eqb by lia.
  destruct (Z.eqb_spec 31 i) as [<-|]; [by rewrite testbit_31_small|]. by rewrite orb_false_r, andb_true_r.
Qed.

Definition frame_hdr (l : Z) (last : bool) : Z := if last then Z.lor l lastFlagBit else l.

Lemma frame_hdr_range l last : 0 <= l < 2 ^ 31 -> 0 <= frame_hdr l last < 2 ^ 32.
Proof. intros Hl. destruct last; cbn [frame_hdr]; [rewrite lor_flag by done|]; lia. Qed.

Lemma frame_hdr_parse l last :
  0 <= l < 2 ^ 31 ->
  negb (Z.land (frame_hdr l last) lastFlagBit =? 0) = last /\ Z.ldiff (frame_hdr l last) lastFlagBit = l.
Proof.
  intros Hl. destruct last; cbn [frame_hdr].
  - by rewrite land_lor_flag, ldiff_lor_flag by done.
  - by rewrite land_flag, ldiff_flag by done.
Qed.

Lemma nonce_eq pfx c last :
  length pfx = 4%nat -> nonce pfx c last = pfx ++ be_put 7 c ++ [if last then x01 else x00].
Proof.
  intros Hp. unfold nonce. change (drop 1 (be_put 8 c)) with (be_put 7 c).
  pose proof (length_be_put 7 c) as Hb. revert Hb. generalize (be_put 7 c). intros m Hm.
  destruct pfx as [|p0 [|p1 [|p2 [|p3 [|]]]]]; try done.
  destruct m as [|m0 [|m1 [|m2 [|m3 [|m4 [|m5 [|m6 [|]]]]]]]]; try done. by destruct last.
Qed.

(** ** Reading from a source *)

Lemma ReadFull_app a b err n :
  n = len a ->
  ReadFull n {| src_data := a ++ b; src_err := err |} = (Ret a, {| src_data := b; src_err := err |}).
Proof.
  intros ->. unfold ReadFull. cbn [src_data src_err]. pose proof (len_nonneg b).
  rewrite (proj2 (Z.leb_le _ _)) by (rewrite len_app; lia). unfold len. rewrite Nat2Z.id.
  by rewrite take_app_length, drop_app_length.
Qed.

Lemma ReadFull_short n s : len (src_data s) < n -> exists e, fst (ReadFull n s) = Fail e.
Proof. intros Hn. unfold ReadFull. rewrite (proj2 (Z.leb_gt _ _)) by lia. by eexists. Qed.

Lemma ReadFull_inv n s a s' :
  0 <= n -> ReadFull n s = (Ret a, s') -> src_data s = a ++ src_data s' /\ len a = n /\ src_err s' = src_err s.
Proof.
  intros Hn. unfold ReadFull. destruct (Z.leb_spec n (len (src_data s))); [|done]. intros [= <- <-]. cbn.
  rewrite take_drop. split; [done|]. split; [|done]. unfold len in *. rewrite length_take. lia.
Qed.

Lemma ReadFull_no_panic n s : fst (ReadFull n s) <> Panic.
Proof. unfold ReadFull. by destruct (_ <=? _). Qed.

Section Props.
Context `{Argon2Pkg} `{AeadPkg}.

(** ** Frames *)

Definition frame (a : AEAD) (pfx : bytes) (i : Z) (last : bool) (pt : bytes) : bytes :=
  let ct := aead_Seal a (nonce pfx i last) pt in be_put 4 (frame_hdr (len ct mod 2 ^ 32) last) ++ ct.

(** The frames of the full chunks, numbered from [i]. *)
Fixpoint body (a : AEAD) (pfx : bytes) (i : Z) (chunks : list bytes) : bytes :=
  match chunks with
  | [] => []
  | c :: cs => frame a pfx (wrap64 i) false c ++ body a pfx (i + 1) cs
  end.

Lemma body_snoc a pfx i cs c :
  body a pfx i (cs ++ [c]) = body a pfx i cs ++ frame a pfx (wrap64 (i + len cs)) false c.
Proof.
  revert i. induction cs as [|x cs IH]; intros i; cbn [body app].
  - by rewrite app_nil_r, Z.add_0_r.
  - rewrite IH, <- app_assoc. do 3 f_equal. rewrite len_cons. f_equal. lia.
Qed.

(** A complete encrypted body. *)
Definition sealed (a : AEAD) (pfx : bytes) (i : Z) (chunks : list bytes) (final : bytes) : bytes :=
  body a pfx i chunks ++ frame a pfx (wrap64 (i + len chunks)) true final.

Definition full_chunks (chunks : list bytes) : Prop := Forall (fun c => len c = chunkSize) chunks.

(** ** What the writer writes *)

(** The writer has sealed full chunks after [d0] and buffers less than a chunk of [data]. *)
Definition wrote (d0 data : bytes) (a : AEAD) (pfx : bytes) (w : encWriter bytes) : Prop :=
  exists chunks, ew_dst w = d0 ++ body a pfx 0 chunks /\ full_chunks chunks /\
    ew_counter w = wrap64 (len chunks) /\ concat chunks ++ ew_buf w = data /\ len (ew_buf w) < chunkSize /\
    ew_aead w = a /\ ew_noncePfx w = pfx /\ ew_closed w = false.

Lemma seal_mem last (w : encWriter bytes) :
  seal mem_write last w = (None, {|
    ew_dst := ew_dst w ++ frame (ew_aead w) (ew_noncePfx w) (ew_counter w) last (ew_buf w);
    ew_aead := ew_aead w; ew_noncePfx := ew_noncePfx w; ew_counter := wrap64 (ew_counter w + 1);
    ew_buf := []; ew_closed := ew_closed w |}).
Proof. unfold seal, mem_write, frame, frame_hdr. cbn. by rewrite <- app_assoc. Qed.

Lemma wrap64_succ z : wrap64 (wrap64 z + 1) = wrap64 (z + 1).
Proof. unfold wrap64. by rewrite Zplus_mod_idemp_l. Qed.

Lemma wrote_seal d0 data a pfx w :
  (exists chunks, ew_dst w = d0 ++ body a pfx 0 chunks /\ full_chunks chunks /\
    ew_counter w = wrap64 (len chunks) /\ concat chunks ++ ew_buf w = data /\ len (ew_buf w) = chunkSize /\
    ew_aead w = a /\ ew_noncePfx w = pfx /\ ew_closed w = false) ->
  exists w', seal mem_write false w = (None, w') /\ wrote d0 data a pfx w'.
Proof.
  intros (chunks & Hd & Hf & Hc & Hb & Hl & Ha & Hp & Hcl). rewrite seal_mem. eexists. split; [done|].
  exists (chunks ++ [ew_buf w]). cbn. rewrite Hd, Ha, Hp, Hc, body_snoc, <- app_assoc.
  repeat split.
  - apply Forall_app. by split; [|constructor].
  - by rewrite wrap64_succ, len_app.
  - by rewrite concat_app, app_nil_r; cbn; rewrite app_nil_r.
  - done.
Qed.

Lemma write_loop_mem fuel p d0 data a pfx w :
  wrote d0 data a pfx w -> (length p < fuel)%nat ->
  exists w', write_loop mem_write fuel p w = Some (None, w') /\ wrote d0 (data ++ p) a pfx w'.
Proof.
  revert p data w. induction fuel as [|fuel IH]; intros p data w Hw Hf; [lia|]. cbn [write_loop].
  destruct p as [|x p]; [exists w; by rewrite app_nil_r|]. set (q := x :: p) in *.
  assert (1 <= len q) as Hq by (unfold q; rewrite len_cons; pose proof (len_nonneg p); lia).
  rewrite (proj2 (Z.eqb_neq _ _)) by lia.
  destruct Hw as (chunks & Hd & Hfc & Hc & Hb & Hl & Ha & Hp & Hcl).
  pose proof (len_nonneg (ew_buf w)) as Hbn.
  set (n := if chunkSize - len (ew_buf w) <? len q then chunkSize - len (ew_buf w) else len q).
  assert (1 <= n <= len q /\ n <= chunkSize - len (ew_buf w)) as [Hn Hn'].
  { unfold n. destruct (Z.ltb_spec (chunkSize - len (ew_buf w)) (len q)); lia. }
  cbn zeta. set (w1 := set_buf w (ew_buf w ++ take (Z.to_nat n) q)).
  assert (len (ew_buf w1) = len (ew_buf w) + n) as Hl1.
  { unfold w1. cbn. rewrite len_app. unfold len in *. rewrite length_take. lia. }
  assert ((length (drop (Z.to_nat n) q) < fuel)%nat) as Hf' by (rewrite length_drop; unfold len in *; lia).
  assert (data ++ q = (data ++ take (Z.to_nat n) q) ++ drop (Z.to_nat n) q) as Hdq by (by rewrite <- app_assoc, take_drop).
  rewrite Hdq. destruct (Z.eqb_spec (len (ew_buf w1)) chunkSize) as [E|E].
  - destruct (wrote_seal d0 (data ++ take (Z.to_nat n) q) a pfx w1) as (w' & -> & Hw').
    { exists chunks. subst w1. cbn. rewrite app_assoc, Hb. done. }
    by apply IH.
  - apply IH; [|done]. exists chunks. rewrite Hl1 in *. subst w1. cbn. rewrite app_assoc, Hb.
    repeat split; try done. lia.
Qed.

(** All the writes of a dump into memory, then [Close]: the bytes written. *)
Fixpoint write_all (ps : list bytes) (c : container bytes) : option (container bytes) :=
  match ps with
  | [] => Some c
  | p :: ps => match container_Write mem_write p c with Some (Ret _, c) => write_all ps c | _ => None end
  end.

Definition written (c : container bytes) : bytes :=
  match c with plainWriter dst => dst | encryptedWriter w => ew_dst w end.

Definition dump (password salt noncePfx : bytes) (ps : list bytes) : option bytes :=
  match NewWriter mem_write [] password (Ret salt) (Ret noncePfx) with
  | Ret c =>
      c ← write_all ps c;
      match container_Close mem_write c with (None, c) => Some (written c) | _ => None end
  | _ => None
  end.

Lemma write_all_plain ps d : write_all ps (plainWriter d) = Some (plainWriter (d ++ concat ps)).
Proof.
  revert d. induction ps as [|p ps IH]; intros d; cbn [write_all container_Write concat]; [by rewrite app_nil_r|].
  unfold mem_write at 1. rewrite IH. by rewrite <- app_assoc.
Qed.

Lemma write_all_enc ps d0 data a pfx w :
  wrote d0 data a pfx w ->
  exists w', write_all ps (encryptedWriter w) = Some (encryptedWriter w') /\ wrote d0 (data ++ concat ps) a pfx w'.
Proof.
  revert data w. induction ps as [|p ps IH]; intros data w Hw; cbn [write_all concat].
  { exists w. by rewrite app_nil_r. }
  cbn [container_Write]. unfold enc_Write.
  assert (ew_closed w = false) as -> by (by destruct Hw as (? & ? & ? & ? & ? & ? & ? & ? & ?)).
  destruct (write_loop_mem (S (length p)) p d0 data a pfx w Hw) as (w' & -> & Hw'); [lia|]. cbn.
  destruct (IH _ _ Hw') as (w'' & -> & Hw''). exists w''. by rewrite app_assoc.
Qed.

Context `{!Argon2Laws} `{!AeadLaws}.

Lemma newAEAD_ok pw salt :
  exists key a, argon2_IDKey pw salt argonTimeCost argonMemKiB argonThreads keyLen = Ret key /\
    aes_gcm key = Ret a /\ newAEAD pw salt = Ret a.
Proof.
  destruct (idkey_ok pw salt argonTimeCost argonMemKiB argonThreads keyLen) as (key & Hk & Hl); [unfold argonTimeCost, argonThreads, keyLen; lia..|].
  destruct (aes_gcm_ok key Hl) as (a & Ha). exists key, a. unfold newAEAD. by rewrite Hk.
Qed.

(** An encrypted dump is the header followed by the sealed chunks of the data. *)
Lemma dump_enc pw salt pfx ps :
  pw <> [] ->
  exists key a chunks final, argon2_IDKey pw salt argonTimeCost argonMemKiB argonThreads keyLen = Ret key /\
    aes_gcm key = Ret a /\
    dump pw salt pfx ps = Some (header modeEncrypt salt pfx ++ sealed a pfx 0 chunks final) /\
    full_chunks chunks /\ concat chunks ++ final = concat ps /\ len final < chunkSize.
Proof.
  intros Hpw. destruct (newAEAD_ok pw salt) as (key & a & Hk & Ha & HA). exists key, a.
  unfold dump, NewWriter. rewrite decide_False by done. cbn [mbind outcome_bind]. rewrite HA. cbn [mbind outcome_bind].
  unfold mem_write at 1. cbn [app].
  set (w0 := {| ew_dst := header modeEncrypt salt pfx; ew_aead := a; ew_noncePfx := pfx; ew_counter := 0;
                ew_buf := []; ew_closed := false |}).
  destruct (write_all_enc ps (header modeEncrypt salt pfx) [] a pfx w0) as (w & Hw & chunks & Hd & Hf & Hc & Hb & Hl & Hwa & Hwp & Hcl).
  { exists []. cbn [body w0 ew_dst ew_buf]. rewrite app_nil_r. repeat split; constructor. }
  rewrite Hw. cbn [mbind option_bind container_Close]. unfold enc_Close. rewrite Hcl, seal_mem. cbn.
  exists chunks, (ew_buf w). split; [done|]. split; [done|]. split; [|done].
  rewrite Hd, Hwa, Hwp, Hc, <- app_assoc. done.
Qed.

Lemma dump_plain salt pfx ps :
  dump [] salt pfx ps = Some (header modePlain [] [] ++ concat ps).
Proof.
  unfold dump, NewWriter. rewrite decide_True by done. unfold mem_write at 1. cbn [app].
  by rewrite write_all_plain.
Qed.

(** ** What the reader reads *)

Lemma seal_len a n p : len (aead_Seal a n p) = len p + gcm_overhead.
Proof. apply (open_len a n), seal_open. Qed.

Definition frame_len_ok (pt : bytes) : Prop := len pt + gcm_overhead < 2 ^ 31.

Lemma frame_split a pfx i last pt :
  frame_len_ok pt ->
  exists raw ct, frame a pfx i last pt = raw ++ ct /\ length raw = 4%nat /\
    negb (Z.land (be_get raw) lastFlagBit =? 0) = last /\ Z.ldiff (be_get raw) lastFlagBit = len ct /\
    aead_Open a (nonce pfx i last) ct = Some pt.
Proof.
  intros Hpt. unfold frame_len_ok in Hpt. pose proof (len_nonneg pt) as Hpn.
  exists (be_put 4 (frame_hdr (len pt + gcm_overhead) last)), (aead_Seal a (nonce pfx i last) pt).
  assert (0 <= len pt + gcm_overhead < 2 ^ 31) as Hl by (unfold gcm_overhead in *; lia).
  split; [unfold frame; cbn zeta; rewrite seal_len, Z.mod_small by lia; done|].
  split; [by rewrite length_be_put|].
  rewrite be_get_put_small by (by apply frame_hdr_range).
  destruct (frame_hdr_parse _ last Hl) as [-> ->]. by rewrite seal_len, seal_open.
Qed.

Lemma next_frame (r : encReader) last pt rest :
  frame_len_ok pt -> src_data (er_src r) = frame (er_aead r) (er_noncePfx r) (er_counter r) last pt ++ rest ->
  next r = (None, {| er_src := {| src_data := rest; src_err := src_err (er_src r) |}; er_aead := er_aead r;
    er_noncePfx := er_noncePfx r; er_counter := wrap64 (er_counter r + 1); er_plain := pt; er_done := er_done r || last |}).
Proof.
  intros Hpt Hs. destruct (frame_split (er_aead r) (er_noncePfx r) (er_counter r) last pt Hpt)
    as (raw & ct & Hf & Hraw & Hlast & Hlen & Hopen).
  unfold next. destruct (er_src r) as [data err]. cbn [src_data src_err] in *. rewrite Hs, Hf, <- app_assoc.
  rewrite ReadFull_app by (unfold len; lia). rewrite Hlast, Hlen, ReadFull_app by done. by rewrite Hopen.
Qed.

(** The reader still has [data] to deliver. *)
Definition pending (r : encReader) (data : bytes) : Prop :=
  (er_done r = true /\ er_plain r = data) \/
  (er_done r = false /\ exists chunks final rest i, full_chunks chunks /\ len final < chunkSize /\
     src_data (er_src r) = sealed (er_aead r) (er_noncePfx r) i chunks final ++ rest /\
     er_counter r = wrap64 i /\ data = er_plain r ++ concat chunks ++ final).

Lemma full_frame_ok c : len c <= chunkSize -> frame_len_ok c.
Proof. unfold frame_len_ok, chunkSize, gcm_overhead. lia. Qed.

(** Decrypting the next frame keeps what is left to deliver. *)
Lemma next_pending r data :
  pending r data -> er_plain r = [] -> er_done r = false ->
  exists r', next r = (None, r') /\ pending r' data /\ (er_plain r' <> [] \/ er_done r' = true).
Proof.
  intros [[? _]|(_ & chunks & final & rest & i & Hf & Hl & Hs & Hc & Hd)] Hp Hdone; [congruence|].
  rewrite Hp in Hd. cbn [app] in Hd. destruct chunks as [|c cs].
  - unfold sealed in Hs. cbn [body app] in Hs. replace (i + len []) with i in Hs by (symmetry; apply Z.add_0_r). rewrite <- Hc in Hs.
    rewrite (next_frame r true final rest (full_frame_ok final ltac:(lia)) Hs).
    eexists. split; [done|]. rewrite orb_true_r. split; [|by right]. by left.
  - inversion Hf as [|? ? Hcl Hf']; subst. unfold sealed in Hs. cbn [body] in Hs. rewrite <- Hc, <- !app_assoc in Hs.
    rewrite (next_frame r false c _ (full_frame_ok c ltac:(lia)) Hs).
    eexists. split; [done|]. cbn [er_plain er_done]. rewrite Hdone. split.
    + right. split; [done|]. exists cs, final, rest, (i + 1). cbn. rewrite Hc, wrap64_succ, len_cons.
      repeat split; try done; [|by rewrite <- app_assoc]. unfold sealed. rewrite <- app_assoc. by rewrite Z.add_assoc.
    + left. intros E. apply (f_equal len) in E. rewrite Hcl in E. done.
Qed.

Lemma fill_pending r data fuel :
  pending r data -> (3 <= fuel)%nat ->
  exists r', pending r' data /\
    fill fuel r = Some (if decide (data = []) then Some EOF else None, r') /\
    (data <> [] -> er_plain r' <> []).
Proof.
  intros Hp Hf. destruct fuel as [|[|[|fuel]]]; [lia..|].
  assert (forall r', pending r' data -> er_plain r' <> [] -> data <> []) as Hne.
  { intros r' [[_ <-]|(_ & ? & ? & ? & ? & _ & _ & _ & _ & ->)] Hr; [done|]. by destruct (er_plain r'). }
  assert (forall f r', pending r' data -> er_plain r' <> [] \/ er_done r' = true ->
    fill (S f) r' = Some (if decide (data = []) then Some EOF else None, r') /\ (data <> [] -> er_plain r' <> [])) as Hstep.
  { intros f r' Hr Hor. cbn [fill]. destruct (er_plain r') as [|x l] eqn:Epl; cbn [negb].
    - destruct Hor as [?|Hd]; [done|]. cbn. rewrite Hd.
      destruct Hr as [[_ E]|[E _]]; [|congruence]. rewrite <- E, Epl. done.
    - rewrite (proj2 (Z.eqb_neq (len (x :: l)) 0)) by (rewrite len_cons; pose proof (len_nonneg l); lia).
      cbn. rewrite decide_False; [done|]. apply (Hne r' Hr). by rewrite Epl. }
  destruct (decide (er_plain r <> [] \/ er_done r = true)) as [Hor|Hnor].
  { exists r. destruct (Hstep (S (S fuel)) r Hp Hor). done. }
  assert (er_plain r = [] /\ er_done r = false) as [E1 E2].
  { destruct (er_plain r), (er_done r); naive_solver. }
  destruct (next_pending r data Hp E1 E2) as (r' & Hn & Hp' & Hor').
  exists r'. change (fill (S (S (S fuel))) r) with
    (if negb (len (er_plain r) =? 0) then Some (None, r) else if er_done r then Some (Some EOF, r) else
     match next r with (Some e, r0) => Some (Some e, r0) | (None, r0) => fill (S (S fuel)) r0 end).
  rewrite E1, E2, Hn. cbn [len length negb]. destruct (Hstep (S fuel) r' Hp' Hor'). done.
Qed.

Definition consume (n : nat) (r : encReader) : encReader :=
  {| er_src := er_src r; er_aead := er_aead r; er_noncePfx := er_noncePfx r;
     er_counter := er_counter r; er_plain := drop n (er_plain r); er_done := er_done r |}.

Lemma pending_consume n r data :
  pending r data -> exists data', data = take n (er_plain r) ++ data' /\ pending (consume n r) data'.
Proof.
  intros [[Hd <-]|(Hd & chunks & final & rest & i & Hf & Hl & Hs & Hc & ->)].
  - exists (drop n (er_plain r)). rewrite take_drop. split; [done|]. by left.
  - exists (drop n (er_plain r) ++ concat chunks ++ final). rewrite (app_assoc (take n _)), take_drop. split; [done|].
    right. split; [done|]. by exists chunks, final, rest, i.
Qed.

Lemma enc_ReadAll_pending fuel n r data acc :
  pending r data -> (1 <= n)%nat -> (length data < fuel)%nat -> enc_ReadAll fuel n r acc = Some (Ret (acc ++ data)).
Proof.
  intros Hp Hn. revert r data acc Hp. induction fuel as [|fuel IH]; intros r data acc Hp Hf; [lia|].
  cbn [enc_ReadAll]. unfold enc_Read.
  destruct (fill_pending r data (fill_fuel r) Hp) as (r' & Hp' & -> & Hne); [unfold fill_fuel; lia|].
  case_decide as Ed; [by rewrite Ed, decide_True, app_nil_r|]. specialize (Hne Ed).
  destruct (pending_consume n r' data Hp') as (data' & -> & Hp''). fold (consume n r').
  rewrite (IH _ data'); [by rewrite <- app_assoc|done|].
  rewrite length_app, length_take in Hf. destruct (er_plain r'); [done|]. cbn [length] in Hf. lia.
Qed.

(** ** Reading arbitrary sources *)

(** The chunks the cipher accepts from a body, numbered from [i], up to the first frame marked
    last. What follows that frame is not looked at. *)
Inductive opens (a : AEAD) (pfx : bytes) : Z -> bytes -> list bytes -> Prop :=
| opens_last i raw ct rest p :
    length raw = 4%nat -> Z.land (be_get raw) lastFlagBit <> 0 -> len ct = Z.ldiff (be_get raw) lastFlagBit ->
    aead_Open a (nonce pfx i true) ct = Some p ->
    opens a pfx i (raw ++ ct ++ rest) [p]
| opens_more i raw ct rest p ps :
    length raw = 4%nat -> Z.land (be_get raw) lastFlagBit = 0 -> len ct = Z.ldiff (be_get raw) lastFlagBit ->
    aead_Open a (nonce pfx i false) ct = Some p -> opens a pfx (wrap64 (i + 1)) rest ps ->
    opens a pfx i (raw ++ ct ++ rest) (p :: ps).

Lemma ldiff_nonneg a b : 0 <= a -> 0 <= Z.ldiff a b.
Proof. intros. apply Z.ldiff_nonneg. by left. Qed.

Lemma next_ok r r' :
  next r = (None, r') ->
  exists raw ct last, src_data (er_src r) = raw ++ ct ++ src_data (er_src r') /\ length raw = 4%nat /\
    negb (Z.land (be_get raw) lastFlagBit =? 0) = last /\ len ct = Z.ldiff (be_get raw) lastFlagBit /\
    aead_Open (er_aead r) (nonce (er_noncePfx r) (er_counter r) last) ct = Some (er_plain r') /\
    er_aead r' = er_aead r /\ er_noncePfx r' = er_noncePfx r /\ er_counter r' = wrap64 (er_counter r + 1) /\
    er_done r' = er_done r || last.
Proof.
  unfold next. destruct (ReadFull 4 (er_src r)) as [[raw|e|] s1] eqn:E1; [|done|].
  2: { by pose proof (ReadFull_no_panic 4 (er_src r)) as Hnp; rewrite E1 in Hnp. }
  apply ReadFull_inv in E1 as (Hs & Hl & _); [|lia].
  assert (0 <= Z.ldiff (be_get raw) lastFlagBit) as Hn by (apply ldiff_nonneg, be_get_range).
  destruct (ReadFull _ s1) as [[ct|e|] s2] eqn:E2; [|done|].
  2: { by pose proof (ReadFull_no_panic (Z.ldiff (be_get raw) lastFlagBit) s1) as Hnp; rewrite E2 in Hnp. }
  apply ReadFull_inv in E2 as (Hs' & Hl' & _); [|done].
  destruct (aead_Open _ _ ct) as [pt|] eqn:EO; [|done]. intros [= <-]. exists raw, ct. eexists. cbn.
  rewrite Hs, Hs'. repeat split; try done. unfold len in Hl. lia.
Qed.

(** A body is consumed frame by frame, so a reader always comes to an end. *)
Lemma fill_total fuel r : (2 + length (src_data (er_src r)) <= fuel)%nat -> fill fuel r <> None.
Proof.
  revert r. induction fuel as [|fuel IH]; intros r Hf; [lia|]. cbn [fill].
  destruct (negb _); [done|]. destruct (er_done r); [done|]. destruct (next r) as [[e|] r'] eqn:E; [done|].
  apply next_ok in E as (raw & ct & last & Hs & Hl & _). apply IH. rewrite Hs, !length_app in Hf. lia.
Qed.

(** What a filled reader has buffered comes from frames that opened. *)
Definition from_frames (r : encReader) (ps : list bytes) : Prop :=
  if er_done r then ps = [] else opens (er_aead r) (er_noncePfx r) (er_counter r) (src_data (er_src r)) ps.

Lemma fill_frames fuel r err r' ps :
  fill fuel r = Some (err, r') -> err = None \/ err = Some EOF -> from_frames r' ps ->
  (err = Some EOF -> ps = [] /\ er_plain r' = []) ->
  (forall e r1 r2, next r1 = (Some e, r2) -> e <> EOF) ->
  exists ps0, from_frames r ps0 /\ er_plain r ++ concat ps0 = er_plain r' ++ concat ps.
Proof.
  intros HF Herr Hps Heof Hneof. revert r HF. induction fuel as [|fuel IH]; intros r; cbn [fill]; [done|].
  destruct (Z.eqb_spec (len (er_plain r)) 0) as [E0|E0]; cbn [negb]; [|intros [= <- <-]; by exists ps].
  assert (er_plain r = []) as Epl by (apply nil_length_inv; unfold len in E0; lia).
  destruct (er_done r) eqn:Ed; [intros [= <- <-]; by exists ps|].
  destruct (next r) as [[e|] r1] eqn:En.
  { intros [= <- <-]. destruct Herr as [?|[= ->]]; [done|]. by apply Hneof in En. }
  intros HF. destruct (IH r1 HF) as (ps1 & Hps1 & E1).
  apply next_ok in En as (raw & ct & last & Hs & Hl & Hlast & Hct & HO & Ha & Hpx & Hc & Hdn).
  exists (er_plain r1 :: ps1). unfold from_frames in *. rewrite Ed. rewrite Epl. split; [|by rewrite <- E1].
  rewrite Hs. rewrite Hdn, Ed in Hps1. cbn [orb] in Hps1. destruct last.
  - subst ps1. apply negb_true_iff, Z.eqb_neq in Hlast. by constructor.
  - apply negb_false_iff, Z.eqb_eq in Hlast. rewrite Ha, Hpx, Hc in Hps1. by constructor.
Qed.

(** [next] never reports [io.EOF]: the end of the source is a truncation. *)
Lemma next_not_eof e r r' : next r = (Some e, r') -> e <> EOF.
Proof.
  unfold next. destruct (ReadFull 4 (er_src r)) as [[raw|e1|] s1] eqn:E1; [|intros [= <- _]|done].
  - destruct (ReadFull _ s1) as [[ct|e2|] s2]; [|by intros [= <- _]|done].
    destruct (aead_Open _ _ ct); [done|]. by intros [= <- _].
  - repeat case_bool_decide; cbn [orb]; congruence || done.
Qed.

Lemma fill_eof fuel r r' : fill fuel r = Some (Some EOF, r') -> er_plain r' = [] /\ er_done r' = true.
Proof.
  revert r. induction fuel as [|fuel IH]; intros r; cbn [fill]; [done|].
  destruct (Z.eqb_spec (len (er_plain r)) 0) as [E0|E0]; cbn [negb]; [|done].
  destruct (er_done r) eqn:Ed; [intros [= <-]; split; [apply nil_length_inv; unfold len in E0; lia|done]|].
  destruct (next r) as [[e|] r1] eqn:En; [|apply IH]. intros [= -> <-]. by apply next_not_eof in En.
Qed.

Lemma enc_ReadAll_opens fuel n r acc data :
  enc_ReadAll fuel n r acc = Some (Ret data) ->
  exists ps, from_frames r ps /\ data = acc ++ er_plain r ++ concat ps.
Proof.
  revert r acc. induction fuel as [|fuel IH]; intros r acc; cbn [enc_ReadAll]; [done|]. unfold enc_Read.
  destruct (fill (fill_fuel r) r) as [[[e|] r']|] eqn:EF; [| |done].
  - case_decide as Ee; [|done]. subst e. intros [= <-].
    destruct (fill_eof _ _ _ EF) as [Hpl Hdn].
    destruct (fill_frames _ _ _ _ [] EF) as (ps & Hps & Ep).
    + by right.
    + unfold from_frames. by rewrite Hdn.
    + done.
    + intros. by eapply next_not_eof.
    + exists ps. split; [done|]. rewrite Ep, Hpl. cbn. by rewrite app_nil_r.
  - intros HR. apply IH in HR as (ps & Hps & ->). fold (consume n r') in Hps.
    destruct (fill_frames _ _ _ _ ps EF) as (ps0 & Hps0 & Ep); [by left|done|done|intros; by eapply next_not_eof|].
    exists ps0. split; [done|]. rewrite Ep. cbn [er_plain]. rewrite <- !app_assoc. f_equal.
    rewrite (app_assoc (take n _)), take_drop. done.
Qed.

(** Reading to the end terminates: a frame never holds more plaintext than it has bytes. *)
Definition unread (r : encReader) : nat := length (er_plain r) + length (src_data (er_src r)).

Lemma fill_unread fuel r r' :
  fill fuel r = Some (None, r') -> er_plain r' <> [] /\ (unread r' <= unread r)%nat.
Proof.
  revert r. induction fuel as [|fuel IH]; intros r; cbn [fill]; [done|].
  destruct (Z.eqb_spec (len (er_plain r)) 0) as [E0|E0]; cbn [negb].
  - destruct (er_done r); [done|]. destruct (next r) as [[e|] r1] eqn:En; [done|]. intros HF%IH.
    destruct HF as [Hne Hle]. split; [done|].
    apply next_ok in En as (raw & ct & last & Hs & Hl & _ & _ & HO & _).
    apply open_len in HO. unfold unread in *. rewrite Hs, !length_app. unfold len, gcm_overhead in HO. lia.
  - intros [= <-]. split; [|lia]. intros E. by rewrite E in E0.
Qed.

Lemma enc_ReadAll_total fuel n r acc :
  (1 <= n)%nat -> (unread r < fuel)%nat -> exists x, enc_ReadAll fuel n r acc = Some x /\ x <> Panic.
Proof.
  intros Hn. revert r acc. induction fuel as [|fuel IH]; intros r acc Hf; [lia|]. cbn [enc_ReadAll]. unfold enc_Read.
  destruct (fill (fill_fuel r) r) as [[[e|] r']|] eqn:EF.
  - eexists. split; [done|]. by case_decide.
  - apply fill_unread in EF as [Hne Hle]. apply IH. revert Hne Hle Hf. unfold unread. cbn [er_plain er_src].
    rewrite length_drop. destruct (er_plain r'); [done|]. cbn [length]. lia.
  - exfalso. revert EF. apply fill_total. unfold fill_fuel. lia.
Qed.

(** ** The header *)

Definition head8 : bytes := magic ++ [byte_of formatVer; byte_of modeEncrypt].
Definition head10 : bytes := be_put 4 argonMemKiB ++ be_put 4 argonTimeCost ++ [byte_of argonThreads; byte_of saltLen].

Lemma header_split salt pfx :
  len salt = saltLen -> header modeEncrypt salt pfx = head8 ++ head10 ++ salt ++ pfx.
Proof. intros Hs. unfold header, head8, head10. rewrite Hs. cbn [Z.eqb modeEncrypt Pos.eqb]. by rewrite <- !app_assoc. Qed.

Lemma NewReader_head8 t err pw :
  pw <> [] -> NewReader {| src_data := head8 ++ t; src_err := err |} pw =
  (r ← newEncReader {| src_data := t; src_err := err |} pw; Ret (encryptedReader r)).
Proof.
  intros Hpw. unfold NewReader. rewrite ReadFull_app by done.
  rewrite (bool_decide_eq_false_2 (pw = [])) by done. reflexivity.
Qed.

Lemma newEncReader_head10 t err pw :
  newEncReader {| src_data := head10 ++ t; src_err := err |} pw =
  match ReadFull (saltLen + noncePfxLen) {| src_data := t; src_err := err |} with
  | (Ret rest, src) =>
      key ← argon2_IDKey pw (take 16 rest) argonTimeCost argonMemKiB argonThreads keyLen;
      aead ← aes_gcm key;
      Ret {| er_src := src; er_aead := aead; er_noncePfx := drop 16 rest; er_counter := 0; er_plain := []; er_done := false |}
  | (Fail e, _) => Fail (ErrWrap (str "backup: read salt") e)
  | (Panic, _) => Panic
  end.
Proof. unfold newEncReader. rewrite ReadFull_app by done. reflexivity. Qed.

Lemma NewReader_enc pw salt pfx key a t err :
  pw <> [] -> len salt = saltLen -> len pfx = noncePfxLen ->
  argon2_IDKey pw salt argonTimeCost argonMemKiB argonThreads keyLen = Ret key -> aes_gcm key = Ret a ->
  NewReader {| src_data := header modeEncrypt salt pfx ++ t; src_err := err |} pw =
  Ret (encryptedReader {| er_src := {| src_data := t; src_err := err |}; er_aead := a; er_noncePfx := pfx;
                          er_counter := 0; er_plain := []; er_done := false |}).
Proof.
  intros Hpw Hs Hp Hk Ha. rewrite header_split by done. rewrite <- !app_assoc, NewReader_head8, newEncReader_head10 by done.
  rewrite (app_assoc salt pfx t), ReadFull_app by (rewrite len_app; lia).
  assert (length salt = 16%nat) as Hl by (unfold len, saltLen in Hs; lia).
  rewrite <- Hl, take_app_length, drop_app_length, Hk. cbn [mbind outcome_bind]. by rewrite Ha.
Qed.

(** A source cut inside the header is refused at once. *)
Lemma ReadFull_short_fail n s : len (src_data s) < n -> exists e s', ReadFull n s = (Fail e, s').
Proof. intros Hn. unfold ReadFull. rewrite (proj2 (Z.leb_gt _ _)) by lia. by eexists _, _. Qed.

Lemma strict_prefix_app (t a b : bytes) :
  t `prefix_of` a ++ b -> (len t < len a) \/ exists t', t = a ++ t' /\ t' `prefix_of` b.
Proof.
  intros [k E]. destruct (decide (length t < length a)%nat) as [Hl|Hl]; [left; unfold len; lia|right].
  exists (drop (length a) t). split.
  - rewrite <- (take_drop (length a) t) at 1. f_equal. apply (f_equal (take (length a))) in E.
    rewrite take_app_length, take_app_le in E by lia. done.
  - apply (f_equal (drop (length a))) in E. rewrite drop_app_length, drop_app_le in E by lia. by exists k.
Qed.

Lemma NewReader_cut pw salt pfx t :
  pw <> [] -> len salt = saltLen -> len pfx = noncePfxLen -> t `prefix_of` header modeEncrypt salt pfx -> t <> header modeEncrypt salt pfx ->
  exists e, NewReader {| src_data := t; src_err := EOF |} pw = Fail e.
Proof.
  intros Hpw Hs Hp. rewrite header_split by done. intros [Hl|(t1 & -> & Ht1)]%strict_prefix_app Hne.
  { destruct (ReadFull_short_fail (len magic + 2) {| src_data := t; src_err := EOF |} Hl) as (e & s' & E).
    unfold NewReader. rewrite E. by eexists. }
  rewrite NewReader_head8 by done. apply strict_prefix_app in Ht1 as [Hl|(t2 & -> & Ht2)].
  { destruct (ReadFull_short_fail 10 {| src_data := t1; src_err := EOF |} Hl) as (e & s' & E).
    unfold newEncReader. rewrite E. by eexists. }
  rewrite newEncReader_head10.
  assert (len t2 < saltLen + noncePfxLen) as Hl.
  { rewrite <- Hs, <- Hp, <- len_app. destruct Ht2 as [k E]. rewrite E, len_app. destruct k as [|x k].
    - rewrite app_nil_r in E. by rewrite E in Hne.
    - rewrite len_cons. pose proof (len_nonneg k). lia. }
  destruct (ReadFull_short_fail (saltLen + noncePfxLen) {| src_data := t2; src_err := EOF |} Hl) as (e & s' & E).
  rewrite E. by eexists.
Qed.

(** Sealing makes data longer. *)
Lemma frame_length a pfx i last pt : (length pt <= length (frame a pfx i last pt))%nat.
Proof.
  unfold frame. rewrite !length_app. pose proof (seal_len a (nonce pfx i last) pt) as Hl. unfold len, gcm_overhead in Hl. lia.
Qed.

Lemma body_length a pfx i chunks : (length (concat chunks) <= length (body a pfx i chunks))%nat.
Proof.
  revert i. induction chunks as [|c cs IH]; intros i; cbn [body concat]; [done|].
  rewrite !length_app. specialize (IH (i + 1)). pose proof (frame_length a pfx (wrap64 i) false c). lia.
Qed.

(** A reader opened on a dump with its password gets the data. *)
Lemma dump_reads_back (password salt noncePfx : bytes) (ps : list bytes) :
  len salt = saltLen -> len noncePfx = noncePfxLen ->
  exists d r, dump password salt noncePfx ps = Some d /\ (length (concat ps) <= length d)%nat /\
    NewReader {| src_data := d; src_err := EOF |} password = Ret r /\
    forall n fuel, (1 <= n)%nat -> (length (concat ps) < fuel)%nat -> ReadAll fuel n r = Some (Ret (concat ps)).
Proof.
  intros Hs Hp. destruct (decide (password = [])) as [->|Hpw].
  - rewrite dump_plain. eexists _, (plainReader {| src_data := concat ps; src_err := EOF |}). split; [done|].
    split; [rewrite length_app; lia|]. split; [|done]. unfold NewReader. by rewrite ReadFull_app.
  - destruct (dump_enc password salt noncePfx ps Hpw) as (key & a & chunks & final & Hk & Ha & -> & Hc & Hd & Hl).
    eexists _, _. split; [done|]. split; [|split; [by apply (NewReader_enc _ _ _ key a)|]].
    + rewrite <- Hd. unfold sealed. rewrite !length_app. pose proof (body_length a noncePfx 0 chunks).
      pose proof (frame_length a noncePfx (wrap64 (0 + len chunks)) true final). lia.
    + intros n fuel Hn Hf. cbn [ReadAll]. rewrite (enc_ReadAll_pending _ _ _ (concat ps)); [done| |done|done].
      right. split; [done|]. exists chunks, final, [], 0. by rewrite app_nil_r, Hd.
Qed.

(** ** Properties *)

(** Dumps read back. Whatever is written to a new container in whatever pieces, and closed,
    is what a reader with the same password reads to the end, in buffers of any size, with or
    without encryption. *)
Theorem dump_roundtrip (password salt noncePfx : bytes) (ps : list bytes) (n fuel : nat) :
  len salt = saltLen -> len noncePfx = noncePfxLen -> (1 <= n)%nat -> (length (concat ps) < fuel)%nat ->
  exists d r, dump password salt noncePfx ps = Some d /\
    NewReader {| src_data := d; src_err := EOF |} password = Ret r /\
    ReadAll fuel n r = Some (Ret (concat ps)).
Proof.
  intros Hs Hp Hn Hf. destruct (dump_reads_back password salt noncePfx ps Hs Hp) as (d & r & HD & _ & HN & HA).
  exists d, r. auto.
Qed.

(** The first frame of a source that starts like a sealed one is that frame. *)
Lemma frame_head a pfx c last pt raw ct rest k X :
  frame_len_ok pt -> frame a pfx c last pt ++ X = (raw ++ ct ++ rest) ++ k ->
  length raw = 4%nat -> len ct = Z.ldiff (be_get raw) lastFlagBit ->
  rest ++ k = X /\ negb (Z.land (be_get raw) lastFlagBit =? 0) = last /\ raw ++ ct = frame a pfx c last pt.
Proof.
  intros Hok E Hr Hct. destruct (frame_split a pfx c last pt Hok) as (raw' & ct' & Hf & Hr' & Hlast & Hlen & _).
  rewrite Hf in *. rewrite <- !app_assoc in E. apply app_inj_1 in E as [-> E]; [|congruence].
  apply app_inj_1 in E as [-> E]; [done|]. rewrite Hlen in Hct. unfold len in Hct. lia.
Qed.

(** A cut body does not open to its end. *)
Lemma opens_cut a a' pfx pfx' i i' chunks final t ps :
  full_chunks chunks -> len final < chunkSize -> t `prefix_of` sealed a pfx i chunks final -> t <> sealed a pfx i chunks final ->
  ~ opens a' pfx' i' t ps.
Proof.
  intros Hf Hl Ht Hne Ho. revert i i' t ps Ht Hne Ho.
  induction Hf as [|c cs Hc Hf IH]; intros i i' t ps [k E] Hne Ho; unfold sealed in E; cbn [body] in E; rewrite <- ?app_assoc in E; cbn [app] in E.
  - assert (frame_len_ok final) as Hok by (apply full_frame_ok; lia).
    rewrite <- (app_nil_r (frame a pfx _ true final)) in E.
    destruct Ho as [? raw ct rest p Hr Hla Hct _|? raw ct rest p ps Hr Hla Hct _ _];
      destruct (frame_head _ _ _ _ _ raw ct rest k [] Hok E Hr Hct) as (Hk & Hlast & Hfr).
    + apply app_eq_nil in Hk as [-> ->]. apply Hne. unfold sealed. cbn [body app]. by rewrite app_nil_r.
    + by rewrite Hla in Hlast.
  - assert (frame_len_ok c) as Hok by (apply full_frame_ok; lia).
    destruct Ho as [? raw ct rest p Hr Hla Hct _|? raw ct rest p ps Hr Hla Hct _ Ho];
      destruct (frame_head _ _ _ _ _ raw ct rest k _ Hok E Hr Hct) as (Hk & Hlast & Hfr).
    + apply negb_false_iff, Z.eqb_eq in Hlast. done.
    + assert (sealed a pfx (i + 1) cs final = rest ++ k) as Hk'.
      { rewrite Hk. unfold sealed. rewrite len_cons. by rewrite Z.add_assoc. }
      eapply (IH (i + 1) _ rest ps); [by exists k| |exact Ho]. intros ->. apply Hne.
      rewrite app_assoc, Hfr. unfold sealed. cbn [body]. rewrite <- app_assoc, len_cons. by rewrite Z.add_assoc.
Qed.

(** C24: truncation is detected. Of an encrypted dump, every proper prefix is refused: opening it
    fails, or reading it to the end does, with an error and not with fewer bytes. This needs no
    assumption on the strength of the cipher. *)
Theorem truncated_dump_refused (password salt noncePfx : bytes) (ps : list bytes) (d t : bytes) (n : nat) :
  password <> [] -> len salt = saltLen -> len noncePfx = noncePfxLen -> (1 <= n)%nat ->
  dump password salt noncePfx ps = Some d -> t `prefix_of` d -> t <> d ->
  (exists e, NewReader {| src_data := t; src_err := EOF |} password = Fail e) \/
  exists r e, NewReader {| src_data := t; src_err := EOF |} password = Ret r /\
    ReadAll (S (length t)) n r = Some (Fail e).
Proof.
  intros Hpw Hs Hp Hn Hd Ht Hne.
  destruct (dump_enc password salt noncePfx ps Hpw) as (key & a & chunks & final & Hk & Ha & Ed & Hc & _ & Hl).
  rewrite Ed in Hd. apply (inj Some) in Hd. subst d. pose proof (strict_prefix_app _ _ _ Ht) as [Hshort|(t' & -> & Ht')].
  - left. apply (NewReader_cut _ salt noncePfx); [done..| |intros ->; lia].
    destruct Ht as [k E]. exists (take (length (header modeEncrypt salt noncePfx) - length t) k).
    apply (f_equal (take (length (header modeEncrypt salt noncePfx)))) in E. rewrite take_app_length in E.
    rewrite take_app, (take_ge t) in E by (unfold len in Hshort; lia). exact E.
  - right. rewrite (NewReader_enc _ _ _ key a) by done. set (r := {| er_src := _ |}).
    destruct (enc_ReadAll_total (S (length (header modeEncrypt salt noncePfx ++ t'))) n r [] Hn) as (x & Hx & Hnp).
    { unfold unread. cbn [er_plain er_src src_data r length]. rewrite length_app. lia. }
    destruct x as [data|e|]; [exfalso|by exists (encryptedReader r), e|done].
    apply enc_ReadAll_opens in Hx as (pts & Ho & _). unfold from_frames in Ho. cbn [er_done r] in Ho.
    eapply opens_cut; [exact Hc|exact Hl|exact Ht'| |exact Ho]. intros ->. by apply Hne.
Qed.

(** A reader delivers only what the cipher accepted. Reading any source to the end
    terminates without a panic; when it succeeds, the data is the concatenation of plaintexts
    the cipher opened under the nonces 0, 1, 2, ... in the order of their frames, the last one
    and only the last one under a nonce marked final. Frames cannot be dropped, repeated or
    reordered without the cipher accepting them under a nonce they were not sealed with. *)
Theorem ReadAll_authentic (src : Source) (password : bytes) (r : encReader) (n : nat) :
  (1 <= n)%nat -> NewReader src password = Ret (encryptedReader r) ->
  exists x, ReadAll (S (length (src_data (er_src r)))) n (encryptedReader r) = Some x /\ x <> Panic /\
    forall data, x = Ret data ->
      exists ps, opens (er_aead r) (er_noncePfx r) 0 (src_data (er_src r)) ps /\ data = concat ps.
Proof.
  intros Hn HR.
  assert (er_plain r = [] /\ er_done r = false /\ er_counter r = 0) as (Hp & Hd & Hc).
  { unfold NewReader, newEncReader in HR. repeat (case_match; try done).
    all: destruct (argon2_IDKey _ _ _ _ _ _) as [kdf|?|]; cbn [mbind outcome_bind] in HR; try done.
    all: destruct (aes_gcm kdf) as [gcm|?|]; cbn [mbind outcome_bind] in HR; try done.
    all: by injection HR as <-. }
  destruct (enc_ReadAll_total (S (length (src_data (er_src r)))) n r [] Hn) as (x & Hx & Hnp).
  { unfold unread. rewrite Hp. cbn [length]. lia. }
  exists x. cbn [ReadAll]. split; [done|]. split; [done|]. intros data ->.
  apply enc_ReadAll_opens in Hx as (ps & Ho & ->). exists ps. unfold from_frames in Ho. rewrite Hd, Hc in Ho.
  by rewrite Hp.
Qed.

(** Nonces are not reused. Within a dump of fewer than 2^56 frames, two frames sealed
    with different counters or finality never share a nonce. *)
Theorem nonces_unique (noncePfx : bytes) (i j : Z) (last1 last2 : bool) :
  len noncePfx = noncePfxLen -> 0 <= i < 2 ^ 56 -> 0 <= j < 2 ^ 56 ->
  (i, last1) <> (j, last2) -> nonce noncePfx i last1 <> nonce noncePfx j last2.
Proof.
  intros Hp Hi Hj Hne. rewrite !nonce_eq by (unfold len, noncePfxLen in Hp; lia). intros E%app_inv_head. apply Hne.
  apply app_inj_1 in E as [E1 E2]; [|by rewrite !length_be_put]. apply (f_equal be_get) in E1.
  rewrite !be_get_put_small in E1 by done. subst j. f_equal. by destruct last1, last2.
Qed.

(** A forged header can crash the reader. A dump whose header asks for zero lanes of the key
    derivation makes [NewReader] panic instead of returning an error. *)
Theorem NewReader_panics_on_zero_threads (mem time : Z) (salt noncePfx rest password : bytes) :
  password <> [] -> len salt = saltLen -> len noncePfx = noncePfxLen ->
  NewReader {| src_data := head8 ++ (be_put 4 mem ++ be_put 4 time ++ [x00; byte_of saltLen]) ++ (salt ++ noncePfx) ++ rest;
               src_err := EOF |} password = Panic.
Proof.
  intros Hpw Hs Hp. rewrite NewReader_head8 by done. unfold newEncReader. rewrite ReadFull_app by done.
  set (head := be_put 4 mem ++ _).
  change (byte_at head 9) with saltLen. change (byte_at head 8) with 0.
  rewrite ReadFull_app by (rewrite len_app; lia). rewrite idkey_panics by (right; lia). reflexivity.
Qed.

End Props.

(** ** Witnesses *)

#[local] Instance toy_argon2 : Argon2Pkg := flat_argon2.

#[local] Instance toy_argon2_laws : Argon2Laws := flat_argon2_laws.

(** A transparent cipher that satisfies the laws: the tag is the nonce and four bytes of zero. *)
#[local] Instance toy_aead : AeadPkg := {|
  AEAD := bytes;
  aes_gcm := fun key => Ret key;
  aead_Seal := fun _ n p => p ++ take 16 (n ++ replicate 16 x00);
  aead_Open := fun _ n ct => let m := (length ct - 16)%nat in
    if decide (drop m ct = take 16 (n ++ replicate 16 x00)) then Some (take m ct) else None
|}.

#[local] Instance toy_aead_laws : AeadLaws.
Proof.
  assert (forall n : bytes, length (take 16 (n ++ replicate 16 x00)) = 16%nat) as H16.
  { intros n. rewrite length_take, length_app, length_replicate. lia. }
  split; cbn [AEAD aes_gcm aead_Seal aead_Open toy_aead].
  - intros key _. by exists key.
  - intros _ n p. rewrite length_app, H16. replace (length p + 16 - 16)%nat with (length p) by lia.
    rewrite drop_app_length, take_app_length. by rewrite decide_True.
  - intros _ n ct p. case_decide as E; [|done]. intros [= <-]. apply (f_equal length) in E.
    rewrite H16, length_drop in E. unfold len, gcm_overhead. rewrite length_take. lia.
Defined.

Definition toy_salt : bytes := replicate 16 x07.
Definition toy_pfx : bytes := replicate 4 x09.

Lemma dump_roundtrip_witness :
  exists d r, dump (str "secret") toy_salt toy_pfx [str "hello "; str "world"] = Some d /\
    NewReader {| src_data := d; src_err := EOF |} (str "secret") = Ret r /\
    ReadAll 20 3 r = Some (Ret (str "hello world")).
Proof.
  apply (dump_roundtrip (str "secret") toy_salt toy_pfx [str "hello "; str "world"] 3 20);
    [reflexivity|reflexivity|lia|cbn; lia].
Defined.

Definition toy_dump : bytes := default [] (dump (str "secret") toy_salt toy_pfx [str "hello"]).

Lemma truncated_dump_refused_witness :
  (exists e, NewReader {| src_data := take 60 toy_dump; src_err := EOF |} (str "secret") = Fail e) \/
  exists r e, NewReader {| src_data := take 60 toy_dump; src_err := EOF |} (str "secret") = Ret r /\
    ReadAll (S (length (take 60 toy_dump))) 3 r = Some (Fail e).
Proof.
  apply (truncated_dump_refused (str "secret") toy_salt toy_pfx [str "hello"] toy_dump (take 60 toy_dump) 3).
  - discriminate.
  - reflexivity.
  - reflexivity.
  - lia.
  - vm_compute. reflexivity.
  - apply prefix_take.
  - intros E. apply (f_equal length) in E. vm_compute in E. discriminate.
Defined.

Definition toy_reader : encReader := {|
  er_src := {| src_data := sealed (take 32 (str "secret" ++ toy_salt ++ replicate 32 x00)) toy_pfx 0 [] (str "hello"); src_err := EOF |};
  er_aead := take 32 (str "secret" ++ toy_salt ++ replicate 32 x00); er_noncePfx := toy_pfx; er_counter := 0;
  er_plain := []; er_done := false |}.

Lemma ReadAll_authentic_witness :
  exists x, ReadAll (S (length (src_data (er_src toy_reader)))) 4 (encryptedReader toy_reader) = Some x /\ x <> Panic.
Proof.
  destruct (ReadAll_authentic {| src_data := toy_dump; src_err := EOF |} (str "secret") toy_reader 4) as (x & Hx & Hnp & _).
  - lia.
  - vm_compute. reflexivity.
  - exists x. split; [exact Hx|exact Hnp].
Defined.

Lemma nonces_unique_witness : nonce toy_pfx 5 false <> nonce toy_pfx 5 true.
Proof. apply (nonces_unique toy_pfx 5 5 false true); [reflexivity|lia|lia|discriminate]. Defined.

Lemma NewReader_panics_on_zero_threads_witness :
  NewReader {| src_data := head8 ++ (be_put 4 65536 ++ be_put 4 3 ++ [x00; byte_of saltLen]) ++ (toy_salt ++ toy_pfx) ++ [];
               src_err := EOF |} (str "secret") = Panic.
Proof.
  apply (NewReader_panics_on_zero_threads 65536 3 toy_salt toy_pfx [] (str "secret")); [discriminate|reflexivity|reflexivity].
Defined.
