(* ===== verification/Auth.v ===== *)
(** * The authenticator ([pkg/server/auth.go])

    The credential of a connection, or its verified client certificate, is resolved to a
    principal against the IAM records of the local storage. Failed attempts are logged only. *)

From S2P Require Import Prelude Pb Keys Engine Storage StorageSpec StorageReads StorageProps Value Service Iam PolicyService Codecs Password.

(** The peer certificate as the authenticator reads it. *)
Record PeerCert : Type := { pc_URIs : list bytes; pc_CommonName : bytes }.

Section Auth.
Context `{UuidPkg} `{Badger} `{StorePkg} `{ValuePkg} `{!IamStructs} `{Argon2Pkg} `{TextMaps}.

(** [load]: the record of a minor, [None] when missing or undecodable. *)
Definition load {M} `{!Struct M} (now : Z) (st : KeyValueStorageCtx) (minor : bytes) : result (option M) :=
  match Get now st {| kr_Key := Some (iam_Key minor); kr_HeadOnly := false; kr_Timeout := 0 |} with
  | Fail _ => Ret None
  | Panic => Panic
  | Ret rec =>
      if len (rec_Value rec) =? 0 then Ret None else
      match iam_Decode (rec_Value rec) with
      | Ret obj => Ret (Some obj)
      | Fail _ => Ret None
      | Panic => Panic
      end
  end.

Definition invalid_user : error := ErrNew (str "invalid user credentials").

Definition AuthenticatePassword (now : Z) (st : KeyValueStorageCtx) (name pass : bytes) : result bytes :=
  rec ← load now st (UserPrefix ++ name);
  match rec with
  | None => Fail invalid_user
  | Some rec =>
      if us_Disabled rec then Fail invalid_user else
      ok ← VerifyPassword (us_PasswordHash rec) pass;
      if negb ok then Fail invalid_user else Ret (PrincipalUser name)
  end.

(** [unix] is the wall clock in seconds. *)
Definition AuthenticateToken (now unix : Z) (st : KeyValueStorageCtx) (token : bytes) : result bytes :=
  rec ← load now st (TokenIndexKey (HashToken token));
  match rec with
  | None => Fail (ErrNew (str "invalid token"))
  | Some rec =>
      if bool_decide (tk_Principal rec = []) then Fail (ErrNew (str "invalid token")) else
      if negb (tk_ExpiresAt rec =? 0) && (tk_ExpiresAt rec <? unix) then Fail (ErrNew (str "token expired"))
      else Ret (tk_Principal rec)
  end.

(** The identities of a certificate, in the order they are tried. *)
Definition idents (leaf : PeerCert) : list bytes :=
  pc_URIs leaf ++ (if bool_decide (pc_CommonName leaf = []) then [] else [pc_CommonName leaf]).

Fixpoint first_registered (now : Z) (st : KeyValueStorageCtx) (l : list bytes) : result (option bytes) :=
  match l with
  | [] => Ret None
  | ident :: rest =>
      idx ← load now st (CertPrefix ++ ident);
      match idx with
      | Some idx => if bool_decide (ci_Principal idx = []) then first_registered now st rest else Ret (Some (ci_Principal idx))
      | None => first_registered now st rest
      end
  end.

(** [certs] is what [valuerpc.PeerCertificates] reports for the connection. *)
Definition certificatePrincipal (now : Z) (st : KeyValueStorageCtx) (certs : option (list PeerCert)) : result (option bytes) :=
  match certs with
  | None | Some [] => Ret None
  | Some (leaf :: _) => first_registered now st (idents leaf)
  end.

Definition Authenticate (now unix : Z) (st : KeyValueStorageCtx) (certs : option (list PeerCert))
    (credential : option WVal) : result bytes :=
  match credential ≫= AsMap with
  | Some m =>
      let method := GetText m (str "method") in
      if bool_decide (method = str "password") then
        AuthenticatePassword now st (GetText m (str "user")) (GetText m (str "pass"))
      else if bool_decide (method = str "token") then AuthenticateToken now unix st (GetText m (str "token"))
      else Fail (ErrNew (str "unsupported credential method"))
  | None =>
      p ← certificatePrincipal now st certs;
      match p with
      | Some principal => Ret principal
      | None => Fail (ErrNew (str "authentication required"))
      end
  end.

Section Lemmas.
Context `{!UuidLaws} `{!BadgerSpec} `{!StoreLaws}.

(** ** What is stored *)

(** A live, non-empty record under a minor of the IAM region decodes to [obj]. *)
Definition stored_as {M} `{!Struct M} (now : Z) (st : KeyValueStorageCtx) (minor : bytes) (obj : M) : Prop :=
  exists e, contents st !! enc_key (iam_Key minor) = Some e /\ live now e = true /\
    e_value e <> [] /\ iam_Decode (e_value e) = Ret obj.

(** ** Lemmas *)

Lemma load_sound {M} `{!Struct M} now st minor (obj : M) :
  load now st minor = Ret (Some obj) -> stored_as now st minor obj.
Proof.
  unfold load, stored_as.
  destruct (Get_cases now st (iam_Key minor) false 0) as [[size ->]|[_ [e ->]]]; [|done].
  unfold get_spec_rec. destruct (contents st !! _) as [e|]; [|done]. destruct (live now e) eqn:El; [|done].
  cbn [entry_record rec_Value]. destruct (Z.eqb_spec (len (e_value e)) 0) as [|Hne]; [done|].
  destruct (iam_Decode (e_value e)) as [o|?|] eqn:Ed; [|done|done]. intros [= <-].
  exists e. split; [done|]. split; [done|]. split; [|done]. intros E. by rewrite E in Hne.
Qed.

Lemma load_complete {M} `{!Struct M} now st minor (obj : M) :
  BadgerReliable -> stored_as now st minor obj -> load now st minor = Ret (Some obj).
Proof.
  intros HR (e & Hc & Hl & Hv & Hd). unfold load.
  destruct (Get_cases now st (iam_Key minor) false 0) as [[size ->]|[HN _]]; [|by destruct HN].
  unfold get_spec_rec. rewrite Hc, Hl. cbn [entry_record rec_Value].
  destruct (Z.eqb_spec (len (e_value e)) 0) as [E|_].
  - destruct (e_value e); [done|]. rewrite len_cons in E. pose proof (len_nonneg l). lia.
  - by rewrite Hd.
Qed.

Lemma first_registered_sound now st l p :
  first_registered now st l = Ret (Some p) ->
  exists ident idx, ident ∈ l /\ stored_as now st (CertPrefix ++ ident) idx /\ ci_Principal idx = p /\ p <> [].
Proof.
  induction l as [|ident rest IH]; cbn [first_registered]; [done|].
  destruct (load now st (CertPrefix ++ ident)) as [[idx|]|?|] eqn:E; cbn [mbind outcome_bind]; try done.
  - case_bool_decide as Ep.
    + intros (i & x & Hi & Hx)%IH. exists i, x. split; [by right|done].
    + intros [= <-]. exists ident, idx. split; [by left|]. split; [by apply load_sound|done].
  - intros (i & x & Hi & Hx)%IH. exists i, x. split; [by right|done].
Qed.

(** ** Properties *)

(** What makes a connection's claim to be [p] good. *)
Inductive authentic (now unix : Z) (st : KeyValueStorageCtx) (certs : option (list PeerCert))
    (credential : option WVal) (p : bytes) : Prop :=
| by_password m name u :
    credential ≫= AsMap = Some m -> GetText m (str "method") = str "password" -> GetText m (str "user") = name ->
    stored_as now st (UserPrefix ++ name) u -> us_Disabled u = false ->
    VerifyPassword (us_PasswordHash u) (GetText m (str "pass")) = Ret true -> p = PrincipalUser name ->
    authentic now unix st certs credential p
| by_token m rec :
    credential ≫= AsMap = Some m -> GetText m (str "method") = str "token" ->
    stored_as now st (TokenIndexKey (HashToken (GetText m (str "token")))) rec ->
    tk_Principal rec = p -> p <> [] -> (tk_ExpiresAt rec = 0 \/ unix <= tk_ExpiresAt rec) ->
    authentic now unix st certs credential p
| by_certificate leaf rest ident idx :
    credential ≫= AsMap = None -> certs = Some (leaf :: rest) -> ident ∈ idents leaf ->
    stored_as now st (CertPrefix ++ ident) idx -> ci_Principal idx = p -> p <> [] ->
    authentic now unix st certs credential p.

(** C27: nobody is authenticated without a stored credential. If a connection is authenticated as
    a principal, then it presented the password of a stored, enabled user of that name, or a
    token whose hash is indexed to that principal and has not expired, or, presenting no
    credential, its first certificate has an identity registered to that principal. A record
    that has expired or been removed authenticates nobody. *)
Theorem Authenticate_sound (now unix : Z) (st : KeyValueStorageCtx) (certs : option (list PeerCert))
    (credential : option WVal) (p : bytes) :
  Authenticate now unix st certs credential = Ret p -> authentic now unix st certs credential p.
Proof.
  unfold Authenticate. destruct (credential ≫= AsMap) as [m|] eqn:Em.
  - case_bool_decide as Emp; [|case_bool_decide as Emt; [|done]].
    + unfold AuthenticatePassword. destruct (load _ _ _) as [[u|]|?|] eqn:EL; cbn [mbind outcome_bind]; try done.
      destruct (us_Disabled u) eqn:Ed; [done|].
      destruct (VerifyPassword _ _) as [[]|?|] eqn:EV; cbn [mbind outcome_bind negb]; try done. intros [= <-].
      eapply by_password; [done|done|done|by apply load_sound|done|done|done].
    + unfold AuthenticateToken. destruct (load _ _ _) as [[rec|]|?|] eqn:EL; cbn [mbind outcome_bind]; try done.
      case_bool_decide as Ep; [done|].
      destruct (Z.eqb_spec (tk_ExpiresAt rec) 0), (Z.ltb_spec (tk_ExpiresAt rec) unix); cbn [negb andb]; try done;
        intros [= <-]; (eapply by_token; [done|done|by apply load_sound|done|done|lia]).
  - unfold certificatePrincipal. destruct certs as [[|leaf rest]|]; cbn [mbind outcome_bind]; try done.
    destruct (first_registered now st (idents leaf)) as [[q|]|?|] eqn:EF; cbn [mbind outcome_bind]; try done.
    intros [= <-]. apply first_registered_sound in EF as (ident & idx & Hin & Hs & Hp & Hne).
    by eapply by_certificate.
Qed.

(** Good credentials work. Over a reliable engine, the password of a stored enabled user
    and an indexed unexpired token are accepted, for the user of that name and the principal
    the token is indexed to. *)
Theorem Authenticate_complete (now unix : Z) (st : KeyValueStorageCtx) (certs : option (list PeerCert))
    (credential : option WVal) (m : WMap) (u : UserRecord) (rec : TokenRecord) :
  BadgerReliable -> credential ≫= AsMap = Some m ->
  (GetText m (str "method") = str "password" -> stored_as now st (UserPrefix ++ GetText m (str "user")) u ->
   us_Disabled u = false -> VerifyPassword (us_PasswordHash u) (GetText m (str "pass")) = Ret true ->
   Authenticate now unix st certs credential = Ret (PrincipalUser (GetText m (str "user")))) /\
  (GetText m (str "method") = str "token" -> stored_as now st (TokenIndexKey (HashToken (GetText m (str "token")))) rec ->
   tk_Principal rec <> [] -> (tk_ExpiresAt rec = 0 \/ unix <= tk_ExpiresAt rec) ->
   Authenticate now unix st certs credential = Ret (tk_Principal rec)).
Proof.
  intros HR Em. unfold Authenticate. rewrite Em. split.
  - intros Hm Hs Hd Hv. rewrite Hm, bool_decide_eq_true_2 by done. unfold AuthenticatePassword.
    rewrite (load_complete _ _ _ u HR Hs). cbn [mbind outcome_bind]. by rewrite Hd, Hv.
  - intros Hm Hs Hp Ht. rewrite Hm, bool_decide_eq_false_2, bool_decide_eq_true_2 by done.
    unfold AuthenticateToken. rewrite (load_complete _ _ _ rec HR Hs). cbn [mbind outcome_bind].
    rewrite bool_decide_eq_false_2 by done.
    destruct (Z.eqb_spec (tk_ExpiresAt rec) 0), (Z.ltb_spec (tk_ExpiresAt rec) unix); cbn [negb andb]; done || lia.
Qed.

End Lemmas.
End Auth.

(** ** Witnesses *)

Section Witness.
#[local] Existing Instances flat_uuid flat_uuid_laws mem_badger mem_spec flat_store flat_store_laws
  flat_value flat_iam_structs flat_argon2 flat_maps flat_text.

Definition demo_token_rec : TokenRecord :=
  {| tk_Principal := str "user:bob"; tk_ExpiresAt := 500; tk_Label := []; tk_CreatedAt := 0 |}.

Definition demo_token_request : RecordRequest := {|
  rr_Key := Some (iam_Key (TokenIndexKey (HashToken (str "pat-1"))));
  rr_Value := match iam_Encode demo_token_rec with Ret b => b | _ => [] end;
  rr_Metadata := 0; rr_TtlSeconds := 0; rr_CompareAndSet := false; rr_Version := 0; rr_Timeout := 0; rr_ExpiresAt := 0 |}.

Definition demo_tokens : KeyValueStorageCtx := snd (Put 100 demo_storage demo_token_request 3).

Definition demo_credential : WVal := WMapV [(str "method", WRaw (str "token")); (str "token", WRaw (str "pat-1"))].

Lemma Authenticate_sound_witness :
  Authenticate 120 400 demo_tokens None (Some demo_credential) = Ret (str "user:bob") /\
  authentic 120 400 demo_tokens None (Some demo_credential) (str "user:bob").
Proof.
  assert (Authenticate 120 400 demo_tokens None (Some demo_credential) = Ret (str "user:bob")) as E by (vm_compute; reflexivity).
  split; [exact E|]. exact (Authenticate_sound 120 400 demo_tokens None (Some demo_credential) (str "user:bob") E).
Defined.

Lemma Authenticate_complete_witness :
  Authenticate 120 400 demo_tokens None (Some demo_credential) = Ret (str "user:bob").
Proof.
  refine (proj2 (Authenticate_complete 120 400 demo_tokens None (Some demo_credential)
    [(str "method", WRaw (str "token")); (str "token", WRaw (str "pat-1"))]
    {| us_Name := []; us_PasswordHash := []; us_Admin := false; us_Disabled := false; us_CreatedAt := 0 |}
    demo_token_rec mem_reliable eq_refl) eq_refl _ _ _).
  - exists {| e_version := 3; e_expires := 0; e_value := rr_Value demo_token_request; e_meta := 0 |}.
    split; [vm_compute; reflexivity|]. split; [reflexivity|]. split; [vm_compute; discriminate|vm_compute; reflexivity].
  - vm_compute. discriminate.
  - right. vm_compute. discriminate.
Defined.

End Witness.
