(* ===== verification/Console.v ===== *)
(** * Identity management of the admin console ([pkg/console/iam.go], [pkg/console/pat.go])

    Users, service accounts, groups, role bindings and personal access tokens are records of the
    system tenant, written through the key-value service. A handler answers with a status code
    and a body; the text of an internal error is not kept. The clock does not advance inside a
    handler. Where the code ranges over a Go map, the order is a parameter. *)

From S2P Require Import Prelude Pb Keys Engine Storage StorageSpec StorageReads StorageProps Value Service Iam PolicyService Password Auth.

(** ** HTTP replies *)

Inductive reply (A : Type) : Type :=
| Reply (code : Z) (body : A)        (* writeJSON *)
| ReplyErr (code : Z) (msg : bytes)  (* writeErr *)
| Crash.                             (* a panic of the handler *)
Arguments Reply {A} code body.
Arguments ReplyErr {A} code msg.
Arguments Crash {A}.

Definition StatusOK : Z := 200.
Definition StatusCreated : Z := 201.
Definition StatusBadRequest : Z := 400.
Definition StatusForbidden : Z := 403.
Definition StatusNotFound : Z := 404.
Definition StatusConflict : Z := 409.
Definition StatusInternalServerError : Z := 500.

Definition internal_error {A} : reply A := ReplyErr StatusInternalServerError (str "internal error").

(** The order in which [range] visits a map. *)
Class MapOrder : Type := { map_order : forall {A : Type}, gmap bytes A -> list (bytes * A) }.

Class MapOrderLaws `{MapOrder} : Prop := {
  map_order_perm : forall A (m : gmap bytes A), map_order m ≡ₚ map_to_list m
}.

(** [strings.ContainsAny(s, "/ ")]. *)
Definition has_slash_or_space (s : bytes) : bool := existsb (fun c => bool_decide (c = x2f) || bool_decide (c = x20)) s.

(** [strings.TrimSpace] on UTF-8: the white space of [unicode.IsSpace], by the length of its
    encoding. *)
Definition space1 (a : byte) : bool := bool_decide (a ∈ [x20; x09; x0a; x0b; x0c; x0d]).
Definition space2 (a b : byte) : bool := bool_decide ([a; b] ∈ [[xc2; x85]; [xc2; xa0]]).
Definition space3 (a b c : byte) : bool :=
  bool_decide ([a; b; c] ∈ ((fun x => [xe2; x80; x]) <$> [x80; x81; x82; x83; x84; x85; x86; x87; x88; x89; x8a; xa8; xa9; xaf])
                 ++ [[xe1; x9a; x80]; [xe2; x81; x9f]; [xe3; x80; x80]]).

Fixpoint trim_left (s : bytes) : bytes :=
  match s with
  | a :: r1 =>
      if space1 a then trim_left r1 else
      match r1 with
      | b :: r2 =>
          if space2 a b then trim_left r2 else
          match r2 with c :: r3 => if space3 a b c then trim_left r3 else s | [] => s end
      | [] => s
      end
  | [] => []
  end.

(** On the reversed string. *)
Fixpoint trim_right (s : bytes) : bytes :=
  match s with
  | a :: r1 =>
      if space1 a then trim_right r1 else
      match r1 with
      | b :: r2 =>
          if space2 b a then trim_right r2 else
          match r2 with c :: r3 => if space3 c b a then trim_right r3 else s | [] => s end
      | [] => s
      end
  | [] => []
  end.

Definition TrimSpace (s : bytes) : bytes := rev (trim_right (rev (trim_left s))).

(** ** List helpers *)

Definition contains (l : list bytes) (v : bytes) : bool := existsb (fun s => bool_decide (s = v)) l.

Definition without (l : list bytes) (v : bytes) : list bytes := filter (fun s => s <> v) l.

Definition policyHasMember (p : PolicyRecord) (principal : bytes) : bool :=
  existsb (fun b => contains (bd_Members b) principal) (po_Bindings p).

Fixpoint dedup_loop (seen : gset bytes) (l : list bytes) : list bytes :=
  match l with
  | [] => []
  | s :: rest =>
      if bool_decide (s = []) || bool_decide (s ∈ seen) then dedup_loop seen rest
      else s :: dedup_loop ({[s]} ∪ seen) rest
  end.

Definition dedup (l : list bytes) : list bytes := dedup_loop ∅ l.

(** ** Scopes *)

Definition bindingMinor (tenant region : bytes) : bytes :=
  if bool_decide (tenant = []) then PolicyInstance
  else if bool_decide (region = []) then PolicyTenantMinor tenant
  else PolicyRegionMinor tenant region.

Definition bindingScopeLabel (minor : bytes) : option bytes :=
  if bool_decide (minor = PolicyInstance) then Some []
  else match CutPrefix minor PolicyTenantPrefix with
       | Some r => Some r
       | None => CutPrefix minor PolicyRegionPrefix
       end.

Definition bindingScopeLabelOf (tenant region : bytes) : bytes :=
  if bool_decide (tenant = []) then []
  else if bool_decide (region = []) then tenant
  else tenant ++ str "/" ++ region.

Section Bindings.
Context `{MapOrder}.

Definition keysOf (set : gmap bytes bool) : list bytes :=
  omap (fun '(k, v) => if (v : bool) then Some k else None) (map_order set).

(** [set[m] = grant; if !grant { delete(set, m) }]. *)
Definition merge_members (grant : bool) (old members : list bytes) : gmap bytes bool :=
  fold_left (fun set m => if grant then <[m := true]> set else delete m set) members
    (fold_left (fun set m => <[m := true]> set) old ∅).

Fixpoint apply_loop (bindings : list Binding) (role : bytes) (members : list bytes) (grant : bool) : list Binding :=
  match bindings with
  | [] => []
  | b :: rest =>
      let out := apply_loop rest role members grant in
      if negb (bool_decide (bd_Role b = role)) then b :: out
      else
        let merged := keysOf (merge_members grant (bd_Members b) members) in
        if 0 <? len merged then {| bd_Role := role; bd_Members := merged |} :: out else out
  end.

Definition applyBinding (bindings : list Binding) (role : bytes) (members : list bytes) (grant : bool) : list Binding :=
  let out := apply_loop bindings role members grant in
  let found := existsb (fun b => bool_decide (bd_Role b = role)) bindings in
  if grant && negb found then out ++ [{| bd_Role := role; bd_Members := dedup members |}] else out.

End Bindings.

(** ** Listings *)

Record userOut : Type := { uo_Name : bytes; uo_Disabled : bool; uo_CreatedAt : Z }.
Record saOut : Type := {
  so_Name : bytes; so_HasToken : bool; so_CertIdentities : list bytes; so_Disabled : bool; so_CreatedAt : Z }.
Record bindingOut : Type := { bo_Scope : bytes; bo_Role : bytes; bo_Members : list bytes }.
Record groupOut : Type := { go_Name : bytes; go_Members : list bytes }.
Record patOut : Type := { pa_ID : bytes; pa_Label : bytes; pa_CreatedAt : Z; pa_ExpiresAt : Z }.

Definition defaultPATDays : Z := 90.

Section Console.
Context `{UuidPkg} `{Badger} `{StorePkg} `{ValuePkg} `{!IamStructs} `{Argon2Pkg} `{MapOrder}.
Context {W : Type} `{!HasStorage W}.
Variable replicator : option (Replicator W).

Definition key_request (key : Key) : KeyRequest := {| kr_Key := Some key; kr_HeadOnly := false; kr_Timeout := 0 |}.

(** [&pb.RecordRequest{Key: key, Value: raw}]. *)
Definition put_request (key : Key) (raw : bytes) : RecordRequest := {|
  rr_Key := Some key; rr_Value := raw; rr_Metadata := 0; rr_TtlSeconds := 0; rr_CompareAndSet := false;
  rr_Version := 0; rr_Timeout := 0; rr_ExpiresAt := 0 |}.

(** With [CompareAndSet: true, Version: version]. *)
Definition cas_request (key : Key) (raw : bytes) (version : Z) : RecordRequest := {|
  rr_Key := Some key; rr_Value := raw; rr_Metadata := 0; rr_TtlSeconds := 0; rr_CompareAndSet := true;
  rr_Version := version; rr_Timeout := 0; rr_ExpiresAt := 0 |}.

Definition put_iam (now : Z) (w : W) (minor raw : bytes) : result Status * W :=
  svc_Put replicator now now w (put_request (iam_Key minor) raw).

Definition remove_iam (w : W) (minor : bytes) : result Status * W :=
  svc_Remove replicator w (key_request (iam_Key minor)).

(** [scanIAM]: the (minor, value) pairs handed to the callback, in order. *)
Definition scan_pair (r : Rec) : option (bytes * bytes) :=
  match rec_Key r with
  | Some key => if 0 <? len (rec_Value r) then Some (MinorKey key, rec_Value r) else None
  | None => None
  end.

Definition scanIAM (now : Z) (w : W) : result (list (bytes * bytes)) :=
  match GetArea now (get_storage w) iam_area RegionNameField collectSender [] with
  | (Ret _, records) => Ret (omap scan_pair records)
  | (Fail e, _) => Fail e
  | (Panic, _) => Panic
  end.

(** The decoded object of a pair, when it decodes. *)
Definition decoded {M} `{!Struct M} (raw : bytes) : option M :=
  match iam_Decode raw with Ret m => Some m | _ => None end.

Definition list_reply {A B} (r : result A) (f : A -> B) : reply B :=
  match r with Ret a => Reply StatusOK (f a) | Fail _ => internal_error | Panic => Crash end.

(** *** Users *)

Definition iamListUsers (now : Z) (w : W) : reply (list userOut) :=
  list_reply (scanIAM now w) (omap (fun '(minor, value) =>
    name ← CutPrefix minor UserPrefix; u ← decoded value;
    Some {| uo_Name := name; uo_Disabled := us_Disabled u; uo_CreatedAt := us_CreatedAt u |})).

Definition bad_user : bytes := str "username (no spaces or '/') and a password of at least 8 characters are required".

(** [req] is the decoded JSON body, [None] when it is malformed; [salt] what the random source
    yields. *)
Definition iamCreateUser (now : Z) (req : option (bytes * bytes)) (salt : result bytes) (w : W) : reply bytes * W :=
  match req with
  | None => (ReplyErr StatusBadRequest (str "invalid JSON body"), w)
  | Some (username, password) =>
      if bool_decide (username = []) || has_slash_or_space username || (len password <? 8) then
        (ReplyErr StatusBadRequest bad_user, w)
      else match HashPassword password salt with
      | Panic => (Crash, w)
      | Fail _ => (internal_error, w)
      | Ret hash =>
      match iam_Encode {| us_Name := username; us_PasswordHash := hash; us_Admin := false; us_Disabled := false; us_CreatedAt := now |} with
      | Panic => (Crash, w)
      | Fail _ => (internal_error, w)
      | Ret raw =>
      match svc_Put replicator now now w (cas_request (iam_Key (UserPrefix ++ username)) raw 0) with
      | (Panic, w) => (Crash, w)
      | (Fail _, w) => (internal_error, w)
      | (Ret status, w) =>
          if negb (Updated status) then (ReplyErr StatusConflict (str "user already exists"), w)
          else (Reply StatusCreated username, w)
      end end end
  end.

(** *** Purging a principal *)

Record purge_sets : Type := {
  pg_tokens : list bytes; pg_certs : list bytes;
  pg_groups : gmap bytes GroupRecord; pg_policies : gmap bytes PolicyRecord }.

Definition no_purge : purge_sets := {| pg_tokens := []; pg_certs := []; pg_groups := ∅; pg_policies := ∅ |}.

(** The callback of the scan. *)
Definition purge_visit (principal : bytes) (s : purge_sets) (pair : bytes * bytes) : purge_sets :=
  let '(minor, value) := pair in
  if HasPrefix minor TokenIndexPrefix then
    match decoded value with
    | Some rec =>
        if bool_decide (tk_Principal rec = principal) then
          {| pg_tokens := pg_tokens s ++ [minor]; pg_certs := pg_certs s; pg_groups := pg_groups s; pg_policies := pg_policies s |}
        else s
    | None => s
    end
  else if HasPrefix minor CertPrefix then
    match decoded value with
    | Some rec =>
        if bool_decide (ci_Principal rec = principal) then
          {| pg_tokens := pg_tokens s; pg_certs := pg_certs s ++ [minor]; pg_groups := pg_groups s; pg_policies := pg_policies s |}
        else s
    | None => s
    end
  else if HasPrefix minor GroupPrefix then
    match decoded value with
    | Some g =>
        if contains (gr_Members g) principal then
          {| pg_tokens := pg_tokens s; pg_certs := pg_certs s; pg_groups := <[minor := g]> (pg_groups s); pg_policies := pg_policies s |}
        else s
    | None => s
    end
  else
    match PolicyScopeKey minor with
    | Some _ =>
        match decoded value with
        | Some p =>
            if policyHasMember p principal then
              {| pg_tokens := pg_tokens s; pg_certs := pg_certs s; pg_groups := pg_groups s; pg_policies := <[minor := p]> (pg_policies s) |}
            else s
        | None => s
        end
    | None => s
    end.

Fixpoint remove_all (minors : list bytes) (w : W) : result unit * W :=
  match minors with
  | [] => (Ret tt, w)
  | minor :: rest =>
      match remove_iam w minor with
      | (Ret _, w) => remove_all rest w
      | (Fail e, w) => (Fail e, w)
      | (Panic, w) => (Panic, w)
      end
  end.

(** Encode and put each record in turn; the first error stops. *)
Fixpoint put_all {M} `{!Struct M} (now : Z) (records : list (bytes * M)) (w : W) : result unit * W :=
  match records with
  | [] => (Ret tt, w)
  | (minor, obj) :: rest =>
      match iam_Encode obj with
      | Fail e => (Fail e, w)
      | Panic => (Panic, w)
      | Ret raw =>
          match put_iam now w minor raw with
          | (Ret _, w) => put_all now rest w
          | (Fail e, w) => (Fail e, w)
          | (Panic, w) => (Panic, w)
          end
      end
  end.

Definition strip_group (principal : bytes) (g : GroupRecord) : GroupRecord :=
  {| gr_Name := gr_Name g; gr_Members := without (gr_Members g) principal |}.

Definition strip_policy (principal : bytes) (p : PolicyRecord) : PolicyRecord :=
  {| po_Bindings := omap (fun b =>
       let members := without (bd_Members b) principal in
       if 0 <? len members then Some {| bd_Role := bd_Role b; bd_Members := members |} else None) (po_Bindings p) |}.

Definition purgePrincipal (now : Z) (w : W) (principal : bytes) : result unit * W :=
  match scanIAM now w with
  | Fail e => (Fail e, w)
  | Panic => (Panic, w)
  | Ret pairs =>
      let s := fold_left (purge_visit principal) pairs no_purge in
      match remove_all (pg_tokens s ++ pg_certs s) w with
      | (Ret _, w) =>
          match put_all now (prod_map id (strip_group principal) <$> map_order (pg_groups s)) w with
          | (Ret _, w) => put_all now (prod_map id (strip_policy principal) <$> map_order (pg_policies s)) w
          | (r, w) => (r, w)
          end
      | (r, w) => (r, w)
      end
  end.

(** Remove a principal's own record, then everything it could still act with. *)
Definition delete_principal (now : Z) (w : W) (minor principal name : bytes) : reply bytes * W :=
  match remove_iam w minor with
  | (Panic, w) => (Crash, w)
  | (Fail _, w) => (internal_error, w)
  | (Ret _, w) =>
      match purgePrincipal now w principal with
      | (Panic, w) => (Crash, w)
      | (Fail _, w) => (internal_error, w)
      | (Ret _, w) => (Reply StatusOK name, w)
      end
  end.

Definition iamDeleteUser (now : Z) (name : bytes) (w : W) : reply bytes * W :=
  if bool_decide (name = []) then (ReplyErr StatusBadRequest (str "user name required"), w) else
  delete_principal now w (UserPrefix ++ name) (PrincipalUser name) name.

(** *** Service accounts *)

Definition writeTokenIndex (now : Z) (w : W) (hash principal : bytes) (expiresAt : Z) : result unit * W :=
  match iam_Encode {| tk_Principal := principal; tk_ExpiresAt := expiresAt; tk_Label := []; tk_CreatedAt := 0 |} with
  | Fail e => (Fail e, w)
  | Panic => (Panic, w)
  | Ret raw =>
      match put_iam now w (TokenIndexKey hash) raw with
      | (Ret _, w) => (Ret tt, w)
      | (Fail e, w) => (Fail e, w)
      | (Panic, w) => (Panic, w)
      end
  end.

(** [iam.NewToken] with what the random source yields. *)
Definition new_token (prefix : bytes) (secret : result bytes) : result (bytes * bytes) :=
  match secret with
  | Ret s => Ret (NewToken prefix s)
  | Fail e => Fail (ErrWrap (str "iam: token secret") e)
  | Panic => Panic
  end.

(** The body of the answer: the name and the token, shown once. *)
Definition iamCreateServiceAccount (now : Z) (req : option bytes) (secret : result bytes) (w : W) : reply (bytes * bytes) * W :=
  match req with
  | None => (ReplyErr StatusBadRequest (str "invalid JSON body"), w)
  | Some name =>
      if bool_decide (name = []) || has_slash_or_space name then
        (ReplyErr StatusBadRequest (str "name is required and must not contain '/' or spaces"), w)
      else match new_token TokenPrefixServiceAccount secret with
      | Panic => (Crash, w)
      | Fail _ => (internal_error, w)
      | Ret (token, hash) =>
      match iam_Encode {| sa_Name := name; sa_TokenHash := hash; sa_Disabled := false; sa_CreatedAt := now |} with
      | Panic => (Crash, w)
      | Fail _ => (internal_error, w)
      | Ret raw =>
      match svc_Put replicator now now w (cas_request (iam_Key (ServiceAccountPrefix ++ name)) raw 0) with
      | (Panic, w) => (Crash, w)
      | (Fail _, w) => (internal_error, w)
      | (Ret status, w) =>
          if negb (Updated status) then (ReplyErr StatusConflict (str "service account already exists"), w) else
          match writeTokenIndex now w hash (PrincipalServiceAccount name) 0 with
          | (Panic, w) => (Crash, w)
          | (Fail _, w) => (internal_error, w)
          | (Ret _, w) => (Reply StatusCreated (name, token), w)
          end
      end end end
  end.

Definition iamDeleteServiceAccount (now : Z) (name : bytes) (w : W) : reply bytes * W :=
  if bool_decide (name = []) then (ReplyErr StatusBadRequest (str "service account name required"), w) else
  delete_principal now w (ServiceAccountPrefix ++ name) (PrincipalServiceAccount name) name.

(** The accounts of a scan, and the certificate identities per principal. *)
Definition sa_bases (pairs : list (bytes * bytes)) : list (bytes * ServiceAccountRecord) :=
  omap (fun '(minor, value) => name ← CutPrefix minor ServiceAccountPrefix; sa ← decoded value; Some (name, sa)) pairs.

Definition sa_certs (pairs : list (bytes * bytes)) (principal : bytes) : list bytes :=
  omap (fun '(minor, value) =>
    if HasPrefix minor ServiceAccountPrefix then None else
    ident ← CutPrefix minor CertPrefix; idx ← decoded value;
    if negb (bool_decide (ci_Principal idx = [])) && bool_decide (ci_Principal idx = principal) then Some ident else None) pairs.

Definition iamListServiceAccounts (now : Z) (w : W) : reply (list saOut) :=
  list_reply (scanIAM now w) (fun pairs =>
    (fun '(name, sa) => {|
       so_Name := name; so_HasToken := negb (bool_decide (sa_TokenHash sa = []));
       so_CertIdentities := sa_certs pairs (PrincipalServiceAccount name);
       so_Disabled := sa_Disabled sa; so_CreatedAt := sa_CreatedAt sa |}) <$> sa_bases pairs).

(** *** Roles and bindings *)

Definition add_role (roles : gmap bytes (list bytes)) (pair : bytes * bytes) : gmap bytes (list bytes) :=
  let '(minor, value) := pair in
  if HasPrefix minor RolePrefix then
    match decoded value with
    | Some rr => match roles !! ro_Name rr with Some _ => roles | None => <[ro_Name rr := ro_Permissions rr]> roles end
    | None => roles
    end
  else roles.

Definition iamListRoles (now : Z) (w : W) : reply (gmap bytes (list bytes)) :=
  list_reply (scanIAM now w) (fun pairs => fold_left add_role pairs PredefinedRoles).

Definition iamListBindings (now : Z) (w : W) : reply (list bindingOut) :=
  list_reply (scanIAM now w) (fun pairs => concat (omap (fun '(minor, value) =>
    scope ← bindingScopeLabel minor; p ← decoded value;
    Some ((fun b => {| bo_Scope := scope; bo_Role := bd_Role b; bo_Members := bd_Members b |}) <$> po_Bindings p)) pairs)).

(** Read, change and write back the policy record of a scope; a record that does not decode
    counts as empty. *)
Definition grantRole (now : Z) (w : W) (members : list bytes) (role tenant region : bytes) (grant : bool) : result unit * W :=
  let minor := bindingMinor tenant region in
  match svc_Get now w (key_request (iam_Key minor)) with
  | Fail e => (Fail e, w)
  | Panic => (Panic, w)
  | Ret rec =>
      let policy := if 0 <? len (rec_Value rec) then default {| po_Bindings := [] |} (decoded (rec_Value rec))
                    else {| po_Bindings := [] |} in
      match iam_Encode {| po_Bindings := applyBinding (po_Bindings policy) role members grant |} with
      | Fail e => (Fail e, w)
      | Panic => (Panic, w)
      | Ret raw =>
          match put_iam now w minor raw with
          | (Ret _, w) => (Ret tt, w)
          | (Fail e, w) => (Fail e, w)
          | (Panic, w) => (Panic, w)
          end
      end
  end.

Record binding_request : Type := { bq_Role : bytes; bq_Members : list bytes; bq_Tenant : bytes; bq_Region : bytes }.

Definition iamChangeBinding (now : Z) (req : option binding_request) (grant : bool) (w : W) : reply (bytes * bytes) * W :=
  match req with
  | None => (ReplyErr StatusBadRequest (str "invalid JSON body"), w)
  | Some q =>
      if bool_decide (bq_Role q = []) || (len (bq_Members q) =? 0) then
        (ReplyErr StatusBadRequest (str "role and members are required"), w)
      else if negb (bool_decide (bq_Region q = [])) && bool_decide (bq_Tenant q = []) then
        (ReplyErr StatusBadRequest (str "region requires tenant"), w)
      else match grantRole now w (bq_Members q) (bq_Role q) (bq_Tenant q) (bq_Region q) grant with
      | (Panic, w) => (Crash, w)
      | (Fail _, w) => (internal_error, w)
      | (Ret _, w) => (Reply StatusOK (bindingScopeLabelOf (bq_Tenant q) (bq_Region q), bq_Role q), w)
      end
  end.

(** *** Groups *)

Definition iamListGroups (now : Z) (w : W) : reply (list groupOut) :=
  list_reply (scanIAM now w) (omap (fun '(minor, value) =>
    name ← CutPrefix minor GroupPrefix; g ← decoded value;
    Some {| go_Name := name; go_Members := gr_Members g |})).

Definition iamSetGroup (now : Z) (req : option (bytes * list bytes)) (w : W) : reply (bytes * list bytes) * W :=
  match req with
  | None => (ReplyErr StatusBadRequest (str "invalid JSON body"), w)
  | Some (name, members) =>
      if bool_decide (name = []) || has_slash_or_space name then
        (ReplyErr StatusBadRequest (str "group name is required and must not contain '/' or spaces"), w)
      else match iam_Encode {| gr_Name := name; gr_Members := dedup members |} with
      | Panic => (Crash, w)
      | Fail _ => (internal_error, w)
      | Ret raw =>
          match put_iam now w (GroupPrefix ++ name) raw with
          | (Panic, w) => (Crash, w)
          | (Fail _, w) => (internal_error, w)
          | (Ret _, w) => (Reply StatusOK (name, dedup members), w)
          end
      end
  end.

Definition iamDeleteGroup (name : bytes) (w : W) : reply bytes * W :=
  if bool_decide (name = []) then (ReplyErr StatusBadRequest (str "group name required"), w) else
  match remove_iam w (GroupPrefix ++ name) with
  | (Panic, w) => (Crash, w)
  | (Fail _, w) => (internal_error, w)
  | (Ret _, w) => (Reply StatusOK name, w)
  end.

(** *** Personal access tokens *)

(** A user or service account record backs the principal ([pki.go]). *)
Definition principalExists (now : Z) (w : W) (principal : bytes) : result bool :=
  match PrincipalStorageMinor principal with
  | None => Ret false
  | Some minor =>
      match svc_Get now w (key_request (iam_Key minor)) with
      | Ret rec => Ret (0 <? len (rec_Value rec))
      | Fail _ => Ret false
      | Panic => Panic
      end
  end.

Definition iamListUserTokens (now : Z) (w : W) (user : bytes) : reply (list patOut) :=
  list_reply (scanIAM now w) (omap (fun '(minor, value) =>
    hash ← CutPrefix minor TokenIndexPrefix; rec ← decoded value;
    if bool_decide (tk_Principal rec = PrincipalUser user) then
      Some {| pa_ID := hash; pa_Label := tk_Label rec; pa_CreatedAt := tk_CreatedAt rec; pa_ExpiresAt := tk_ExpiresAt rec |}
    else None)).

(** [now.AddDate(0, 0, days)] in a zone without daylight saving. *)
Definition add_days (now days : Z) : Z := int64 (now + 86400 * days).

Record token_reply : Type := { tr_id : bytes; tr_token : bytes; tr_label : bytes; tr_expiresAt : Z }.

(** [req] is the label and the number of days asked for. *)
Definition iamCreateUserToken (now : Z) (req : option (bytes * Z)) (secret : result bytes) (user : bytes) (w : W) :
    reply token_reply * W :=
  match principalExists now w (PrincipalUser user) with
  | Panic | Fail _ => (Crash, w)
  | Ret false => (ReplyErr StatusNotFound (str "user not found"), w)
  | Ret true =>
  match req with
  | None => (ReplyErr StatusBadRequest (str "invalid JSON body"), w)
  | Some (label, ttl) =>
      let days := if ttl <=? 0 then defaultPATDays else ttl in
      match new_token TokenPrefixUser secret with
      | Panic => (Crash, w)
      | Fail _ => (internal_error, w)
      | Ret (token, hash) =>
      let rec := {| tk_Principal := PrincipalUser user; tk_ExpiresAt := add_days now days;
                    tk_Label := TrimSpace label; tk_CreatedAt := now |} in
      match iam_Encode rec with
      | Panic => (Crash, w)
      | Fail _ => (internal_error, w)
      | Ret raw =>
      match put_iam now w (TokenIndexKey hash) raw with
      | (Panic, w) => (Crash, w)
      | (Fail _, w) => (internal_error, w)
      | (Ret _, w) =>
          (Reply StatusCreated {| tr_id := hash; tr_token := token; tr_label := tk_Label rec; tr_expiresAt := tk_ExpiresAt rec |}, w)
      end end end
  end end.

Definition iamRevokeUserToken (now : Z) (user id : bytes) (w : W) : reply bytes * W :=
  if bool_decide (id = []) then (ReplyErr StatusBadRequest (str "token id required"), w) else
  match svc_Get now w (key_request (iam_Key (TokenIndexKey id))) with
  | Panic => (Crash, w)
  | Fail _ => (internal_error, w)
  | Ret rec =>
      if len (rec_Value rec) =? 0 then (ReplyErr StatusNotFound (str "token not found"), w) else
      match iam_Decode (rec_Value rec) with
      | Panic => (Crash, w)
      | Fail _ => (ReplyErr StatusNotFound (str "token not found for this user"), w)
      | Ret tr =>
          if negb (bool_decide (tk_Principal tr = PrincipalUser user)) then
            (ReplyErr StatusNotFound (str "token not found for this user"), w)
          else match remove_iam w (TokenIndexKey id) with
          | (Panic, w) => (Crash, w)
          | (Fail _, w) => (internal_error, w)
          | (Ret _, w) => (Reply StatusOK id, w)
          end
      end
  end.

End Console.
