(* ===== verification/ConsoleProps.v ===== *)
(** * Properties of identity management

    Deleting an identity leaves nothing that authenticates as it or names it; a personal access
    token works until it expires or is revoked; granting and revoking change exactly the members
    they name. *)

From S2P Require Import Prelude Sha256 Pb Keys Engine Storage StorageSpec StorageReads StorageProps ScanProps Value Service Ledger Iam PolicyService Codecs Password Auth Console.

(** ** Bindings *)

Section Bindings.
Context `{MapOrder} `{!MapOrderLaws}.

Definition holds (bs : list Binding) (role m : bytes) : Prop := exists b, b ∈ bs /\ bd_Role b = role /\ m ∈ bd_Members b.

Lemma keysOf_spec (set : gmap bytes bool) m : m ∈ keysOf set <-> set !! m = Some true.
Proof.
  unfold keysOf. rewrite list_elem_of_omap. setoid_rewrite map_order_perm. split.
  - intros ([k []] & Hk%elem_of_map_to_list & Hm); by simplify_eq.
  - intros Hm. exists (m, true). split; [by apply elem_of_map_to_list|done].
Qed.

Lemma fold_insert_spec (l : list bytes) (set : gmap bytes bool) m :
  fold_left (fun set x => <[x := true]> set) l set !! m = if decide (m ∈ l) then Some true else set !! m.
Proof.
  revert set. induction l as [|x l IH]; intros set; cbn [fold_left]; [by rewrite decide_False by set_solver|].
  rewrite IH. destruct (decide (m ∈ l)) as [Hi|Hi]; [by rewrite decide_True by set_solver|].
  rewrite lookup_insert. repeat case_decide; set_solver.
Qed.

Lemma fold_delete_spec (l : list bytes) (set : gmap bytes bool) m :
  fold_left (fun set x => delete x set) l set !! m = if decide (m ∈ l) then None else set !! m.
Proof.
  revert set. induction l as [|x l IH]; intros set; cbn [fold_left]; [by rewrite decide_False by set_solver|].
  rewrite IH. destruct (decide (m ∈ l)) as [Hi|Hi]; [by rewrite decide_True by set_solver|].
  rewrite lookup_delete. repeat case_decide; set_solver.
Qed.

Lemma merged_spec grant old members m :
  m ∈ keysOf (merge_members grant old members) <->
  if grant then m ∈ old \/ m ∈ members else m ∈ old /\ m ∉ members.
Proof.
  rewrite keysOf_spec. unfold merge_members. destruct grant.
  - rewrite !fold_insert_spec, lookup_empty. repeat case_decide; naive_solver.
  - rewrite fold_delete_spec, fold_insert_spec, lookup_empty. repeat case_decide; naive_solver.
Qed.

Lemma dedup_loop_spec seen l m : m ∈ dedup_loop seen l <-> m ∈ l /\ m <> [] /\ m ∉ seen.
Proof.
  revert seen. induction l as [|x l IH]; intros seen; cbn [dedup_loop]; [set_solver|].
  destruct (bool_decide (x = []) || bool_decide (x ∈ seen)) eqn:E.
  - apply orb_true_iff in E. rewrite !bool_decide_eq_true in E. rewrite IH. set_solver.
  - apply orb_false_iff in E as [E1%bool_decide_eq_false E2%bool_decide_eq_false].
    rewrite elem_of_cons, IH. destruct (decide (m = x)); set_solver.
Qed.

Lemma apply_loop_spec bs role members grant r m :
  holds (apply_loop bs role members grant) r m <->
  exists b, b ∈ bs /\ bd_Role b = r /\
    if decide (r = role) then m ∈ keysOf (merge_members grant (bd_Members b) members) else m ∈ bd_Members b.
Proof.
  induction bs as [|b bs IH]; cbn [apply_loop]; [unfold holds; set_solver|].
  assert (forall x l, holds (x :: l) r m <-> (bd_Role x = r /\ m ∈ bd_Members x) \/ holds l r m) as Hcons.
  { intros x l. unfold holds. setoid_rewrite elem_of_cons. naive_solver. }
  setoid_rewrite elem_of_cons. case_bool_decide as Er; cbn [negb].
  - set (merged := keysOf (merge_members grant (bd_Members b) members)).
    assert (holds (if 0 <? len merged then {| bd_Role := role; bd_Members := merged |} :: apply_loop bs role members grant
      else apply_loop bs role members grant) r m <-> (role = r /\ m ∈ merged) \/ holds (apply_loop bs role members grant) r m) as ->.
    { destruct (Z.ltb_spec 0 (len merged)) as [|Hz]; [apply Hcons|]. split; [by right|]. intros [[_ Hm]|?]; [|done].
      destruct merged; [by apply not_elem_of_nil in Hm|]. rewrite len_cons in Hz. pose proof (len_nonneg merged). lia. }
    rewrite IH. case_decide; naive_solver.
  - rewrite Hcons, IH. case_decide; naive_solver.
Qed.

Lemma applyBinding_holds (bs : list Binding) (role : bytes) (members : list bytes) (grant : bool) (r m : bytes) :
  m <> [] ->
  holds (applyBinding bs role members grant) r m <->
  if decide (r = role) then (if grant then holds bs r m \/ m ∈ members else holds bs r m /\ m ∉ members) else holds bs r m.
Proof.
  intros Hm. unfold applyBinding.
  assert (holds (apply_loop bs role members grant) r m <->
    if decide (r = role) then (if grant then holds bs r m \/ (m ∈ members /\ exists b, b ∈ bs /\ bd_Role b = r) else holds bs r m /\ m ∉ members)
    else holds bs r m) as HL.
  { rewrite apply_loop_spec. unfold holds. destruct (decide (r = role)); [|done].
    setoid_rewrite merged_spec. destruct grant; naive_solver. }
  assert (existsb (fun b => bool_decide (bd_Role b = role)) bs = true <-> exists b, b ∈ bs /\ bd_Role b = role) as HF.
  { rewrite existsb_exists. setoid_rewrite bool_decide_eq_true. setoid_rewrite list_elem_of_In. done. }
  assert (forall b, holds (apply_loop bs role members grant ++ [b]) r m <->
    holds (apply_loop bs role members grant) r m \/ (bd_Role b = r /\ m ∈ bd_Members b)) as HA.
  { intros b. unfold holds. setoid_rewrite elem_of_app. setoid_rewrite list_elem_of_singleton. naive_solver. }
  destruct grant; cbn [andb]; [|done].
  destruct (existsb _ bs); cbn [negb].
  - rewrite HL. destruct (decide (r = role)) as [->|]; [|done]. naive_solver.
  - rewrite HA, HL. cbn [bd_Role bd_Members]. unfold dedup. rewrite dedup_loop_spec.
    destruct (decide (r = role)) as [->|]; [|naive_solver].
    split; [naive_solver|]. intros [?|?]; [naive_solver|]. right. set_solver.
Qed.

End Bindings.

(** ** Physical keys of the IAM region *)

Section Props.
Context `{UuidPkg} `{!UuidLaws} `{Badger} `{!BadgerSpec} `{StorePkg} `{!StoreLaws}.
Context `{ValuePkg} `{!IamStructs} `{Argon2Pkg} `{MapOrder} `{!MapOrderLaws}.

(** The physical key of a minor. *)
Definition iam_pk (minor : bytes) : bytes := enc_key (iam_Key minor).

Lemma iam_key_cut minor : cut_key (iam_Key minor) = iam_Key (cut minor).
Proof. reflexivity. Qed.

Lemma iam_pk_cut minor : iam_pk (cut minor) = iam_pk minor.
Proof. unfold iam_pk. by rewrite <- iam_key_cut, enc_key_cut. Qed.

Lemma iam_key_ok minor : key_ok (iam_Key (cut minor)) = true.
Proof. rewrite <- iam_key_cut. by apply key_ok_cut. Qed.

Lemma iam_pk_inj m1 m2 : iam_pk m1 = iam_pk m2 -> cut m1 = cut m2.
Proof.
  rewrite <- (iam_pk_cut m1), <- (iam_pk_cut m2). intros E.
  pose proof (enc_key_inj (iam_Key (cut m1)) (iam_Key (cut m2)) (iam_key_ok m1) (iam_key_ok m2) E) as Ek.
  exact (f_equal MinorKey Ek).
Qed.

Lemma cut_idem m : cut (cut m) = cut m.
Proof. apply cut_fits, fits_cut. Qed.

(** Short prefixes survive the cut. *)
Lemma HasPrefix_cut m p : len p <= 65535 -> HasPrefix (cut m) p = HasPrefix m p.
Proof.
  intros Hp. apply Bool.eq_iff_eq_true. rewrite !HasPrefix_spec. unfold cut.
  assert (len p <= SanitizeKeyLen (len m) \/ SanitizeKeyLen (len m) = len m) as Hs.
  { unfold SanitizeKeyLen, MaxKeyLength. case_match; [|by right]. left. lia. }
  split.
  - intros [k E]. rewrite <- (take_drop (Z.to_nat (SanitizeKeyLen (len m))) m), E, <- app_assoc. by eexists.
  - intros [k ->]. destruct Hs as [Hs|Hs].
    + rewrite take_app, take_ge by (unfold len in *; lia). by eexists.
    + rewrite Hs, take_ge by (unfold len; lia). by eexists.
Qed.

(** ** Single steps over the local storage *)

Definition iam_entry (v : Z) (raw : bytes) : entry := {| e_version := v; e_expires := 0; e_value := raw; e_meta := 0 |}.

Lemma put_iam_local now (st : KeyValueStorageCtx) minor raw :
  BadgerReliable ->
  exists st' v, put_iam None now st minor raw = (Ret {| Updated := true |}, st') /\
    contents st' = <[iam_pk minor := iam_entry v raw]> (contents st).
Proof.
  intros HR. unfold put_iam, svc_Put. cbn [replicates on_storage get_storage set_storage storage_has_storage].
  destruct (refines_reliable _ _ _ HR (Put_refines now st (stamp_record now (put_request (iam_Key minor) raw)) 0
    ltac:(by unfold stamp_record, resolveExpiry; cbn) ltac:(by unfold is_uint64))) as (Ea & Ec & _).
  unfold on_storage, get_storage, set_storage, storage_has_storage. rewrite Ea.
  eexists _, _. split; [done|]. rewrite Ec. done.
Qed.

Lemma remove_iam_local (st : KeyValueStorageCtx) minor :
  BadgerReliable ->
  exists st', remove_iam None st minor = (Ret {| Updated := true |}, st') /\
    contents st' = delete (iam_pk minor) (contents st).
Proof.
  intros HR. unfold remove_iam, svc_Remove. cbn [replicates].
  destruct (refines_reliable _ _ _ HR (Remove_refines st (key_request (iam_Key minor)))) as (Ea & Ec & _).
  unfold on_storage, get_storage, set_storage, storage_has_storage. rewrite Ea.
  eexists. split; [done|]. by rewrite Ec.
Qed.

(** The scan hands every live non-empty record of the region to the callback. *)
Lemma scanIAM_local now (st : KeyValueStorageCtx) :
  BadgerReliable -> keys_wf (contents st) ->
  exists pairs, scanIAM now st = Ret pairs /\
    (forall minor e, contents st !! iam_pk minor = Some e -> live now e = true -> e_value e <> [] ->
       (cut minor, e_value e) ∈ pairs) /\
    forall minor v, (minor, v) ∈ pairs -> cut minor = minor.
Proof.
  intros HR Hwf. unfold scanIAM, GetArea. cbn [iam_area kr_Key kr_HeadOnly].
  pose proof (EncodeKeyPrefix_layout {| MajorKey := SystemTenant; RegionName := Region; MinorKey := []; Timestamp := None |} RegionNameField) as HL.
  cbn [enc_prefix] in HL. rewrite HL. cbn [mbind outcome_bind].
  rewrite stream_loop_spec by (by apply items_no_panic). rewrite send_all_collect, concat_blocks_of.
  eexists. split; [done|]. rewrite !app_nil_l. split.
  - intros minor e Hl Hlive Hne. rewrite <- iam_pk_cut in Hl.
    edestruct (yields_elem_of now false st) as (r & [size ->] & Hin); [exact HR|apply iam_key_ok|exact Hl|exact Hlive| | |].
    3: { apply list_elem_of_omap. eexists. split; [exact Hin|]. unfold scan_pair. cbn.
         destruct (Z.ltb_spec 0 (len (e_value e))) as [_|Hz]; [done|].
         destruct (e_value e) as [|x l]; [done|]. rewrite len_cons in Hz. pose proof (len_nonneg l). lia. }
    + cbn. unfold enc_key, enc_row. rewrite <- !app_assoc. cbn. by eexists.
    + done.
  - intros minor v. rewrite list_elem_of_omap. intros (r & Hr & Hp).
    apply elem_of_yields in Hr as (key & e & Hk & [size ->] & _); [|done|done].
    unfold scan_pair in Hp. cbn in Hp. destruct (0 <? _); [|done]. injection Hp as <- <-.
    apply cut_fits. unfold key_ok, key_fits in Hk. by bool_cases.
Qed.

(** ** What a purge collects *)

(** The record under [m] still authenticates [P] or names it. *)
Definition offends (P m v : bytes) : bool :=
  if HasPrefix m TokenIndexPrefix then
    match decoded v with Some rec => bool_decide (tk_Principal rec = P) | None => false end
  else if HasPrefix m CertPrefix then
    match decoded v with Some rec => bool_decide (ci_Principal rec = P) | None => false end
  else if HasPrefix m GroupPrefix then
    match decoded v with Some g => contains (gr_Members g) P | None => false end
  else match PolicyScopeKey m with
       | Some _ => match decoded v with Some p => policyHasMember p P | None => false end
       | None => false
       end.

(** A minor the purge will remove or rewrite. *)
Definition touched (s : purge_sets) (m : bytes) : Prop :=
  m ∈ pg_tokens s ++ pg_certs s \/ is_Some (pg_groups s !! m) \/ is_Some (pg_policies s !! m).

#[local] Instance touched_dec s m : Decision (touched s m).
Proof. unfold touched. apply _. Defined.

(** Collected minors are of the kind of the set they are in. *)
Definition sorted_kinds (s : purge_sets) : Prop :=
  (forall m, m ∈ pg_tokens s ++ pg_certs s -> HasPrefix m TokenIndexPrefix || HasPrefix m CertPrefix = true) /\
  (forall m, is_Some (pg_groups s !! m) -> HasPrefix m TokenIndexPrefix || HasPrefix m CertPrefix = false /\ HasPrefix m GroupPrefix = true) /\
  (forall m, is_Some (pg_policies s !! m) -> HasPrefix m TokenIndexPrefix || HasPrefix m CertPrefix = false /\ HasPrefix m GroupPrefix = false).

Lemma visit_touched P s m v x :
  touched (purge_visit P s (m, v)) x <-> touched s x \/ (x = m /\ offends P m v = true).
Proof.
  unfold purge_visit, offends, touched.
  repeat case_match; try (split; [by left|by intros [?|[_ ?]]]); cbn [pg_tokens pg_certs pg_groups pg_policies];
    bool_cases; rewrite ?lookup_insert_is_Some', ?elem_of_app, ?list_elem_of_singleton; naive_solver.
Qed.

Lemma visit_kinds P s m v : sorted_kinds s -> sorted_kinds (purge_visit P s (m, v)).
Proof.
  intros (Hk1 & Hk2 & Hk3). unfold purge_visit.
  destruct (HasPrefix m TokenIndexPrefix) eqn:Et; [|destruct (HasPrefix m CertPrefix) eqn:Ec; [|destruct (HasPrefix m GroupPrefix) eqn:Eg]];
    repeat case_match; try done; (split; [|split]; cbn [pg_tokens pg_certs pg_groups pg_policies]); try done.
  - intros x. rewrite !elem_of_app, list_elem_of_singleton. intros [[Hx| ->]|Hx]; [|by rewrite Et|];
      apply Hk1; rewrite elem_of_app; auto.
  - intros x. rewrite !elem_of_app, list_elem_of_singleton. intros [Hx|[Hx| ->]]; [| |by rewrite Ec, orb_true_r];
      apply Hk1; rewrite elem_of_app; auto.
  - intros x. rewrite lookup_insert_is_Some'. intros [<-|Hx]; [by rewrite Et, Ec, Eg|by apply Hk2].
  - intros x. rewrite lookup_insert_is_Some'. intros [<-|Hx]; [by rewrite Et, Ec, Eg|by apply Hk3].
Qed.

Lemma fold_touched P pairs s x :
  touched (fold_left (purge_visit P) pairs s) x <-> touched s x \/ exists v, (x, v) ∈ pairs /\ offends P x v = true.
Proof.
  revert s. induction pairs as [|[m v] pairs IH]; intros s; cbn [fold_left].
  - split; [by left|]. intros [?|(v & Hv%not_elem_of_nil & _)]; done.
  - rewrite IH, visit_touched. setoid_rewrite elem_of_cons. naive_solver.
Qed.

Lemma fold_kinds P pairs s : sorted_kinds s -> sorted_kinds (fold_left (purge_visit P) pairs s).
Proof. revert s. induction pairs as [|[m v] pairs IH]; intros s Hs; [done|]. by apply IH, visit_kinds. Qed.

(** ** What a purge leaves *)

Lemma contains_spec l v : contains l v = true <-> v ∈ l.
Proof.
  unfold contains. rewrite existsb_exists. setoid_rewrite bool_decide_eq_true. setoid_rewrite <- list_elem_of_In. naive_solver.
Qed.

Lemma contains_without l v : contains (without l v) v = false.
Proof.
  apply not_true_iff_false. rewrite contains_spec. unfold without. rewrite list_elem_of_filter. naive_solver.
Qed.

Lemma strip_policy_clean P p : policyHasMember (strip_policy P p) P = false.
Proof.
  unfold policyHasMember, strip_policy. cbn [po_Bindings]. induction (po_Bindings p) as [|b l IH]; [done|].
  cbn [omap list_omap]. destruct (0 <? _); cbn [existsb bd_Members]; [|exact IH]. by rewrite contains_without.
Qed.

Lemma remove_all_local minors (st : KeyValueStorageCtx) :
  BadgerReliable ->
  exists st', remove_all None minors st = (Ret tt, st') /\
    (forall m, cut m ∈ cut <$> minors -> contents st' !! iam_pk m = None) /\
    (forall m, cut m ∉ cut <$> minors -> contents st' !! iam_pk m = contents st !! iam_pk m).
Proof.
  intros HR. revert st. induction minors as [|x minors IH]; intros st; cbn [remove_all].
  { exists st. split; [done|]. split; [by intros m Hm%not_elem_of_nil|done]. }
  destruct (remove_iam_local st x HR) as (st1 & -> & Hc). destruct (IH st1) as (st' & -> & Hin & Hout).
  exists st'. split; [done|]. rewrite fmap_cons. split.
  - intros m [E|Hm]%elem_of_cons; [|by apply Hin]. destruct (decide (cut m ∈ cut <$> minors)) as [?|Hn]; [by apply Hin|].
    rewrite Hout, Hc by done. rewrite <- (iam_pk_cut m), E, iam_pk_cut. by rewrite lookup_delete_eq.
  - intros m [Hne Hm]%not_elem_of_cons. rewrite Hout, Hc by done. apply lookup_delete_ne. intros E%iam_pk_inj. congruence.
Qed.

Lemma put_all_local {M} `{!Struct M} `{!Codable M} now (records : list (bytes * M)) (st : KeyValueStorageCtx) :
  BadgerReliable ->
  exists st', put_all None now records st = (Ret tt, st') /\
    (forall m, cut m ∈ cut ∘ fst <$> records -> exists minor obj v raw, (minor, obj) ∈ records /\ cut minor = cut m /\
       iam_Decode raw = Ret obj /\ contents st' !! iam_pk m = Some (iam_entry v raw)) /\
    (forall m, cut m ∉ cut ∘ fst <$> records -> contents st' !! iam_pk m = contents st !! iam_pk m).
Proof.
  intros HR. revert st. induction records as [|[x obj] records IH]; intros st; cbn [put_all].
  { exists st. split; [done|]. split; [by intros m Hm%not_elem_of_nil|done]. }
  destruct (coded obj) as (raw & -> & _ & Hd). destruct (put_iam_local now st x raw HR) as (st1 & v & -> & Hc).
  destruct (IH st1) as (st' & -> & Hin & Hout). exists st'. split; [done|]. rewrite fmap_cons. split.
  - intros m Hm. destruct (decide (cut m ∈ cut ∘ fst <$> records)) as [Hr|Hn].
    + destruct (Hin m Hr) as (minor & o & v' & raw' & Ho & Hrest). exists minor, o, v', raw'. split; [by right|done].
    + apply elem_of_cons in Hm as [E|?]; [|done]. change (cut m = cut x) in E.
      exists x, obj, v, raw. split; [by left|]. split; [done|]. split; [done|].
      rewrite Hout, Hc by done. rewrite <- (iam_pk_cut m), E, iam_pk_cut. by rewrite lookup_insert_eq.
  - intros m [Hne Hm]%not_elem_of_cons. rewrite Hout, Hc by done. apply lookup_insert_ne. intros E%iam_pk_inj.
    by apply Hne.
Qed.

Context `{!Codable GroupRecord} `{!Codable PolicyRecord}.

(** The keys a rewrite of collected records covers. *)
Lemma rewritten_minor {M} (f : M -> M) (g : gmap bytes M) m :
  cut m ∈ cut ∘ fst <$> (prod_map id f <$> map_order g) <-> exists x o, g !! x = Some o /\ cut x = cut m.
Proof.
  rewrite <- list_fmap_compose, list_elem_of_fmap. setoid_rewrite map_order_perm. split.
  - intros ([x o] & E & Ho%elem_of_map_to_list). by exists x, o.
  - intros (x & o & Ho & E). exists (x, o). split; [by cbn|]. by apply elem_of_map_to_list.
Qed.

Lemma rewritten_obj {M} (f : M -> M) (g : gmap bytes M) x o :
  (x, o) ∈ prod_map id f <$> map_order g -> exists o', g !! x = Some o' /\ o = f o'.
Proof.
  rewrite list_elem_of_fmap. setoid_rewrite map_order_perm. intros ([y o'] & [= -> ->] & Ho%elem_of_map_to_list).
  by exists o'.
Qed.

Definition credential_minor (m : bytes) : bool := HasPrefix m TokenIndexPrefix || HasPrefix m CertPrefix.

Lemma credential_minor_cut m : credential_minor (cut m) = credential_minor m.
Proof. unfold credential_minor. by rewrite !HasPrefix_cut. Qed.

Lemma offends_group P m raw g :
  credential_minor m = false -> HasPrefix m GroupPrefix = true -> iam_Decode raw = Ret (strip_group P g) -> offends P m raw = false.
Proof.
  unfold credential_minor. intros [Et Ec]%orb_false_iff Eg Hd. unfold offends, decoded. rewrite Et, Ec, Eg, Hd.
  apply contains_without.
Qed.

Lemma offends_policy P m raw p :
  credential_minor m = false -> HasPrefix m GroupPrefix = false -> iam_Decode raw = Ret (strip_policy P p) -> offends P m raw = false.
Proof.
  unfold credential_minor. intros [Et Ec]%orb_false_iff Eg Hd. unfold offends, decoded. rewrite Et, Ec, Eg, Hd.
  case_match; [|done]. apply strip_policy_clean.
Qed.

(** What the three loops of a purge do to each key of the region. *)
Lemma purge_writes P now s (st : KeyValueStorageCtx) :
  BadgerReliable -> sorted_kinds s -> (forall x, touched s x -> cut x = x) ->
  exists st1 st2 st', remove_all None (pg_tokens s ++ pg_certs s) st = (Ret tt, st1) /\
    put_all None now (prod_map id (strip_group P) <$> map_order (pg_groups s)) st1 = (Ret tt, st2) /\
    put_all None now (prod_map id (strip_policy P) <$> map_order (pg_policies s)) st2 = (Ret tt, st') /\
    forall m, (touched s (cut m) -> contents st' !! iam_pk m = None \/
                 exists v raw, contents st' !! iam_pk m = Some (iam_entry v raw) /\ offends P (cut m) raw = false) /\
              (~ touched s (cut m) -> contents st' !! iam_pk m = contents st !! iam_pk m).
Proof.
  intros HR (Hk1 & Hk2 & Hk3) Hfit.
  destruct (remove_all_local (pg_tokens s ++ pg_certs s) st HR) as (st1 & E1 & Hin1 & Hout1).
  destruct (put_all_local now (prod_map id (strip_group P) <$> map_order (pg_groups s)) st1 HR) as (st2 & E2 & Hin2 & Hout2).
  destruct (put_all_local now (prod_map id (strip_policy P) <$> map_order (pg_policies s)) st2 HR) as (st3 & E3 & Hin3 & Hout3).
  exists st1, st2, st3. split; [done|]. split; [done|]. split; [done|]. intros m.
  destruct (decide (cut m ∈ cut ∘ fst <$> (prod_map id (strip_policy P) <$> map_order (pg_policies s)))) as [Hp|Hp].
  { destruct (Hin3 m Hp) as (x & o & v & raw & Ho & Ex & Hd & Hc).
    apply rewritten_obj in Ho as (p & Hx & ->). destruct (Hk3 x (ex_intro _ p Hx)) as [Hkc Hkg]. split.
    - intros _. right. exists v, raw. split; [done|].
      apply (offends_policy P _ _ p); [by rewrite <- Ex, credential_minor_cut|by rewrite <- Ex, HasPrefix_cut|done].
    - intros []. right; right. rewrite <- Ex, (Hfit x); [by exists p|]. right; right; by exists p. }
  destruct (decide (cut m ∈ cut ∘ fst <$> (prod_map id (strip_group P) <$> map_order (pg_groups s)))) as [Hg|Hg].
  { destruct (Hin2 m Hg) as (x & o & v & raw & Ho & Ex & Hd & Hc). rewrite <- Hout3 in Hc by done.
    apply rewritten_obj in Ho as (g & Hx & ->). destruct (Hk2 x (ex_intro _ g Hx)) as [Hkc Hkg]. split.
    - intros _. right. exists v, raw. split; [done|].
      apply (offends_group P _ _ g); [by rewrite <- Ex, credential_minor_cut|by rewrite <- Ex, HasPrefix_cut|done].
    - intros []. right; left. rewrite <- Ex, (Hfit x); [by exists g|]. right; left; by exists g. }
  rewrite Hout3, Hout2 by done. destruct (decide (cut m ∈ cut <$> (pg_tokens s ++ pg_certs s))) as [Ht|Ht].
  { split; [intros _; left; by apply Hin1|]. intros []. apply list_elem_of_fmap in Ht as (x & Ex & Hx).
    left. rewrite Ex, (Hfit x); [done|by left]. }
  split; [|by intros _; apply Hout1]. intros [Hin|[[g Hin]|[p Hin]]]; exfalso.
  - apply Ht. rewrite <- (cut_idem m). by apply list_elem_of_fmap_2.
  - apply Hg, rewritten_minor. exists (cut m), g. by rewrite cut_idem.
  - apply Hp, rewritten_minor. exists (cut m), p. by rewrite cut_idem.
Qed.

(** After a purge no live record offends, and no key comes into being but by rewriting. *)
Lemma purge_local P now (st : KeyValueStorageCtx) :
  BadgerReliable -> keys_wf (contents st) ->
  exists st', purgePrincipal None now st P = (Ret tt, st') /\
    (forall m e, contents st' !! iam_pk m = Some e -> live now e = true -> e_value e <> [] ->
       offends P (cut m) (e_value e) = false) /\
    (forall m, contents st !! iam_pk m = None -> (forall v, offends P (cut m) v = false) -> contents st' !! iam_pk m = None).
Proof.
  intros HR Hwf. unfold purgePrincipal. destruct (scanIAM_local now st HR Hwf) as (pairs & -> & Hscan & Hfit).
  assert (forall x, touched (fold_left (purge_visit P) pairs no_purge) x <-> exists v, (x, v) ∈ pairs /\ offends P x v = true) as Hto.
  { intros x. rewrite fold_touched. split; [|by right]. intros [[Ht|[[? Ht]|[? Ht]]]|?]; [by apply not_elem_of_nil in Ht|done|done|done]. }
  destruct (purge_writes P now (fold_left (purge_visit P) pairs no_purge) st HR) as (st1 & st2 & st' & -> & -> & -> & Hall).
  { apply fold_kinds. split; [by intros m Hm%not_elem_of_nil|]. split; intros m [x Hx]; done. }
  { intros x (v & Hv & _)%Hto. by eapply Hfit. }
  exists st'. split; [done|]. split.
  - intros m e Hc Hl Hv. destruct (Hall m) as [Ht Hnt]. apply not_true_iff_false. intros Ho.
    destruct (decide (touched (fold_left (purge_visit P) pairs no_purge) (cut m))) as [Hy|Hn].
    + destruct (Ht Hy) as [Hc'|(v & raw & Hc' & Ho')]; rewrite Hc' in Hc; [done|]. injection Hc as <-. cbn in Ho. congruence.
    + apply Hn, Hto. exists (e_value e). split; [|done]. apply Hscan; [|done|done]. by rewrite <- Hnt.
  - intros m Hn Hno. destruct (Hall m) as [_ Hnt]. rewrite Hnt; [done|]. intros (v & _ & Ho)%Hto. by rewrite Hno in Ho.
Qed.

(** ** Deleted identities *)

Lemma live_earlier now now' e : now <= now' -> live now' e = true -> live now e = true.
Proof.
  unfold live. intros Hn Hl. destruct (IsExpired now (e_expires e)) eqn:E; [|done].
  by rewrite (expired_stays now now' _ Hn E) in Hl.
Qed.

(** A name starts with at most one of two prefixes with different first bytes. *)
Lemma HasPrefix_head s p q :
  HasPrefix s p = true -> bool_decide (head p = head q) = false -> head p <> None -> head q <> None -> HasPrefix s q = false.
Proof.
  intros [k ->]%HasPrefix_spec Hd%bool_decide_eq_false Hp Hq. apply not_true_iff_false. rewrite HasPrefix_spec. intros [k' E].
  destruct p, q; try done. cbn in *. by injection E as ->.
Qed.

Lemma policy_minor m : is_Some (PolicyScopeKey m) -> HasPrefix m (str "p") = true.
Proof.
  unfold PolicyScopeKey. intros [x Hx]. rewrite HasPrefix_spec. case_bool_decide as E; [subst; by eexists|].
  destruct (HasPrefix m PolicyTenantPrefix) eqn:Et; [apply HasPrefix_spec in Et as [k ->]; by eexists|].
  destruct (HasPrefix m PolicyRegionPrefix) eqn:Er; [apply HasPrefix_spec in Er as [k ->]; by eexists|done].
Qed.

(** Records under a user or service account name never offend. *)
Lemma own_record_clean P m v p :
  p = UserPrefix \/ p = ServiceAccountPrefix -> HasPrefix m p = true -> offends P m v = false.
Proof.
  intros Hp Hm. unfold offends.
  rewrite (HasPrefix_head m p TokenIndexPrefix), (HasPrefix_head m p CertPrefix), (HasPrefix_head m p GroupPrefix)
    by (done || by destruct Hp as [->| ->]).
  destruct (PolicyScopeKey m) as [k|] eqn:E; [|done].
  pose proof (policy_minor m (ex_intro _ k E)) as Hpm.
  by rewrite (HasPrefix_head m p (str "p")) in Hpm by (done || by destruct Hp as [->| ->]).
Qed.

(** Nothing authenticates as [P] or names it in a group or binding. *)
Definition locked_out (now : Z) (st : KeyValueStorageCtx) (P : bytes) : Prop :=
  (forall unix token, AuthenticateToken now unix st token <> Ret P) /\
  (forall certs, certificatePrincipal now st certs <> Ret (Some P)) /\
  (forall minor g, fits minor = true -> HasPrefix minor GroupPrefix = true -> stored_as now st minor g -> P ∉ gr_Members g) /\
  (forall minor p b, fits minor = true -> is_Some (PolicyScopeKey minor) -> stored_as now st minor p ->
     b ∈ po_Bindings p -> P ∉ bd_Members b).

Lemma clean_locked_out P now now' (st : KeyValueStorageCtx) :
  now <= now' -> P <> [] ->
  (forall m e, contents st !! iam_pk m = Some e -> live now e = true -> e_value e <> [] -> offends P (cut m) (e_value e) = false) ->
  locked_out now' st P.
Proof.
  intros Hn HP Hclean.
  assert (forall M (s : Struct M) m (o : M), stored_as now' st m o -> exists raw, iam_Decode raw = Ret o /\ offends P (cut m) raw = false) as HS.
  { intros M s m o (e & Hc & Hl & Hv & Hd). exists (e_value e). split; [done|]. apply Hclean; [done|by eapply live_earlier|done]. }
  split; [|split; [|split]].
  - intros unix token HA. unfold AuthenticateToken in HA.
    destruct (load now' st (TokenIndexKey (HashToken token))) as [[rec|]|?|] eqn:EL; cbn [mbind outcome_bind] in HA; try done.
    destruct (HS _ _ _ _ (load_sound now' st _ _ EL)) as (raw & Hd & Ho). unfold offends, decoded in Ho.
    rewrite HasPrefix_cut in Ho by done. rewrite Hd in Ho.
    change (HasPrefix (TokenIndexKey (HashToken token)) TokenIndexPrefix) with (HasPrefix (TokenIndexPrefix ++ HashToken token) TokenIndexPrefix) in Ho.
    rewrite (proj2 (HasPrefix_spec _ _) ltac:(by eexists)) in Ho. apply bool_decide_eq_false in Ho. repeat case_match; congruence.
  - intros certs HA. unfold certificatePrincipal in HA. repeat case_match; try done.
    apply first_registered_sound in HA as (ident & idx & _ & Hs & Hp & _).
    destruct (HS _ _ _ _ Hs) as (raw & Hd & Ho). unfold offends, decoded in Ho.
    rewrite !HasPrefix_cut, Hd in Ho by done.
    assert (HasPrefix (CertPrefix ++ ident) CertPrefix = true) as Ec by (apply HasPrefix_spec; by eexists).
    rewrite (HasPrefix_head _ CertPrefix TokenIndexPrefix Ec), Ec in Ho by done. by apply bool_decide_eq_false in Ho.
  - intros m g Hf Hg Hs. destruct (HS _ _ _ _ Hs) as (raw & Hd & Ho). rewrite cut_fits in Ho by done.
    unfold offends, decoded in Ho.
    rewrite (HasPrefix_head m _ TokenIndexPrefix Hg), (HasPrefix_head m _ CertPrefix Hg), Hg, Hd in Ho by done. rewrite <- contains_spec. congruence.
  - intros m p b Hf [k Hk] Hs Hb. destruct (HS _ _ _ _ Hs) as (raw & Hd & Ho). rewrite cut_fits in Ho by done.
    pose proof (policy_minor m (ex_intro _ k Hk)) as Hp.
    unfold offends, decoded in Ho.
    rewrite (HasPrefix_head m _ TokenIndexPrefix Hp), (HasPrefix_head m _ CertPrefix Hp), (HasPrefix_head m _ GroupPrefix Hp), Hk, Hd in Ho by done. rewrite <- contains_spec. intros HC.
    unfold policyHasMember in Ho. apply not_true_iff_false in Ho. apply Ho. apply existsb_exists. exists b.
    split; [by apply list_elem_of_In|done].
Qed.

(** C22: deletion means the credentials die too. Deleting a user or a service account over a
    reliable local store answers 200, and at every later clock no token and no client
    certificate authenticates as it, no group and no role binding names it, and its own record
    is gone, so no password does either. *)
Theorem deleted_identity_locked_out (now now' : Z) (name : bytes) (st : KeyValueStorageCtx) :
  BadgerReliable -> reachable st -> name <> [] -> now <= now' ->
  (exists st', iamDeleteUser None now name st = (Reply StatusOK name, st') /\
     locked_out now' st' (PrincipalUser name) /\
     forall pass p, AuthenticatePassword now' st' name pass <> Ret p) /\
  (exists st', iamDeleteServiceAccount None now name st = (Reply StatusOK name, st') /\
     locked_out now' st' (PrincipalServiceAccount name) /\
     contents st' !! iam_pk (ServiceAccountPrefix ++ name) = None).
Proof.
  intros HR Hreach Hname Hn.
  assert (forall p P, p = UserPrefix \/ p = ServiceAccountPrefix -> P <> [] ->
    exists st', delete_principal None now st (p ++ name) P name = (Reply StatusOK name, st') /\
      locked_out now' st' P /\ contents st' !! iam_pk (p ++ name) = None) as HD.
  { intros p P Hp HP. unfold delete_principal.
    destruct (remove_iam_local st (p ++ name) HR) as (st1 & -> & Hc).
    assert (keys_wf (contents st1)) as Hwf by (rewrite Hc; by apply keys_wf_delete, reachable_wf).
    destruct (purge_local P now st1 HR Hwf) as (st' & -> & Hclean & Hgone). exists st'. split; [done|].
    split; [by eapply clean_locked_out|]. apply Hgone; [rewrite Hc; apply lookup_delete_eq|].
    intros v. apply (own_record_clean P _ v p); [done|].
    rewrite HasPrefix_cut by (by destruct Hp as [->| ->]). apply HasPrefix_spec. by eexists. }
  unfold iamDeleteUser, iamDeleteServiceAccount. rewrite bool_decide_eq_false_2 by done. split.
  - destruct (HD UserPrefix (PrincipalUser name)) as (st' & -> & HL & Hg); [by left|done|].
    exists st'. split; [done|]. split; [done|]. intros pass q HA. unfold AuthenticatePassword in HA.
    destruct (load now' st' (UserPrefix ++ name)) as [[u|]|?|] eqn:EL; cbn [mbind outcome_bind] in HA; try done.
    apply load_sound in EL as (e & He & _). unfold iam_pk in Hg. congruence.
  - destruct (HD ServiceAccountPrefix (PrincipalServiceAccount name)) as (st' & -> & HL & Hg); [by right|done|]. by exists st'.
Qed.

(** ** Role bindings *)

(** The stored policy a scope has after a change, from the one it had before. *)
Definition policy_of (now : Z) (st : KeyValueStorageCtx) (minor : bytes) : list Binding :=
  match contents st !! iam_pk minor with
  | Some e => if live now e && (0 <? len (e_value e)) then po_Bindings (default {| po_Bindings := [] |} (decoded (e_value e))) else []
  | None => []
  end.

Lemma policy_of_entry now (st : KeyValueStorageCtx) minor v raw p :
  contents st !! iam_pk minor = Some (iam_entry v raw) -> raw <> [] -> iam_Decode raw = Ret p -> policy_of now st minor = po_Bindings p.
Proof.
  intros Hc Hr Hd. unfold policy_of, decoded, live. rewrite Hc. cbn [e_expires e_value iam_entry]. rewrite no_expiry, Hd. cbn [negb andb default].
  destruct raw as [|b l]; [done|]. rewrite len_cons. pose proof (len_nonneg l). by rewrite (proj2 (Z.ltb_lt 0 _)) by lia.
Qed.

Lemma grantRole_local now (st : KeyValueStorageCtx) members role tenant region grant :
  BadgerReliable ->
  exists st' v raw, grantRole None now st members role tenant region grant = (Ret tt, st') /\
    contents st' = <[iam_pk (bindingMinor tenant region) := iam_entry v raw]> (contents st) /\
    forall now', policy_of now' st' (bindingMinor tenant region) =
      applyBinding (policy_of now st (bindingMinor tenant region)) role members grant.
Proof.
  intros HR. unfold grantRole. set (minor := bindingMinor tenant region).
  destruct (Get_cases now st (iam_Key minor) false 0) as [[size E]|[HN _]]; [|by destruct HN].
  change (svc_Get now st (key_request (iam_Key minor))) with (Get now st {| kr_Key := Some (iam_Key minor); kr_HeadOnly := false; kr_Timeout := 0 |}).
  rewrite E. set (policy := if 0 <? len _ then _ else _).
  assert (po_Bindings policy = policy_of now st minor) as Hold.
  { unfold policy, policy_of, get_spec_rec, iam_pk. destruct (contents st !! enc_key (iam_Key minor)) as [e|]; [|done].
    destruct (live now e); [|done]. cbn [entry_record rec_Value andb]. by destruct (0 <? len (e_value e)). }
  destruct (coded {| po_Bindings := applyBinding (po_Bindings policy) role members grant |}) as (raw & -> & Hraw & Hdec).
  destruct (put_iam_local now st minor raw HR) as (st' & v & -> & Hc). exists st', v, raw. split; [done|]. split; [done|].
  intros now'. rewrite (policy_of_entry now' st' minor v raw _) by (done || by rewrite Hc, lookup_insert_eq || exact Hdec).
  cbn [po_Bindings]. by rewrite Hold.
Qed.

(** Granting and revoking change exactly what they name. After a change of a role binding,
    a member holds the role in the new policy exactly if it held it before or is granted it (it
    held it before and is not revoked), and every other role is held as before, whatever the
    order in which maps are ranged over. *)
Theorem applyBinding_exact (bs : list Binding) (role : bytes) (members : list bytes) (grant : bool) (r m : bytes) :
  m <> [] ->
  holds (applyBinding bs role members grant) r m <->
  if decide (r = role) then (if grant then holds bs r m \/ m ∈ members else holds bs r m /\ m ∉ members) else holds bs r m.
Proof. apply applyBinding_holds. Qed.

(** ** Personal access tokens *)

Context `{!Codable TokenRecord}.

Lemma user_minor user : user <> [] -> PrincipalStorageMinor (PrincipalUser user) = Some (UserPrefix ++ user).
Proof.
  intros Hu. destruct user as [|c user]; [done|]. reflexivity.
Qed.

Lemma stored_entry {M} `{!Struct M} now (st : KeyValueStorageCtx) minor v raw (o : M) :
  contents st !! iam_pk minor = Some (iam_entry v raw) -> raw <> [] -> iam_Decode raw = Ret o -> stored_as now st minor o.
Proof.
  intros Hc Hr Hd. exists (iam_entry v raw). split; [done|]. split; [|done]. unfold live. cbn. by rewrite no_expiry.
Qed.

Lemma live_record now (st : KeyValueStorageCtx) minor e :
  BadgerReliable -> contents st !! iam_pk minor = Some e -> live now e = true ->
  exists r, svc_Get now st (key_request (iam_Key minor)) = Ret r /\ rec_Value r = e_value e.
Proof.
  intros HR Hc Hl. unfold svc_Get, get_storage, storage_has_storage, key_request.
  destruct (Get_cases now st (iam_Key minor) false 0) as [[size E]|[HN _]]; [|by destruct HN]. rewrite E.
  eexists. split; [done|]. unfold get_spec_rec. unfold iam_pk in Hc. by rewrite Hc, Hl.
Qed.

Lemma token_accepts now unix (st : KeyValueStorageCtx) token rec :
  BadgerReliable -> stored_as now st (TokenIndexKey (HashToken token)) rec -> tk_Principal rec <> [] ->
  AuthenticateToken now unix st token =
  if negb (tk_ExpiresAt rec =? 0) && (tk_ExpiresAt rec <? unix) then Fail (ErrNew (str "token expired"))
  else Ret (tk_Principal rec).
Proof.
  intros HR Hs Hp. unfold AuthenticateToken. rewrite (load_complete _ _ _ rec HR Hs). cbn [mbind outcome_bind].
  by rewrite bool_decide_eq_false_2.
Qed.

Lemma HashToken_nonempty token : HashToken token <> [].
Proof.
  unfold HashToken. pose proof (length_sha256 token) as Hl. destruct (Sha256.sum token); [done|]. discriminate.
Qed.

(** A personal access token lives from its creation to its expiry or revocation. For a
    stored user, creating one answers 201; the token then authenticates as the user at every
    clock until the announced expiry and never after it; revoking it by the announced id
    answers 200 and from then on it authenticates nobody. *)
Theorem pat_lifecycle (now now2 : Z) (label secret user : bytes) (ttl : Z) (st : KeyValueStorageCtx) (e : entry) :
  BadgerReliable -> user <> [] -> 0 <= now -> ttl < 2 ^ 32 -> now < 2 ^ 62 ->
  contents st !! iam_pk (UserPrefix ++ user) = Some e -> live now e = true -> e_value e <> [] ->
  exists r st1 st2,
    iamCreateUserToken None now (Some (label, ttl)) (Ret secret) user st = (Reply StatusCreated r, st1) /\
    (forall now' unix, AuthenticateToken now' unix st1 (tr_token r) =
       if tr_expiresAt r <? unix then Fail (ErrNew (str "token expired")) else Ret (PrincipalUser user)) /\
    now < tr_expiresAt r /\
    iamRevokeUserToken None now2 user (tr_id r) st1 = (Reply StatusOK (tr_id r), st2) /\
    forall now' unix, AuthenticateToken now' unix st2 (tr_token r) = Fail (ErrNew (str "invalid token")).
Proof.
  intros HR Hu Hnow Httl Hmax He Hl Hv.
  set (days := if ttl <=? 0 then defaultPATDays else ttl).
  assert (1 <= days < 2 ^ 32) as Hdays by (unfold days, defaultPATDays; destruct (Z.leb_spec ttl 0); lia).
  assert (add_days now days = now + 86400 * days) as Hadd by (apply int64_small; unfold is_int64; lia).
  set (rec := {| tk_Principal := PrincipalUser user; tk_ExpiresAt := add_days now days;
                 tk_Label := TrimSpace label; tk_CreatedAt := now |}).
  destruct (coded rec) as (raw & Henc & Hraw & Hdec). set (token := TokenPrefixUser ++ DigestHex secret).
  destruct (put_iam_local now st (TokenIndexKey (HashToken token)) raw HR) as (st1 & v & Hput & Hc).
  destruct (remove_iam_local st1 (TokenIndexKey (HashToken token)) HR) as (st2 & Hrem & Hc2).
  assert (contents st1 !! iam_pk (TokenIndexKey (HashToken token)) = Some (iam_entry v raw)) as Hc1 by (by rewrite Hc, lookup_insert_eq).
  exists {| tr_id := HashToken token; tr_token := token; tr_label := tk_Label rec; tr_expiresAt := tk_ExpiresAt rec |}, st1, st2.
  cbn [tr_id tr_token tr_expiresAt]. split; [|split; [|split; [cbn; lia|split]]].
  - unfold iamCreateUserToken, principalExists. rewrite (user_minor user Hu).
    destruct (live_record now st _ e HR He Hl) as (x & -> & Hx). rewrite Hx.
    assert (0 <? len (e_value e) = true) as -> by (destruct (e_value e) as [|b l]; [done|]; rewrite len_cons; pose proof (len_nonneg l); lia).
    cbn [new_token NewToken]. fold days. fold token. fold rec. by rewrite Henc, Hput.
  - intros now' unix. rewrite (token_accepts now' unix st1 token rec HR); [|by eapply stored_entry|done].
    cbn [tk_ExpiresAt tk_Principal rec]. rewrite (proj2 (Z.eqb_neq (add_days now days) 0)) by lia. done.
  - unfold iamRevokeUserToken. rewrite bool_decide_eq_false_2 by apply HashToken_nonempty.
    destruct (live_record now2 st1 _ _ HR Hc1) as (x & -> & Hx); [unfold live; cbn; by rewrite no_expiry|].
    rewrite Hx. cbn [e_value iam_entry].
    assert (len raw =? 0 = false) as -> by (destruct raw; [done|]; rewrite len_cons; pose proof (len_nonneg raw); lia).
    rewrite Hdec, bool_decide_eq_true_2 by done. cbn [negb]. by rewrite Hrem.
  - intros now' unix. unfold AuthenticateToken.
    assert (load (M := TokenRecord) now' st2 (TokenIndexKey (HashToken token)) = Ret None) as ->; [|done].
    unfold load. destruct (Get_cases now' st2 (iam_Key (TokenIndexKey (HashToken token))) false 0) as [[size ->]|[HN _]]; [|by destruct HN].
    unfold get_spec_rec. rewrite Hc2. unfold iam_pk. by rewrite lookup_delete_eq.
Qed.
End Props.

(** ** Witnesses *)

Definition flat_order : MapOrder := {| map_order := fun A (m : gmap bytes A) => map_to_list m |}.

Lemma flat_order_laws : @MapOrderLaws flat_order.
Proof. by split. Qed.

Section Witness.
#[local] Existing Instances flat_uuid flat_uuid_laws mem_badger mem_spec flat_store flat_store_laws
  flat_value flat_iam_structs flat_argon2 flat_order flat_order_laws.

#[local] Instance demo_codable_group : Codable GroupRecord := flat_codable GroupRecord.
#[local] Instance demo_codable_policy : Codable PolicyRecord := flat_codable PolicyRecord.
#[local] Instance demo_codable_token : Codable TokenRecord := flat_codable TokenRecord.

Lemma demo_tokens_reachable : reachable demo_tokens.
Proof.
  unfold demo_tokens. generalize (eq_refl : run_write 100 demo_storage (WPut demo_token_request 3) = snd (Put 100 demo_storage demo_token_request 3)).
  intros <-. apply reach_write.
  - split; [reflexivity|]. unfold is_int64, is_uint64. simpl. lia.
  - apply reach_empty. exact (fmap_empty (M := gmap bytes) decode_stored).
Qed.

(** Bob's token is in the store before his deletion. *)
Lemma deleted_identity_locked_out_witness :
  AuthenticateToken 120 400 demo_tokens (str "pat-1") = Ret (PrincipalUser (str "bob")) /\
  exists st', iamDeleteUser None 120 (str "bob") demo_tokens = (Reply StatusOK (str "bob"), st') /\
    AuthenticateToken 130 400 st' (str "pat-1") <> Ret (PrincipalUser (str "bob")).
Proof.
  split; [vm_compute; reflexivity|].
  destruct (deleted_identity_locked_out 120 130 (str "bob") demo_tokens mem_reliable demo_tokens_reachable
    ltac:(discriminate) ltac:(lia)) as [(st' & HD & HL & _) _].
  exists st'. split; [exact HD|]. apply HL.
Defined.

Lemma applyBinding_exact_witness :
  holds (applyBinding [{| bd_Role := str "r"; bd_Members := [str "a"] |}] (str "r") [str "b"] true) (str "r") (str "a").
Proof.
  apply (applyBinding_exact [{| bd_Role := str "r"; bd_Members := [str "a"] |}] (str "r") [str "b"] true (str "r") (str "a")); [discriminate|].
  rewrite decide_True by reflexivity. left. exists {| bd_Role := str "r"; bd_Members := [str "a"] |}.
  split; [apply list_elem_of_here|]. split; [reflexivity|apply list_elem_of_here].
Defined.

Definition demo_user_put : RecordRequest := {|
  rr_Key := Some (iam_Key (str "user/root")); rr_Value := str "secret"; rr_Metadata := 0; rr_TtlSeconds := 0;
  rr_CompareAndSet := false; rr_Version := 0; rr_Timeout := 0; rr_ExpiresAt := 0 |}.

Definition demo_users : KeyValueStorageCtx := snd (Put 100 demo_storage demo_user_put 3).

Lemma pat_lifecycle_witness :
  exists r st1, iamCreateUserToken None 110 (Some (str " laptop ", 7)) (Ret (replicate 32 x2a)) (str "root") demo_users = (Reply StatusCreated r, st1) /\
    AuthenticateToken 120 200 st1 (tr_token r) =
      (if tr_expiresAt r <? 200 then Fail (ErrNew (str "token expired")) else Ret (PrincipalUser (str "root"))).
Proof.
  destruct (pat_lifecycle 110 115 (str " laptop ") (replicate 32 x2a) (str "root") 7 demo_users
    {| e_version := 3; e_expires := 0; e_value := str "secret"; e_meta := 0 |} mem_reliable) as (r & st1 & st2 & HC & HA & _).
  - discriminate.
  - lia.
  - lia.
  - lia.
  - vm_compute. reflexivity.
  - reflexivity.
  - discriminate.
  - exists r, st1. split; [exact HC|apply HA].
Defined.

End Witness.
