(* ===== verification/Pki.v ===== *)
(** * The built-in certificate authority and node enrollment ([pkg/iam/ca.go],
    [pkg/console/pki.go])

    One certificate authority, kept as a record of the system tenant, signs client and node
    certificates; nodes enroll with single-use join tokens that are burned by a compare-and-set
    before anything is signed. X.509, PEM and ECDSA are a class parameter. *)

From S2P Require Import Prelude Pb Keys Engine Storage StorageSpec StorageReads StorageProps Value Service Iam PolicyService Password Auth Console.

(** ** Layout and records *)

Definition PKIRegion : bytes := str "PKI".
Definition CAMinor : bytes := str "ca".
Definition JoinPrefix : bytes := str "join/".
Definition TokenPrefixJoin : bytes := str "join-".
Definition LedgerCAPubMinor : bytes := str "ledger-ca-pub".
Definition NodeSANDNS : bytes := str "node.cdb.internal".
Definition caCommonName : bytes := str "consensusdb-ca".

(** Durations are in seconds; a [time.Duration] that may overflow is in nanoseconds. *)
Definition second : Z := 10 ^ 9.
Definition day : Z := 24 * 3600.
Definition caValidity : Z := 10 * 365 * day.
Definition nodeCertTTL : Z := 5 * 365 * day.

Record JoinRecord : Type := { jr_ExpiresAt : Z; jr_CreatedBy : bytes; jr_Reusable : bool }.

Definition JoinIndexKey (hash : bytes) : bytes := JoinPrefix ++ hash.

Definition PKIKey (minor : bytes) : Key :=
  {| MajorKey := SystemTenant; RegionName := PKIRegion; MinorKey := minor; Timestamp := None |}.

Record CARecord : Type := { cr_CertPEM : bytes; cr_KeyPEM : bytes; cr_CreatedAt : Z }.

#[global] Instance JoinRecord_eq_dec : EqDecision JoinRecord.
Proof. solve_decision. Defined.
#[global] Instance JoinRecord_countable : Countable JoinRecord.
Proof.
  refine (inj_countable' (fun r => (jr_ExpiresAt r, jr_CreatedBy r, jr_Reusable r))
    (fun '(a, b, c) => {| jr_ExpiresAt := a; jr_CreatedBy := b; jr_Reusable := c |}) _). by intros [].
Defined.

#[global] Instance CARecord_eq_dec : EqDecision CARecord.
Proof. solve_decision. Defined.
#[global] Instance CARecord_countable : Countable CARecord.
Proof.
  refine (inj_countable' (fun r => (cr_CertPEM r, cr_KeyPEM r, cr_CreatedAt r))
    (fun '(a, b, c) => {| cr_CertPEM := a; cr_KeyPEM := b; cr_CreatedAt := c |}) _). by intros [].
Defined.

(** ** X.509 *)

(** The fields of [x509.Certificate] the code sets or reads. *)
Record x509_Certificate : Type := {
  xc_SerialNumber : Z; xc_CommonName : bytes; xc_NotBefore : Z; xc_NotAfter : Z;
  xc_CertSign : bool; xc_DigitalSignature : bool; xc_ClientAuth : bool; xc_ServerAuth : bool;
  xc_IsCA : bool; xc_MaxPathLenZero : bool;
  xc_DNSNames : list bytes; xc_IPAddresses : list bytes; xc_URIs : list bytes }.

Class X509Pkg : Type := {
  ECKey : Type;
  PublicKey : Type;
  ec_Public : ECKey -> PublicKey;
  MarshalECPrivateKey : ECKey -> result bytes;
  ParseECPrivateKey : bytes -> result ECKey;
  CreateCertificate : x509_Certificate -> x509_Certificate -> PublicKey -> ECKey -> result bytes;
  ParseCertificate : bytes -> result x509_Certificate;
  CreateCertificateRequest : bytes -> ECKey -> result bytes;
  ParseCertificateRequest : bytes -> result (bytes * PublicKey * bool); (* CN, key, CheckSignature *)
  pem_Encode : bytes -> bytes -> bytes;
  pem_Decode : bytes -> option bytes;
  url_Parse : bytes -> result bytes;
  ParseIP : bytes -> option bytes
}.

(** What is created parses back, and what is encoded decodes. *)
Class X509Laws `{X509Pkg} : Prop := {
  pem_roundtrip : forall typ b, pem_Decode (pem_Encode typ b) = Some b;
  eckey_roundtrip : forall k b, MarshalECPrivateKey k = Ret b -> ParseECPrivateKey b = Ret k;
  cert_roundtrip : forall t p pub k der, CreateCertificate t p pub k = Ret der -> ParseCertificate der = Ret t
}.

Section Ca.
Context `{X509Pkg}.

Record CA : Type := { ca_Cert : x509_Certificate; ca_Key : ECKey; ca_CertPEM : bytes }.

Definition wrap {A} (what : string) (r : result A) : result A :=
  match r with Fail e => Fail (ErrWrap (str what) e) | x => x end.

(** [GenerateCA]: the key and the serial number come from the random source. *)
Definition GenerateCA (now : Z) (key : result ECKey) (serial : result Z) : result CARecord :=
  key ← wrap "iam: CA key" key;
  serial ← wrap "iam: serial" serial;
  let tmpl := {|
    xc_SerialNumber := serial; xc_CommonName := caCommonName; xc_NotBefore := now - 300;
    xc_NotAfter := now + caValidity; xc_CertSign := true; xc_DigitalSignature := false; xc_ClientAuth := false;
    xc_ServerAuth := false; xc_IsCA := true; xc_MaxPathLenZero := true; xc_DNSNames := []; xc_IPAddresses := []; xc_URIs := [] |} in
  der ← wrap "iam: CA cert" (CreateCertificate tmpl tmpl (ec_Public key) key);
  keyDER ← wrap "iam: CA key marshal" (MarshalECPrivateKey key);
  Ret {| cr_CertPEM := pem_Encode (str "CERTIFICATE") der; cr_KeyPEM := pem_Encode (str "EC PRIVATE KEY") keyDER; cr_CreatedAt := now |}.

(** [CARecord.Load]. *)
Definition CARecord_Load (r : CARecord) : result CA :=
  match pem_Decode (cr_CertPEM r) with
  | None => Fail (ErrNew (str "iam: CA cert PEM invalid"))
  | Some der =>
      cert ← wrap "iam: CA cert parse" (ParseCertificate der);
      match pem_Decode (cr_KeyPEM r) with
      | None => Fail (ErrNew (str "iam: CA key PEM invalid"))
      | Some keyDER =>
          key ← wrap "iam: CA key parse" (ParseECPrivateKey keyDER);
          Ret {| ca_Cert := cert; ca_Key := key; ca_CertPEM := cr_CertPEM r |}
      end
  end.

Record CertRequest : Type := {
  cq_PublicKey : PublicKey; cq_CommonName : bytes; cq_URIs : list bytes; cq_DNSNames : list bytes;
  cq_IPs : list bytes; cq_Client : bool; cq_Server : bool; cq_TTL : Z }.

Fixpoint parse_uris (l : list bytes) : result (list bytes) :=
  match l with
  | [] => Ret []
  | raw :: rest => u ← wrap "iam: SAN URI" (url_Parse raw); us ← parse_uris rest; Ret (u :: us)
  end.

(** [CA.Sign]. *)
Definition Sign (now : Z) (serial : result Z) (ca : CA) (req : CertRequest) : result bytes :=
  serial ← wrap "iam: serial" serial;
  uris ← parse_uris (cq_URIs req);
  let tmpl := {|
    xc_SerialNumber := serial; xc_CommonName := cq_CommonName req; xc_NotBefore := now - 300;
    xc_NotAfter := now + cq_TTL req; xc_CertSign := false; xc_DigitalSignature := true; xc_ClientAuth := cq_Client req;
    xc_ServerAuth := cq_Server req; xc_IsCA := false; xc_MaxPathLenZero := false; xc_DNSNames := cq_DNSNames req;
    xc_IPAddresses := cq_IPs req; xc_URIs := uris |} in
  der ← wrap "iam: sign leaf" (CreateCertificate tmpl (ca_Cert ca) (cq_PublicKey req) (ca_Key ca));
  Ret (pem_Encode (str "CERTIFICATE") der).

(** [ParseCSR]: the requested key, once the request proves possession of it. *)
Definition ParseCSR (csrPEM : bytes) : result PublicKey :=
  match pem_Decode csrPEM with
  | None => Fail (ErrNew (str "iam: CSR PEM invalid"))
  | Some der =>
      '(cn, pub, signed) ← wrap "iam: CSR parse" (ParseCertificateRequest der);
      if negb signed then Fail (ErrNew (str "iam: CSR signature")) else Ret pub
  end.

Definition GenerateLeafKey (key : result ECKey) : result (bytes * PublicKey) :=
  key ← wrap "iam: leaf key" key;
  der ← wrap "iam: leaf key marshal" (MarshalECPrivateKey key);
  Ret (pem_Encode (str "EC PRIVATE KEY") der, ec_Public key).

Definition GenerateCSR (key : result ECKey) (commonName : bytes) : result (bytes * bytes) :=
  key ← wrap "iam: CSR key" key;
  der ← wrap "iam: create CSR" (CreateCertificateRequest commonName key);
  keyDER ← wrap "iam: CSR key marshal" (MarshalECPrivateKey key);
  Ret (pem_Encode (str "EC PRIVATE KEY") keyDER, pem_Encode (str "CERTIFICATE REQUEST") der).

Definition CertURIForPrincipal (principal : bytes) : bytes :=
  match ParsePrincipal principal with
  | Some (kind, name) => str "cdb://" ++ kind ++ str "/" ++ name
  | None => []
  end.

(** [splitHosts]: the DNS names and the addresses, trimmed and without repetition. *)
Fixpoint split_loop (seen : gset bytes) (hosts : list bytes) : list bytes * list bytes :=
  match hosts with
  | [] => ([], [])
  | h :: rest =>
      let h := TrimSpace h in
      if bool_decide (h = []) || bool_decide (h ∈ seen) then split_loop seen rest else
      let '(dns, ips) := split_loop ({[h]} ∪ seen) rest in
      match ParseIP h with Some ip => (dns, ip :: ips) | None => (h :: dns, ips) end
  end.

Definition splitHosts (hosts : list bytes) : list bytes * list bytes := split_loop ∅ hosts.

End Ca.

(** ** The console's use of the authority *)

Section Console.
Context `{UuidPkg} `{Badger} `{StorePkg} `{ValuePkg} `{!IamStructs} `{X509Pkg}.
Context `{!Struct JoinRecord} `{!Struct CARecord}.
Context {W : Type} `{!HasStorage W}.
Variable replicator : option (Replicator W).

(** What the node finds on its disk, and what a fresh generation yields. *)
Record PkiEnv : Type := {
  pe_genesis : option CARecord;    (* replication.LoadGenesisCA *)
  pe_transport : bool;             (* replication.HasTransportCA *)
  pe_generated : result CARecord;  (* iam.GenerateCA *)
  pe_serial : result Z;            (* the serial number of the next leaf *)
  pe_leafKey : result ECKey;
  pe_bootstrap : bytes             (* ConsoleHandler.BootstrapToken *)
}.

Definition loadCA (now : Z) (w : W) : result (option CA) :=
  rec ← svc_Get now w (key_request (PKIKey CAMinor));
  if len (rec_Value rec) =? 0 then Ret None else
  car ← wrap "decode CA" (iam_Decode (rec_Value rec));
  ca ← CARecord_Load car; Ret (Some ca).

Definition newCARecord (env : PkiEnv) : result CARecord :=
  match pe_genesis env with
  | Some rec => Ret rec
  | None => if pe_transport env then Fail (ErrNew (str "cluster CA not published yet")) else pe_generated env
  end.

Definition raced : error := ErrNew (str "CA creation raced; re-read failed").

Definition ensureCA (now : Z) (env : PkiEnv) (w : W) : result CA * W :=
  match loadCA now w with
  | Fail e => (Fail e, w)
  | Panic => (Panic, w)
  | Ret (Some ca) => (Ret ca, w)
  | Ret None =>
  match newCARecord env with
  | Fail e => (Fail e, w)
  | Panic => (Panic, w)
  | Ret record =>
  match iam_Encode record with
  | Fail e => (Fail e, w)
  | Panic => (Panic, w)
  | Ret raw =>
  match svc_Put replicator now now w (cas_request (PKIKey CAMinor) raw 0) with
  | (Fail e, w) => (Fail e, w)
  | (Panic, w) => (Panic, w)
  | (Ret status, w) =>
      if negb (Updated status) then
        match loadCA now w with
        | Ret (Some ca) => (Ret ca, w)
        | Ret None | Fail _ => (Fail raced, w)
        | Panic => (Panic, w)
        end
      else (CARecord_Load record, w)
  end end end end.

(** *** Client certificates *)

Record certOut : Type := { co_Identity : bytes; co_Principal : bytes; co_Issued : bool; co_CreatedAt : Z }.

Definition iamListCerts (now : Z) (w : W) (principal : bytes) : reply (list certOut) :=
  list_reply (scanIAM now w) (omap (fun '(minor, value) =>
    ident ← CutPrefix minor CertPrefix; idx ← decoded value;
    if bool_decide (principal = []) || bool_decide (ci_Principal idx = principal) then
      Some {| co_Identity := ident; co_Principal := ci_Principal idx; co_Issued := ci_Issued idx; co_CreatedAt := ci_CreatedAt idx |}
    else None)).

Definition putCertIndex (now : Z) (w : W) (identity principal : bytes) (issued : bool) : result unit * W :=
  match iam_Encode {| ci_Principal := principal; ci_Issued := issued; ci_CreatedAt := now |} with
  | Fail e => (Fail e, w)
  | Panic => (Panic, w)
  | Ret raw =>
      match put_iam replicator now w (CertPrefix ++ identity) raw with
      | (Ret _, w) => (Ret tt, w)
      | (Fail e, w) => (Fail e, w)
      | (Panic, w) => (Panic, w)
      end
  end.

(** [req] is the principal and the identity. *)
Definition iamRegisterCert (now : Z) (req : option (bytes * bytes)) (w : W) : reply (bytes * bytes) * W :=
  match req with
  | None => (ReplyErr StatusBadRequest (str "invalid JSON body"), w)
  | Some (principal, identity) =>
      let identity := TrimSpace identity in
      let bad := ReplyErr StatusBadRequest (str "identity and an existing principal are required") in
      if bool_decide (identity = []) then (bad, w) else
      match principalExists now w principal with
      | Ret true =>
          match putCertIndex now w identity principal false with
          | (Ret _, w) => (Reply StatusCreated (identity, principal), w)
          | (Fail _, w) => (internal_error, w)
          | (Panic, w) => (Crash, w)
          end
      | Ret false => (bad, w)
      | Fail _ | Panic => (Crash, w)
      end
  end.

Record issued_cert : Type := { ic_identity : bytes; ic_certPem : bytes; ic_keyPem : bytes; ic_caPem : bytes }.

(** [req] is the principal and the days of validity. *)
Definition iamIssueCert (now : Z) (env : PkiEnv) (req : option (bytes * Z)) (w : W) : reply issued_cert * W :=
  match req with
  | None => (ReplyErr StatusBadRequest (str "invalid JSON body"), w)
  | Some (principal, ttlDays) =>
  match principalExists now w principal with
  | Fail _ | Panic => (Crash, w)
  | Ret false => (ReplyErr StatusBadRequest (str "an existing principal is required"), w)
  | Ret true =>
      let name := match ParsePrincipal principal with Some (_, name) => name | None => [] end in
      let ttl := if 0 <? ttlDays then int64 (ttlDays * day * second) / second else 365 * day in
      match ensureCA now env w with
      | (Panic, w) => (Crash, w)
      | (Fail _, w) => (internal_error, w)
      | (Ret ca, w) =>
      match GenerateLeafKey (pe_leafKey env) with
      | Panic => (Crash, w)
      | Fail _ => (internal_error, w)
      | Ret (keyPEM, pub) =>
      let uri := CertURIForPrincipal principal in
      match Sign now (pe_serial env) ca {| cq_PublicKey := pub; cq_CommonName := name; cq_URIs := [uri]; cq_DNSNames := [];
              cq_IPs := []; cq_Client := true; cq_Server := false; cq_TTL := ttl |} with
      | Panic => (Crash, w)
      | Fail _ => (internal_error, w)
      | Ret certPEM =>
      match putCertIndex now w uri principal true with
      | (Panic, w) => (Crash, w)
      | (Fail _, w) => (internal_error, w)
      | (Ret _, w) =>
          (Reply StatusCreated {| ic_identity := uri; ic_certPem := certPEM; ic_keyPem := keyPEM; ic_caPem := ca_CertPEM ca |}, w)
      end end end end
  end end.

Definition iamRevokeCert (identity : bytes) (w : W) : reply bytes * W :=
  if bool_decide (identity = []) then (ReplyErr StatusBadRequest (str "identity required"), w) else
  match remove_iam replicator w (CertPrefix ++ identity) with
  | (Panic, w) => (Crash, w)
  | (Fail _, w) => (internal_error, w)
  | (Ret _, w) => (Reply StatusOK identity, w)
  end.

(** *** Node enrollment *)

(** [mintJoinToken]: the token and its expiry; [ttl] is a [time.Duration]. *)
Definition mintJoinToken (now : Z) (env : PkiEnv) (secret : result bytes) (ttl : Z) (createdBy : bytes) (w : W) :
    result (bytes * Z) * W :=
  match ensureCA now env w with
  | (Fail e, w) => (Fail e, w)
  | (Panic, w) => (Panic, w)
  | (Ret _, w) =>
  match new_token TokenPrefixJoin secret with
  | Fail e => (Fail e, w)
  | Panic => (Panic, w)
  | Ret (token, hash) =>
      let expiresAt := if 0 <? ttl then now + ttl / second else 0 in
      match iam_Encode {| jr_ExpiresAt := expiresAt; jr_CreatedBy := createdBy; jr_Reusable := false |} with
      | Fail e => (Fail e, w)
      | Panic => (Panic, w)
      | Ret raw =>
          match svc_Put replicator now now w (put_request (PKIKey (JoinIndexKey hash)) raw) with
          | (Ret _, w) => (Ret (token, expiresAt), w)
          | (Fail e, w) => (Fail e, w)
          | (Panic, w) => (Panic, w)
          end
      end
  end end.

(** [adoptBootstrapToken]; [None] is a nil record. *)
Definition adoptBootstrapToken (now : Z) (env : PkiEnv) (hash : bytes) (w : W) : result (option Rec) * W :=
  if bool_decide (pe_bootstrap env = []) || negb (bool_decide (HashToken (pe_bootstrap env) = hash)) then (Ret None, w) else
  match iam_Encode {| jr_ExpiresAt := 0; jr_CreatedBy := str "bootstrap-token"; jr_Reusable := true |} with
  | Fail e => (Fail e, w)
  | Panic => (Panic, w)
  | Ret raw =>
      match svc_Put replicator now now w (cas_request (PKIKey (JoinIndexKey hash)) raw 0) with
      | (Fail e, w) => (Fail e, w)
      | (Panic, w) => (Panic, w)
      | (Ret _, w) =>
          match svc_Get now w (key_request (PKIKey (JoinIndexKey hash))) with
          | Ret rec => (Ret (Some rec), w)
          | Fail e => (Fail e, w)
          | Panic => (Panic, w)
          end
      end
  end.

Definition bad_token : error := ErrNew (str "invalid join token").

(** The first half of [signNodeEnrollment]: find the join record of a token, adopting the
    bootstrap token when there is none. *)
Definition find_join (now : Z) (env : PkiEnv) (token nodeID : bytes) (w : W) : result Rec * W :=
  if bool_decide (token = []) || bool_decide (nodeID = []) then (Fail (ErrNew (str "token and nodeId are required")), w) else
  let hash := HashToken token in
  match svc_Get now w (key_request (PKIKey (JoinIndexKey hash))) with
  | Fail e => (Fail e, w)
  | Panic => (Panic, w)
  | Ret rec =>
      if len (rec_Value rec) =? 0 then
        match adoptBootstrapToken now env hash w with
        | (Ret (Some rec), w) => if len (rec_Value rec) =? 0 then (Fail bad_token, w) else (Ret rec, w)
        | (Ret None, w) => (Fail bad_token, w)
        | (Fail e, w) => (Fail e, w)
        | (Panic, w) => (Panic, w)
        end
      else (Ret rec, w)
  end.

(** Its middle: check the record and burn a single-use one, by a compare-and-set on the version
    that was read. *)
Definition burn_join (now : Z) (token : bytes) (rec : Rec) (w : W) : result unit * W :=
  match iam_Decode (rec_Value rec) with
  | Fail e => (Fail e, w)
  | Panic => (Panic, w)
  | Ret jr =>
      if negb (jr_ExpiresAt jr =? 0) && (jr_ExpiresAt jr <? now) then (Fail (ErrNew (str "join token expired")), w)
      else if jr_Reusable jr then (Ret tt, w)
      else match rec_Head rec with
      | None => (Fail bad_token, w)
      | Some head =>
          match iam_Encode {| jr_ExpiresAt := 1; jr_CreatedBy := jr_CreatedBy jr; jr_Reusable := false |} with
          | Fail e => (Fail e, w)
          | Panic => (Panic, w)
          | Ret burned =>
              match svc_Put replicator now now w (cas_request (PKIKey (JoinIndexKey (HashToken token))) burned (hd_Version head)) with
              | (Fail e, w) => (Fail e, w)
              | (Panic, w) => (Panic, w)
              | (Ret status, w) =>
                  if negb (Updated status) then (Fail (ErrNew (str "join token already used")), w) else (Ret tt, w)
              end
          end
      end
  end.

(** Its end: sign the request. The node's certificate and the CA's. *)
Definition sign_node (now : Z) (env : PkiEnv) (nodeID : bytes) (hosts : list bytes) (csrPEM : bytes) (w : W) :
    result (bytes * bytes) * W :=
  match ParseCSR csrPEM with
  | Fail e => (Fail e, w)
  | Panic => (Panic, w)
  | Ret pub =>
      match ensureCA now env w with
      | (Fail e, w) => (Fail e, w)
      | (Panic, w) => (Panic, w)
      | (Ret ca, w) =>
          let '(dns, ips) := splitHosts ([nodeID; NodeSANDNS] ++ hosts) in
          match Sign now (pe_serial env) ca {| cq_PublicKey := pub; cq_CommonName := nodeID; cq_URIs := [];
                  cq_DNSNames := dns; cq_IPs := ips; cq_Client := true; cq_Server := true; cq_TTL := nodeCertTTL |} with
          | Ret certPEM => (Ret (certPEM, ca_CertPEM ca), w)
          | Fail e => (Fail e, w)
          | Panic => (Panic, w)
          end
      end
  end.

Definition signNodeEnrollment (now : Z) (env : PkiEnv) (token nodeID : bytes) (hosts : list bytes) (csrPEM : bytes) (w : W) :
    result (bytes * bytes) * W :=
  match find_join now env token nodeID w with
  | (Fail e, w) => (Fail e, w)
  | (Panic, w) => (Panic, w)
  | (Ret rec, w) =>
      match burn_join now token rec w with
      | (Fail e, w) => (Fail e, w)
      | (Panic, w) => (Panic, w)
      | (Ret _, w) => sign_node now env nodeID hosts csrPEM w
      end
  end.

(** [consumeJoinToken]: the errors are ignored. *)
Definition consumeJoinToken (now : Z) (token : bytes) (w : W) : W :=
  let key := PKIKey (JoinIndexKey (HashToken token)) in
  let reusable :=
    match svc_Get now w (key_request key) with
    | Ret rec => (0 <? len (rec_Value rec)) && match decoded (M := JoinRecord) (rec_Value rec) with Some jr => jr_Reusable jr | None => false end
    | _ => false
    end in
  if reusable then w else snd (svc_Remove replicator w (key_request key)).

End Console.
