(* ===== verification/PkiProps.v ===== *)
(** * Properties of the certificate authority and of node enrollment

    A single-use join token admits one node however enrollments interleave; the cluster keeps one
    certificate authority; a leaf certificate carries exactly what was asked for and never the
    authority to sign. *)

From S2P Require Import Prelude Sha256 Pb Keys Engine Storage StorageSpec StorageReads StorageProps ScanProps Value Service Iam PolicyService Password Auth Console Pki.

Section Props.
Context `{UuidPkg} `{!UuidLaws} `{Badger} `{!BadgerSpec} `{StorePkg} `{!StoreLaws}.
Context `{ValuePkg} `{!IamStructs} `{X509Pkg} `{!Struct JoinRecord} `{!Struct CARecord}.

(** ** Single calls over the local storage *)

Lemma get_local now (st : KeyValueStorageCtx) key :
  BadgerReliable -> exists size, svc_Get now st (key_request key) = Ret (get_spec_rec now (contents st) key size false).
Proof.
  intros HR. unfold svc_Get, get_storage, storage_has_storage, key_request.
  destruct (Get_cases now st key false 0) as [[size E]|[HN _]]; [by exists size|by destruct HN].
Qed.

Definition cas_entry (old : option entry) (raw : bytes) : entry :=
  {| e_version := next_version 0 old; e_expires := 0; e_value := raw; e_meta := 0 |}.

Lemma cas_local now (st : KeyValueStorageCtx) key raw v :
  BadgerReliable ->
  exists st', svc_Put None now now st (cas_request key raw v) =
      (Ret {| Updated := cas_matches (contents st !! enc_key key) v |}, st') /\
    contents st' = if cas_matches (contents st !! enc_key key) v
                   then <[enc_key key := cas_entry (contents st !! enc_key key) raw]> (contents st) else contents st.
Proof.
  intros HR. unfold svc_Put. cbn [replicates].
  destruct (refines_reliable _ _ _ HR (Put_refines now st (stamp_record now (cas_request key raw v)) 0
    ltac:(by unfold stamp_record, resolveExpiry; cbn) ltac:(by unfold is_uint64))) as (Ea & Ec & _).
  unfold on_storage, get_storage, set_storage, storage_has_storage. rewrite Ea. unfold put_spec in *.
  cbn [stamp_record cas_request rr_Key rr_CompareAndSet rr_Version andb] in *.
  destruct (cas_matches (contents st !! enc_key key) v); cbn [negb fst snd] in *; (eexists; split; [done|]; by rewrite Ec).
Qed.

Lemma remove_local (st : KeyValueStorageCtx) key :
  BadgerReliable -> contents (snd (svc_Remove None st (key_request key))) = delete (enc_key key) (contents st).
Proof.
  intros HR. unfold svc_Remove. cbn [replicates].
  destruct (refines_reliable _ _ _ HR (Remove_refines st (key_request key))) as (_ & Ec & _). exact Ec.
Qed.

(** ** Racing enrollments *)

(** Where one enrollment is: it has read the join record, has burned it (and may sign), or was
    refused. *)
Inductive pc : Type := Idle | Holds (rec : Rec) | Won | Refused.

Section Race.
Context (env : PkiEnv) (token : bytes).

Definition join_pk : bytes := enc_key (PKIKey (JoinIndexKey (HashToken token))).

(** One step of one of the enrollments, or of anything else that leaves this join record alone.
    Every clock is past second 1. *)
Inductive race_step : KeyValueStorageCtx * list pc -> KeyValueStorageCtx * list pc -> Prop :=
| step_read st st' pcs i now nodeID rec :
    pcs !! i = Some Idle -> find_join None now env token nodeID st = (Ret rec, st') ->
    race_step (st, pcs) (st', <[i := Holds rec]> pcs)
| step_no_record st st' pcs i now nodeID e :
    pcs !! i = Some Idle -> find_join None now env token nodeID st = (Fail e, st') ->
    race_step (st, pcs) (st', <[i := Refused]> pcs)
| step_burn st st' pcs i now rec :
    1 < now -> pcs !! i = Some (Holds rec) -> burn_join None now token rec st = (Ret tt, st') ->
    race_step (st, pcs) (st', <[i := Won]> pcs)
| step_refused st st' pcs i now rec e :
    1 < now -> pcs !! i = Some (Holds rec) -> burn_join None now token rec st = (Fail e, st') ->
    race_step (st, pcs) (st', <[i := Refused]> pcs)
| step_consume st pcs i now :
    pcs !! i = Some Won -> race_step (st, pcs) (consumeJoinToken None now token st, pcs)
| step_other st st' pcs :
    contents st' !! join_pk = contents st !! join_pk -> race_step (st, pcs) (st', pcs).

Inductive races (s0 : KeyValueStorageCtx * list pc) : KeyValueStorageCtx * list pc -> Prop :=
| races_refl : races s0 s0
| races_step s1 s2 : races s0 s1 -> race_step s1 s2 -> races s0 s2.

Context `{!Codable JoinRecord}.
Context (e0 : entry) (jr0 : JoinRecord).

(** A minted, unspent, single-use token. *)
Record minted : Prop := {
  mt_decodes : iam_Decode (e_value e0) = Ret jr0;
  mt_nonempty : e_value e0 <> [];
  mt_single : jr_Reusable jr0 = false;
  mt_forever : e_expires e0 = 0;
  mt_version : is_uint64 (e_version e0) /\ e_version e0 <> 0;
  mt_not_bootstrap : HashToken (pe_bootstrap env) <> HashToken token
}.

(** A burned record, under a version other than the minted one. *)
Definition burned_entry (e : entry) : Prop :=
  e_version e <> e_version e0 /\ e_expires e = 0 /\ e_value e <> [] /\
  exists jr, iam_Decode (e_value e) = Ret jr /\ jr_ExpiresAt jr = 1 /\ jr_Reusable jr = false.

(** What an enrollment may have read: the minted record, or a burned one. *)
Definition read_ok (rec : Rec) : Prop :=
  (rec_Value rec = e_value e0 /\ exists h, rec_Head rec = Some h /\ hd_Version h = e_version e0) \/
  (exists jr, iam_Decode (rec_Value rec) = Ret jr /\ jr_ExpiresAt jr = 1 /\ jr_Reusable jr = false).

Definition race_inv (s : KeyValueStorageCtx * list pc) : Prop :=
  (forall i rec, snd s !! i = Some (Holds rec) -> read_ok rec) /\
  (((forall i, snd s !! i <> Some Won) /\ contents (fst s) !! join_pk = Some e0) \/
   ((exists w, forall i, snd s !! i = Some Won -> i = w) /\
    (contents (fst s) !! join_pk = None \/ exists e, contents (fst s) !! join_pk = Some e /\ burned_entry e))).

Lemma find_join_inv now nodeID (st st' : KeyValueStorageCtx) r :
  BadgerReliable -> minted -> find_join None now env token nodeID st = (r, st') ->
  st' = st /\ forall rec, r = Ret rec -> exists e size, contents st !! join_pk = Some e /\ live now e = true /\
    rec = entry_record (Some (PKIKey (JoinIndexKey (HashToken token)))) e size false.
Proof.
  intros HR Hm. unfold find_join. destruct (_ || _)%bool; [intros [= <- <-]; done|].
  destruct (get_local now st (PKIKey (JoinIndexKey (HashToken token))) HR) as [size ->].
  assert (adoptBootstrapToken None now env (HashToken token) st = (Ret None, st)) as Hadopt.
  { unfold adoptBootstrapToken. rewrite (bool_decide_eq_false_2 (HashToken _ = _)) by apply mt_not_bootstrap, Hm.
    by rewrite orb_true_r. }
  unfold get_spec_rec. fold join_pk. destruct (contents st !! join_pk) as [e|] eqn:Ec.
  - destruct (live now e) eqn:El.
    + cbn [entry_record rec_Value]. destruct (len (e_value e) =? 0); [rewrite Hadopt; by intros [= <- <-]|].
      intros [= <- <-]. split; [done|]. intros rec [= <-]. by exists e, size.
    + change (len (rec_Value (RecordNotFound (Some (PKIKey (JoinIndexKey (HashToken token)))))) =? 0) with true. cbn iota.
      rewrite Hadopt. by intros [= <- <-].
  - change (len (rec_Value (RecordNotFound (Some (PKIKey (JoinIndexKey (HashToken token)))))) =? 0) with true. cbn iota.
    rewrite Hadopt. by intros [= <- <-].
Qed.

(** Burning what was read: only the minted record, at its version, can be burned. *)
Lemma burn_join_inv now rec (st st' : KeyValueStorageCtx) r :
  BadgerReliable -> minted -> 1 < now -> read_ok rec -> burn_join None now token rec st = (r, st') ->
  (r = Ret tt /\ cas_matches (contents st !! join_pk) (e_version e0) = true /\
     exists raw, iam_Decode raw = Ret {| jr_ExpiresAt := 1; jr_CreatedBy := jr_CreatedBy jr0; jr_Reusable := false |} /\ raw <> [] /\
       contents st' = <[join_pk := cas_entry (contents st !! join_pk) raw]> (contents st)) \/
  (contents st' = contents st /\ r <> Ret tt).
Proof.
  intros HR Hm Hnow Hrec. unfold burn_join. destruct Hrec as [(Hv & h & Hh & Hver)|(jr & Hd & He & Hr)].
  - rewrite Hv, (mt_decodes Hm).
    destruct (negb (jr_ExpiresAt jr0 =? 0) && (jr_ExpiresAt jr0 <? now)); [intros [= <- <-]; by right|].
    rewrite (mt_single Hm), Hh.
    destruct (coded {| jr_ExpiresAt := 1; jr_CreatedBy := jr_CreatedBy jr0; jr_Reusable := false |}) as (raw & -> & Hraw & Hdec).
    rewrite Hver. destruct (cas_local now st (PKIKey (JoinIndexKey (HashToken token))) raw (e_version e0) HR) as (st1 & -> & Hc).
    fold join_pk in *. cbn [Updated]. destruct (cas_matches (contents st !! join_pk) (e_version e0)); cbn [negb];
      intros [= <- <-]; [left|by right]. split; [done|]. split; [done|]. by exists raw.
  - rewrite Hd, He. rewrite (proj2 (Z.ltb_lt 1 now) Hnow). cbn. intros [= <- <-]. by right.
Qed.

Lemma consume_inv now (st : KeyValueStorageCtx) :
  BadgerReliable ->
  contents (consumeJoinToken None now token st) !! join_pk = contents st !! join_pk \/
  contents (consumeJoinToken None now token st) !! join_pk = None.
Proof.
  intros HR. unfold consumeJoinToken. set (b := match svc_Get _ _ _ with Ret _ => _ | _ => _ end).
  destruct b; [by left|right]. rewrite remove_local by done. apply lookup_delete_eq.
Qed.

Lemma burned_next raw :
  minted -> iam_Decode raw = Ret {| jr_ExpiresAt := 1; jr_CreatedBy := jr_CreatedBy jr0; jr_Reusable := false |} -> raw <> [] ->
  burned_entry (cas_entry (Some e0) raw).
Proof.
  intros Hm Hd Hr. split; [|split; [done|]; split; [done|]; by eexists].
  destruct (mt_version Hm) as [Hu _]. cbn. unfold wrap64, is_uint64 in *. intros E.
  destruct (decide (e_version e0 + 1 = 2 ^ 64)) as [E'|Hne].
  - rewrite E', Z_mod_same_full in E. lia.
  - rewrite Z.mod_small in E by lia. lia.
Qed.

Lemma won_insert (pcs : list pc) i p j : p <> Won -> <[i := p]> pcs !! j = Some Won -> pcs !! j = Some Won.
Proof. intros Hp Hj. apply list_lookup_insert_Some in Hj as [(-> & -> & _)|[_ Hj]]; done. Qed.

Lemma holds_insert (pcs : list pc) i p j rec :
  (forall r, p <> Holds r) -> <[i := p]> pcs !! j = Some (Holds rec) -> pcs !! j = Some (Holds rec).
Proof. intros Hp Hj. apply list_lookup_insert_Some in Hj as [(-> & -> & _)|[_ Hj]]; naive_solver. Qed.

Lemma race_step_inv s1 s2 : BadgerReliable -> minted -> race_step s1 s2 -> race_inv s1 -> race_inv s2.
Proof.
  intros HR Hm Hstep (Hread & Hcase). unfold race_inv.
  destruct Hstep as [st st' pcs i now nodeID rec Hi HF|st st' pcs i now nodeID e Hi HF|st st' pcs i now rec Hnow Hi HB
    |st st' pcs i now rec e Hnow Hi HB|st pcs i now Hi|st st' pcs Hsame]; cbn [fst snd] in *.
  - apply find_join_inv in HF as [-> HF]; [|done|done]. destruct (HF rec eq_refl) as (e & size & Hc & _ & ->). split.
    + intros j rec' Hj. apply list_lookup_insert_Some in Hj as [(-> & [= <-] & _)|[_ Hj]]; [|by eapply Hread].
      destruct Hcase as [[_ Hc0]|[_ [Hc0|(e' & Hc0 & Hb)]]]; rewrite Hc0 in Hc; [|done|]; injection Hc as <-.
      * left. split; [done|]. by eexists.
      * right. by destruct Hb as (_ & _ & _ & Hb).
    + destruct Hcase as [[Hw Hc0]|[[w Hw] Hc0]]; [left|right]; (split; [|done]).
      * intros j Hj. by apply won_insert, Hw in Hj.
      * exists w. intros j Hj. by apply won_insert, Hw in Hj.
  - apply find_join_inv in HF as [-> _]; [|done|done]. split; [intros j rec Hj; eapply Hread, holds_insert; [|done]; done|].
    destruct Hcase as [[Hw Hc0]|[[w Hw] Hc0]]; [left|right]; (split; [|done]).
    + intros j Hj. by apply won_insert, Hw in Hj.
    + exists w. intros j Hj. by apply won_insert, Hw in Hj.
  - split; [intros j rec' Hj; eapply Hread, holds_insert; [|done]; done|].
    apply burn_join_inv in HB as [(_ & Hcas & raw & Hd & Hr & Hc)|[_ ?]]; [|done..|by eapply Hread].
    destruct Hcase as [[Hw Hc0]|[[w Hw] Hc0]].
    + right. split.
      * exists i. intros j Hj. apply list_lookup_insert_Some in Hj as [(-> & _ & _)|[_ Hj]]; [done|]. by apply Hw in Hj.
      * right. eexists. rewrite Hc, lookup_insert_eq. split; [done|]. rewrite Hc0. by apply burned_next.
    + exfalso. destruct Hc0 as [Hc0|(e & Hc0 & Hb & _)]; rewrite Hc0 in Hcas; cbn in Hcas; apply Z.eqb_eq in Hcas.
      * by destruct (mt_version Hm).
      * congruence.
  - split; [intros j rec' Hj; eapply Hread, holds_insert; [|done]; done|].
    apply burn_join_inv in HB as [(? & _)|[Hc _]]; [done| |done..|by eapply Hread]. rewrite Hc.
    destruct Hcase as [[Hw Hc0]|[[w Hw] Hc0]]; [left|right]; (split; [|done]).
    + intros j Hj. by apply won_insert, Hw in Hj.
    + exists w. intros j Hj. by apply won_insert, Hw in Hj.
  - split; [done|]. destruct Hcase as [[Hw _]|[Hw Hc0]]; [by apply Hw in Hi|]. right. split; [done|].
    destruct (consume_inv now st HR) as [->| ->]; [done|by left].
  - split; [done|]. by rewrite Hsame.
Qed.

End Race.

(** ** One certificate authority *)

Context `{!Codable CARecord}.

Definition ca_pk : bytes := enc_key (PKIKey CAMinor).

Lemma loadCA_entry now (st : KeyValueStorageCtx) e car :
  BadgerReliable -> contents st !! ca_pk = Some e -> e_expires e = 0 -> e_value e <> [] -> iam_Decode (e_value e) = Ret car ->
  loadCA now st = (ca ← CARecord_Load car; Ret (Some ca)).
Proof.
  intros HR Hc Hx Hv Hd. unfold loadCA. destruct (get_local now st (PKIKey CAMinor) HR) as [size ->].
  unfold get_spec_rec. fold ca_pk. rewrite Hc. unfold live. rewrite Hx, no_expiry. cbn [negb mbind outcome_bind entry_record rec_Value].
  destruct (Z.eqb_spec (len (e_value e)) 0) as [E|_].
  - destruct (e_value e) as [|b l]; [done|]. rewrite len_cons in E. pose proof (len_nonneg l). lia.
  - by rewrite Hd.
Qed.

(** The cluster has one root. Once a node has obtained the certificate authority, whether it
    found the record or created it, every later request on that store, at any clock and whatever
    a node would generate itself, obtains the same authority and changes nothing. *)
Theorem ensureCA_unique (now now2 : Z) (env env2 : PkiEnv) (st st1 : KeyValueStorageCtx) (ca : CA) :
  BadgerReliable -> (forall e, contents st !! ca_pk = Some e -> e_expires e = 0 /\ e_value e <> []) ->
  ensureCA None now env st = (Ret ca, st1) -> ensureCA None now2 env2 st1 = (Ret ca, st1).
Proof.
  intros HR Hwf HE.
  assert (forall e, contents st1 !! ca_pk = Some e -> e_expires e = 0 -> e_value e <> [] ->
    (exists car, iam_Decode (e_value e) = Ret car /\ CARecord_Load car = Ret ca) -> ensureCA None now2 env2 st1 = (Ret ca, st1)) as Hdone.
  { intros e Hc Hx Hv (car & Hd & HL). unfold ensureCA. rewrite (loadCA_entry _ _ e car) by done. by rewrite HL. }
  unfold ensureCA in HE. unfold loadCA at 1 in HE. destruct (get_local now st (PKIKey CAMinor) HR) as [size EG]. rewrite EG in HE.
  unfold get_spec_rec in HE. fold ca_pk in HE. destruct (contents st !! ca_pk) as [e|] eqn:Ec.
  - destruct (Hwf e eq_refl) as [Hx Hv]. unfold live in HE. rewrite Hx, no_expiry in HE.
    cbn [negb mbind outcome_bind entry_record rec_Value] in HE.
    destruct (Z.eqb_spec (len (e_value e)) 0) as [E|_].
    { destruct (e_value e) as [|b l]; [done|]. rewrite len_cons in E. pose proof (len_nonneg l). lia. }
    destruct (iam_Decode (e_value e)) as [car|?|] eqn:Ed; cbn [wrap mbind outcome_bind] in HE; [|done|done].
    destruct (CARecord_Load car) as [ca'|?|] eqn:EL; cbn [mbind outcome_bind] in HE; [|done|done].
    injection HE as <- <-. apply (Hdone e); [done..|]. by exists car.
  - change (len (rec_Value (RecordNotFound (Some (PKIKey CAMinor)))) =? 0) with true in HE. cbn [mbind outcome_bind] in HE.
    destruct (newCARecord env) as [record|?|]; [|done|done].
    destruct (coded record) as (raw & Henc & Hraw & Hdec). rewrite Henc in HE.
    destruct (cas_local now st (PKIKey CAMinor) raw 0 HR) as (st' & EP & Hc). rewrite EP in HE. fold ca_pk in *.
    rewrite Ec in HE, Hc. cbn [cas_matches Z.eqb Updated negb] in HE, Hc. injection HE as HL <-.
    apply (Hdone (cas_entry None raw)); [by rewrite Hc, lookup_insert_eq|done|done|]. by exists record.
Qed.

(** ** Certificates *)

Context `{!X509Laws}.

(** Every trimmed name of the list that is not an address is among the DNS names. *)
Lemma split_loop_dns seen hosts h name :
  h ∈ hosts -> TrimSpace h = name -> name <> [] -> name ∉ seen -> ParseIP name = None -> name ∈ fst (split_loop seen hosts).
Proof.
  intros Hin Ht Hne Hs Hip. revert seen Hs. induction hosts as [|x hosts IH]; intros seen Hs; [by apply not_elem_of_nil in Hin|].
  cbn [split_loop]. destruct (decide (TrimSpace x = name)) as [E|E].
  - rewrite E, !bool_decide_eq_false_2 by done. cbn [orb]. destruct (split_loop _ hosts). rewrite Hip. apply list_elem_of_here.
  - apply elem_of_cons in Hin as [->|Hin]; [done|].
    destruct (_ || _)%bool; [by apply IH|]. specialize (IH Hin ({[TrimSpace x]} ∪ seen) ltac:(set_solver)).
    destruct (split_loop _ hosts) as [dns ips]. destruct (ParseIP (TrimSpace x)); [done|]. by right.
Qed.

(** Node certificates are leaves for both directions. When an enrollment is signed, the
    certificate parses, is valid from five minutes ago for five years, bears the node id as its
    common name, serves both TLS roles, carries the cluster-wide name peers verify, and cannot
    sign certificates; the CA certificate handed out is the one that signed it. *)
Theorem sign_node_leaf (now : Z) (env : PkiEnv) (nodeID : bytes) (hosts : list bytes) (csrPEM certPEM caPEM : bytes)
    (st st' : KeyValueStorageCtx) :
  ParseIP NodeSANDNS = None -> sign_node None now env nodeID hosts csrPEM st = (Ret (certPEM, caPEM), st') ->
  exists der cert ca, pem_Decode certPEM = Some der /\ ParseCertificate der = Ret cert /\
    xc_CommonName cert = nodeID /\ xc_NotBefore cert = now - 300 /\ xc_NotAfter cert = now + nodeCertTTL /\
    xc_ClientAuth cert = true /\ xc_ServerAuth cert = true /\ xc_IsCA cert = false /\ xc_CertSign cert = false /\
    NodeSANDNS ∈ xc_DNSNames cert /\ fst (ensureCA None now env st) = Ret ca /\ caPEM = ca_CertPEM ca.
Proof.
  intros Hip. unfold sign_node. destruct (ParseCSR csrPEM) as [pub|?|]; [|done|done].
  destruct (ensureCA None now env st) as [[ca|?|] w]; [|done|done].
  assert (NodeSANDNS ∈ fst (splitHosts ([nodeID; NodeSANDNS] ++ hosts))) as Hin.
  { apply (split_loop_dns ∅ _ NodeSANDNS NodeSANDNS); [by right; left|done|done|set_solver|done]. }
  destruct (splitHosts _) as [dns ips] eqn:ES. unfold Sign. destruct (pe_serial env) as [serial|?|]; cbn [wrap mbind outcome_bind]; [|done|done].
  cbn [parse_uris cq_URIs mbind outcome_bind]. set (tmpl := {| xc_SerialNumber := serial |}).
  destruct (CreateCertificate tmpl (ca_Cert ca) _ (ca_Key ca)) as [der|?|] eqn:EC; cbn [wrap mbind outcome_bind]; [|done|done].
  intros [= <- <- <-]. exists der, tmpl, ca. rewrite pem_roundtrip. split; [done|]. split; [by eapply cert_roundtrip|].
  repeat split; try done.
Qed.

End Props.

(** ** Witnesses *)

(** A transparent X.509: a certificate is the numbering of its fields. *)
Definition cert_fields (t : x509_Certificate) :=
  (xc_SerialNumber t, xc_CommonName t, xc_NotBefore t, xc_NotAfter t, (xc_CertSign t, xc_DigitalSignature t, xc_ClientAuth t, xc_ServerAuth t),
   (xc_IsCA t, xc_MaxPathLenZero t, xc_DNSNames t, xc_IPAddresses t, xc_URIs t)).

#[global] Instance x509_eq_dec : EqDecision x509_Certificate.
Proof. solve_decision. Defined.

#[global] Instance x509_countable : Countable x509_Certificate.
Proof.
  refine (inj_countable' cert_fields (fun '(a, b, c, d, (e, f, g, h), (i, j, k, l, m)) => {|
    xc_SerialNumber := a; xc_CommonName := b; xc_NotBefore := c; xc_NotAfter := d; xc_CertSign := e; xc_DigitalSignature := f;
    xc_ClientAuth := g; xc_ServerAuth := h; xc_IsCA := i; xc_MaxPathLenZero := j; xc_DNSNames := k; xc_IPAddresses := l; xc_URIs := m |}) _).
  by intros [].
Defined.

Definition flat_x509 : X509Pkg := {|
  ECKey := bytes; PublicKey := bytes; ec_Public := fun k => k;
  MarshalECPrivateKey := fun k => Ret k; ParseECPrivateKey := fun b => Ret b;
  CreateCertificate := fun t _ _ _ => Ret (pos_bytes (encode t));
  ParseCertificate := fun der => match decode (bytes_pos der) with Some t => Ret t | None => Fail (ErrNew (str "malformed")) end;
  CreateCertificateRequest := fun cn k => Ret k;
  ParseCertificateRequest := fun der => Ret ([], der, true);
  pem_Encode := fun _ b => b; pem_Decode := fun b => Some b; url_Parse := fun u => Ret u; ParseIP := fun _ => None
|}.

Lemma flat_x509_laws : @X509Laws flat_x509.
Proof.
  split; cbn; [done|by intros k b [= <-]|]. intros t p pub k der [= <-]. by rewrite bytes_pos_bytes, decode_encode.
Qed.

Section Witness.
#[local] Existing Instances flat_uuid flat_uuid_laws mem_badger mem_spec flat_store flat_store_laws
  flat_value flat_iam_structs flat_argon2 flat_x509 flat_x509_laws.
#[local] Instance demo_join_struct : Struct JoinRecord := flat_struct JoinRecord.
#[local] Instance demo_ca_struct : Struct CARecord := flat_struct CARecord.
#[local] Instance demo_join_codable : Codable JoinRecord := flat_codable JoinRecord.
#[local] Instance demo_ca_codable : Codable CARecord := flat_codable CARecord.

Definition demo_jr : JoinRecord := {| jr_ExpiresAt := 900; jr_CreatedBy := str "root"; jr_Reusable := false |}.

Definition demo_env : PkiEnv := {|
  pe_genesis := None; pe_transport := false; pe_generated := GenerateCA 100 (Ret (str "k")) (Ret 7);
  pe_serial := Ret 8; pe_leafKey := Ret (str "leaf"); pe_bootstrap := [] |}.

Definition demo_join_entry : entry :=
  {| e_version := 3; e_expires := 0; e_value := match iam_Encode demo_jr with Ret b => b | _ => [] end; e_meta := 0 |}.

Definition demo_join_store : KeyValueStorageCtx :=
  snd (Put 100 demo_storage (put_request (PKIKey (JoinIndexKey (HashToken (str "join-1")))) (e_value demo_join_entry)) 3).

Definition demo_join_read (node : bytes) : result Rec * KeyValueStorageCtx :=
  find_join None 120 demo_env (str "join-1") node demo_join_store.

Definition demo_join_rec : Rec := match fst (demo_join_read (str "n1")) with Ret r => r | _ => RecordNotFound None end.

(** Two nodes read the token, the first one burns it. *)
Definition demo_join_won : KeyValueStorageCtx :=
  snd (burn_join None 121 (str "join-1") demo_join_rec (snd (demo_join_read (str "n1")))).

Lemma demo_race :
  races demo_env (str "join-1") (demo_join_store, replicate 2 Idle) (demo_join_won, [Won; Idle]).
Proof.
  eapply races_step; [eapply races_step; [apply races_refl|]|].
  - apply (step_read _ _ demo_join_store (snd (demo_join_read (str "n1"))) [Idle; Idle] 0 120 (str "n1") demo_join_rec); [done|].
    apply pair_by_fst. vm_compute. reflexivity.
  - apply (step_burn _ _ (snd (demo_join_read (str "n1"))) demo_join_won [Holds demo_join_rec; Idle] 0 121 demo_join_rec); [lia|done|].
    unfold demo_join_won. apply pair_by_fst. vm_compute. reflexivity.
Qed.


Definition demo_ca_run := ensureCA None 100 demo_env demo_storage.

Definition demo_root : x509_Certificate := {|
  xc_SerialNumber := 7; xc_CommonName := caCommonName; xc_NotBefore := 100 - 300; xc_NotAfter := 100 + caValidity;
  xc_CertSign := true; xc_DigitalSignature := false; xc_ClientAuth := false; xc_ServerAuth := false; xc_IsCA := true;
  xc_MaxPathLenZero := true; xc_DNSNames := []; xc_IPAddresses := []; xc_URIs := [] |}.

Definition demo_ca : CA := {| ca_Cert := demo_root; ca_Key := str "k" : ECKey; ca_CertPEM := pos_bytes (encode demo_root) |}.

Lemma ensureCA_unique_witness :
  ensureCA None 500 {| pe_genesis := None; pe_transport := false; pe_generated := GenerateCA 500 (Ret (str "other")) (Ret 9);
    pe_serial := Ret 1; pe_leafKey := Ret []; pe_bootstrap := [] |} (snd demo_ca_run) = (Ret demo_ca, snd demo_ca_run).
Proof.
  apply (ensureCA_unique 100 500 demo_env _ demo_storage (snd demo_ca_run) demo_ca mem_reliable).
  - intros e He. exfalso. vm_compute in He. discriminate.
  - apply pair_by_fst. vm_compute. reflexivity.
Defined.

Definition demo_signed := sign_node None 120 demo_env (str "n1") [str "10.0.0.1"] (str "csr") (snd demo_ca_run).

Lemma sign_node_leaf_witness :
  exists der cert, pem_Decode (match fst demo_signed with Ret (c, _) => c | _ => [] end) = Some der /\
    ParseCertificate der = Ret cert /\ xc_IsCA cert = false /\ NodeSANDNS ∈ xc_DNSNames cert.
Proof.
  destruct (sign_node_leaf 120 demo_env (str "n1") [str "10.0.0.1"] (str "csr")
    (match fst demo_signed with Ret (c, _) => c | _ => [] end) (match fst demo_signed with Ret (_, c) => c | _ => [] end)
    (snd demo_ca_run) (snd demo_signed) eq_refl) as (der & cert & ca & HD & HP & _ & _ & _ & _ & _ & HC & _ & HN & _).
  - apply pair_by_fst. vm_compute. reflexivity.
  - exists der, cert. split; [exact HD|]. split; [exact HP|]. split; [exact HC|exact HN].
Defined.

End Witness.
