(* ===== verification/Setup.v ===== *)
(** * First-run setup, export and import ([pkg/console/setup.go])

    The onboarding endpoints need no identity: bootstrap guards itself by the absence of users
    and of the genesis record. Whether a request was answered by the leader through the proxy,
    and with what, is an argument of the handlers. *)

From S2P Require Import Prelude Pb Keys Engine Storage StorageSpec StorageReads StorageProps Value Service Iam PolicyService Password Backup Auth Console Pki.

Section Setup.
Context `{UuidPkg} `{Badger} `{StorePkg} `{ValuePkg} `{!IamStructs} `{Argon2Pkg} `{MapOrder} `{X509Pkg}.
Context `{!Struct JoinRecord} `{!Struct CARecord} `{!Struct GenesisRecord}.
Context {W : Type} `{!HasStorage W}.
Variable replicator : option (Replicator W).

(** The raft handle as the setup handlers see it. *)
Record RaftView : Type := {
  rv_raft : bool;          (* raftHandle *)
  rv_leads : bool;         (* IsLeader *)
  rv_leaderAddr : bytes;   (* LeaderWithID *)
  rv_forwarded : bool;     (* the X-Forwarded-Leader header *)
  rv_proxied : bool        (* proxyToLeader succeeded *)
}.

Definition forwardedToLeader (v : RaftView) : bool :=
  if negb (rv_raft v) || rv_leads v || rv_forwarded v then false
  else if bool_decide (rv_leaderAddr v = []) then false
  else rv_proxied v.

Definition clusterInitialized (now : Z) (w : W) : result bool :=
  match svc_Get now w (key_request (iam_Key GenesisMinor)) with
  | Ret rec => Ret (0 <? len (rec_Value rec))
  | Fail _ => Ret false
  | Panic => Panic
  end.

(** The scan's error is ignored: what was seen before it counts. *)
Definition user_key (r : Rec) : bool :=
  match rec_Key r with Some key => HasPrefix (MinorKey key) UserPrefix | None => false end.

Definition anyUserExists (now : Z) (w : W) : result bool :=
  match GetArea now (get_storage w) iam_area RegionNameField collectSender [] with
  | (Panic, _) => Panic
  | (_, records) => Ret (existsb user_key records)
  end.

(** [putGenesisRecord]: best effort. *)
Definition putGenesisRecord (now : Z) (w : W) (createdBy : bytes) : W :=
  match iam_Encode {| gn_InitializedAt := now; gn_CreatedBy := createdBy |} with
  | Ret raw => snd (svc_Put replicator now now w (cas_request (iam_Key GenesisMinor) raw 0))
  | _ => w
  end.

Definition adoptGenesisRecord (now : Z) (v : RaftView) (w : W) : W :=
  if rv_raft v && negb (rv_leads v) then w else putGenesisRecord now w [].

Record setup_status : Type := { ss_needsSetup : bool; ss_initialized : bool; ss_authEnabled : bool }.

(** [None]: the leader answered. *)
Definition setupStatus (now : Z) (v : RaftView) (authEnabled : bool) (w : W) : option (reply setup_status) * W :=
  if forwardedToLeader v then (None, w) else
  match clusterInitialized now w, anyUserExists now w with
  | Ret initialized, Ret users =>
      let '(initialized, w) :=
        if users && negb initialized then (true, adoptGenesisRecord now v w) else (initialized, w) in
      (Some (Reply StatusOK {| ss_needsSetup := negb initialized && negb users; ss_initialized := initialized || users;
                               ss_authEnabled := authEnabled |}), w)
  | _, _ => (Some Crash, w)
  end.

(** The guard of [setupBootstrap], [Ret true] when setup is already completed. *)
Definition bootstrap_guard (now : Z) (w : W) : result bool :=
  initialized ← clusterInitialized now w;
  if (initialized : bool) then Ret true else anyUserExists now w.

(** Everything after the guard. *)
Definition bootstrap_act (now : Z) (env : PkiEnv) (req : option (bytes * bytes)) (salt : result bytes) (w : W) : reply bytes * W :=
  let bad := ReplyErr StatusBadRequest (str "username and a password (min 8 chars) are required") in
  match req with
  | None => (bad, w)
  | Some (username, password) =>
      if bool_decide (username = []) || (len password <? 8) then (bad, w) else
      match HashPassword password salt with
      | Panic => (Crash, w)
      | Fail _ => (internal_error, w)
      | Ret hash =>
      match iam_Encode {| us_Name := username; us_PasswordHash := hash; us_Admin := false; us_Disabled := false; us_CreatedAt := now |} with
      | Panic => (Crash, w)
      | Fail _ => (internal_error, w)
      | Ret raw =>
      match svc_Put replicator now now w (cas_request (iam_Key (UserPrefix ++ username)) raw 0) with
      | (Panic, w) => (Crash, w)
      | (Fail _, w) => (ReplyErr StatusConflict (str "admin user already exists"), w)
      | (Ret status, w) =>
          if negb (Updated status) then (ReplyErr StatusConflict (str "admin user already exists"), w) else
          match grantRole replicator now w [PrincipalUser username] RoleAdmin [] [] true with
          | (Panic, w) => (Crash, w)
          | (Fail _, w) => (internal_error, w)
          | (Ret _, w) =>
              let w := putGenesisRecord now w username in
              match ensureCA replicator now env w with
              | (Panic, w) => (Crash, w)
              | (_, w) => (Reply StatusCreated username, w)
              end
          end
      end end end
  end.

Definition setupBootstrap (now : Z) (v : RaftView) (env : PkiEnv) (req : option (bytes * bytes)) (salt : result bytes) (w : W) :
    option (reply bytes) * W :=
  if forwardedToLeader v then (None, w) else
  match bootstrap_guard now w with
  | Ret false => let '(r, w) := bootstrap_act now env req salt w in (Some r, w)
  | Ret true => (Some (ReplyErr StatusForbidden (str "setup already completed")), w)
  | _ => (Some Crash, w)
  end.

End Setup.

(** ** Export and import *)

Section Transfer.
Context `{Badger} `{Argon2Pkg} `{AeadPkg}.

(** [exportDatabase]: the body of the response, as far as it gets. *)
Definition exportDatabase (password : bytes) (salt noncePfx : result bytes) (st : KeyValueStorageCtx) : bytes :=
  match NewWriter mem_write [] password salt noncePfx with
  | Ret c =>
      match Storage.Backup st 0 with
      | Ret (dump, _) =>
          match container_Write mem_write dump c with
          | Some (Ret _, c) => match snd (container_Close mem_write c) with plainWriter d => d | encryptedWriter w => ew_dst w end
          | _ => []
          end
      | _ => match c with plainWriter d => d | encryptedWriter w => ew_dst w end
      end
  | _ => []
  end.

(** [importDatabase]: refused while replication is active. [None] is the store after a stream
    that failed part way, of which the engine may have loaded a part. *)
Definition importDatabase (replicated : bool) (password body : bytes) (st : KeyValueStorageCtx) :
    reply bytes * option KeyValueStorageCtx :=
  if replicated then (ReplyErr StatusConflict (str "import is disabled while replication is active"), Some st) else
  match NewReader {| src_data := body; src_err := EOF |} password with
  | Panic => (Crash, Some st)
  | Fail _ => (ReplyErr StatusBadRequest (str "bad dump"), Some st)
  | Ret r =>
      match ReadAll (S (length body)) 512 r with
      | Some (Ret data) =>
          match Storage.Load st data with
          | (Ret _, st) => (Reply StatusOK (str "imported"), Some st)
          | (Fail _, st) => (ReplyErr StatusBadRequest (str "load dump"), Some st)
          | (Panic, st) => (Crash, Some st)
          end
      | Some (Fail _) => (ReplyErr StatusBadRequest (str "load dump"), None)
      | _ => (Crash, None)
      end
  end.

End Transfer.
