(* ===== verification/SetupProps.v ===== *)
(** * Properties of first-run setup, export and import

    Once a bootstrap has succeeded every later one is refused; two that run at the same time under
    different names both succeed; an exported database imports to the same contents. *)

From S2P Require Import Prelude Sha256 Pb Keys Engine Storage StorageSpec StorageReads StorageProps ScanProps Value Service Ledger Iam PolicyService Codecs Password Backup BackupProps Auth Console ConsoleProps Pki PkiProps Setup.

Section Props.
Context `{UuidPkg} `{!UuidLaws} `{Badger} `{!BadgerSpec} `{StorePkg} `{!StoreLaws}.
Context `{ValuePkg} `{!IamStructs} `{Argon2Pkg} `{!Argon2Laws} `{MapOrder} `{!MapOrderLaws} `{X509Pkg}.
Context `{!Struct JoinRecord} `{!Struct CARecord} `{!Struct GenesisRecord}.
Context `{!Codable UserRecord} `{!Codable GroupRecord} `{!Codable PolicyRecord} `{!Codable GenesisRecord} `{!Codable CARecord}.

(** ** Frames *)

Lemma pki_iam_disjoint minor minor' : enc_key (PKIKey minor) <> iam_pk minor'.
Proof.
  rewrite <- iam_pk_cut, <- (enc_key_cut (PKIKey minor)). intros E.
  pose proof (enc_key_inj (cut_key (PKIKey minor)) (iam_Key (cut minor')) (key_ok_cut (PKIKey minor) eq_refl) (iam_key_ok minor') E) as Ek.
  apply (f_equal RegionName) in Ek. discriminate.
Qed.

(** [st'] is [st], or [st] with one record written. *)
Definition writes_at (key : Key) (st st' : KeyValueStorageCtx) : Prop :=
  contents st' = contents st \/ exists e, contents st' = <[enc_key key := e]> (contents st).

Lemma writes_at_other key st st' pk : writes_at key st st' -> enc_key key <> pk -> contents st' !! pk = contents st !! pk.
Proof. intros [->|[e ->]] Hne; [done|]. by apply lookup_insert_ne. Qed.

Lemma writes_at_wf key st st' : writes_at key st st' -> ts_ok key = true -> keys_wf (contents st) -> keys_wf (contents st').
Proof. intros [->|[e ->]] Hts Hwf; [done|]. by apply keys_wf_insert. Qed.

Lemma cas_writes now (st : KeyValueStorageCtx) key raw v :
  BadgerReliable -> writes_at key st (snd (svc_Put None now now st (cas_request key raw v))).
Proof.
  intros HR. destruct (cas_local now st key raw v HR) as (st' & -> & Hc). cbn [snd]. unfold writes_at. rewrite Hc.
  destruct (cas_matches _ _); [right; by eexists|by left].
Qed.

(** Obtaining the CA touches only its record. *)
Lemma ensureCA_writes now env (st : KeyValueStorageCtx) :
  BadgerReliable -> writes_at (PKIKey CAMinor) st (snd (ensureCA None now env st)).
Proof.
  intros HR. unfold ensureCA. destruct (loadCA now st) as [[ca|]|?|]; try by left.
  destruct (newCARecord env) as [record|?|]; try by left. destruct (coded record) as (raw & -> & _).
  pose proof (cas_writes now st (PKIKey CAMinor) raw 0 HR) as Hw.
  destruct (cas_local now st (PKIKey CAMinor) raw 0 HR) as (st' & E & _). rewrite E in *. cbn [snd] in Hw.
  destruct (negb _); [|done]. by destruct (loadCA now st') as [[ca|]|?|].
Qed.

Lemma putGenesis_writes now (st : KeyValueStorageCtx) by_ :
  BadgerReliable -> writes_at (iam_Key GenesisMinor) st (putGenesisRecord None now st by_).
Proof.
  intros HR. unfold putGenesisRecord. destruct (coded {| gn_InitializedAt := now; gn_CreatedBy := by_ |}) as (raw & -> & _).
  by apply cas_writes.
Qed.

(** Minors with different first bytes have different physical keys. *)
Lemma cut_head_ne m1 m2 p1 p2 :
  HasPrefix m1 p1 = true -> HasPrefix m2 p2 = true -> bool_decide (head p1 = head p2) = false ->
  head p1 <> None -> head p2 <> None -> len p1 <= 65535 -> len p2 <= 65535 -> cut m1 <> cut m2.
Proof.
  intros H1' H2' Hd Hn1 Hn2 Hl1 Hl2 E. rewrite <- HasPrefix_cut in H1', H2' by done.
  rewrite E in H1'. rewrite (HasPrefix_head _ p1 p2 H1' Hd) in H2' by done. done.
Qed.

Lemma prefix_app p s : HasPrefix (p ++ s) p = true.
Proof. apply HasPrefix_spec. by eexists. Qed.

Lemma user_ne_policy u : cut (UserPrefix ++ u) <> cut PolicyInstance.
Proof. apply (cut_head_ne _ _ UserPrefix (str "policy/")); done. Qed.

Lemma user_ne_genesis u : cut (UserPrefix ++ u) <> cut GenesisMinor.
Proof. apply (cut_head_ne _ _ UserPrefix (str "cluster/")); done. Qed.

(** ** The guard *)

Lemma guard_true now (st : KeyValueStorageCtx) u e :
  BadgerReliable -> keys_wf (contents st) -> contents st !! iam_pk (UserPrefix ++ u) = Some e -> live now e = true ->
  bootstrap_guard now st = Ret true.
Proof.
  intros HR Hwf Hc Hl. unfold bootstrap_guard, clusterInitialized.
  destruct (get_local now st (iam_Key GenesisMinor) HR) as [size ->]. cbn [mbind outcome_bind].
  destruct (0 <? _); [done|]. unfold anyUserExists, GetArea. cbn [iam_area kr_Key kr_HeadOnly].
  pose proof (EncodeKeyPrefix_layout {| MajorKey := SystemTenant; RegionName := Region; MinorKey := []; Timestamp := None |} RegionNameField) as HL.
  cbn [enc_prefix] in HL. rewrite HL. cbn [mbind outcome_bind].
  rewrite stream_loop_spec by (by apply items_no_panic). rewrite send_all_collect, concat_blocks_of. f_equal.
  apply existsb_exists. rewrite <- iam_pk_cut in Hc.
  edestruct (yields_elem_of now false st) as (r & [sz ->] & Hin); [exact HR|apply iam_key_ok|exact Hc|exact Hl| | |].
  3: { eexists. split; [apply list_elem_of_In; exact Hin|]. cbn. rewrite HasPrefix_cut by done. exact (prefix_app UserPrefix u). }
  - cbn. unfold enc_key, enc_row. rewrite <- !app_assoc. cbn. by eexists.
  - done.
Qed.

(** ** A bootstrap that runs *)

(** What a bootstrap that created its user leaves: the user's record, an unexpiring one, the admin
    role bound to it, every other user's record as it was. *)
Record bootstrapped (now : Z) (u : bytes) (st st' : KeyValueStorageCtx) : Prop := {
  bt_user : exists e, contents st' !! iam_pk (UserPrefix ++ u) = Some e /\ e_expires e = 0;
  bt_others : forall u', cut (UserPrefix ++ u') <> cut (UserPrefix ++ u) ->
    contents st' !! iam_pk (UserPrefix ++ u') = contents st !! iam_pk (UserPrefix ++ u');
  bt_policy : forall now', policy_of now' st' PolicyInstance = applyBinding (policy_of now st PolicyInstance) RoleAdmin [PrincipalUser u] true;
  bt_wf : keys_wf (contents st) -> keys_wf (contents st')
}.

Lemma policy_of_same now (s1 s2 : KeyValueStorageCtx) minor :
  contents s1 !! iam_pk minor = contents s2 !! iam_pk minor -> policy_of now s1 minor = policy_of now s2 minor.
Proof. intros E. unfold policy_of. by rewrite E. Qed.

Lemma iam_pk_ne m1 m2 : cut m1 <> cut m2 -> iam_pk m1 <> iam_pk m2.
Proof. intros Hne E. by apply Hne, iam_pk_inj. Qed.

(** The steps after the user's record. *)
Lemma bootstrap_steps now u raw (st st1 st2 st3 st4 : KeyValueStorageCtx) old v raw2 :
  contents st1 = <[iam_pk (UserPrefix ++ u) := cas_entry old raw]> (contents st) ->
  contents st2 = <[iam_pk PolicyInstance := iam_entry v raw2]> (contents st1) ->
  (forall now', policy_of now' st2 PolicyInstance = applyBinding (policy_of now st1 PolicyInstance) RoleAdmin [PrincipalUser u] true) ->
  writes_at (iam_Key GenesisMinor) st2 st3 -> writes_at (PKIKey CAMinor) st3 st4 -> bootstrapped now u st st4.
Proof.
  intros Hc1 Hc2 Hp Hw3 Hw4.
  assert (forall m, cut GenesisMinor <> cut m -> contents st4 !! iam_pk m = contents st2 !! iam_pk m) as Hf.
  { intros m Hg. rewrite (writes_at_other _ _ _ _ Hw4) by apply pki_iam_disjoint.
    apply (writes_at_other _ _ _ _ Hw3). by apply iam_pk_ne. }
  assert (forall u', contents st4 !! iam_pk (UserPrefix ++ u') = contents st1 !! iam_pk (UserPrefix ++ u')) as Hu.
  { intros u'. rewrite Hf by (intros E; by apply (user_ne_genesis u')). rewrite Hc2. apply lookup_insert_ne, iam_pk_ne.
    intros E. by apply (user_ne_policy u'). }
  split.
  - eexists. rewrite Hu, Hc1, lookup_insert_eq. done.
  - intros u' Hne. rewrite Hu, Hc1. apply lookup_insert_ne, iam_pk_ne. by intros E.
  - intros now'. rewrite (policy_of_same now' st4 st2 PolicyInstance (Hf PolicyInstance ltac:(done))), Hp. f_equal.
    apply policy_of_same. rewrite Hc1. apply lookup_insert_ne, iam_pk_ne, user_ne_policy.
  - intros Hwf. eapply writes_at_wf; [exact Hw4|done|]. eapply writes_at_wf; [exact Hw3|done|].
    rewrite Hc2, Hc1. apply keys_wf_insert; [done|]. by apply keys_wf_insert.
Qed.

Lemma bootstrap_act_success now env u pw salt (st st' : KeyValueStorageCtx) c x :
  BadgerReliable -> bootstrap_act None now env (Some (u, pw)) salt st = (Reply c x, st') ->
  c = StatusCreated /\ x = u /\ bootstrapped now u st st'.
Proof.
  intros HR. unfold bootstrap_act. destruct (_ || _)%bool; [done|]. destruct (HashPassword pw salt) as [hash|?|]; [|done|done].
  destruct (coded {| us_Name := u; us_PasswordHash := hash; us_Admin := false; us_Disabled := false; us_CreatedAt := now |}) as (raw & -> & _).
  destruct (cas_local now st (iam_Key (UserPrefix ++ u)) raw 0 HR) as (st1 & -> & Hc1). fold (iam_pk (UserPrefix ++ u)) in *.
  cbn [Updated]. destruct (cas_matches _ 0); cbn [negb]; [|done].
  destruct (grantRole_local now st1 [PrincipalUser u] RoleAdmin [] [] true HR) as (st2 & v2 & raw2 & -> & Hc2 & Hp).
  change (bindingMinor [] []) with PolicyInstance in *.
  pose proof (putGenesis_writes now st2 u HR) as Hw3. set (st3 := putGenesisRecord None now st2 u) in *.
  pose proof (ensureCA_writes now env st3 HR) as Hw4. destruct (ensureCA None now env st3) as [r st4]. cbn [snd] in Hw4.
  pose proof (bootstrap_steps now u raw st st1 st2 st3 st4 _ v2 raw2 Hc1 Hc2 Hp Hw3 Hw4) as Hb.
  destruct r; [| |done]; by intros [= <- <- <-].
Qed.

(** On a store without the user, the act succeeds. *)
Lemma bootstrap_act_runs now env u pw salt (st : KeyValueStorageCtx) :
  BadgerReliable -> u <> [] -> 8 <= len pw -> (forall s : KeyValueStorageCtx, fst (ensureCA None now env s) <> Panic) ->
  contents st !! iam_pk (UserPrefix ++ u) = None ->
  exists st', bootstrap_act None now env (Some (u, pw)) (Ret salt) st = (Reply StatusCreated u, st') /\ bootstrapped now u st st'.
Proof.
  intros HR Hu Hpw Hca Hnone.
  assert (exists st', bootstrap_act None now env (Some (u, pw)) (Ret salt) st = (Reply StatusCreated u, st')) as (st' & E);
    [|exists st'; split; [done|]; by apply bootstrap_act_success in E as (_ & _ & ?)].
  unfold bootstrap_act. rewrite bool_decide_eq_false_2 by done.
  rewrite (proj2 (Z.ltb_ge (len pw) 8)) by lia. cbn [orb].
  assert (exists hash, HashPassword pw (Ret salt) = Ret hash) as (hash & ->).
  { unfold HashPassword. destruct (idkey_ok pw salt argonTime argonMemoryKiB Password.argonThreads argonKeyLen) as (k & E & _);
      [unfold argonTime, Password.argonThreads, argonKeyLen; lia..|]. rewrite E. by eexists. }
  destruct (coded {| us_Name := u; us_PasswordHash := hash; us_Admin := false; us_Disabled := false; us_CreatedAt := now |}) as (raw & -> & _).
  destruct (cas_local now st (iam_Key (UserPrefix ++ u)) raw 0 HR) as (st1 & -> & Hc1). fold (iam_pk (UserPrefix ++ u)) in *.
  rewrite Hnone. cbn [cas_matches Z.eqb Updated negb].
  destruct (grantRole_local now st1 [PrincipalUser u] RoleAdmin [] [] true HR) as (st2 & v2 & raw2 & -> & _ & _).
  specialize (Hca (putGenesisRecord None now st2 u)). destruct (ensureCA None now env _) as [r st4].
  destruct r; [by eexists|by eexists|done].
Qed.

(** Setup completes once. After a bootstrap answered 201, every later bootstrap request that
    this node handles itself, at any time and whatever it asks for, is answered 403 and changes
    nothing. *)
Theorem bootstrap_once (now now' : Z) (v v' : RaftView) (env env' : PkiEnv) (req req' : option (bytes * bytes))
    (salt salt' : result bytes) (st st' : KeyValueStorageCtx) (u : bytes) :
  BadgerReliable -> keys_wf (contents st) -> setupBootstrap None now v env req salt st = (Some (Reply StatusCreated u), st') ->
  forwardedToLeader v' = false ->
  setupBootstrap None now' v' env' req' salt' st' = (Some (ReplyErr StatusForbidden (str "setup already completed")), st').
Proof.
  intros HR Hwf HB Hf. unfold setupBootstrap in HB. destruct (forwardedToLeader v); [done|].
  destruct (bootstrap_guard now st) as [[|]|?|]; [done| |done|done].
  destruct req as [[name pw]|]; [|done]. destruct (bootstrap_act None now env _ salt st) as [r w] eqn:EA.
  injection HB as -> ->. apply bootstrap_act_success in EA as (_ & -> & [(e & Hc & Hx) _ _ Hwf']); [|done].
  unfold setupBootstrap. rewrite Hf. rewrite (guard_true now' st' name e); [done|done|by apply Hwf'|done|].
  unfold live. by rewrite Hx, no_expiry.
Qed.

(** Concurrent bootstraps can both win. The guard and the write are separate steps and the
    compare-and-set is on the user's own record, so two requests with different user names that
    both passed the guard are both answered 201, and both users hold the admin role. *)
Theorem concurrent_bootstraps_both_win (now1 now2 now' : Z) (env1 env2 : PkiEnv) (u1 u2 pw1 pw2 salt1 salt2 : bytes)
    (st : KeyValueStorageCtx) :
  BadgerReliable -> (forall s : KeyValueStorageCtx, fst (ensureCA None now1 env1 s) <> Panic) ->
  (forall s : KeyValueStorageCtx, fst (ensureCA None now2 env2 s) <> Panic) ->
  u1 <> [] -> u2 <> [] -> 8 <= len pw1 -> 8 <= len pw2 -> cut (UserPrefix ++ u2) <> cut (UserPrefix ++ u1) ->
  contents st !! iam_pk (UserPrefix ++ u1) = None -> contents st !! iam_pk (UserPrefix ++ u2) = None ->
  exists st1 st2,
    bootstrap_act None now1 env1 (Some (u1, pw1)) (Ret salt1) st = (Reply StatusCreated u1, st1) /\
    bootstrap_act None now2 env2 (Some (u2, pw2)) (Ret salt2) st1 = (Reply StatusCreated u2, st2) /\
    holds (policy_of now' st2 PolicyInstance) RoleAdmin (PrincipalUser u1) /\
    holds (policy_of now' st2 PolicyInstance) RoleAdmin (PrincipalUser u2).
Proof.
  intros HR Hca1 Hca2 Hu1 Hu2 Hp1 Hp2 Hne Hn1 Hn2.
  destruct (bootstrap_act_runs now1 env1 u1 pw1 salt1 st HR Hu1 Hp1 Hca1 Hn1) as (st1 & E1 & [_ Ho1 Hpol1 _]).
  rewrite <- (Ho1 u2 Hne) in Hn2.
  destruct (bootstrap_act_runs now2 env2 u2 pw2 salt2 st1 HR Hu2 Hp2 Hca2 Hn2) as (st2 & E2 & [_ _ Hpol2 _]).
  exists st1, st2. split; [done|]. split; [done|]. rewrite Hpol2, Hpol1.
  assert (forall bs u, holds (applyBinding bs RoleAdmin [PrincipalUser u] true) RoleAdmin (PrincipalUser u)) as Hnew.
  { intros bs u. rewrite applyBinding_holds, decide_True by done. right. apply list_elem_of_here. }
  split; [|apply Hnew]. rewrite applyBinding_holds, decide_True by done. left. apply Hnew.
Qed.

End Props.

(** ** Export and import *)

Section Transfer.
Context `{Badger} `{!BadgerSpec} `{StorePkg} `{Argon2Pkg} `{!Argon2Laws} `{AeadPkg} `{!AeadLaws}.

(** The exported body is a dump of what the engine backed up. *)
Lemma exportDatabase_dump pw salt pfx (st : KeyValueStorageCtx) data ts d :
  Storage.Backup st 0 = Ret (data, ts) -> dump pw salt pfx [data] = Some d -> exportDatabase pw (Ret salt) (Ret pfx) st = d.
Proof.
  intros HB. unfold dump, exportDatabase. destruct (NewWriter mem_write [] pw (Ret salt) (Ret pfx)) as [c|?|]; [|done|done].
  rewrite HB. cbn [write_all]. destruct (container_Write mem_write data c) as [[[n|?|] c']|]; [|done..].
  cbn [mbind option_bind]. destruct (container_Close mem_write c') as [[e|] c'']; [done|]. by intros [= <-].
Qed.

(** An exported database imports to the same contents. Where the engine's backup succeeds and
    it loads that backup, importing the exported file with the same password, encrypted or not,
    into an empty database that is not replicated answers 200 and leaves exactly the records,
    versions and expiries of the exported one. *)
Theorem export_import_roundtrip (password salt noncePfx data : bytes) (ts : Z) (st empty : KeyValueStorageCtx) db' :
  len salt = saltLen -> len noncePfx = noncePfxLen -> db_view (db empty) = ∅ ->
  Storage.Backup st 0 = Ret (data, ts) -> db_Load (db empty) data = (Ret tt, db') ->
  exists st', importDatabase false password (exportDatabase password (Ret salt) (Ret noncePfx) st) empty =
      (Reply StatusOK (str "imported"), Some st') /\ contents st' = contents st.
Proof.
  intros Hs Hp He HB HL. destruct (dump_reads_back password salt noncePfx [data] Hs Hp) as (d & r & HD & Hlen & HN & HA).
  rewrite (exportDatabase_dump _ _ _ _ _ _ _ HB HD). unfold importDatabase. rewrite HN, HA by lia.
  cbn [concat]. rewrite app_nil_r. unfold Load. rewrite HL. eexists. split; [done|]. unfold contents. cbn [db with_db].
  by rewrite (backup_load_spec _ _ _ _ _ He HB HL).
Qed.

End Transfer.

(** ** Witnesses *)

#[global] Instance GenesisRecord_eq_dec : EqDecision GenesisRecord.
Proof. solve_decision. Defined.
#[global] Instance GenesisRecord_countable : Countable GenesisRecord.
Proof.
  refine (inj_countable' (fun r => (gn_InitializedAt r, gn_CreatedBy r)) (fun '(a, b) => {| gn_InitializedAt := a; gn_CreatedBy := b |}) _).
  by intros [].
Defined.

Section Witness.
#[local] Existing Instances flat_uuid flat_uuid_laws mem_badger mem_spec flat_store flat_store_laws
  flat_value flat_iam_structs flat_argon2 flat_argon2_laws flat_order flat_order_laws flat_x509 flat_x509_laws.
#[local] Instance demo_join_struct : Struct JoinRecord := flat_struct JoinRecord.
#[local] Instance demo_ca_struct : Struct CARecord := flat_struct CARecord.
#[local] Instance demo_genesis_struct : Struct GenesisRecord := flat_struct GenesisRecord.
#[local] Instance demo_user_codable : Codable UserRecord := flat_codable UserRecord.
#[local] Instance demo_group_codable : Codable GroupRecord := flat_codable GroupRecord.
#[local] Instance demo_policy_codable : Codable PolicyRecord := flat_codable PolicyRecord.
#[local] Instance demo_genesis_codable : Codable GenesisRecord := flat_codable GenesisRecord.
#[local] Instance demo_ca_codable : Codable CARecord := flat_codable CARecord.

Definition demo_view : RaftView :=
  {| rv_raft := false; rv_leads := false; rv_leaderAddr := []; rv_forwarded := false; rv_proxied := false |}.

Definition demo_setup := setupBootstrap None 100 demo_view demo_env (Some (str "root", str "password")) (Ret (str "salt")) demo_storage.

Lemma bootstrap_once_witness :
  setupBootstrap None 200 demo_view demo_env (Some (str "eve", str "evilpass")) (Ret (str "salt")) (snd demo_setup) =
    (Some (ReplyErr StatusForbidden (str "setup already completed")), snd demo_setup).
Proof.
  apply (bootstrap_once 100 200 demo_view demo_view demo_env demo_env (Some (str "root", str "password")) _ (Ret (str "salt")) _
    demo_storage (snd demo_setup) (str "root") mem_reliable); [| |reflexivity].
  - intros k e Hk. exfalso. vm_compute in Hk. destruct k; discriminate.
  - unfold demo_setup. apply pair_by_fst. vm_compute. reflexivity.
Defined.

Lemma demo_ca_calm now (s : KeyValueStorageCtx) : fst (ensureCA None now demo_env s) <> Panic.
Proof.
  assert (forall s : KeyValueStorageCtx, loadCA now s <> Panic) as HL.
  { intros s'. unfold loadCA. destruct (get_local now s' (PKIKey CAMinor) mem_reliable) as [size ->]. cbn [mbind outcome_bind].
    destruct (len _ =? 0); [done|]. unfold iam_Decode. cbn -[decode]. destruct (decode _) as [car|]; [|done]. cbn -[decode].
    unfold CARecord_Load. cbn -[decode]. by destruct (decode _). }
  pose proof (HL s) as HLs. unfold ensureCA. destruct (loadCA now s) as [[ca|]|?|]; [done| |done|done].
  destruct (newCARecord demo_env) as [record|?|] eqn:EN; [|done|vm_compute in EN; discriminate].
  destruct (coded record) as (raw & -> & _). destruct (cas_local now s (PKIKey CAMinor) raw 0 mem_reliable) as (st' & -> & _).
  destruct (negb _); [pose proof (HL st') as HLs'; by destruct (loadCA now st') as [[ca|]|?|]|].
  unfold CARecord_Load. cbn -[decode]. by destruct (decode _).
Qed.

Lemma concurrent_bootstraps_both_win_witness :
  exists st1 st2,
    bootstrap_act None 100 demo_env (Some (str "alice", str "password")) (Ret (str "salt")) demo_storage = (Reply StatusCreated (str "alice"), st1) /\
    bootstrap_act None 100 demo_env (Some (str "mallory", str "password")) (Ret (str "salt")) st1 = (Reply StatusCreated (str "mallory"), st2) /\
    holds (policy_of 101 st2 PolicyInstance) RoleAdmin (PrincipalUser (str "alice")) /\
    holds (policy_of 101 st2 PolicyInstance) RoleAdmin (PrincipalUser (str "mallory")).
Proof.
  apply (concurrent_bootstraps_both_win 100 100 101 demo_env demo_env _ _ _ _ _ _ demo_storage mem_reliable
    (demo_ca_calm 100) (demo_ca_calm 100)); try discriminate; vm_compute; (reflexivity || discriminate).
Defined.

#[local] Existing Instances toy_aead toy_aead_laws.

Definition demo_full : KeyValueStorageCtx := snd (Put 100 demo_storage (put_request (iam_Key (str "k")) (str "v")) 3).

Definition demo_backup : bytes := match Storage.Backup demo_full 0 with Ret (d, _) => d | _ => [] end.

Lemma export_import_roundtrip_witness :
  exists st', importDatabase false (str "secret") (exportDatabase (str "secret") (Ret toy_salt) (Ret toy_pfx) demo_full) demo_storage =
      (Reply StatusOK (str "imported"), Some st') /\ contents st' = contents demo_full.
Proof.
  apply (export_import_roundtrip (str "secret") toy_salt toy_pfx demo_backup 0 demo_full demo_storage
    (snd (db_Load (db demo_storage) demo_backup)) eq_refl eq_refl).
  - vm_compute. reflexivity.
  - vm_compute. reflexivity.
  - apply pair_by_fst. vm_compute. reflexivity.
Defined.

End Witness.
