(* ===== verification/Verify.v ===== *)
(** * Backup verification and its jobs ([pkg/verify/backup.go], [pkg/console/jobs.go], the quorum
    codec of [pkg/ledger/checkpoint.go] and the loader of [pkg/ledger/signer.go])

    A dump is loaded into a throwaway store and its persisted chain head is compared with the
    checkpoint of a quorum certificate. The opened source, the throwaway store and the sizes of the
    reads made from the source are arguments; the percentages handed to the progress callback are
    collected in a list. The console runs verifications as background jobs; a job manager is a
    map of jobs and the goroutines that still have to report into it. *)

From S2P Require Import Prelude Sha256 Pb Keys Engine Storage StorageSpec StorageReads StorageProps Value Command Ledger Fsm Password Backup Quorum.

Section Verify.
Context `{UuidPkg} `{Badger} `{StorePkg} `{ValuePkg} `{!Struct headRecord} `{!Struct NodeCert} `{!Struct QuorumCertificate}.
Context `{BlsPkg} `{Ed25519Pkg} `{Argon2Pkg} `{AeadPkg}.

(** ** The quorum codec *)

Definition EncodeQuorum (qc : QuorumCertificate) : result bytes := v ← Marshal qc; Pack v.

Definition DecodeQuorum (raw : bytes) : result QuorumCertificate := v ← Unpack raw; Unmarshal v.

(** ** Node signers from disk *)

(** [ParseNodePrivateKey]. *)
Definition ParseNodePrivateKey (data : bytes) : result PrivKey := priv_UnmarshalBinary data.

(** [fmt.Errorf("what: %w", err)]. *)
Definition errorf {A} (what : string) (r : result A) : result A :=
  match r with Fail e => Fail (ErrWrap (str what) e) | r => r end.

(** [LoadNodeSigner], the two files read being arguments. *)
Definition LoadNodeSigner (keyFile certFile : result bytes) : result NodeSigner :=
  keyBytes ← errorf "ledger: read node key" keyFile;
  key ← errorf "ledger: parse node key" (ParseNodePrivateKey keyBytes);
  certBytes ← errorf "ledger: read node cert" certFile;
  cert ← errorf "ledger: parse node cert" (DecodeCert certBytes);
  NewNodeSigner key cert.

(** ** Verification *)

Record Options : Type := {
  op_Password : bytes;
  op_CACert : bytes;
  op_QuorumCert : bytes;
  op_NodeCerts : list bytes;
  op_Threshold : Z
}.

(** The message of a failed verification ends in the text of [rs_cause]. *)
Record Result : Type := {
  rs_Verified : bool;
  rs_Height : Z;
  rs_Digest : bytes;
  rs_Signers : Z;
  rs_Message : bytes;
  rs_cause : option error
}.

(** *** Progress *)

Record countingReader : Type := { cr_total : Z; cr_read : Z; cr_last : Z }.

(** A read of [n] bytes, and the percentage reported for it if it changed. [c.read*100] wraps at
    64 bits and the division truncates. *)
Definition countingReader_Read (c : countingReader) (n : Z) : option Z * countingReader :=
  let read := int64 (cr_read c + n) in
  let c := {| cr_total := cr_total c; cr_read := read; cr_last := cr_last c |} in
  if 0 <? cr_total c then
    let pct := Z.quot (int64 (read * 100)) (cr_total c) in
    if negb (pct =? cr_last c) then (Some pct, {| cr_total := cr_total c; cr_read := read; cr_last := pct |})
    else (None, c)
  else (None, c).

(** The percentages of a sequence of reads. *)
Fixpoint count_reads (c : countingReader) (ns : list Z) : list Z :=
  match ns with
  | [] => []
  | n :: ns => let '(pct, c) := countingReader_Read c n in option_list pct ++ count_reads c ns
  end.

(** [report(5 + pct*90/100)]. *)
Definition load_progress (pct : Z) : Z := int64 (5 + Z.quot (int64 (pct * 90)) 100).

(** *** The head of a dump *)

(** [opened] is the source with its size, [fresh] the throwaway store, [ns] the reads made. *)
Definition loadBackupHead (now : Z) (password : bytes) (fresh : result KeyValueStorageCtx) (opened : result (Source * Z))
    (ns : list Z) : result (Z * bytes) * list Z :=
  match fresh with
  | Fail e => (Fail e, [])
  | Panic => (Panic, [])
  | Ret storage =>
  match opened with
  | Fail e => (Fail e, [])
  | Panic => (Panic, [])
  | Ret (source, size) =>
      let pcts := count_reads {| cr_total := size; cr_read := 0; cr_last := 0 |} ns in
      (reader ← NewReader source password;
       match ReadAll (S (length (src_data source))) 512 reader with
       | Some (Ret dump) =>
           match Storage.Load storage dump with
           | (Ret _, storage) => Ret (LoadHead now storage)
           | (Fail e, _) => Fail (ErrWrap (str "verify: load dump") e)
           | (Panic, _) => Panic
           end
       | Some (Fail e) => Fail (ErrWrap (str "verify: load dump") e)
       | Some Panic | None => Panic
       end, pcts)
  end end.

(** The certificates of the options, indexed by node. *)
Fixpoint decode_bundle (raws : list bytes) (bundle : gmap bytes NodeCert) : result (gmap bytes NodeCert) :=
  match raws with
  | [] => Ret bundle
  | raw :: raws => cert ← errorf "verify: node cert" (DecodeCert raw); decode_bundle raws (AddCert bundle cert)
  end.

Definition head_result (qc : QuorumCertificate) (head : Z * bytes) : Result :=
  match MatchesHead qc (fst head) (snd head) with
  | Ret _ => {| rs_Verified := true; rs_Height := fst head; rs_Digest := DigestHex (snd head); rs_Signers := len (qc_Signers qc);
                rs_Message := str "backup matches the quorum-certified checkpoint"; rs_cause := None |}
  | Fail e => {| rs_Verified := false; rs_Height := ck_Height (qc_Checkpoint qc); rs_Digest := DigestHex (snd head);
                 rs_Signers := len (qc_Signers qc); rs_Message := str "backup does not match the certified checkpoint: ";
                 rs_cause := Some e |}
  | Panic => {| rs_Verified := false; rs_Height := 0; rs_Digest := []; rs_Signers := 0; rs_Message := []; rs_cause := None |} (* MatchesHead does not panic *)
  end.

(** The trust material: the CA key, the certificate and the bundle. *)
Definition trust (opts : Options) : result (bytes * QuorumCertificate * gmap bytes NodeCert) :=
  ca ← errorf "verify: CA public key" (ParseCAPublicKey (op_CACert opts));
  qc ← errorf "verify: quorum certificate" (DecodeQuorum (op_QuorumCert opts));
  bundle ← decode_bundle (op_NodeCerts opts) ∅;
  Ret (ca, qc, bundle).

Definition VerifyBackup (now : Z) (opts : Options) (fresh : result KeyValueStorageCtx) (opened : result (Source * Z)) (ns : list Z) :
    result Result * list Z :=
  match trust opts with
  | Fail e => (Fail e, [0])
  | Panic => (Panic, [0])
  | Ret (ca, qc, bundle) =>
      let threshold := if op_Threshold opts =? 0 then len (qc_Signers qc) else op_Threshold opts in
      match VerifyQuorum ca (Some qc) bundle threshold now with
      | Panic => (Panic, [0])
      | Fail e => (Ret {| rs_Verified := false; rs_Height := 0; rs_Digest := []; rs_Signers := 0;
                          rs_Message := str "quorum certificate invalid: "; rs_cause := Some e |}, [0])
      | Ret _ =>
          match loadBackupHead now (op_Password opts) fresh opened ns with
          | (Fail e, pcts) => (Fail e, 0 :: 5 :: (load_progress <$> pcts))
          | (Panic, pcts) => (Panic, 0 :: 5 :: (load_progress <$> pcts))
          | (Ret head, pcts) =>
              let res := head_result qc head in
              (Ret res, 0 :: 5 :: (load_progress <$> pcts) ++ 95 :: (if rs_Verified res then [100] else []))
          end
      end
  end.

End Verify.

(** ** Jobs *)

Inductive JobState : Type := JobRunning | JobDone | JobFailed.

#[global] Instance JobState_eq_dec : EqDecision JobState.
Proof. solve_decision. Defined.

Record Job : Type := {
  jb_ID : bytes;
  jb_State : JobState;
  jb_Progress : Z;
  jb_Result : option Result;
  jb_Error : option error;
  jb_StartedAt : Z;
  jb_EndedAt : option Z
}.

Abbreviation JobManager := (gmap bytes Job).

Definition NewJobManager : JobManager := ∅.

(** [newJobID]: hex of twelve random bytes. *)
Definition newJobID (random : bytes) : bytes := DigestHex random.

(** The three critical sections of [StartVerifyBackup]. *)
Definition new_job (id : bytes) (now : Z) : Job := {|
  jb_ID := id; jb_State := JobRunning; jb_Progress := 0; jb_Result := None; jb_Error := None; jb_StartedAt := now; jb_EndedAt := None |}.

Definition start_job (m : JobManager) (id : bytes) (now : Z) : JobManager := <[id := new_job id now]> m.

Definition set_progress (pct : Z) (j : Job) : Job := {|
  jb_ID := jb_ID j; jb_State := jb_State j; jb_Progress := pct; jb_Result := jb_Result j; jb_Error := jb_Error j;
  jb_StartedAt := jb_StartedAt j; jb_EndedAt := jb_EndedAt j |}.

Definition report_job (m : JobManager) (id : bytes) (pct : Z) : JobManager := alter (set_progress pct) id m.

Definition end_job (now : Z) (r : Result + error) (j : Job) : Job :=
  match r with
  | inr e => {| jb_ID := jb_ID j; jb_State := JobFailed; jb_Progress := jb_Progress j; jb_Result := jb_Result j; jb_Error := Some e;
                jb_StartedAt := jb_StartedAt j; jb_EndedAt := Some now |}
  | inl res => {| jb_ID := jb_ID j; jb_State := JobDone; jb_Progress := 100; jb_Result := Some res; jb_Error := jb_Error j;
                  jb_StartedAt := jb_StartedAt j; jb_EndedAt := Some now |}
  end.

(** [j := m.jobs[job.ID]] is nil, and the goroutine panics, if the job is gone. *)
Definition finish_job (m : JobManager) (id : bytes) (now : Z) (r : Result + error) : option JobManager :=
  match m !! id with Some j => Some (<[id := end_job now r j]> m) | None => None end.

Definition Get_job (m : JobManager) (id : bytes) : option Job := m !! id.

Definition List_jobs (m : JobManager) : list Job := snd <$> map_to_list m.

(** A running verification: the percentages it will still report, and how it ends. *)
Record goroutine : Type := { go_id : bytes; go_reports : list Z; go_outcome : result Result }.

(** The process: the manager and its goroutines, or gone, by a panic in one of them. *)
Inductive process : Type := Up (m : JobManager) (gs : list goroutine) | Down.

(** The steps the jobs take, in any interleaving, when [may trace out] is what a verification may
    report and how it may end. Job ids are random and taken to be new. *)
Inductive job_step (may : list Z -> result Result -> Prop) : process -> process -> Prop :=
| step_start m gs id now trace out :
    m !! id = None -> may trace out ->
    job_step may (Up m gs) (Up (start_job m id now) ({| go_id := id; go_reports := trace; go_outcome := out |} :: gs))
| step_report m gs1 gs2 id pct rest out :
    job_step may (Up m (gs1 ++ {| go_id := id; go_reports := pct :: rest; go_outcome := out |} :: gs2))
             (Up (report_job m id pct) (gs1 ++ {| go_id := id; go_reports := rest; go_outcome := out |} :: gs2))
| step_done m m' gs1 gs2 id now res :
    finish_job m id now (inl res) = Some m' ->
    job_step may (Up m (gs1 ++ {| go_id := id; go_reports := []; go_outcome := Ret res |} :: gs2)) (Up m' (gs1 ++ gs2))
| step_failed m m' gs1 gs2 id now e :
    finish_job m id now (inr e) = Some m' ->
    job_step may (Up m (gs1 ++ {| go_id := id; go_reports := []; go_outcome := Fail e |} :: gs2)) (Up m' (gs1 ++ gs2))
| step_panic m gs1 gs2 id :
    job_step may (Up m (gs1 ++ {| go_id := id; go_reports := []; go_outcome := Panic |} :: gs2)) Down
| step_nil m gs1 gs2 id out :
    m !! id = None -> job_step may (Up m (gs1 ++ {| go_id := id; go_reports := []; go_outcome := out |} :: gs2)) Down.

Inductive job_steps (may : list Z -> result Result -> Prop) (p : process) : process -> Prop :=
| steps_refl : job_steps may p p
| steps_step p1 p2 : job_steps may p p1 -> job_step may p1 p2 -> job_steps may p p2.
