(* ===== verification/VerifyProps.v ===== *)
(** * Properties of backup verification and its jobs

    A verified backup has a quorum behind its head; the backup of an attested state verifies;
    reported progress grows within 0 and 100; jobs end once and stay as they ended; and a dump can
    take the process down. *)

From S2P Require Import Prelude Sha256 Pb Keys Engine Storage StorageSpec StorageReads StorageProps Value Command Ledger Fsm FsmProps Password Backup BackupProps Quorum QuorumProps Setup SetupProps Verify.

(** ** Progress *)

Lemma quot_bounds a t : 0 < t -> 0 <= a <= t -> t * 100 < 2 ^ 63 -> int64 (a * 100) = a * 100 /\ 0 <= Z.quot (a * 100) t <= 100.
Proof.
  intros Ht Ha Hw. split; [apply int64_small; unfold is_int64; lia|]. rewrite Z.quot_div_nonneg by lia. split; [apply Z.div_pos; lia|].
  apply Z.div_le_upper_bound; nia.
Qed.

Lemma load_progress_eq p : 0 <= p <= 100 -> load_progress p = 5 + p * 90 / 100.
Proof.
  intros Hp. unfold load_progress. rewrite (int64_small (p * 90)) by (unfold is_int64; lia). rewrite Z.quot_div_nonneg by lia.
  apply int64_small. unfold is_int64. Z.to_euclidean_division_equations. lia.
Qed.

Lemma load_progress_bounds p : 0 <= p <= 100 -> 5 <= load_progress p <= 95.
Proof. intros Hp. rewrite load_progress_eq by done. Z.to_euclidean_division_equations. lia. Qed.

Lemma load_progress_mono p q : 0 <= p <= q -> q <= 100 -> load_progress p <= load_progress q.
Proof. intros Hp Hq. rewrite !load_progress_eq by lia. Z.to_euclidean_division_equations. lia. Qed.

Definition sum_reads (ns : list Z) : Z := foldr Z.add 0 ns.

Lemma sum_reads_nonneg ns : Forall (fun n => 0 <= n) ns -> 0 <= sum_reads ns.
Proof. induction 1 as [|n ns Hn _ IH]; [done|]. change (sum_reads (n :: ns)) with (n + sum_reads ns). lia. Qed.

(** The percentages of reads that stay within the announced size grow from the last one reported
    and do not pass 100. *)
Lemma count_reads_grow c ns :
  0 < cr_total c -> cr_total c * 100 < 2 ^ 63 -> 0 <= cr_read c -> Forall (fun n => 0 <= n) ns ->
  cr_read c + sum_reads ns <= cr_total c -> cr_last c = Z.quot (cr_read c * 100) (cr_total c) ->
  StronglySorted Z.le (cr_last c :: count_reads c ns) /\ Forall (fun p => 0 <= p <= 100) (cr_last c :: count_reads c ns).
Proof.
  intros Ht Hw Hr Hns Hs Hl. revert c Ht Hw Hr Hs Hl. induction Hns as [|n ns Hn Hns IH]; intros c Ht Hw Hr Hs Hl; cbn [count_reads sum_reads foldr] in *.
  { destruct (quot_bounds (cr_read c) (cr_total c)); [lia..|]. split; repeat constructor; lia. }
  fold (sum_reads ns) in Hs. pose proof (sum_reads_nonneg ns Hns) as Hp.
  destruct (quot_bounds (cr_read c) (cr_total c)) as [_ Hb]; [lia..|].
  destruct (quot_bounds (cr_read c + n) (cr_total c)) as [Hi Hb']; [lia..|].
  assert (cr_last c <= Z.quot ((cr_read c + n) * 100) (cr_total c)) as Hle by (rewrite Hl; apply Z.quot_le_mono; lia).
  unfold countingReader_Read. rewrite (int64_small (cr_read c + n)) by (unfold is_int64; lia). cbn [cr_total cr_last cr_read].
  rewrite (proj2 (Z.ltb_lt 0 (cr_total c)) Ht), Hi.
  set (pct := Z.quot ((cr_read c + n) * 100) (cr_total c)) in *.
  destruct (Z.eqb_spec pct (cr_last c)) as [E|E]; cbn [negb option_list app].
  - apply (IH {| cr_total := cr_total c; cr_read := cr_read c + n; cr_last := cr_last c |}); cbn; lia.
  - destruct (IH {| cr_total := cr_total c; cr_read := cr_read c + n; cr_last := pct |}) as [Hss Hfa]; cbn; [lia..|]. cbn in Hss, Hfa.
    split; constructor; try done; [|lia]. constructor; [done|]. apply StronglySorted_inv in Hss as [_ Hge].
    eapply Forall_impl; [exact Hge|]. cbn. lia.
Qed.

Lemma StronglySorted_snoc (l : list Z) x : StronglySorted Z.le l -> Forall (fun y => y <= x) l -> StronglySorted Z.le (l ++ [x]).
Proof.
  induction 1 as [|y l Hs IH Hy]; intros Hx; cbn; [repeat constructor|]. inversion_clear Hx as [|? ? Hyx Hl].
  constructor; [by apply IH|]. apply Forall_app. split; [done|]. by repeat constructor.
Qed.

(** The progress of loading, on the scale of the whole verification. *)
Lemma load_reports size ns :
  size * 100 < 2 ^ 63 -> Forall (fun n => 0 <= n) ns -> (0 < size -> sum_reads ns <= size) ->
  let l := load_progress <$> count_reads {| cr_total := size; cr_read := 0; cr_last := 0 |} ns in
  StronglySorted Z.le l /\ Forall (fun p => 5 <= p <= 95) l.
Proof.
  intros Hw Hns Hs l. destruct (Z_lt_le_dec 0 size) as [Hpos|Hneg].
  - destruct (count_reads_grow {| cr_total := size; cr_read := 0; cr_last := 0 |} ns) as [Hss Hfa]; cbn; try done; [specialize (Hs Hpos); lia|].
    cbn in Hss, Hfa. apply StronglySorted_inv in Hss as [Hss _]. inversion_clear Hfa as [|? ? _ Hfa']. subst l. split.
    + clear Hns Hs. induction Hss as [|p l Hss IH Hp]; cbn; constructor; inversion_clear Hfa' as [|? ? Hp' Hl]; [by apply IH|].
      rewrite Forall_fmap. rewrite Forall_forall in Hp, Hl |- *. intros q Hq. apply load_progress_mono; [|apply Hl, Hq].
      pose proof (Hp q Hq). lia.
    + rewrite Forall_fmap. eapply Forall_impl; [exact Hfa'|]. apply load_progress_bounds.
  - assert (count_reads {| cr_total := size; cr_read := 0; cr_last := 0 |} ns = []) as Hnil.
    { clear Hs. generalize 0 at 1 as r. induction Hns as [|n ns Hn Hns IH]; intros r; [done|]. cbn [count_reads countingReader_Read].
      unfold countingReader_Read. cbn [cr_total]. rewrite (proj2 (Z.ltb_ge 0 size) Hneg). cbn. apply IH. }
    subst l. rewrite Hnil. split; constructor.
Qed.

(** Growing percentages, 100 among them exactly if [b]. *)
Definition trace_ok (b : bool) (trace : list Z) : Prop :=
  StronglySorted Z.le trace /\ Forall (fun p => 0 <= p <= 100) trace /\ (100 ∈ trace <-> b = true).

Lemma trace_ok_zero : trace_ok false [0].
Proof. split; [repeat constructor|]. split; [repeat constructor; lia|]. by rewrite list_elem_of_singleton. Qed.

Lemma trace_ok_load (b : bool) (l tl : list Z) :
  StronglySorted Z.le l -> Forall (fun p => 5 <= p <= 95) l -> StronglySorted Z.le tl -> Forall (fun p => 95 <= p <= 100) tl ->
  (100 ∈ tl <-> b = true) -> trace_ok b (0 :: 5 :: l ++ tl).
Proof.
  intros Hss Hfa Htl Hft Hb. assert (Forall (fun p => 5 <= p <= 100) (l ++ tl)) as Hall.
  { apply Forall_app. split; (eapply Forall_impl; [eassumption|]); cbn; lia. }
  split; [|split].
  - constructor; [constructor|].
    + clear Hall. induction Hss as [|x k Hk IH Hx]; [done|]. inversion_clear Hfa as [|? ? Hxb Hkb]. cbn. constructor; [by apply IH|].
      apply Forall_app. split; [done|]. eapply Forall_impl; [exact Hft|]. cbn. lia.
    + eapply Forall_impl; [exact Hall|]. cbn. lia.
    + constructor; [lia|]. eapply Forall_impl; [exact Hall|]. cbn. lia.
  - repeat (constructor; [lia|]). eapply Forall_impl; [exact Hall|]. cbn. lia.
  - rewrite <- Hb, !elem_of_cons, elem_of_app. split; [|auto]. intros [?|[?|[Hin|?]]]; [done|done| |done].
    rewrite Forall_forall in Hfa. apply Hfa in Hin. lia.
Qed.

Section Props.
Context `{UuidPkg} `{!UuidLaws} `{Badger} `{!BadgerSpec} `{StorePkg} `{!StoreLaws}.
Context `{Payloads} `{!PayloadLaws} `{!Struct headRecord} `{!StructLaws headRecord} `{!Struct NodeCert} `{!Struct QuorumCertificate}.
Context `{BlsPkg} `{Ed25519Pkg} `{Argon2Pkg} `{AeadPkg}.

Definition verified (r : result Result) : bool := match r with Ret res => rs_Verified res | _ => false end.

Lemma loadBackupHead_reports now pw fresh source size ns :
  size * 100 < 2 ^ 63 -> Forall (fun n => 0 <= n) ns -> (0 < size -> sum_reads ns <= size) ->
  let l := load_progress <$> snd (loadBackupHead now pw fresh (Ret (source, size)) ns) in
  StronglySorted Z.le l /\ Forall (fun p => 5 <= p <= 95) l.
Proof.
  intros Hw Hns Hs. unfold loadBackupHead. destruct fresh; [|split; constructor..]. by apply load_reports.
Qed.

(** Progress is a percentage that grows. Whatever the dump, as long as no more bytes are read
    than the source announced, the percentages reported to the callback never decrease, stay
    between 0 and 100, and reach 100 exactly when the backup was verified. *)
Theorem VerifyBackup_progress (now : Z) (opts : Options) (fresh : result KeyValueStorageCtx) (source : Source) (size : Z) (ns : list Z) :
  size * 100 < 2 ^ 63 -> Forall (fun n => 0 <= n) ns -> (0 < size -> sum_reads ns <= size) ->
  let '(r, trace) := VerifyBackup now opts fresh (Ret (source, size)) ns in trace_ok (verified r) trace.
Proof.
  intros Hw Hns Hs. unfold VerifyBackup. destruct (trust opts) as [[[ca qc] bundle]|?|]; [|apply trace_ok_zero..].
  destruct (VerifyQuorum _ _ _ _ _); [|apply trace_ok_zero..].
  pose proof (loadBackupHead_reports now (op_Password opts) fresh source size ns Hw Hns Hs) as HL.
  destruct (loadBackupHead _ _ _ _ _) as [r pcts]. cbn [snd] in HL. destruct HL as [Hss Hfa].
  assert (trace_ok false (0 :: 5 :: (load_progress <$> pcts))) as Hfail.
  { rewrite <- (app_nil_r (load_progress <$> pcts)). apply trace_ok_load; try done; [constructor..|]. by split; [intros ?%not_elem_of_nil|]. }
  destruct r as [head|?|]; [|done|done]. cbn [verified]. destruct (rs_Verified _); apply trace_ok_load; try done.
  - apply (StronglySorted_snoc [95] 100); repeat constructor; lia.
  - repeat constructor; lia.
  - split; [done|]. intros _. right. left.
  - repeat constructor.
  - repeat constructor; lia.
  - by rewrite list_elem_of_singleton.
Qed.

Lemma decode_bundle_fold raws b b' :
  decode_bundle raws b = Ret b' -> exists cs, Forall2 (fun raw c => DecodeCert raw = Ret c) raws cs /\ b' = fold_left AddCert cs b.
Proof.
  revert b. induction raws as [|raw raws IH]; intros b; cbn [decode_bundle].
  - intros [= <-]. by exists [].
  - unfold errorf. destruct (DecodeCert raw) as [c|?|] eqn:E; cbn [mbind outcome_bind]; [|done|done]. intros HD.
    destruct (IH _ HD) as (cs & Hcs & ->). exists (c :: cs). split; [by constructor|done].
Qed.

Lemma decode_bundle_ok raws cs b : Forall2 (fun raw c => DecodeCert raw = Ret c) raws cs -> decode_bundle raws b = Ret (fold_left AddCert cs b).
Proof. intros HF. revert b. induction HF as [|raw c raws cs E _ IH]; intros b; cbn [decode_bundle]; [done|]. unfold errorf. rewrite E. apply IH. Qed.

Lemma trust_ok opts qc cs :
  len (op_CACert opts) = PublicKeySize -> DecodeQuorum (op_QuorumCert opts) = Ret qc ->
  Forall2 (fun raw c => DecodeCert raw = Ret c) (op_NodeCerts opts) cs -> trust opts = Ret (op_CACert opts, qc, fold_left AddCert cs ∅).
Proof.
  intros Hl HQ HC. unfold trust, errorf, ParseCAPublicKey. rewrite Hl. change (negb (PublicKeySize =? PublicKeySize)) with false.
  cbn [mbind outcome_bind]. rewrite HQ. cbn [mbind outcome_bind]. by rewrite (decode_bundle_ok _ cs ∅ HC).
Qed.

(** C15: A verified backup is what a quorum certified. If a verification answers yes, the dump
    decrypted and loaded completely, the chain head it carries is the head of the certificate's
    checkpoint, and the certificate has at least the threshold of distinct signers, each holding an
    unexpired certificate of the given CA, over whose keys and attestations of this checkpoint the
    aggregate signature verifies. *)
Theorem VerifyBackup_sound (now : Z) (opts : Options) (st0 : KeyValueStorageCtx) (source : Source) (size : Z) (ns : list Z)
    (res : Result) (trace : list Z) :
  VerifyBackup now opts (Ret st0) (Ret (source, size)) ns = (Ret res, trace) -> rs_Verified res = true ->
  exists qc cs reader dump st pubs,
    DecodeQuorum (op_QuorumCert opts) = Ret qc /\ Forall2 (fun raw c => DecodeCert raw = Ret c) (op_NodeCerts opts) cs /\
    NewReader source (op_Password opts) = Ret reader /\ ReadAll (S (length (src_data source))) 512 reader = Some (Ret dump) /\
    Storage.Load st0 dump = (Ret tt, st) /\ LoadHead now st = (ck_Height (qc_Checkpoint qc), ck_Digest (qc_Checkpoint qc)) /\
    rs_Height res = ck_Height (qc_Checkpoint qc) /\ NoDup (qc_Signers qc) /\ rs_Signers res = len (qc_Signers qc) /\
    0 < len (qc_Signers qc) /\ op_Threshold opts <= len (qc_Signers qc) /\
    Forall2 (certified (op_CACert opts) (fold_left AddCert cs ∅) now) (qc_Signers qc) pubs /\
    bls_VerifyAggregate pubs (signMessage (qc_Checkpoint qc) <$> qc_Signers qc) (qc_AggSig qc) = true.
Proof.
  unfold VerifyBackup, trust, errorf, ParseCAPublicKey. destruct (negb _); cbn [mbind outcome_bind]; [done|].
  destruct (DecodeQuorum (op_QuorumCert opts)) as [qc|?|]; cbn [mbind outcome_bind]; [|done|done].
  destruct (decode_bundle (op_NodeCerts opts) ∅) as [bundle|?|] eqn:EB; cbn [mbind outcome_bind]; [|done|done].
  apply decode_bundle_fold in EB as (cs & Hcs & ->).
  destruct (VerifyQuorum _ _ _ _ _) as [[]|e|] eqn:EV; [|intros [= <- <-]; done|done].
  apply VerifyQuorum_accepts in EV as (Hth & Hpos & Hnd & pubs & Hpubs & Hagg).
  unfold loadBackupHead. destruct (NewReader source (op_Password opts)) as [reader|?|] eqn:EN; cbn [mbind outcome_bind]; [|done|done].
  destruct (ReadAll _ 512 reader) as [[dump|?|]|] eqn:ER; [|done..].
  destruct (Storage.Load st0 dump) as [[[]|?|] st] eqn:EL; [|done..].
  unfold head_result. destruct (LoadHead now st) as [index digest] eqn:EH. cbn [fst snd].
  unfold MatchesHead. destruct (Z.eqb_spec (ck_Height (qc_Checkpoint qc)) index) as [Eh|Eh]; cbn [negb]; [|intros [= <- <-]; done].
  case_bool_decide as Ed; cbn [negb]; [|intros [= <- <-]; done]. intros [= <- <-] _.
  exists qc, cs, reader, dump, st, pubs. cbn [rs_Height rs_Signers]. repeat (split; [done || congruence|]).
  split; [|done]. destruct (op_Threshold opts =? 0) eqn:E0; lia.
Qed.

Lemma VerifyQuorum_threshold ca qc certs t t' now :
  VerifyQuorum ca (Some qc) certs t now = Ret tt -> t' <= len (qc_Signers qc) -> VerifyQuorum ca (Some qc) certs t' now = Ret tt.
Proof.
  unfold VerifyQuorum. destruct (len (qc_Signers qc) =? 0); [done|]. destruct (len (qc_Signers qc) <? t); [done|].
  intros HV Ht. by rewrite (proj2 (Z.ltb_ge (len (qc_Signers qc)) t')) by lia.
Qed.

Section Attested.
Context `{!BlsLaws} `{!Ed25519Laws} `{!Argon2Laws} `{!AeadLaws} `{!StructLaws QuorumCertificate}.

(** The backup of an attested state verifies. Take a replica right after it applied an entry,
    a checkpoint of its chain head signed by certified nodes, and the console's export of its
    storage. The quorum certificate built from the signatures encodes, and verifying the exported
    file against it, with the CA key and the nodes' certificates, at any threshold up to the number
    of signers, answers that the backup is verified at the replica's height. *)
Theorem attested_backup_verifies (now now' : Z) (t : FSM) (e : RaftLog) (c : HashChain) (term unix : Z)
    (ca : EdPriv) (keys : bytes -> PrivKey) (notAfter threshold : Z) (nodes : gset bytes) (cs : list NodeCert) (raws : list bytes)
    (password salt noncePfx data : bytes) (ts size : Z) (ns : list Z) (empty : KeyValueStorageCtx) db' :
  BadgerReliable -> StructReliable headRecord -> StructReliable QuorumCertificate ->
  (forall (m : headRecord) v raw, Marshal m = Ret v -> Pack v = Ret raw -> 0 < len raw) ->
  entry_ok e -> entry_holds (avoids (enc_key headKey)) e -> fsm_chain t = Some c -> length (hc_digest c) = 32%nat ->
  len (ed_Public ca) = PublicKeySize -> nodes <> ∅ -> threshold <= Z.of_nat (base.size nodes) ->
  (notAfter = 0 \/ now' = 0 \/ now' <= notAfter) -> Forall2 (fun raw c => DecodeCert raw = Ret c) raws cs ->
  (forall id, id ∈ nodes -> exists pop cert, ProofOfPossession (keys id) id = Ret pop /\
     Issue ca id (bls_PublicKey (keys id)) pop notAfter = Ret cert /\ fold_left AddCert cs ∅ !! id = Some cert) ->
  len salt = saltLen -> len noncePfx = noncePfxLen -> db_view (db empty) = ∅ ->
  let t' := snd (Apply now t e) in
  Storage.Backup (fsm_Storage t') 0 = Ret (data, ts) -> db_Load (db empty) data = (Ret tt, db') ->
  let head := Advance c (lg_Index e) (lg_Term e) (lg_Data e) in
  let ck := {| ck_Height := hc_index head; ck_Term := term; ck_Digest := hc_digest head; ck_Unix := unix |} in
  exists qc raw, BuildQuorumCertificate ck (set_to_map (fun id => (id, SignCheckpoint (keys id) id ck)) nodes) = Ret qc /\
    EncodeQuorum qc = Ret raw /\
    exists res trace, VerifyBackup now' {| op_Password := password; op_CACert := ed_Public ca; op_QuorumCert := raw; op_NodeCerts := raws;
          op_Threshold := threshold |} (Ret empty)
        (Ret ({| src_data := exportDatabase password (Ret salt) (Ret noncePfx) (fsm_Storage t'); src_err := EOF |}, size)) ns = (Ret res, trace) /\
      rs_Verified res = true /\ rs_Height res = hc_index head.
Proof.
  intros HR Henc Hencq Hpos Hok Hav Hc Hd Hca Hne Hth Ht Hraws Hcerts Hs Hp He t' HB HL head ck.
  destruct (honest_quorum ca keys notAfter now' (Z.of_nat (base.size nodes)) ck nodes (fold_left AddCert cs ∅) Hne ltac:(done) Ht Hcerts)
    as (qc & HQ & Hck & HV).
  destruct (encodes qc) as (v & raw & Hm & Hpk). exists qc, raw. split; [done|].
  assert (EncodeQuorum qc = Ret raw) as HE by (unfold EncodeQuorum; by rewrite Hm). split; [done|].
  assert (DecodeQuorum raw = Ret qc) as HD by (unfold DecodeQuorum; rewrite (unpack_pack _ _ Hpk); by apply unmarshal_marshal).
  pose proof (VerifyQuorum_accepts _ _ _ _ _ HV) as (Hn & _).
  unfold VerifyBackup. rewrite (trust_ok _ qc cs) by done. cbn [op_CACert op_Threshold op_Password].
  rewrite (VerifyQuorum_threshold _ _ _ _ (if threshold =? 0 then _ else _) _ HV) by (destruct (threshold =? 0); lia).
  destruct (dump_reads_back password salt noncePfx [data] Hs Hp) as (d & r & HDu & Hlen & HN & HA).
  rewrite (exportDatabase_dump _ _ _ _ _ _ _ HB HDu). unfold loadBackupHead. rewrite HN. cbn [mbind outcome_bind src_data].
  rewrite HA by lia. cbn [concat]. rewrite app_nil_r. unfold Storage.Load. rewrite HL.
  rewrite (applied_head_loads now now' t e c (with_db empty db') HR Henc Hpos Hok Hav Hc Hd).
  - fold head. unfold head_result, HashChain_Head, MatchesHead. rewrite Hck. cbn [fst snd ck ck_Height ck_Digest].
    rewrite Z.eqb_refl, bool_decide_eq_true_2 by done. cbn [negb]. eexists _, _. split; [done|]. done.
  - unfold contents. cbn [db with_db]. by rewrite (backup_load_spec _ _ _ _ _ He HB HL).
Qed.

End Attested.
End Props.

(** ** Jobs *)

(** A goroutine's job is running, and what it will still report are percentages past the job's. *)
Definition runs (m : JobManager) (g : goroutine) : Prop :=
  exists j, m !! go_id g = Some j /\ jb_State j = JobRunning /\ jb_Result j = None /\ jb_Error j = None /\ jb_EndedAt j = None /\
    StronglySorted Z.le (jb_Progress j :: go_reports g) /\ Forall (fun p => 0 <= p <= 100) (jb_Progress j :: go_reports g).

(** A job is as it was made, or ended one way. *)
Definition job_ok (j : Job) : Prop :=
  0 <= jb_Progress j <= 100 /\
  match jb_State j with
  | JobRunning => jb_Result j = None /\ jb_Error j = None /\ jb_EndedAt j = None
  | JobDone => jb_Progress j = 100 /\ is_Some (jb_Result j) /\ jb_Error j = None /\ is_Some (jb_EndedAt j)
  | JobFailed => jb_Result j = None /\ is_Some (jb_Error j) /\ is_Some (jb_EndedAt j)
  end.

(** Every job has the id it is stored under and is in order, every running job has its one
    goroutine and every goroutine its running job. *)
Definition jobs_inv (p : process) : Prop :=
  match p with
  | Down => True
  | Up m gs =>
      map_Forall (fun id j => jb_ID j = id /\ job_ok j /\ (jb_State j = JobRunning -> id ∈ (go_id <$> gs))) m /\
      NoDup (go_id <$> gs) /\ Forall (runs m) gs
  end.

Lemma runs_insert_ne m g id j : go_id g <> id -> runs m g -> runs (<[id := j]> m) g.
Proof. intros Hne (j' & Hj & Hrest). exists j'. by rewrite lookup_insert_ne. Qed.

(** Replacing the entry of one goroutine leaves the others running. *)
Lemma runs_others m gs id j : id ∉ go_id <$> gs -> Forall (runs m) gs -> Forall (runs (<[id := j]> m)) gs.
Proof.
  intros Hid. rewrite !Forall_forall. intros HF g Hg. apply runs_insert_ne; [|by apply HF].
  intros <-. apply Hid, list_elem_of_fmap_2, Hg.
Qed.

Lemma ids_middle (gs1 gs2 : list goroutine) g :
  NoDup (go_id <$> (gs1 ++ g :: gs2)) -> NoDup (go_id <$> (gs1 ++ gs2)) /\ go_id g ∉ go_id <$> (gs1 ++ gs2).
Proof.
  rewrite !fmap_app, fmap_cons. rewrite !NoDup_app, NoDup_cons. intros (Hn1 & Hd & Hn & Hn2). split.
  - split; [done|]. split; [|done]. intros x Hx Hx2. apply (Hd x Hx). by right.
  - rewrite elem_of_app. intros [Hx|Hx]; [|done]. apply (Hd _ Hx). left.
Qed.

(** The invariant, with one goroutine singled out and its job replaced. *)
Lemma jobs_inv_replace m gs1 gs2 g j' :
  jobs_inv (Up m (gs1 ++ g :: gs2)) -> jb_ID j' = go_id g -> job_ok j' ->
  (jb_State j' <> JobRunning -> jobs_inv (Up (<[go_id g := j']> m) (gs1 ++ gs2))) /\
  (forall g', go_id g' = go_id g -> runs (<[go_id g := j']> m) g' -> jobs_inv (Up (<[go_id g := j']> m) (gs1 ++ g' :: gs2))).
Proof.
  intros (HM & HN & HG) Hid Hok. destruct (ids_middle _ _ _ HN) as [HN' Hni].
  assert (Forall (runs (<[go_id g := j']> m)) (gs1 ++ gs2)) as HG'.
  { apply runs_others; [done|]. apply Forall_app in HG as [HG1 HG2]. inversion HG2. by apply Forall_app. }
  assert (forall id j (l : list goroutine), go_id g ∈ go_id <$> l \/ jb_State j' <> JobRunning -> (forall x, x ∈ go_id <$> (gs1 ++ gs2) -> x ∈ go_id <$> l) ->
    <[go_id g := j']> m !! id = Some j -> jb_ID j = id /\ job_ok j /\ (jb_State j = JobRunning -> id ∈ go_id <$> l)) as HM'.
  { intros id j l Hl Hsub [[<- <-]|[Hne Hj]]%lookup_insert_Some; [split; [done|]; split; [done|]; by destruct Hl|].
    destruct (HM id j Hj) as (Hi & Hj' & Hr). split; [done|]. split; [done|]. intros Hrun. apply Hsub. specialize (Hr Hrun).
    rewrite fmap_app, fmap_cons, elem_of_app, elem_of_cons in Hr. rewrite fmap_app, elem_of_app. naive_solver. }
  split.
  - intros Hst. split; [|done]. intros id j. apply HM'; auto.
  - intros g' Eg Hr. assert (go_id <$> (gs1 ++ g' :: gs2) = go_id <$> (gs1 ++ g :: gs2)) as El by (by rewrite !fmap_app, !fmap_cons, Eg).
    split; [|split].
    + intros id j. rewrite El. apply HM'.
      * left. rewrite fmap_app, fmap_cons. apply elem_of_app. right. left.
      * intros x. rewrite !fmap_app, fmap_cons, !elem_of_app, elem_of_cons. naive_solver.
    + by rewrite El.
    + apply Forall_app in HG' as [HG1 HG2]. apply Forall_app. split; [done|]. by constructor.
Qed.

(** What one step does to a job: it stays, reports progress, or ends. *)
Definition job_moves (j j' : Job) : Prop :=
  jb_Progress j <= jb_Progress j' /\ (jb_State j <> JobRunning -> j' = j).

#[export] Instance job_moves_refl : Reflexive job_moves.
Proof. by intros j. Qed.

#[export] Instance job_moves_trans : Transitive job_moves.
Proof.
  intros j1 j2 j3 [Hp1 Hs1] [Hp2 Hs2]. split; [lia|]. intros Hst. rewrite (Hs1 Hst) in Hs2. by apply Hs2.
Qed.

Definition keeps (m m' : JobManager) : Prop := forall id j, m !! id = Some j -> exists j', m' !! id = Some j' /\ job_moves j j'.

Lemma keeps_insert m id j j' : m !! id = Some j -> job_moves j j' -> keeps m (<[id := j']> m).
Proof.
  intros Hj Hm x k Hk. destruct (decide (id = x)) as [->|Hne].
  - rewrite lookup_insert_eq. exists j'. split; [done|]. congruence.
  - rewrite lookup_insert_ne by done. by exists k.
Qed.

Definition may_verify (trace : list Z) (out : result Result) : Prop := trace_ok (verified out) trace.

Lemma goroutine_job m gs1 gs2 g :
  jobs_inv (Up m (gs1 ++ g :: gs2)) -> exists j, m !! go_id g = Some j /\ jb_ID j = go_id g /\ job_ok j /\ jb_State j = JobRunning /\
    StronglySorted Z.le (jb_Progress j :: go_reports g) /\ Forall (fun p => 0 <= p <= 100) (jb_Progress j :: go_reports g).
Proof.
  intros (HM & _ & HG). apply Forall_app in HG as [_ HG]. apply Forall_cons in HG as [(j & Hj & Hst & Hr & He & Hn & Hs & Hb) _].
  destruct (HM _ j Hj) as (Hid & Hok & _). by exists j.
Qed.

Lemma start_inv m gs id now trace out :
  m !! id = None -> may_verify trace out -> jobs_inv (Up m gs) ->
  jobs_inv (Up (start_job m id now) ({| go_id := id; go_reports := trace; go_outcome := out |} :: gs)) /\ keeps m (start_job m id now).
Proof.
  intros Hn (Hs & Hb & _) (HM & HN & HG). assert (id ∉ go_id <$> gs) as Hid.
  { intros (g & -> & Hg)%list_elem_of_fmap_1. rewrite Forall_forall in HG. destruct (HG g Hg) as (j & Hj & _). congruence. }
  split; [split; [|split]|].
  - intros x j. unfold start_job. rewrite lookup_insert_Some. intros [[<- <-]|[Hne Hj]].
    + split; [done|]. split; [split; [cbn; lia|done]|]. intros _. left.
    + destruct (HM x j Hj) as (? & ? & Hr). split; [done|]. split; [done|]. intros Hrun. right. by apply Hr.
  - cbn [fmap list_fmap go_id]. by constructor.
  - constructor; [|by apply runs_others]. exists (new_job id now). unfold start_job. cbn [go_id]. rewrite lookup_insert_eq.
    repeat (split; [done|]). cbn [jb_Progress new_job go_reports].
    split; [constructor; [done|]; (eapply Forall_impl; [exact Hb|]); cbn; lia|constructor; [lia|done]].
  - intros x j Hj. exists j. split; [|done]. unfold start_job. rewrite lookup_insert_ne; [done|]. congruence.
Qed.

Lemma report_inv m gs1 gs2 id pct rest out :
  jobs_inv (Up m (gs1 ++ {| go_id := id; go_reports := pct :: rest; go_outcome := out |} :: gs2)) ->
  jobs_inv (Up (report_job m id pct) (gs1 ++ {| go_id := id; go_reports := rest; go_outcome := out |} :: gs2)) /\ keeps m (report_job m id pct).
Proof.
  intros Hinv. destruct (goroutine_job _ _ _ _ Hinv) as (j & Hj & Hid & Hok & Hst & Hs & Hb). cbn [go_id go_reports] in *.
  apply StronglySorted_inv in Hs as [Hs Hle]. apply Forall_cons in Hb as [Hb0 Hb'], Hle as [Hpg _].
  pose proof (proj1 (Forall_cons _ _ _) Hb') as [Hpct _].
  assert (report_job m id pct = <[id := set_progress pct j]> m) as ->.
  { unfold report_job. apply map_eq. intros x. destruct (decide (id = x)) as [<-|Hne]; [by rewrite lookup_alter_eq, Hj, lookup_insert_eq|].
    by rewrite lookup_alter_ne, lookup_insert_ne. }
  destruct Hok as [_ Hok]. rewrite Hst in Hok. split.
  - destruct (jobs_inv_replace m gs1 gs2 _ (set_progress pct j) Hinv Hid) as [_ HR]; [split; [done|]; cbn; by rewrite Hst|].
    apply HR; [done|]. exists (set_progress pct j). cbn [go_id]. rewrite lookup_insert_eq. cbn. naive_solver.
  - apply (keeps_insert m _ j); [done|]. split; [done|]. by rewrite Hst.
Qed.

Lemma finish_inv m m' gs1 gs2 id now out r :
  jobs_inv (Up m (gs1 ++ {| go_id := id; go_reports := []; go_outcome := out |} :: gs2)) -> finish_job m id now r = Some m' ->
  jobs_inv (Up m' (gs1 ++ gs2)) /\ keeps m m'.
Proof.
  intros Hinv Hf. destruct (goroutine_job _ _ _ _ Hinv) as (j & Hj & Hid & [Hp Hok] & Hst & _). cbn [go_id] in *.
  unfold finish_job in Hf. rewrite Hj in Hf. injection Hf as <-. rewrite Hst in Hok. destruct Hok as (Hr & He & _).
  assert (jb_State (end_job now r j) <> JobRunning) as Hend by (by destruct r).
  split.
  - apply (jobs_inv_replace m gs1 gs2 _ (end_job now r j) Hinv); [by destruct r| |done]. split; [destruct r; cbn; lia|]. destruct r; cbn; eauto.
  - apply (keeps_insert m id j); [done|]. split; [destruct r; cbn; lia|]. by rewrite Hst.
Qed.

Lemma job_step_inv m gs p' :
  job_step may_verify (Up m gs) p' -> jobs_inv (Up m gs) -> jobs_inv p' /\ forall m' gs', p' = Up m' gs' -> keeps m m'.
Proof.
  inversion 1; subst; intros Hinv; [edestruct start_inv as [HI HK]|edestruct report_inv as [HI HK]|edestruct finish_inv as [HI HK]
    |edestruct finish_inv as [HI HK]|by split|by split]; try eassumption; (split; [eassumption|by intros m1 gs3 [= <- <-]]).
Qed.

Lemma job_steps_inv p p' : job_steps may_verify p p' -> jobs_inv p -> jobs_inv p'.
Proof.
  induction 1 as [|p1 p2 _ IH Hst]; [done|]. intros Hp. specialize (IH Hp).
  destruct p1 as [m gs|]; [|by inversion Hst]. by apply (job_step_inv m gs).
Qed.


(** ** A dump that takes the process down *)

Section Crash.
Context `{UuidPkg} `{Badger} `{StorePkg} `{ValuePkg} `{!Struct headRecord} `{!Struct NodeCert} `{!Struct QuorumCertificate}.
Context `{BlsPkg} `{Ed25519Pkg} `{Argon2Pkg} `{!Argon2Laws} `{AeadPkg}.

(** A crafted dump crashes the node. The CA key, the quorum certificate and the source all come
    from the request, so a caller can bring its own CA and certificate that verify; if the dump's
    header then asks for zero key-derivation threads, the verification panics in its goroutine,
    which nothing recovers, and the whole process goes down with every other job. *)
Theorem verification_crashes_node (now started : Z) (opts : Options) (st0 : KeyValueStorageCtx) (ca : bytes) (qc : QuorumCertificate)
    (bundle : gmap bytes NodeCert) (mem time size : Z) (salt noncePfx rest id : bytes) (m : JobManager) (gs : list goroutine) :
  trust opts = Ret (ca, qc, bundle) ->
  VerifyQuorum ca (Some qc) bundle (if op_Threshold opts =? 0 then len (qc_Signers qc) else op_Threshold opts) now = Ret tt ->
  op_Password opts <> [] -> len salt = saltLen -> len noncePfx = noncePfxLen -> m !! id = None ->
  let source := {| src_data := head8 ++ (be_put 4 mem ++ be_put 4 time ++ [x00; byte_of saltLen]) ++ (salt ++ noncePfx) ++ rest; src_err := EOF |} in
  VerifyBackup now opts (Ret st0) (Ret (source, size)) [] = (Panic, [0; 5]) /\
  job_steps (fun trace out => VerifyBackup now opts (Ret st0) (Ret (source, size)) [] = (out, trace)) (Up m gs) Down.
Proof.
  intros HT HV Hpw Hs Hp Hid source.
  assert (VerifyBackup now opts (Ret st0) (Ret (source, size)) [] = (Panic, [0; 5])) as E.
  { unfold VerifyBackup. rewrite HT, HV. unfold loadBackupHead, source. by rewrite NewReader_panics_on_zero_threads. }
  split; [done|]. eapply steps_step; [eapply steps_step; [eapply steps_step; [eapply steps_step; [apply steps_refl|]|]|]|].
  - apply (step_start _ m gs id started [0; 5] Panic Hid E).
  - apply (step_report _ _ [] gs id 0 [5] Panic).
  - apply (step_report _ _ [] gs id 5 [] Panic).
  - apply (step_panic _ _ [] gs id).
Qed.

End Crash.

(** ** Witnesses *)

#[global] Instance NodeCert_eq_dec : EqDecision NodeCert.
Proof. solve_decision. Defined.
#[global] Instance NodeCert_countable : Countable NodeCert.
Proof.
  refine (inj_countable' (fun r => (nc_NodeID r, nc_PublicKey r, nc_NotAfter r, nc_CASig r))
    (fun '(a, b, c, d) => {| nc_NodeID := a; nc_PublicKey := b; nc_NotAfter := c; nc_CASig := d |}) _). by intros [].
Defined.
#[global] Instance QuorumCertificate_eq_dec : EqDecision QuorumCertificate.
Proof. solve_decision. Defined.
#[global] Instance QuorumCertificate_countable : Countable QuorumCertificate.
Proof.
  refine (inj_countable' (fun r => let c := qc_Checkpoint r in (ck_Height c, ck_Term c, ck_Digest c, ck_Unix c, qc_Signers r, qc_AggSig r))
    (fun '(a, b, c, d, e, f) => {| qc_Checkpoint := {| ck_Height := a; ck_Term := b; ck_Digest := c; ck_Unix := d |}; qc_Signers := e; qc_AggSig := f |}) _).
  by intros [[]].
Defined.

#[local] Existing Instances flat_uuid flat_uuid_laws mem_badger mem_spec flat_store flat_store_laws
  flat_value flat_payloads flat_payload_laws flat_head flat_head_laws toy_bls toy_bls_laws toy_ed toy_ed_laws
  flat_argon2 flat_argon2_laws toy_aead toy_aead_laws.
#[local] Instance flat_cert : Struct NodeCert := flat_struct NodeCert.
#[local] Instance flat_quorum : Struct QuorumCertificate := flat_struct QuorumCertificate.
#[local] Instance flat_quorum_laws : StructLaws QuorumCertificate := flat_struct_laws QuorumCertificate.

Definition demo_ca_key : EdPriv := replicate 32 x01.

Definition demo_node_cert (id : bytes) : NodeCert :=
  {| nc_NodeID := id; nc_PublicKey := toy_key id; nc_NotAfter := 500; nc_CASig := ed_Sign demo_ca_key (certBody id (toy_key id) 500) |}.

Definition demo_certs : list NodeCert := [demo_node_cert (str "n1"); demo_node_cert (str "n3")].

Definition demo_raws : list bytes := (fun c => match EncodeCert c with Ret b => b | _ => [] end) <$> demo_certs.

Definition demo_after : FSM := snd (Apply 100 demo_fsm demo_put_log).

Definition demo_dump : bytes := match Storage.Backup (fsm_Storage demo_after) 0 with Ret (d, _) => d | _ => [] end.

Lemma demo_raws_decode : Forall2 (fun raw c => DecodeCert raw = Ret c) demo_raws demo_certs.
Proof. repeat constructor; vm_compute; reflexivity. Qed.

Lemma attested_backup_verifies_witness :
  exists qc raw, BuildQuorumCertificate
      {| ck_Height := 5; ck_Term := 0; ck_Digest := NextDigest GenesisDigest 5 1 (lg_Data demo_put_log); ck_Unix := 100 |}
      (set_to_map (fun id => (id, SignCheckpoint (toy_key id) id
        {| ck_Height := 5; ck_Term := 0; ck_Digest := NextDigest GenesisDigest 5 1 (lg_Data demo_put_log); ck_Unix := 100 |})) toy_nodes) = Ret qc /\
    EncodeQuorum qc = Ret raw /\
    exists res trace, VerifyBackup 200 {| op_Password := str "secret"; op_CACert := ed_Public demo_ca_key; op_QuorumCert := raw;
          op_NodeCerts := demo_raws; op_Threshold := 2 |} (Ret demo_storage)
        (Ret ({| src_data := exportDatabase (str "secret") (Ret toy_salt) (Ret toy_pfx) (fsm_Storage demo_after); src_err := EOF |}, 1000)) [] = (Ret res, trace) /\
      rs_Verified res = true /\ rs_Height res = 5.
Proof.
  refine (attested_backup_verifies 100 200 demo_fsm demo_put_log (NewHashChain 0 GenesisDigest) 0 100 demo_ca_key toy_key 500 2 toy_nodes
    demo_certs demo_raws (str "secret") toy_salt toy_pfx demo_dump 0 1000 [] demo_storage (snd (db_Load (db demo_storage) demo_dump))
    mem_reliable (flat_struct_reliable headRecord) (flat_struct_reliable QuorumCertificate) _ demo_put_ok _ eq_refl eq_refl eq_refl _ _ _
    demo_raws_decode _ eq_refl eq_refl _ _ _).
  - intros m v raw [= <-] [= <-]. apply pos_bytes_nonempty.
  - intros op msg HD. rewrite demo_put_decodes in HD. injection HD as <- <-. vm_compute. discriminate.
  - intros E. apply (f_equal size) in E. vm_compute in E. discriminate.
  - vm_compute. discriminate.
  - lia.
  - intros id [->%elem_of_singleton| ->%elem_of_singleton]%elem_of_union; eexists _, _;
      (split; [reflexivity|]); split; vm_compute; reflexivity.
  - vm_compute. reflexivity.
  - vm_compute. reflexivity.
  - apply pair_by_fst. vm_compute. reflexivity.
Defined.

Definition demo_qc : QuorumCertificate :=
  let ck := {| ck_Height := 5; ck_Term := 0; ck_Digest := NextDigest GenesisDigest 5 1 (lg_Data demo_put_log); ck_Unix := 100 |} in
  {| qc_Checkpoint := ck; qc_Signers := [str "n1"; str "n3"];
     qc_AggSig := SignCheckpoint (toy_key (str "n1")) (str "n1") ck ++ SignCheckpoint (toy_key (str "n3")) (str "n3") ck |}.

Definition demo_opts : Options := {|
  op_Password := []; op_CACert := ed_Public demo_ca_key; op_QuorumCert := match EncodeQuorum demo_qc with Ret b => b | _ => [] end;
  op_NodeCerts := demo_raws; op_Threshold := 0 |}.

Definition demo_source : Source := {| src_data := exportDatabase [] (Ret []) (Ret []) (fsm_Storage demo_after); src_err := EOF |}.

Definition demo_verify : result Result * list Z := VerifyBackup 200 demo_opts (Ret demo_storage) (Ret (demo_source, 400)) [100; 150; 150].

Lemma VerifyBackup_progress_witness : trace_ok (verified (fst demo_verify)) (snd demo_verify).
Proof.
  pose proof (VerifyBackup_progress 200 demo_opts (Ret demo_storage) demo_source 400 [100; 150; 150]
    ltac:(lia) ltac:(repeat constructor; lia) ltac:(vm_compute; discriminate)) as HT.
  unfold demo_verify. destruct (VerifyBackup 200 demo_opts (Ret demo_storage) (Ret (demo_source, 400)) [100; 150; 150]). exact HT.
Defined.

Definition demo_digest : bytes := NextDigest GenesisDigest 5 1 (lg_Data demo_put_log).

Definition demo_res : Result := {|
  rs_Verified := true; rs_Height := 5; rs_Digest := DigestHex demo_digest; rs_Signers := 2;
  rs_Message := str "backup matches the quorum-certified checkpoint"; rs_cause := None |}.

Lemma VerifyBackup_sound_witness : exists st dump, Storage.Load demo_storage dump = (Ret tt, st) /\ LoadHead 200 st = (5, demo_digest).
Proof.
  destruct (VerifyBackup_sound 200 demo_opts demo_storage demo_source 400 [100; 150; 150] demo_res (snd demo_verify))
    as (qc & cs & reader & dump & st & pubs & HD & _ & _ & _ & HL & HH & _).
  - vm_compute. reflexivity.
  - vm_compute. reflexivity.
  - exists st, dump. split; [exact HL|]. rewrite HH. assert (DecodeQuorum (op_QuorumCert demo_opts) = Ret demo_qc) as E by (vm_compute; reflexivity).
    rewrite E in HD. injection HD as <-. reflexivity.
Defined.


Definition demo_hostile : Options := {|
  op_Password := str "x"; op_CACert := op_CACert demo_opts; op_QuorumCert := op_QuorumCert demo_opts; op_NodeCerts := demo_raws; op_Threshold := 0 |}.

Lemma demo_trust : trust demo_hostile = Ret (ed_Public demo_ca_key, demo_qc, fold_left AddCert demo_certs ∅).
Proof. apply (trust_ok demo_hostile demo_qc demo_certs); [reflexivity|vm_compute; reflexivity|exact demo_raws_decode]. Qed.

Lemma verification_crashes_node_witness :
  VerifyBackup 200 demo_hostile (Ret demo_storage) (Ret ({| src_data := head8 ++ (be_put 4 65536 ++ be_put 4 3 ++ [x00; byte_of saltLen]) ++ (toy_salt ++ toy_pfx) ++ [];
    src_err := EOF |}, 0)) [] = (Panic, [0; 5]).
Proof.
  apply (verification_crashes_node 200 0 demo_hostile demo_storage (ed_Public demo_ca_key) demo_qc (fold_left AddCert demo_certs ∅)
    65536 3 0 toy_salt toy_pfx [] (str "j1") NewJobManager []).
  - exact demo_trust.
  - vm_compute. reflexivity.
  - discriminate.
  - reflexivity.
  - reflexivity.
  - reflexivity.
Defined.
