(* ===== verification/Net.v ===== *)
(** * Addresses, paths and identifiers

    The parts of Go's [net], [path/filepath] and [strconv] that the node, console and
    configuration code is built on, written out as the standard library has them, and the small
    helpers of the repository over them: [hostOnly] and [httpPort] ([pkg/console/nodes.go]),
    [hostOf] ([pkg/replication/nodetls.go]), the node identifier and the mapping of property keys
    to environment variables ([pkg/replication/sprintshim.go]). *)

From S2P Require Import Prelude Pb Password Ledger.

(** ** Searching strings *)

(** [strings.IndexByte] and [strings.LastIndexByte]; [None] is -1. *)
Fixpoint IndexByte (s : bytes) (c : byte) : option nat :=
  match s with
  | [] => None
  | b :: rest => if bool_decide (b = c) then Some 0%nat else S <$> IndexByte rest c
  end.

Fixpoint LastIndexByte (s : bytes) (c : byte) : option nat :=
  match s with
  | [] => None
  | b :: rest =>
      match LastIndexByte rest c with
      | Some i => Some (S i)
      | None => if bool_decide (b = c) then Some 0%nat else None
      end
  end.

Definition has_byte (s : bytes) (c : byte) : bool := bool_decide (c ∈ s).

(** ** Host and port *)

Definition colon : byte := x3a.
Definition lbrack : byte := x5b.
Definition rbrack : byte := x5d.

Definition missingPort : error := ErrNew (str "missing port in address").
Definition tooManyColons : error := ErrNew (str "too many colons in address").

(** [net.SplitHostPort]. *)
Definition SplitHostPort (hostport : bytes) : result (bytes * bytes) :=
  match LastIndexByte hostport colon with
  | None => Fail missingPort
  | Some i =>
      let finish host j k :=
        if has_byte (drop j hostport) lbrack then Fail (ErrNew (str "unexpected '[' in address"))
        else if has_byte (drop k hostport) rbrack then Fail (ErrNew (str "unexpected ']' in address"))
        else Ret (host, drop (S i) hostport) in
      if bool_decide (head hostport = Some lbrack) then
        match IndexByte hostport rbrack with
        | None => Fail (ErrNew (str "missing ']' in address"))
        | Some e =>
            if bool_decide (S e = length hostport) then Fail missingPort
            else if bool_decide (S e = i) then finish (take (e - 1) (drop 1 hostport)) 1%nat (S e)
            else if bool_decide (hostport !! S e = Some colon) then Fail tooManyColons
            else Fail missingPort
        end
      else
        let host := take i hostport in
        if has_byte host colon then Fail tooManyColons else finish host 0%nat 0%nat
  end.

(** [net.JoinHostPort]. *)
Definition JoinHostPort (host port : bytes) : bytes :=
  if has_byte host colon then [lbrack] ++ host ++ [rbrack; colon] ++ port else host ++ [colon] ++ port.

Definition hostOnly (addr : bytes) : bytes :=
  if bool_decide (addr = []) then [] else
  match SplitHostPort addr with Ret (host, _) => host | _ => addr end.

Definition hostOf (addr : bytes) : bytes :=
  match SplitHostPort addr with Ret (h, _) => h | _ => addr end.

(** [ConsoleHandler.httpPort] of the configured [HTTPBind]. *)
Definition httpPort (HTTPBind : bytes) : bytes :=
  match LastIndexByte HTTPBind colon with Some i => drop (S i) HTTPBind | None => str "8441" end.

(** The console of the node behind a raft address: the same host, this node's http port
    ([fetchPeerMetrics], [proxyToLeader]). *)
Definition peer_http (HTTPBind raftAddr : bytes) : bytes :=
  str "http://" ++ JoinHostPort (hostOf raftAddr) (httpPort HTTPBind).

(** ** File paths *)

Definition slash : byte := x2f.

(** [filepath.Clean]: the components kept so far are in reverse order. *)
Definition clean_step (rooted : bool) (out : list bytes) (c : bytes) : list bytes :=
  if bool_decide (c = []) || bool_decide (c = str ".") then out
  else if bool_decide (c = str "..") then
    match out with
    | top :: rest => if bool_decide (top = str "..") then c :: out else rest
    | [] => if rooted then [] else [c]
    end
  else c :: out.

Definition sep_join (sep : bytes) (l : list bytes) : bytes :=
  match l with [] => [] | c :: rest => c ++ concat ((fun x => sep ++ x) <$> rest) end.

Definition Clean (path : bytes) : bytes :=
  let rooted := bool_decide (head path = Some slash) in
  let out := rev (fold_left (clean_step rooted) (Split slash path) []) in
  if rooted then [slash] ++ sep_join [slash] out
  else if bool_decide (out = []) then str "." else sep_join [slash] out.

(** [filepath.Join]. *)
Fixpoint path_Join (elem : list bytes) : bytes :=
  match elem with
  | [] => []
  | e :: rest => if bool_decide (e = []) then path_Join rest else Clean (sep_join [slash] elem)
  end.

(** ** Node identifiers *)

(** [fnv.New64a]. *)
Definition fnv_offset : Z := 14695981039346656037.
Definition fnv_prime : Z := 1099511628211.

Definition fnv64a (data : bytes) : Z :=
  fold_left (fun h b => wrap64 (Z.lxor h (byte_val b) * fnv_prime)) data fnv_offset.

(** [strconv.FormatUint(z, 16)]: the digits are produced from the last one. *)
Fixpoint hex_loop (fuel : nat) (z : Z) (acc : bytes) : bytes :=
  match fuel with
  | O => acc
  | S fuel =>
      let acc := hex_digit (z mod 16) :: acc in
      if z <? 16 then acc else hex_loop fuel (z / 16) acc
  end.

Definition FormatUint16 (z : Z) : bytes := hex_loop 16 z [].

(** The configuration of [NodeService]. *)
Record NodeService : Type := { ns_NodeIdProp : Z; ns_NodeName : bytes; ns_NodeSeqNum : Z; ns_DataCenter : bytes }.

(** [PostConstruct]: the identifier, pinned or derived from the names; [host] is the host name,
    empty when the system does not tell. *)
Definition NodeId (t : NodeService) (host : bytes) : Z :=
  if negb (ns_NodeIdProp t =? 0) then ns_NodeIdProp t
  else fnv64a (ns_NodeName t ++ str ":" ++ host ++ str ":" ++ fmt_d (ns_NodeSeqNum t)).

Definition NodeIdHex (t : NodeService) (host : bytes) : bytes := FormatUint16 (NodeId t host).

Definition nodeName (t : NodeService) : bytes :=
  if ns_NodeSeqNum t =? 0 then ns_NodeName t else ns_NodeName t ++ str "-" ++ fmt_d (ns_NodeSeqNum t).

(** [Parse] ignores its argument. *)
Definition NodeService_Parse (t : NodeService) (host : bytes) : Z * Z * Z := (0, int64 (NodeId t host), 0).

(** ** Properties from the environment *)

Definition envByte (b : byte) : byte :=
  let c := byte_val b in
  if (97 <=? c) && (c <=? 122) then byte_of (c - 97 + 65)
  else if ((65 <=? c) && (c <=? 90)) || ((48 <=? c) && (c <=? 57)) then b
  else x5f.

Definition envKey (key : bytes) : bytes := envByte <$> key.

(** [EnvPropertyResolver.GetProperty] over the environment. *)
Definition env_GetProperty (environ : gmap bytes bytes) (key : bytes) : option bytes := environ !! envKey key.

Definition env_Priority : Z := 200.

(** ** Lemmas *)

Lemma IndexByte_None s c : IndexByte s c = None <-> c ∉ s.
Proof.
  induction s as [|b s IH]; cbn [IndexByte]; [split; [intros _; apply not_elem_of_nil|done]|].
  rewrite not_elem_of_cons. case_bool_decide as E; [split; [done|intros [? _]; congruence]|].
  rewrite fmap_None, IH. split; [intros ?; split; [congruence|done]|by intros []].
Qed.

Lemma IndexByte_app s c r : c ∉ s -> IndexByte (s ++ c :: r) c = Some (length s).
Proof.
  induction s as [|b s IH]; cbn [app IndexByte length]; [by rewrite bool_decide_eq_true_2|].
  rewrite not_elem_of_cons. intros [Hb Hs]. rewrite bool_decide_eq_false_2 by congruence. by rewrite IH.
Qed.

Lemma IndexByte_Some s c i : IndexByte s c = Some i -> exists p q, s = p ++ c :: q /\ c ∉ p /\ i = length p.
Proof.
  revert i. induction s as [|b s IH]; intros i; cbn [IndexByte]; [done|]. case_bool_decide as E.
  - intros [= <-]. subst b. exists [], s. split; [done|]. split; [apply not_elem_of_nil|done].
  - destruct (IndexByte s c) as [j|]; [|done]. intros [= <-]. destruct (IH j eq_refl) as (p & q & -> & Hp & ->).
    exists (b :: p), q. split; [done|]. split; [|done]. apply not_elem_of_cons. by split; [congruence|].
Qed.

Lemma LastIndexByte_None s c : c ∉ s -> LastIndexByte s c = None.
Proof.
  induction s as [|b s IH]; cbn [LastIndexByte]; [done|]. rewrite not_elem_of_cons. intros [Hb Hs].
  rewrite IH by done. by rewrite bool_decide_eq_false_2 by congruence.
Qed.

Lemma LastIndexByte_app s c r : c ∉ r -> LastIndexByte (s ++ c :: r) c = Some (length s).
Proof.
  intros Hr. induction s as [|b s IH]; cbn [app LastIndexByte length].
  - rewrite LastIndexByte_None by done. by rewrite bool_decide_eq_true_2.
  - by rewrite IH.
Qed.

Lemma has_byte_false s c : c ∉ s -> has_byte s c = false.
Proof. apply bool_decide_eq_false_2. Qed.

(** Splitting what was joined, for a port and a host without brackets; a host with colons is an
    IPv6 literal. *)
Lemma SplitHostPort_Join host port :
  lbrack ∉ host -> rbrack ∉ host -> lbrack ∉ port -> rbrack ∉ port -> colon ∉ port ->
  SplitHostPort (JoinHostPort host port) = Ret (host, port).
Proof.
  intros Hl Hr Pl Pr Pc. unfold JoinHostPort, has_byte at 1. case_bool_decide as Hc.
  - set (hp := [lbrack] ++ host ++ [rbrack; colon] ++ port).
    assert (hp = ([lbrack] ++ host ++ [rbrack]) ++ colon :: port) as E1 by (unfold hp; by rewrite <- !app_assoc).
    assert (hp = (lbrack :: host) ++ rbrack :: colon :: port) as E2 by done.
    assert (length ([lbrack] ++ host ++ [rbrack]) = S (S (length host))) as EL by (rewrite !length_app; cbn; lia).
    unfold SplitHostPort. rewrite E1 at 1. rewrite LastIndexByte_app by done. rewrite EL.
    rewrite bool_decide_eq_true_2 by done. rewrite E2 at 1. rewrite IndexByte_app by (rewrite not_elem_of_cons; split; [done|done]).
    cbn [length]. rewrite bool_decide_eq_false_2 by (rewrite E1, length_app, EL; cbn; lia).
    rewrite bool_decide_eq_true_2 by done.
    rewrite has_byte_false, has_byte_false.
    + f_equal. f_equal.
      * unfold hp. cbn [drop app Nat.sub]. rewrite Nat.sub_0_r. apply (take_app_length host).
      * rewrite E1. rewrite drop_app_ge by (rewrite EL; lia).
        rewrite EL. by replace (S (S (S (length host))) - S (S (length host)))%nat with 1%nat by lia.
    + rewrite E1. rewrite <- EL, drop_app_length. by rewrite not_elem_of_cons.
    + unfold hp. cbn [drop app]. rewrite drop_0, !not_elem_of_app, !not_elem_of_cons. by repeat split.
  - assert (head (host ++ [colon] ++ port) <> Some lbrack) as Hh.
    { destruct host as [|b host]; cbn; [done|]. intros [= ->]. apply Hl. by left. }
    unfold SplitHostPort. change ([colon] ++ port) with (colon :: port) in *. rewrite LastIndexByte_app by done.
    rewrite bool_decide_eq_false_2 by done. rewrite take_app_length, has_byte_false by done.
    rewrite !drop_0, !has_byte_false; [|by rewrite not_elem_of_app, not_elem_of_cons..].
    f_equal. f_equal. rewrite drop_app_ge by lia. by replace (S (length host) - length host)%nat with 1%nat by lia.
Qed.

(** ** Paths inside a directory *)

Lemma Split_nonempty sep s : Split sep s <> [].
Proof. destruct s as [|c s]; cbn [Split]; [done|]. case_bool_decide; [done|]. by destruct (Split sep s). Qed.

Lemma Split_snoc sep a f : sep ∉ f -> Split sep (a ++ sep :: f) = Split sep a ++ [f].
Proof.
  intros Hf. induction a as [|c a IH]; cbn [app Split].
  - rewrite bool_decide_eq_true_2 by done. rewrite Split_none; [done|]. apply Forall_forall. by intros c ? ->.
  - rewrite IH. case_bool_decide; [done|]. pose proof (Split_nonempty sep a). by destruct (Split sep a).
Qed.

Lemma sep_join_snoc sep l f : l <> [] -> sep_join sep (l ++ [f]) = sep_join sep l ++ sep ++ f.
Proof.
  destruct l as [|c l]; [done|]. intros _. cbn [sep_join app]. rewrite fmap_app, concat_app. cbn. by rewrite app_nil_r, <- app_assoc.
Qed.

(** A plain file name: what [filepath.Clean] leaves as the last component. *)
Definition plain_name (f : bytes) : Prop := slash ∉ f /\ f <> [] /\ f <> str "." /\ f <> str "..".

#[global] Instance plain_name_dec f : Decision (plain_name f).
Proof. unfold plain_name. apply _. Defined.

Lemma clean_step_plain rooted out f : plain_name f -> clean_step rooted out f = f :: out.
Proof. intros (Hs & Hne & Hdot & Hdd). unfold clean_step. by rewrite !bool_decide_eq_false_2 by done. Qed.

(** The path of a plain name in a directory is the name after a prefix that depends on the
    directory alone: files of one directory have distinct paths. *)
Lemma path_Join_plain dir f1 f2 :
  dir <> [] -> plain_name f1 -> plain_name f2 -> path_Join [dir; f1] = path_Join [dir; f2] -> f1 = f2.
Proof.
  intros Hd H1 H2.
  assert (exists p, forall f, plain_name f -> path_Join [dir; f] = p ++ f) as [p Hp].
  { set (rooted := bool_decide (head dir = Some slash)). set (out := rev (fold_left (clean_step rooted) (Split slash dir) [])).
    exists ((if rooted then [slash] else []) ++ sep_join [slash] out ++ (if bool_decide (out = []) then [] else [slash])).
    intros f (Hs & Hne & Hdot & Hdd). cbn [path_Join]. rewrite bool_decide_eq_false_2 by done.
    cbn [sep_join fmap list_fmap concat]. rewrite app_nil_r. unfold Clean.
    assert (head (dir ++ [slash] ++ f) = head dir) as -> by by destruct dir. fold rooted.
    change ([slash] ++ f) with (slash :: f). rewrite Split_snoc by done. rewrite fold_left_app. cbn [fold_left].
    rewrite clean_step_plain by done. cbn [rev]. fold out.
    assert (out ++ [f] <> []) as Hof by (by destruct out).
    rewrite (bool_decide_eq_false_2 (out ++ [f] = [])) by done.
    assert (sep_join [slash] (out ++ [f]) = sep_join [slash] out ++ (if bool_decide (out = []) then [] else [slash]) ++ f) as ->.
    { case_bool_decide as Eo; [rewrite Eo; cbn; by rewrite app_nil_r|by rewrite sep_join_snoc]. }
    destruct rooted; cbn [app]; by rewrite <- ?app_assoc. }
  rewrite (Hp f1 H1), (Hp f2 H2). apply app_inv_head.
Qed.

(** ** Hexadecimal identifiers *)

Definition hex_val (b : byte) : Z := let c := byte_val b in if c <? 58 then c - 48 else c - 87.

Lemma hex_val_digit n : 0 <= n < 16 -> hex_val (hex_digit n) = n.
Proof.
  intros Hn. unfold hex_val, hex_digit. destruct (Z.ltb_spec n 10); rewrite byte_val_of, Z.mod_small by lia;
    destruct (Z.ltb_spec (48 + n) 58), (Z.ltb_spec (87 + n) 58); lia.
Qed.

Definition hex_value (l : bytes) : Z := fold_left (fun a b => a * 16 + hex_val b) l 0.

Lemma hex_value_snoc l b : hex_value (l ++ [b]) = hex_value l * 16 + hex_val b.
Proof. unfold hex_value. by rewrite fold_left_app. Qed.

Lemma hex_loop_spec fuel z acc :
  0 <= z < 16 ^ Z.of_nat fuel -> (1 <= fuel)%nat ->
  exists ds, hex_loop fuel z acc = ds ++ acc /\ hex_value ds = z /\ (1 <= length ds <= fuel)%nat.
Proof.
  revert z acc. induction fuel as [|fuel IH]; intros z acc Hz Hf; [lia|]. cbn [hex_loop].
  pose proof (Z.mod_pos_bound z 16 ltac:(lia)). pose proof (Z.div_mod z 16 ltac:(lia)).
  destruct (Z.ltb_spec z 16) as [Hs|Hs].
  - exists [hex_digit (z mod 16)]. split; [done|]. unfold hex_value. cbn [fold_left length]. rewrite hex_val_digit by lia.
    rewrite Z.mod_small by lia. lia.
  - rewrite Nat2Z.inj_succ, Z.pow_succ_r in Hz by lia.
    assert (0 <= z / 16 < 16 ^ Z.of_nat fuel) as Hd by lia.
    assert (1 <= fuel)%nat as Hf' by (destruct fuel; [change (16 ^ Z.of_nat 0) with 1 in Hd; lia|lia]).
    destruct (IH (z / 16) (hex_digit (z mod 16) :: acc) Hd Hf') as (ds & E & V & L).
    exists (ds ++ [hex_digit (z mod 16)]). split; [by rewrite <- app_assoc|].
    rewrite hex_value_snoc, V, hex_val_digit, length_app by lia. cbn [length]. lia.
Qed.

Lemma FormatUint16_spec z : is_uint64 z -> hex_value (FormatUint16 z) = z /\ (1 <= length (FormatUint16 z) <= 16)%nat.
Proof.
  intros Hz. destruct (hex_loop_spec 16 z []) as (ds & E & V & L); [unfold is_uint64 in Hz; lia|lia|].
  unfold FormatUint16. rewrite E, app_nil_r. by split.
Qed.

Lemma fnv64a_range data : is_uint64 (fnv64a data).
Proof.
  unfold fnv64a. assert (is_uint64 fnv_offset) as H by (unfold is_uint64, fnv_offset; lia). revert H.
  generalize fnv_offset. induction data as [|b data IH]; intros h Hh; cbn [fold_left]; [done|]. apply IH, wrap64_range.
Qed.
