(* ===== verification/Admin.v ===== *)
(** * Backup and restore over the wire ([pkg/server/admin.go], [pkg/backup/client.go],
    [pkg/backup/objstore.go])

    The node streams the engine's backup as frames; the client wraps them into a dump container on
    its way to a file or an object, and streams a dump back the other way. How the engine cuts its
    backup into writes is an argument, and so is what opening, uploading and closing the
    destination gives. Frames are dynamic maps of the value package. *)

From S2P Require Import Prelude Pb Keys Engine Storage StorageSpec StorageReads StorageProps Value Service Iam PolicyService Codecs Password Backup Net.

(** Text reads back, and is empty when it was not put. *)
Class TextMapLaws `{ValueMaps} `{!TextMaps} : Prop := {
  text_empty : forall k, GetText EmptyMap k = [];
  text_put : forall m k b, GetText (MPut m k (VUtf8 b)) k = b;
  text_other : forall m k k' v, bool_decide (k = k') = false -> GetText (MPut m k v) k' = GetText m k'
}.

(** ** Destinations ([objstore.go]) *)

Record S3Config : Type := {
  s3_Endpoint : bytes; s3_Region : bytes; s3_AccessKey : bytes; s3_SecretKey : bytes; s3_UseSSL : bool; s3_RetainDays : Z }.

(** [None] is a destination that is not an object. *)
Definition parseS3 (dest : bytes) : result (option (bytes * bytes)) :=
  if negb (HasPrefix dest (str "s3://")) then Ret None else
  let rest := drop (length (str "s3://")) dest in
  match IndexByte rest x2f with
  | None | Some O => Fail (ErrNew (str "backup: malformed s3 url"))
  | Some i => if (i =? length rest - 1)%nat then Fail (ErrNew (str "backup: malformed s3 url"))
              else Ret (Some (take i rest, drop (S i) rest))
  end.

(** [url.Parse(dest)] with its path is a parameter. *)
Definition fileURLPath (url_path : bytes -> option bytes) (dest : bytes) : bytes :=
  if HasPrefix dest (str "file://") then default dest (url_path dest) else dest.

(** The endpoint an [S3Config] names. *)
Definition s3_endpoint (cfg : S3Config) : bytes :=
  if decide (s3_Endpoint cfg = []) then str "s3.amazonaws.com" else s3_Endpoint cfg.

(** [OpenSink] and [OpenSource] choose between a file and an object. *)
Inductive target : Type := File (path : bytes) | Object (bucket key endpoint : bytes) (retainDays : Z).

Definition OpenSink (url_path : bytes -> option bytes) (dest : bytes) (cfg : S3Config) : result target :=
  t ← parseS3 dest;
  match t with
  | None => Ret (File (fileURLPath url_path dest))
  | Some (bucket, key) => Ret (Object bucket key (s3_endpoint cfg) (s3_RetainDays cfg))
  end.

Definition OpenSource (url_path : bytes -> option bytes) (src : bytes) (cfg : S3Config) : result target :=
  t ← parseS3 src;
  match t with
  | None => Ret (File (fileURLPath url_path src))
  | Some (bucket, key) => Ret (Object bucket key (s3_endpoint cfg) 0)
  end.

(** ** Cutting into pieces of at most [n] *)

Fixpoint cut_pieces (fuel n : nat) (l : bytes) : list bytes :=
  match fuel, l with
  | S fuel, _ :: _ => take n l :: cut_pieces fuel n (drop n l)
  | _, _ => []
  end.

Definition pieces (n : nat) (l : bytes) : list bytes := cut_pieces (length l) n l.

Section Admin.
Context `{UuidPkg} `{Badger} `{StorePkg} `{ValuePkg} `{!IamStructs} `{ValueMaps} `{!TextMaps}.

(** ** The node ([admin.go]) *)

Record backupFrame : Type := { bf_Data : bytes; bf_Version : Z; bf_Done : bool }.

Definition backupRequest_Encode (since : Z) : WVal := VMap (MPut EmptyMap (str "since") (VLong (int64 since))).

Definition backupRequest_Decode (v : WVal) : Z :=
  match AsMap v with Some m => wrap64 (GetLong m (str "since")) | None => 0 end.

Definition backupFrame_Encode (f : backupFrame) : WVal :=
  let m := MPut EmptyMap (str "done") (VBoolean (bf_Done f)) in
  if bf_Done f then VMap (MPut m (str "version") (VLong (int64 (bf_Version f))))
  else VMap (MPut m (str "data") (VRaw (bf_Data f))).

Definition backupFrame_Decode (v : WVal) : result backupFrame :=
  match AsMap v with
  | None => Fail (ErrNew (str "malformed backup frame"))
  | Some m =>
      if GetBool m (str "done") then Ret {| bf_Data := []; bf_Version := wrap64 (GetLong m (str "version")); bf_Done := true |}
      else Ret {| bf_Data := GetRaw m (str "data"); bf_Version := 0; bf_Done := false |}
  end.

Definition backupChunk : Z := 64 * 1024.

(** What the engine's backup writes into the pipe, and how it ends (an engine error is not
    [io.EOF]). *)
Record BackupRun : Type := { br_writes : list bytes; br_end : result Z }.

Definition data_frame (p : bytes) : backupFrame := {| bf_Data := p; bf_Version := 0; bf_Done := false |}.

Definition done_frame (v : Z) : backupFrame := {| bf_Data := []; bf_Version := v; bf_Done := true |}.

(** The frames the pump puts on the channel: a read takes at most a buffer's worth of one write. *)
Definition backup_frames (run : BackupRun) : list backupFrame :=
  (data_frame <$> (br_writes run ≫= pieces (Z.to_nat backupChunk))) ++
  match br_end run with Ret v => [done_frame v] | _ => [] end.

(** [AdminService.backup]: the frames received by a client that stays. *)
Definition admin_backup (now : Z) (st : KeyValueStorageCtx) (policy : option PolicyService) (principal : bytes) (run : BackupRun) :
    result (list backupFrame) * option PolicyService :=
  match Authorize now st policy principal PermBackupsCreate [] [] with
  | (Ret _, p) => (Ret (backup_frames run), p)
  | (Fail e, p) => (Fail e, p)
  | (Panic, p) => (Panic, p)
  end.

(** [err.Error()]. *)
Variable error_text : error -> bytes.

Definition completion (err : option error) : WVal :=
  let m := MPut EmptyMap (str "done") (VBoolean true) in
  VMap match err with Some e => MPut m (str "error") (VUtf8 (error_text e)) | None => m end.

(** The writes into the restore pipe. *)
Definition restore_writes (inC : list WVal) : list bytes := omap (fun v => m ← AsMap v; Some (GetRaw m (str "data"))) inC.

(** [AdminService.restore]: the frames sent back, [None] when the handler waits for ever. [stop] is
    how many of the writes a failing load takes before it returns: nothing reads the pipe after
    that, and the next write blocks. *)
Definition admin_restore (now : Z) (policy : option PolicyService) (principal : bytes) (replicated : bool) (stop : nat)
    (inC : list WVal) (st : KeyValueStorageCtx) : result (option (list WVal)) * KeyValueStorageCtx * option PolicyService :=
  match Authorize now st policy principal PermBackupsRestore [] [] with
  | (Fail e, p) => (Fail e, st, p)
  | (Panic, p) => (Panic, st, p)
  | (Ret _, p) =>
      if replicated then (Fail (RpcError CodeInvalidArgument (str "restore is disabled while replication is active: restore into a fresh node, then bootstrap")), st, p)
      else
        let ws := restore_writes inC in
        match Storage.Load st (concat ws) with
        | (Ret _, st) => (Ret (Some [completion None]), st, p)
        | (Fail e, st) => (Ret (if (stop <? length ws)%nat then None else Some [completion (Some e)]), st, p)
        | (Panic, st) => (Panic, st, p)
        end
  end.

(** ** The client ([client.go]) *)

Section Client.
Context `{Argon2Pkg} `{AeadPkg} {D : Type}.
Variable write : Writer D.

Definition container_dst (c : container D) : D := match c with plainWriter d => d | encryptedWriter w => ew_dst w end.

(** The loop over the frames: the version, the first write error and the container. *)
Fixpoint backup_loop (frames : list WVal) (version : Z) (c : container D) : option (Z * option error * container D) :=
  match frames with
  | [] => Some (version, None, c)
  | v :: frames =>
      match AsMap v with
      | None => backup_loop frames version c
      | Some m =>
          if GetBool m (str "done") then backup_loop frames (wrap64 (GetLong m (str "version"))) c
          else match container_Write write (GetRaw m (str "data")) c with
               | Some (Ret _, c) => backup_loop frames version c
               | Some (Fail e, c) => Some (version, Some e, c)
               | Some (Panic, _) | None => None
               end
      end
  end.

Definition first_error (e1 e2 : option error) : option error := match e1 with Some e => Some e | None => e2 end.

(** [Backup]: the version, the error and what the sink holds when it was closed. [stream] is what
    [GetStream] gives: an error, or the frames up to the end of the channel. *)
Definition client_Backup (sink : result D) (password : bytes) (salt noncePfx : result bytes) (stream : result (list WVal))
    (close : D -> option error) : option (Z * option error * option D) :=
  match sink with
  | Fail e => Some (0, Some e, None)
  | Panic => None
  | Ret d =>
  match NewWriter write d password salt noncePfx with
  | Fail e => Some (0, Some e, None)
  | Panic => None
  | Ret c =>
  match stream with
  | Panic => None
  | Fail e => let c := snd (container_Close write c) in Some (0, Some e, Some (container_dst c))
  | Ret frames =>
      '(version, err, c) ← backup_loop frames 0 c;
      let '(cerr, c) := container_Close write c in
      let d := container_dst c in
      Some (version, first_error (first_error err cerr) (close d), Some d)
  end end end.

End Client.

Section Restore.
Context `{Argon2Pkg} `{AeadPkg}.

(** The chunks that successive reads into a buffer of [n] bytes give, and the error that ends
    them, [None] at the end of the dump. *)
Fixpoint enc_chunks (fuel n : nat) (r : encReader) : option (list bytes * option error) :=
  match fuel with
  | O => None
  | S fuel =>
      match enc_Read n r with
      | None | Some (Panic, _) => None
      | Some (Ret p, r) =>
          '(ps, err) ← enc_chunks fuel n r; Some (p :: ps, err)
      | Some (Fail e, r) => Some ([], if decide (e = EOF) then None else Some e)
      end
  end.

Definition read_chunks (fuel n : nat) (r : reader) : option (list bytes * option error) :=
  match r with
  | plainReader src => Some (pieces n (src_data src), if decide (src_err src = EOF) then None else Some (src_err src))
  | encryptedReader r => enc_chunks fuel n r
  end.

Definition chunk_frame (p : bytes) : WVal := VMap (MPut EmptyMap (str "data") (VRaw p)).

(** The error text of the server's completion frame, the last one counting. *)
Definition server_error (readC : list WVal) : bytes :=
  fold_left (fun acc v => match AsMap v with
                          | Some m => if GetBool m (str "done") then GetText m (str "error") else acc
                          | None => acc end) readC [].

(** [Restore]; [chat] is the call of the node with everything that is sent, [None] when it does not
    answer. The context is not cancelled meanwhile. *)
Definition client_Restore (source : result Source) (password : bytes) (chat : list WVal -> option (result (list WVal))) : option (result unit) :=
  match source with
  | Fail e => Some (Fail e)
  | Panic => Some Panic
  | Ret src =>
  match NewReader src password with
  | Fail e => Some (Fail e)
  | Panic => Some Panic
  | Ret reader =>
      '(chunks, readErr) ← read_chunks (S (length (src_data src))) (Z.to_nat chunkSize) reader;
      readC ← chat (chunk_frame <$> chunks);
      match readC with
      | Fail e => Some (Fail (ErrWrap (str "restore stream") e))
      | Panic => Some Panic
      | Ret readC =>
          Some match readErr with
               | Some e => Fail (ErrWrap (str "read dump") e)
               | None => if decide (server_error readC = []) then Ret tt else Fail (ErrNew (str "restore: " ++ server_error readC))
               end
      end
  end end.

End Restore.
End Admin.
