(* ===== verification/AdminProps.v ===== *)
(** * Properties of backup and restore over the wire

    A backup taken through the wire and restored through it gives the same contents; object URLs
    split uniquely; and two ways the streams fail silently: a backup that breaks off is sealed as
    complete, and a restore of a bad dump never ends. *)

From S2P Require Import Prelude Pb Keys Engine Storage StorageSpec StorageReads StorageProps Value Service Iam PolicyService Codecs Password Backup BackupProps Setup SetupProps Net Admin.

(** ** Pieces *)

Lemma concat_cut_pieces fuel n l : (1 <= n)%nat -> (length l <= fuel)%nat -> concat (cut_pieces fuel n l) = l.
Proof.
  intros Hn. revert l. induction fuel as [|fuel IH]; intros [|b l] Hl; cbn [cut_pieces concat]; [done|cbn in Hl; lia|done|].
  rewrite IH; [apply take_drop|]. rewrite length_drop. cbn [length] in *. lia.
Qed.

Lemma concat_pieces n l : (1 <= n)%nat -> concat (pieces n l) = l.
Proof. intros Hn. by apply concat_cut_pieces. Qed.

Lemma concat_bind_pieces n ws : (1 <= n)%nat -> concat (ws ≫= pieces n) = concat ws.
Proof.
  intros Hn. induction ws as [|w ws IH]; [done|]. rewrite bind_cons, concat_app, concat_pieces by done. cbn [concat]. by rewrite IH.
Qed.

Lemma pieces_bounded n l p : p ∈ pieces n l -> (length p <= n)%nat.
Proof.
  unfold pieces. generalize (length l) as fuel. intros fuel. revert l. induction fuel as [|fuel IH]; intros [|b l]; cbn [cut_pieces]; try by intros ?%not_elem_of_nil.
  rewrite elem_of_cons. intros [->|Hp]; [rewrite length_take; lia|by eapply IH].
Qed.

(** ** Object URLs *)

(** Object URLs split uniquely: [parseS3] gives a bucket and a key exactly for URLs of the form
    s3://bucket/key with a non-empty bucket without slashes and a non-empty key. *)
Lemma parseS3_iff (dest bucket key : bytes) :
  parseS3 dest = Ret (Some (bucket, key)) <->
  dest = str "s3://" ++ bucket ++ str "/" ++ key /\ bucket <> [] /\ key <> [] /\ x2f ∉ bucket.
Proof.
  unfold parseS3. split.
  - destruct (HasPrefix dest (str "s3://")) eqn:EP; cbn [negb]; [|done]. apply HasPrefix_spec in EP as [rest ->]. rewrite drop_app_length.
    destruct (IndexByte rest x2f) as [i|] eqn:Ei; [|done]. destruct (IndexByte_Some _ _ _ Ei) as (p & q & -> & Hp & ->).
    destruct p as [|c p]; [done|]. cbn [length]. destruct (Nat.eqb_spec (S (length p)) (length ((c :: p) ++ x2f :: q) - 1)) as [|Hj]; [done|].
    change (S (length p)) with (length (c :: p)). rewrite take_app_length, (drop_app_ge (c :: p)) by lia.
    replace (S (length (c :: p)) - length (c :: p))%nat with 1%nat by lia. change (drop 1 (x2f :: q)) with q. intros [= <- <-].
    split; [done|]. split; [done|]. split; [|done]. intros ->. apply Hj. rewrite length_app. cbn. lia.
  - intros (-> & Hb & Hk & Hs). assert (HasPrefix (str "s3://" ++ bucket ++ str "/" ++ key) (str "s3://") = true) as -> by (apply HasPrefix_spec; by eexists).
    cbn [negb]. rewrite drop_app_length. change (str "/" ++ key) with (x2f :: key). rewrite IndexByte_app by done.
    destruct bucket as [|c p]; [done|]. destruct key as [|k key]; [done|]. cbn [length].
    rewrite (proj2 (Nat.eqb_neq _ _)) by (rewrite length_app; cbn; lia). change (S (length p)) with (length (c :: p)).
    rewrite take_app_length, (drop_app_ge (c :: p)) by lia. by replace (S (length (c :: p)) - length (c :: p))%nat with 1%nat by lia.
Qed.

Section Props.
Context `{UuidPkg} `{Badger} `{!BadgerSpec} `{StorePkg} `{ValuePkg} `{!IamStructs} `{ValueMaps} `{!ValueMapLaws} `{!TextMaps} `{!TextMapLaws}.
Context `{Argon2Pkg} `{!Argon2Laws} `{AeadPkg} `{!AeadLaws}.

Lemma backupChunk_pos : (1 <= Z.to_nat backupChunk)%nat.
Proof. unfold backupChunk. lia. Qed.

Lemma chunkSize_pos : (1 <= Z.to_nat chunkSize)%nat.
Proof. unfold chunkSize. lia. Qed.

(** ** Frames *)

Lemma data_frame_map p : AsMap (backupFrame_Encode (data_frame p)) = Some (MPut (MPut EmptyMap (str "done") (VBoolean false)) (str "data") (VRaw p)).
Proof. unfold backupFrame_Encode, data_frame. cbn [bf_Done bf_Data]. apply as_map. Qed.

(** Looping over data frames is writing their pieces. *)
Lemma backup_loop_data ps tl v c c' :
  write_all ps c = Some c' ->
  backup_loop mem_write ((backupFrame_Encode <$> (data_frame <$> ps)) ++ tl) v c = backup_loop mem_write tl v c'.
Proof.
  revert c. induction ps as [|p ps IH]; intros c; cbn [write_all]; [by intros [= <-]|].
  rewrite !fmap_cons. cbn [app backup_loop]. rewrite data_frame_map, bool_other, bool_put by done. cbn iota. rewrite raw_put.
  destruct (container_Write mem_write p c) as [[[n|?|] c1]|]; [|done..]. apply IH.
Qed.

Lemma backup_loop_done v c : is_uint64 v -> backup_loop mem_write [backupFrame_Encode (done_frame v)] 0 c = Some (v, None, c).
Proof.
  intros Hv. unfold backupFrame_Encode, done_frame. cbn [bf_Done bf_Version backup_loop]. rewrite as_map, bool_other, bool_put by done.
  rewrite long_put by apply int64_range. by rewrite wrap64_int64, wrap64_small.
Qed.

(** The frames of a backup run, written into a fresh container in memory and closed. *)
Lemma client_Backup_dump run v password salt noncePfx :
  len salt = saltLen -> len noncePfx = noncePfxLen ->
  v = match br_end run with Ret v => v | _ => 0 end -> is_uint64 v ->
  exists d, dump password salt noncePfx (br_writes run ≫= pieces (Z.to_nat backupChunk)) = Some d /\
    client_Backup mem_write (Ret []) password (Ret salt) (Ret noncePfx) (Ret (backupFrame_Encode <$> backup_frames run)) (fun _ => None) =
      Some (v, None, Some d).
Proof.
  intros Hs Hp Hv Hu. destruct (dump_reads_back password salt noncePfx (br_writes run ≫= pieces (Z.to_nat backupChunk)) Hs Hp) as (d & r & HD & _).
  exists d. split; [done|]. unfold dump in HD. unfold client_Backup.
  destruct (NewWriter mem_write [] password (Ret salt) (Ret noncePfx)) as [c|?|]; [|done|done].
  destruct (write_all _ c) as [c'|] eqn:EW; cbn [mbind option_bind] in HD; [|done].
  unfold backup_frames. rewrite fmap_app, (backup_loop_data _ _ 0 c c' EW).
  assert (backup_loop mem_write (backupFrame_Encode <$> match br_end run with Ret v => [done_frame v] | _ => [] end) 0 c' = Some (v, None, c')) as ->.
  { destruct (br_end run); subst v; [by apply backup_loop_done|done..]. }
  cbn [mbind option_bind]. destruct (container_Close mem_write c') as [[e|] c'']; [done|]. by injection HD as <-.
Qed.

(** ** Chunks *)

Lemma enc_chunks_ReadAll fuel n r acc x :
  enc_ReadAll fuel n r acc = Some (Ret x) -> exists ps, enc_chunks fuel n r = Some (ps, None) /\ x = acc ++ concat ps.
Proof.
  revert r acc. induction fuel as [|fuel IH]; intros r acc; cbn [enc_ReadAll enc_chunks]; [done|].
  destruct (enc_Read n r) as [[[p|e|] r']|]; [|case_decide; [|done]|done|done].
  - intros (ps & -> & ->)%IH. exists (p :: ps). cbn [mbind option_bind concat]. by rewrite app_assoc.
  - intros [= <-]. exists []. by rewrite app_nil_r.
Qed.

Lemma read_chunks_ReadAll fuel n r x :
  (1 <= n)%nat -> ReadAll fuel n r = Some (Ret x) -> exists ps, read_chunks fuel n r = Some (ps, None) /\ concat ps = x.
Proof.
  intros Hn. destruct r as [src|r]; cbn [ReadAll read_chunks].
  - case_decide; [|done]. intros [= <-]. eexists. split; [done|]. by apply concat_pieces.
  - intros (ps & -> & ->)%enc_chunks_ReadAll. by exists ps.
Qed.

Lemma restore_writes_chunks ps : restore_writes (chunk_frame <$> ps) = ps.
Proof.
  unfold restore_writes, chunk_frame. induction ps as [|p ps IH]; [done|]. cbn. rewrite as_map. cbn. rewrite raw_put. f_equal. exact IH.
Qed.

Variable error_text : error -> bytes.

(** A node as the client's chat partner. *)
Definition node_chat (now : Z) (policy : option PolicyService) (principal : bytes) (replicated : bool) (stop : nat) (st : KeyValueStorageCtx)
    (inC : list WVal) : option (result (list WVal)) :=
  match fst (fst (admin_restore error_text now policy principal replicated stop inC st)) with
  | Ret (Some l) => Some (Ret l)
  | Ret None => None
  | Fail e => Some (Fail e)
  | Panic => Some Panic
  end.

Lemma server_error_ok : server_error [completion error_text None] = [].
Proof. unfold server_error, completion. cbn [fold_left]. rewrite as_map, bool_put, text_other, text_empty by done. done. Qed.

(** C25: Backup and restore over the wire preserve the contents. When a node's backup succeeds and
    the caller may take it, the client's dump, plain or encrypted, carries the version the node
    reported; restoring that dump with its password into an empty node that is not replicated, as a
    caller who may, succeeds and leaves exactly the records, versions and expiries of the first. *)
Theorem wire_backup_roundtrip (now now' : Z) (st empty : KeyValueStorageCtx) (policy policy' : option PolicyService) (principal principal' : bytes)
    (run : BackupRun) (data password salt noncePfx : bytes) (v : Z) (stop : nat) db' :
  len salt = saltLen -> len noncePfx = noncePfxLen -> is_uint64 v ->
  Storage.Backup st 0 = Ret (data, v) -> concat (br_writes run) = data -> br_end run = Ret v ->
  fst (Authorize now st policy principal PermBackupsCreate [] []) = Ret tt ->
  fst (Authorize now' empty policy' principal' PermBackupsRestore [] []) = Ret tt ->
  db_view (db empty) = ∅ -> db_Load (db empty) data = (Ret tt, db') ->
  exists frames d chunks st' p,
    fst (admin_backup now st policy principal run) = Ret frames /\
    client_Backup mem_write (Ret []) password (Ret salt) (Ret noncePfx) (Ret (backupFrame_Encode <$> frames)) (fun _ => None) = Some (v, None, Some d) /\
    client_Restore (Ret {| src_data := d; src_err := EOF |}) password (node_chat now' policy' principal' false stop empty) = Some (Ret tt) /\
    (exists r, NewReader {| src_data := d; src_err := EOF |} password = Ret r /\
       read_chunks (S (length d)) (Z.to_nat chunkSize) r = Some (chunks, None)) /\
    admin_restore error_text now' policy' principal' false stop (chunk_frame <$> chunks) empty = (Ret (Some [completion error_text None]), st', p) /\
    contents st' = contents st.
Proof.
  intros Hs Hp Hv HB Hw He HA HA' Hempty HL.
  destruct (client_Backup_dump run v password salt noncePfx Hs Hp ltac:(by rewrite He) Hv) as (d & HD & HC).
  destruct (dump_reads_back password salt noncePfx (br_writes run ≫= pieces (Z.to_nat backupChunk)) Hs Hp) as (d' & r & HD' & Hlen & HN & HR).
  rewrite HD in HD'. injection HD' as <-. rewrite concat_bind_pieces, Hw in * by apply backupChunk_pos.
  destruct (read_chunks_ReadAll (S (length d)) (Z.to_nat chunkSize) r data) as (chunks & Hch & Hcc); [apply chunkSize_pos|apply HR; [apply chunkSize_pos|lia]|].
  destruct (Authorize now' empty policy' principal' PermBackupsRestore [] []) as [a p] eqn:EA. cbn [fst] in HA'. subst a.
  assert (admin_restore error_text now' policy' principal' false stop (chunk_frame <$> chunks) empty =
    (Ret (Some [completion error_text None]), with_db empty db', p)) as HRst.
  { unfold admin_restore. rewrite EA, restore_writes_chunks, Hcc. unfold Storage.Load. by rewrite HL. }
  exists (backup_frames run), d, chunks, (with_db empty db'), p. split; [|split; [done|split; [|split; [by exists r|split; [done|]]]]].
  - unfold admin_backup. destruct (Authorize now st policy principal PermBackupsCreate [] []) as [a p0]. cbn [fst] in HA. by subst a.
  - unfold client_Restore. rewrite HN. cbn [src_data]. rewrite Hch. cbn [mbind option_bind]. unfold node_chat. rewrite HRst. cbn [fst].
    cbn [mbind option_bind]. by rewrite server_error_ok, decide_True.
  - unfold contents. cbn [db with_db]. by rewrite (backup_load_spec _ _ _ _ _ Hempty HB HL).
Qed.

(** A backup that breaks off is sealed as complete. When the engine's backup fails part way the
    node just ends the stream; the client closes the container as usual and reports no error, and
    the dump it leaves reads back to a clean end with only the data that arrived. *)
Theorem broken_backup_sealed (run : BackupRun) (e : error) (password salt noncePfx : bytes) :
  len salt = saltLen -> len noncePfx = noncePfxLen -> br_end run = Fail e ->
  exists d r, client_Backup mem_write (Ret []) password (Ret salt) (Ret noncePfx) (Ret (backupFrame_Encode <$> backup_frames run)) (fun _ => None) =
      Some (0, None, Some d) /\
    NewReader {| src_data := d; src_err := EOF |} password = Ret r /\
    ReadAll (S (length d)) 512 r = Some (Ret (concat (br_writes run))).
Proof.
  intros Hs Hp He. destruct (client_Backup_dump run 0 password salt noncePfx Hs Hp) as (d & HD & HC); [by rewrite He|done|].
  destruct (dump_reads_back password salt noncePfx (br_writes run ≫= pieces (Z.to_nat backupChunk)) Hs Hp) as (d' & r & HD' & Hlen & HN & HR).
  rewrite HD in HD'. injection HD' as <-. rewrite concat_bind_pieces in * by apply backupChunk_pos.
  exists d, r. split; [done|]. split; [done|]. apply HR; lia.
Qed.

(** Restoring a bad dump never ends. When loading fails before it has taken every chunk, the
    node's handler blocks on the pipe that nothing reads any more: it never sends its completion
    frame, and the client waits for ever (until its context is cancelled). *)
Theorem bad_restore_hangs (now : Z) (policy : option PolicyService) (principal : bytes) (stop : nat) (st : KeyValueStorageCtx)
    (src : Source) (password : bytes) (r : reader) (chunks : list bytes) (readErr : option error) (e : error) db' :
  fst (Authorize now st policy principal PermBackupsRestore [] []) = Ret tt ->
  NewReader src password = Ret r -> read_chunks (S (length (src_data src))) (Z.to_nat chunkSize) r = Some (chunks, readErr) ->
  db_Load (db st) (concat chunks) = (Fail e, db') -> (stop < length chunks)%nat ->
  client_Restore (Ret src) password (node_chat now policy principal false stop st) = None.
Proof.
  intros HA HN HC HL Hstop. unfold client_Restore. rewrite HN, HC. cbn [mbind option_bind]. unfold node_chat, admin_restore.
  destruct (Authorize now st policy principal PermBackupsRestore [] []) as [a p]. cbn [fst] in HA. subst a.
  rewrite restore_writes_chunks. unfold Storage.Load. rewrite HL. cbn [fst]. by rewrite (proj2 (Nat.ltb_lt _ _) Hstop).
Qed.

End Props.

(** ** Witnesses *)

Lemma flat_text_laws : @TextMapLaws flat_maps flat_text.
Proof.
  split; cbn; [done| |].
  - intros m k b. by rewrite bool_decide_eq_true_2.
  - intros m k k' v E. rewrite bool_decide_eq_false in E. by rewrite bool_decide_eq_false_2.
Qed.

#[local] Existing Instances flat_uuid mem_badger mem_spec flat_store flat_value flat_iam_structs flat_maps flat_maps_laws
  flat_text flat_text_laws flat_argon2 flat_argon2_laws toy_aead toy_aead_laws.

Definition demo_run : BackupRun := {| br_writes := [take 7 demo_backup; drop 7 demo_backup]; br_end := Ret 0 |}.

Definition demo_text (e : error) : bytes := str "failed".

Lemma wire_backup_roundtrip_witness :
  exists st' p chunks, admin_restore demo_text 200 None [] false 0 (chunk_frame <$> chunks) demo_storage =
    (Ret (Some [completion demo_text None]), st', p) /\ contents st' = contents demo_full.
Proof.
  destruct (wire_backup_roundtrip demo_text 100 200 demo_full demo_storage None None [] [] demo_run demo_backup (str "secret") toy_salt toy_pfx 0 0
    (snd (db_Load (db demo_storage) demo_backup)) eq_refl eq_refl) as (frames & d & chunks & st' & p & _ & _ & _ & _ & HR & HC).
  - unfold is_uint64. lia.
  - vm_compute. reflexivity.
  - cbn [br_writes demo_run concat]. rewrite app_nil_r. apply take_drop.
  - reflexivity.
  - reflexivity.
  - reflexivity.
  - vm_compute. reflexivity.
  - apply pair_by_fst. vm_compute. reflexivity.
  - exists st', p, chunks. split; [exact HR|exact HC].
Defined.

Lemma broken_backup_sealed_witness :
  exists d r, client_Backup mem_write (Ret []) (str "secret") (Ret toy_salt) (Ret toy_pfx)
      (Ret (backupFrame_Encode <$> backup_frames {| br_writes := [str "half"]; br_end := Fail (ErrEngine 3) |})) (fun _ => None) = Some (0, None, Some d) /\
    NewReader {| src_data := d; src_err := EOF |} (str "secret") = Ret r /\ ReadAll (S (length d)) 512 r = Some (Ret (str "half")).
Proof.
  apply (broken_backup_sealed {| br_writes := [str "half"]; br_end := Fail (ErrEngine 3) |} (ErrEngine 3) (str "secret") toy_salt toy_pfx); reflexivity.
Defined.

Lemma pieces_short (n : nat) (l : bytes) : l <> [] -> (length l <= n)%nat -> pieces n l = [l].
Proof.
  intros Hl Hn. destruct l as [|b l]; [done|]. unfold pieces. cbn [length]. cbn [cut_pieces].
  rewrite take_ge, drop_ge by done. by destruct (length l).
Qed.

Definition demo_bad : Source := {| src_data := magic ++ [byte_of formatVer; byte_of modePlain] ++ str "junk"; src_err := EOF |}.

Lemma bad_restore_hangs_witness :
  client_Restore (Ret demo_bad) [] (node_chat demo_text 100 None [] false 0 demo_storage) = None.
Proof.
  apply (bad_restore_hangs demo_text 100 None [] 0 demo_storage demo_bad [] (plainReader {| src_data := str "junk"; src_err := EOF |}) [str "junk"] None
    (ErrEngine 1) (db demo_storage)).
  - reflexivity.
  - vm_compute. reflexivity.
  - unfold read_chunks. rewrite pieces_short; [reflexivity|done|]. unfold chunkSize. cbn. lia.
  - vm_compute. reflexivity.
  - cbn. lia.
Defined.
