(* ===== verification/Sinks.v ===== *)
(** * Backup destinations in object storage ([pkg/backup/objstore.go])

    The sink that streams a backup into an upload while it is produced. The upload runs in a
    goroutine that reads the other end of a pipe; what the object store does with it, accept it all
    or fail after some bytes, is a parameter of each run. *)

From S2P Require Import Prelude Pb Codecs Password Backup BackupProps Net Admin AdminProps.

(** ** The sink *)

(** [client.PutObject]: it takes everything up to the end of the pipe, or fails after some bytes. *)
Inductive upload : Type := Accepts | Fails (after : nat) (e : error).

(** The sink: what the upload has read, and the error it has closed the pipe with. *)
Record s3Sink : Type := { sk_upload : upload; sk_read : bytes; sk_broken : bool }.

Definition newS3Sink (u : upload) : s3Sink := {| sk_upload := u; sk_read := []; sk_broken := false |}.

(** The options of the upload: the retention mode and the days, when asked for. *)
Record PutObjectOptions : Type := { po_ContentType : bytes; po_Mode : option bytes; po_RetainDays : Z }.

Definition put_options (retainDays : Z) : PutObjectOptions := {|
  po_ContentType := str "application/octet-stream";
  po_Mode := if 0 <? retainDays then Some (str "GOVERNANCE") else None;
  po_RetainDays := if 0 <? retainDays then retainDays else 0 |}.

(** [s3Sink.Write]: the pipe hands the bytes over, or reports the error of an upload that ended. *)
Definition s3_Write : Writer s3Sink := fun p s =>
  match sk_upload s with
  | Accepts => (None, {| sk_upload := Accepts; sk_read := sk_read s ++ p; sk_broken := false |})
  | Fails k e =>
      if sk_broken s then (Some e, s)
      else if (length (sk_read s ++ p) <=? k)%nat then (None, {| sk_upload := Fails k e; sk_read := sk_read s ++ p; sk_broken := false |})
      else (Some e, {| sk_upload := Fails k e; sk_read := take k (sk_read s ++ p); sk_broken := true |})
  end.

(** [s3Sink.Close]: the end of the pipe, and then the outcome of the upload. *)
Definition s3_Close (s : s3Sink) : option error := match sk_upload s with Accepts => None | Fails _ e => Some e end.

(** The object that is in the bucket after [Close]. *)
Definition s3_object (s : s3Sink) : option bytes := match sk_upload s with Accepts => Some (sk_read s) | Fails _ _ => None end.

(** ** Containers over related writers *)

Section Simulate.
Context `{Argon2Pkg} `{AeadPkg} `{ValueMaps}.
Context {D1 D2 : Type} (w1 : Writer D1) (w2 : Writer D2) (f : D1 -> D2) (P : D1 -> Prop).
Hypothesis sim : forall p s, P s -> P (snd (w1 p s)) /\ w2 p (f s) = (fst (w1 p s), f (snd (w1 p s))).

Definition enc_map (w : @encWriter _ D1) : @encWriter _ D2 := {|
  ew_dst := f (ew_dst w); ew_aead := ew_aead w; ew_noncePfx := ew_noncePfx w; ew_counter := ew_counter w; ew_buf := ew_buf w; ew_closed := ew_closed w |}.

Definition cont_map (c : @container _ D1) : @container _ D2 :=
  match c with plainWriter d => plainWriter (f d) | encryptedWriter w => encryptedWriter (enc_map w) end.

Lemma write_sim p s : P s -> exists e s', w1 p s = (e, s') /\ w2 p (f s) = (e, f s') /\ P s'.
Proof. intros HP. destruct (sim p s HP) as [HP' ->]. destruct (w1 p s) as [e s']. by exists e, s'. Qed.

Lemma seal_sim last w : P (ew_dst w) -> exists e w', seal w1 last w = (e, w') /\ seal w2 last (enc_map w) = (e, enc_map w') /\ P (ew_dst w').
Proof.
  intros HP. unfold seal. cbn. match goal with |- context [w1 ?b (ew_dst w)] => destruct (write_sim b _ HP) as (e1 & s1 & -> & -> & HP1) end.
  destruct e1 as [e1|]; [by eexists _, _|]. cbn.
  match goal with |- context [w1 ?b s1] => destruct (write_sim b _ HP1) as (e2 & s2 & -> & -> & HP2) end. by eexists _, _.
Qed.

Lemma write_loop_sim fuel p w : P (ew_dst w) ->
  match write_loop w1 fuel p w with
  | Some (e, w') => write_loop w2 fuel p (enc_map w) = Some (e, enc_map w') /\ P (ew_dst w')
  | None => write_loop w2 fuel p (enc_map w) = None
  end.
Proof.
  revert p w. induction fuel as [|fuel IH]; intros p w HP; [done|]. cbn [write_loop]. cbn [ew_buf enc_map].
  destruct (len p =? 0); [done|]. set (n := if _ <? _ then _ else _). set (wn := set_buf w _).
  change (set_buf (enc_map w) (ew_buf w ++ take (Z.to_nat n) p)) with (enc_map wn). change (ew_buf (enc_map wn)) with (ew_buf wn).
  destruct (len (ew_buf wn) =? chunkSize); [|by apply IH].
  destruct (seal_sim false wn HP) as (e & w' & -> & -> & HP'). destruct e; [done|]. by apply IH.
Qed.

Lemma container_Write_sim p c : P (container_dst c) ->
  match container_Write w1 p c with
  | Some (r, c') => container_Write w2 p (cont_map c) = Some (r, cont_map c') /\ P (container_dst c')
  | None => container_Write w2 p (cont_map c) = None
  end.
Proof.
  intros HP. destruct c as [d|w]; cbn in *.
  - destruct (write_sim p d HP) as (e & s' & -> & -> & HP'). done.
  - unfold enc_Write. cbn [ew_closed enc_map]. destruct (ew_closed w); [done|]. pose proof (write_loop_sim (S (length p)) p w HP) as HL.
    destruct (write_loop w1 (S (length p)) p w) as [[[e|] w']|]; [destruct HL as [-> HL]..|rewrite HL]; done.
Qed.

Lemma container_Close_sim c : P (container_dst c) ->
  exists e c', container_Close w1 c = (e, c') /\ container_Close w2 (cont_map c) = (e, cont_map c') /\ P (container_dst c').
Proof.
  intros HP. destruct c as [d|w]; cbn in *; [by eexists _, _|]. unfold enc_Close. cbn [ew_closed enc_map]. destruct (ew_closed w); [by eexists _, _|].
  match goal with |- context [seal w1 true ?x] => destruct (seal_sim true x HP) as (e & w' & E1 & E2 & HP'); rewrite E1 end.
  eexists _, _. split; [done|]. split; [|done]. unfold enc_map at 1 in E2. cbn in E2 |- *. by rewrite E2.
Qed.

Lemma NewWriter_sim d password salt pfx : P d ->
  match NewWriter w1 d password salt pfx with
  | Ret c => NewWriter w2 (f d) password salt pfx = Ret (cont_map c) /\ P (container_dst c)
  | Fail e => NewWriter w2 (f d) password salt pfx = Fail e
  | Panic => NewWriter w2 (f d) password salt pfx = Panic
  end.
Proof.
  intros HP. unfold NewWriter. destruct (decide (password = [])) as [Hpw|Hpw].
  - destruct (write_sim (header modePlain [] []) d HP) as (e & s' & -> & -> & HP'). by destruct e.
  - destruct salt as [salt|?|]; cbn; [|done..]. destruct pfx as [pfx|?|]; cbn; [|done..]. destruct (newAEAD password salt) as [a|?|]; cbn; [|done..].
    match goal with |- context [w1 ?b d] => destruct (write_sim b d HP) as (e & s' & -> & -> & HP') end. by destruct e.
Qed.

Lemma backup_loop_sim frames v c : P (container_dst c) ->
  match backup_loop w1 frames v c with
  | Some (v', e, c') => backup_loop w2 frames v (cont_map c) = Some (v', e, cont_map c') /\ P (container_dst c')
  | None => backup_loop w2 frames v (cont_map c) = None
  end.
Proof.
  revert v c. induction frames as [|x frames IH]; intros v c HP; [done|]. cbn [backup_loop]. destruct (AsMap x) as [m|]; [|by apply IH].
  destruct (GetBool m (str "done")); [by apply IH|]. pose proof (container_Write_sim (GetRaw m (str "data")) c HP) as HW.
  destruct (container_Write w1 (GetRaw m (str "data")) c) as [[[n|e|] c']|]; [destruct HW as [-> HW]..|rewrite HW]; [by apply IH|done..].
Qed.

End Simulate.

(** ** Properties *)

Section Props.
Context `{Argon2Pkg} `{AeadPkg} `{!Argon2Laws} `{!AeadLaws} `{ValueMaps}.

Lemma accepts_sim p s : sk_upload s = Accepts -> sk_upload (snd (s3_Write p s)) = Accepts /\ mem_write p (sk_read s) = (fst (s3_Write p s), sk_read (snd (s3_Write p s))).
Proof. intros E. unfold s3_Write. by rewrite E. Qed.

Lemma fails_sim k e p s : sk_upload s = Fails k e -> sk_upload (snd (s3_Write p s)) = Fails k e /\ s3_Write p (id s) = (fst (s3_Write p s), id (snd (s3_Write p s))).
Proof. intros E. split; [|unfold id; by destruct (s3_Write p s)]. unfold s3_Write. rewrite E. destruct (sk_broken s); [done|]. by destruct (_ <=? _)%nat. Qed.

(** C26: a backup to object storage is never reported complete when it is not. If [Backup] returns no
    error, the stream was opened, the object store took everything, and the object is byte for byte
    the container that the same stream gives in memory; an upload that fails, early, late or while
    it is finished, always surfaces as an error. *)
Theorem s3_backup_honest (u : upload) (password : bytes) (salt noncePfx : result bytes) (stream : result (list WVal)) (v : Z) (d : option s3Sink) :
  client_Backup s3_Write (Ret (newS3Sink u)) password salt noncePfx stream s3_Close = Some (v, None, d) ->
  exists s frames, d = Some s /\ stream = Ret frames /\ u = Accepts /\ s3_object s = Some (sk_read s) /\
    client_Backup mem_write (Ret []) password salt noncePfx (Ret frames) (fun _ => None) = Some (v, None, Some (sk_read s)).
Proof.
  unfold client_Backup. intros HB. destruct u as [|k e].
  - pose proof (NewWriter_sim s3_Write mem_write sk_read (fun s => sk_upload s = Accepts) accepts_sim (newS3Sink Accepts) password salt noncePfx eq_refl) as HN.
    destruct (NewWriter s3_Write _ password salt noncePfx) as [c|?|]; [|done..]. destruct HN as [HN HP]. destruct stream as [frames|?|]; [|done..].
    pose proof (backup_loop_sim s3_Write mem_write sk_read (fun s => sk_upload s = Accepts) accepts_sim frames 0 c HP) as HL.
    destruct (backup_loop s3_Write frames 0 c) as [[[v' err] c']|]; cbn [mbind option_bind] in HB; [|done]. destruct HL as [HL HP'].
    destruct (container_Close_sim s3_Write mem_write sk_read (fun s => sk_upload s = Accepts) accepts_sim c' HP') as (ec & c'' & E1 & E2 & HP'').
    rewrite E1 in HB. injection HB as <- He <-. exists (container_dst c''), frames. split; [done|]. split; [done|]. split; [done|].
    unfold s3_object, s3_Close in *. rewrite HP'' in *. split; [done|]. change (@nil byte) with (sk_read (newS3Sink Accepts)). rewrite HN.
    rewrite HL. cbn [mbind option_bind]. rewrite E2. do 3 f_equal; [done|]. by destruct c''.
  - pose proof (NewWriter_sim s3_Write s3_Write id (fun s => sk_upload s = Fails k e) (fails_sim k e) (newS3Sink (Fails k e)) password salt noncePfx eq_refl) as HN.
    destruct (NewWriter s3_Write _ password salt noncePfx) as [c|?|]; [|done..]. destruct HN as [_ HP]. destruct stream as [frames|?|]; [|done..].
    pose proof (backup_loop_sim s3_Write s3_Write id (fun s => sk_upload s = Fails k e) (fails_sim k e) frames 0 c HP) as HL.
    destruct (backup_loop s3_Write frames 0 c) as [[[v' err] c']|]; cbn [mbind option_bind] in HB; [|done]. destruct HL as [_ HP'].
    destruct (container_Close_sim s3_Write s3_Write id (fun s => sk_upload s = Fails k e) (fails_sim k e) c' HP') as (ec & c'' & E1 & _ & HP'').
    rewrite E1 in HB. injection HB as _ He _. unfold s3_Close in He. rewrite HP'' in He. by destruct err, ec.
Qed.

(** A backup that fails before it starts replaces the previous one. When the node cannot be
    reached or refuses the stream, [Backup] reports the error, but it has already sealed the
    container and finished the upload: the object now is a complete dump that reads back, without
    any error, to nothing. *)
Theorem refused_backup_overwrites (password salt noncePfx : bytes) (e : error) :
  len salt = saltLen -> len noncePfx = noncePfxLen ->
  exists s d r, client_Backup s3_Write (Ret (newS3Sink Accepts)) password (Ret salt) (Ret noncePfx) (Fail e) s3_Close = Some (0, Some e, Some s) /\
    s3_object s = Some d /\ NewReader {| src_data := d; src_err := EOF |} password = Ret r /\ ReadAll 1 512 r = Some (Ret []).
Proof.
  intros Hs Hp. destruct (dump_reads_back password salt noncePfx [] Hs Hp) as (d & r & HD & _ & HN & HR). unfold dump in HD.
  pose proof (NewWriter_sim s3_Write mem_write sk_read (fun s => sk_upload s = Accepts) accepts_sim (newS3Sink Accepts) password (Ret salt) (Ret noncePfx) eq_refl) as HW.
  unfold client_Backup. change (@nil byte) with (sk_read (newS3Sink Accepts)) in HD.
  destruct (NewWriter s3_Write _ password (Ret salt) (Ret noncePfx)) as [c|?|]; [|rewrite HW in HD; done..]. destruct HW as [HW HP]. rewrite HW in HD. cbn in HD.
  destruct (container_Close_sim s3_Write mem_write sk_read (fun s => sk_upload s = Accepts) accepts_sim c HP) as (ec & c' & E1 & E2 & HP').
  rewrite E2 in HD. destruct ec; [done|]. injection HD as <-. rewrite E1. exists (container_dst c'), (sk_read (container_dst c')), r.
  split; [done|]. unfold s3_object. rewrite HP'. split; [done|]. split; [|apply HR; cbn; lia]. destruct c'; done.
Qed.

End Props.

(** ** Witnesses *)

Section Witness.
#[local] Existing Instances flat_maps flat_maps_laws flat_text flat_text_laws flat_argon2 flat_argon2_laws toy_aead toy_aead_laws.

Definition demo_frames : list WVal := backupFrame_Encode <$> [data_frame (str "half"); done_frame 3].

Definition demo_upload : option (Z * option error * option s3Sink) :=
  client_Backup s3_Write (Ret (newS3Sink Accepts)) [] (Ret toy_salt) (Ret toy_pfx) (Ret demo_frames) s3_Close.

Lemma s3_backup_honest_witness :
  exists s, s3_object s = Some (sk_read s) /\
    client_Backup mem_write (Ret []) [] (Ret toy_salt) (Ret toy_pfx) (Ret demo_frames) (fun _ => None) = Some (3, None, Some (sk_read s)).
Proof.
  destruct (s3_backup_honest Accepts [] (Ret toy_salt) (Ret toy_pfx) (Ret demo_frames) 3
    (match demo_upload with Some (_, _, d) => d | None => None end) ltac:(vm_compute; reflexivity)) as (s & frames & _ & [= <-] & _ & Ho & Hm).
  exists s. exact (conj Ho Hm).
Defined.

Lemma refused_backup_overwrites_witness :
  exists s d r, client_Backup s3_Write (Ret (newS3Sink Accepts)) (str "secret") (Ret toy_salt) (Ret toy_pfx) (Fail (ErrNew (str "permission denied"))) s3_Close
      = Some (0, Some (ErrNew (str "permission denied")), Some s) /\
    s3_object s = Some d /\ NewReader {| src_data := d; src_err := EOF |} (str "secret") = Ret r /\ ReadAll 1 512 r = Some (Ret []).
Proof. apply (refused_backup_overwrites (str "secret") toy_salt toy_pfx (ErrNew (str "permission denied"))); reflexivity. Defined.

End Witness.
