(* ===== verification/NodeIdentity.v ===== *)
(** * Node identity and transport security ([pkg/replication/nodeidentity.go],
    [pkg/replication/nodetls.go], [pkg/replication/peercheck.go], the TLS part of [pkg/iam/ca.go])

    A node keeps its certificate, key and the cluster's root in files of its data directory. It
    obtains them once: the seed by generating the root, a joiner by enrolling with a token. File
    system, TLS and the exchange with a peer are parameters. *)

From S2P Require Import Prelude Sha256 Pb Keys Engine Storage StorageSpec StorageReads StorageProps Value Ledger Service Iam PolicyService Password Auth Console Pki Net.

(** ** Files

    [ReadFile] is [None] on any error, which no caller looks at; a write that fails may leave
    anything in its file. *)
Class OsPkg (D : Type) : Type := {
  ReadFile : bytes -> D -> option bytes;
  WriteFile : bytes -> bytes -> Z -> D -> option error * D;
  MkdirAll : bytes -> Z -> D -> option error * D
}.

Class OsLaws (D : Type) `{OsPkg D} : Prop := {
  write_read : forall path data mode d d', WriteFile path data mode d = (None, d') -> ReadFile path d' = Some data;
  write_frame : forall path data mode d r d' other, WriteFile path data mode d = (r, d') -> other <> path -> ReadFile other d' = ReadFile other d;
  mkdir_frame : forall path mode d r d' other, MkdirAll path mode d = (r, d') -> ReadFile other d' = ReadFile other d
}.

(** ** TLS *)

Class TlsPkg : Type := {
  tls_Certificate : Type;
  CertPool : Type;
  X509KeyPair : bytes -> bytes -> result tls_Certificate;
  AppendCertsFromPEM : bytes -> option CertPool   (* a new pool, [None] when nothing was added *)
}.

Definition VersionTLS12 : Z := 771.

Section Tls.
Context `{TlsPkg}.

Record tls_Config : Type := {
  tc_Certificates : list tls_Certificate; tc_RootCAs : option CertPool; tc_ClientCAs : option CertPool;
  tc_RequireAndVerifyClientCert : bool; tc_ServerName : bytes; tc_MinVersion : Z }.

Definition certPool (caPEM : bytes) : result CertPool :=
  match AppendCertsFromPEM caPEM with
  | Some pool => Ret pool
  | None => Fail (ErrNew (str "iam: CA bundle has no certificates"))
  end.

Definition ServerTLSConfig (caPEM certPEM keyPEM : bytes) : result tls_Config :=
  cert ← wrap "iam: server keypair" (X509KeyPair certPEM keyPEM);
  pool ← certPool caPEM;
  Ret {| tc_Certificates := [cert]; tc_RootCAs := None; tc_ClientCAs := Some pool;
         tc_RequireAndVerifyClientCert := true; tc_ServerName := []; tc_MinVersion := VersionTLS12 |}.

Definition ClientTLSConfig (caPEM certPEM keyPEM : bytes) : result tls_Config :=
  cert ← wrap "iam: client keypair" (X509KeyPair certPEM keyPEM);
  pool ← certPool caPEM;
  Ret {| tc_Certificates := [cert]; tc_RootCAs := Some pool; tc_ClientCAs := None;
         tc_RequireAndVerifyClientCert := false; tc_ServerName := []; tc_MinVersion := VersionTLS12 |}.

Definition MutualTLSConfig (caPEM certPEM keyPEM serverName : bytes) : result tls_Config :=
  cert ← wrap "iam: node keypair" (X509KeyPair certPEM keyPEM);
  pool ← certPool caPEM;
  Ret {| tc_Certificates := [cert]; tc_RootCAs := Some pool; tc_ClientCAs := Some pool;
         tc_RequireAndVerifyClientCert := true; tc_ServerName := serverName; tc_MinVersion := VersionTLS12 |}.

End Tls.

(** ** The identity files *)

Definition pkiDirName : bytes := str "pki".
Definition nodeCertFile : bytes := str "node-cert.pem".
Definition nodeKeyFile : bytes := str "node-key.pem".
Definition caCertFile : bytes := str "ca.pem".
Definition caKeyFile : bytes := str "ca-key.pem".
Definition nodeSelfCertTTL : Z := 5 * 365 * day.

Record NodeIdentity : Type := { ni_CertPEM : bytes; ni_KeyPEM : bytes; ni_CAPEM : bytes }.

Definition pkiDir (dataDir : bytes) : bytes := path_Join [dataDir; pkiDirName].
Definition pki_file (dataDir file : bytes) : bytes := path_Join [pkiDir dataDir; file].

Definition mode0600 : Z := 384.
Definition mode0644 : Z := 420.
Definition mode0700 : Z := 448.

Section Files.
Context {D : Type} `{OsPkg D}.

Definition nonempty (b : option bytes) : option bytes :=
  match b with Some [] | None => None | Some b => Some b end.

Definition LoadNodeIdentity (dataDir : bytes) (d : D) : option NodeIdentity :=
  cert ← nonempty (ReadFile (pki_file dataDir nodeCertFile) d);
  key ← nonempty (ReadFile (pki_file dataDir nodeKeyFile) d);
  ca ← nonempty (ReadFile (pki_file dataDir caCertFile) d);
  Some {| ni_CertPEM := cert; ni_KeyPEM := key; ni_CAPEM := ca |}.

(** [NodeIdentity.Save]: the key, then the certificate, then the root. *)
Definition Save (id : NodeIdentity) (dataDir : bytes) (d : D) : option error * D :=
  match MkdirAll (pkiDir dataDir) mode0700 d with
  | (Some e, d) => (Some e, d)
  | (None, d) =>
  match WriteFile (pki_file dataDir nodeKeyFile) (ni_KeyPEM id) mode0600 d with
  | (Some e, d) => (Some e, d)
  | (None, d) =>
  match WriteFile (pki_file dataDir nodeCertFile) (ni_CertPEM id) mode0644 d with
  | (Some e, d) => (Some e, d)
  | (None, d) => WriteFile (pki_file dataDir caCertFile) (ni_CAPEM id) mode0644 d
  end end end.

Definition SaveGenesisCA (dataDir : bytes) (caRec : CARecord) (d : D) : option error * D :=
  WriteFile (pki_file dataDir caKeyFile) (cr_KeyPEM caRec) mode0600 d.

Definition LoadGenesisCA (now : Z) (dataDir : bytes) (d : D) : option CARecord :=
  cert ← nonempty (ReadFile (pki_file dataDir caCertFile) d);
  key ← nonempty (ReadFile (pki_file dataDir caKeyFile) d);
  Some {| cr_CertPEM := cert; cr_KeyPEM := key; cr_CreatedAt := now |}.

Definition HasTransportCA (dataDir : bytes) (d : D) : bool :=
  bool_decide (is_Some (nonempty (ReadFile (pki_file dataDir caCertFile) d))).

(** *** Cluster identity ([peercheck.go]) *)

Context `{X509Pkg}.

Definition CAFingerprintFromPEM (pemBytes : bytes) : result bytes :=
  match pem_Decode pemBytes with
  | None => Fail (ErrNew (str "CA certificate PEM invalid"))
  | Some der => Ret (str "sha256:" ++ DigestHex (Sha256.sum der))
  end.

Definition TransportCAFingerprint (dataDir : bytes) (d : D) : option bytes :=
  pemBytes ← nonempty (ReadFile (pki_file dataDir caCertFile) d);
  match CAFingerprintFromPEM pemBytes with Ret fp => Some fp | _ => None end.

Context `{TlsPkg}.

Definition MutualConfig (id : NodeIdentity) : result tls_Config :=
  MutualTLSConfig (ni_CAPEM id) (ni_CertPEM id) (ni_KeyPEM id) NodeSANDNS.

(** [dial] is [tls.DialWithDialer] over TCP: the peer's verified chain of the handshake. *)
Definition PreflightClusterPeer (dial : bytes -> tls_Config -> result (list x509_Certificate))
    (dataDir nodeID addr : bytes) (d : D) : result unit :=
  match LoadNodeIdentity dataDir d with
  | None => Fail (ErrNew (str "this node has no cluster identity to verify with (no pki/ material)"))
  | Some id =>
      cfg ← MutualConfig id;
      match dial addr cfg with
      | Panic => Panic
      | Fail e => Fail (ErrWrap (addr ++ str " did not present this cluster's identity (certificate must chain to this cluster's CA)") e)
      | Ret peers =>
          if bool_decide (nodeID = []) then Ret tt else
          match peers with
          | [] => Fail (ErrNew (addr ++ str " presented no certificate"))
          | leaf :: _ =>
              if bool_decide (xc_CommonName leaf = nodeID) then Ret tt
              else Fail (ErrNew (addr ++ str " identifies as node " ++ xc_CommonName leaf ++ str ", not the requested " ++ nodeID))
          end
      end
  end.

(** *** Genesis and enrollment *)

(** What the console finds on the disk when it needs the authority ([ConsoleHandler.newCARecord]);
    the other fields come from the random source and the configuration. *)
Definition disk_env (now : Z) (dataDir : bytes) (d : D) (generated : result CARecord) (serial : result Z)
    (leafKey : result ECKey) (bootstrap : bytes) : PkiEnv := {|
  pe_genesis := LoadGenesisCA now dataDir d; pe_transport := HasTransportCA dataDir d; pe_generated := generated;
  pe_serial := serial; pe_leafKey := leafKey; pe_bootstrap := bootstrap |}.

(** What the random source yields for the root and for the node's own certificate. *)
Record GenesisRandom : Type := {
  gr_caKey : result ECKey; gr_caSerial : result Z; gr_leafKey : result ECKey; gr_leafSerial : result Z }.

(** [splitNodeHosts] is [splitHosts] of the console, line by line. *)
Definition splitNodeHosts (hosts : list bytes) : list bytes * list bytes := split_loop ∅ hosts.

Definition GenesisIdentity (now : Z) (rnd : GenesisRandom) (nodeID : bytes) (hosts : list bytes) : result (NodeIdentity * CARecord) :=
  caRec ← GenerateCA now (gr_caKey rnd) (gr_caSerial rnd);
  ca ← CARecord_Load caRec;
  '(keyPEM, pub) ← GenerateLeafKey (gr_leafKey rnd);
  let '(dns, ips) := splitNodeHosts ([nodeID; NodeSANDNS] ++ hosts) in
  certPEM ← Sign now (gr_leafSerial rnd) ca {| cq_PublicKey := pub; cq_CommonName := nodeID; cq_URIs := []; cq_DNSNames := dns;
              cq_IPs := ips; cq_Client := true; cq_Server := true; cq_TTL := nodeSelfCertTTL |};
  Ret ({| ni_CertPEM := certPEM; ni_KeyPEM := keyPEM; ni_CAPEM := cr_CertPEM caRec |}, caRec).

(** The body of an enrollment request and the decoded answer. *)
Record EnrollRequest : Type := { eq_Token : bytes; eq_NodeId : bytes; eq_RaftAddr : bytes; eq_Advertise : bytes; eq_CsrPem : bytes }.

Record EnrollAnswer : Type := { ea_StatusCode : Z; ea_Status : bytes; ea_CertPem : bytes; ea_CaPem : bytes; ea_Error : bytes }.

(** [strings.TrimRight(s, "/")]. *)
Fixpoint trim_slashes (r : bytes) : bytes :=
  match r with b :: rest => if bool_decide (b = slash) then trim_slashes rest else r | [] => [] end.

Definition TrimRightSlash (s : bytes) : bytes := rev (trim_slashes (rev s)).

(** The exchange with the peer's console changes the cluster, [P]. *)
Context {P : Type} (post : bytes -> EnrollRequest -> P -> result EnrollAnswer * P).

Definition EnrollNode (key : result ECKey) (peerURL token nodeID raftAddr advertise : bytes) (p : P) : result NodeIdentity * P :=
  match GenerateCSR key nodeID with
  | Fail e => (Fail e, p)
  | Panic => (Panic, p)
  | Ret (keyPEM, csrPEM) =>
      match post (TrimRightSlash peerURL ++ str "/api/cluster/enroll")
              {| eq_Token := token; eq_NodeId := nodeID; eq_RaftAddr := raftAddr; eq_Advertise := advertise; eq_CsrPem := csrPEM |} p with
      | (Fail e, p) => (Fail (ErrWrap (str "enroll to " ++ peerURL) e), p)
      | (Panic, p) => (Panic, p)
      | (Ret out, p) =>
          if negb (ea_StatusCode out =? StatusCreated) || bool_decide (ea_CertPem out = []) then
            (Fail (ErrNew (str "enroll rejected: " ++ (if bool_decide (ea_Error out = []) then ea_Status out else ea_Error out))), p)
          else (Ret {| ni_CertPEM := ea_CertPem out; ni_KeyPEM := keyPEM; ni_CAPEM := ea_CaPem out |}, p)
      end
  end.

(** *** Provisioning ([NodeTLSFactory]) *)

(** The properties the factory reads; [np_advertised] is the bind address with the private IP in
    place ([raftmod.ReplaceToPrivateIP]). *)
Record NodeProps : Type := {
  np_dataDir : bytes; np_advertised : bytes; np_advertise_address : bytes; np_join_token : bytes;
  np_bootstrap : bool; np_bootstrap_token : bytes; np_join_peer : bytes }.

Definition enroll (props : NodeProps) (key : result ECKey) (nodeID token raftAddr advHost : bytes) (d : D) (p : P) :
    result NodeIdentity * D * P :=
  if bool_decide (np_join_peer props = []) then (Fail (ErrNew (str "join requires consensusdb.join-peer")), d, p) else
  match EnrollNode key (np_join_peer props) token nodeID raftAddr advHost p with
  | (Fail e, p) => (Fail e, d, p)
  | (Panic, p) => (Panic, d, p)
  | (Ret id, p) =>
      match Save id (np_dataDir props) d with
      | (Some e, d) => (Fail e, d, p)
      | (None, d) => (Ret id, d, p)
      end
  end.

Definition genesis (props : NodeProps) (now : Z) (rnd : GenesisRandom) (nodeID raftAddr : bytes) (d : D) : result NodeIdentity * D :=
  match GenesisIdentity now rnd nodeID [hostOf raftAddr; hostOf (np_advertised props)] with
  | Fail e => (Fail e, d)
  | Panic => (Panic, d)
  | Ret (id, caRec) =>
      match Save id (np_dataDir props) d with
      | (Some e, d) => (Fail e, d)
      | (None, d) =>
          match SaveGenesisCA (np_dataDir props) caRec d with
          | (Some e, d) => (Fail e, d)
          | (None, d) => (Ret id, d)
          end
      end
  end.

Definition raft_address (props : NodeProps) : bytes :=
  if bool_decide (np_advertise_address props = []) then np_advertised props else np_advertise_address props.

Definition provision (props : NodeProps) (now : Z) (rnd : GenesisRandom) (nodeID : bytes) (d : D) (p : P) :
    result NodeIdentity * D * P :=
  match LoadNodeIdentity (np_dataDir props) d with
  | Some id => (Ret id, d, p)
  | None =>
      let raftAddr := raft_address props in
      let advHost := hostOf (np_advertised props) in
      if negb (bool_decide (np_join_token props = [])) then
        enroll props (gr_leafKey rnd) nodeID (np_join_token props) raftAddr advHost d p
      else if np_bootstrap props then
        let '(r, d) := genesis props now rnd nodeID raftAddr d in (r, d, p)
      else if negb (bool_decide (np_bootstrap_token props = [])) then
        enroll props (gr_leafKey rnd) nodeID (np_bootstrap_token props) raftAddr advHost d p
      else (Fail (ErrNew (str "cluster node has no identity")), d, p)
  end.

(** [NodeTLSFactory.Object]: the configuration of the consensus transport. *)
Definition transport_config (props : NodeProps) (now : Z) (rnd : GenesisRandom) (nodeID : bytes) (d : D) (p : P) :
    result tls_Config * D * P :=
  let '(r, d, p) := provision props now rnd nodeID d p in
  ((id ← wrap "node mTLS identity" r; MutualConfig id), d, p).

End Files.
