(* ===== verification/NodeIdentityProps.v ===== *)
(** * Properties of node identity

    A provisioned identity survives restarts; the root a seed generates is the one the cluster
    publishes; a genesis interrupted between its last two writes leaves a node that starts but can
    never admit another one. *)

From S2P Require Import Prelude Sha256 Pb Keys Engine Storage StorageSpec StorageReads StorageProps ScanProps Value Ledger Service Iam PolicyService Password Auth Console Pki PkiProps Net NodeIdentity.

(** ** Paths of the identity files *)

Lemma clean_components rooted cs out : Forall (fun c => c <> []) out -> Forall (fun c => c <> []) (fold_left (clean_step rooted) cs out).
Proof.
  revert out. induction cs as [|c cs IH]; intros out Ho; cbn [fold_left]; [done|]. apply IH. unfold clean_step.
  case_bool_decide as E1; [done|]. case_bool_decide as E2; [done|]. cbn [orb]. case_bool_decide as E3; [|by constructor].
  destruct out as [|top rest]; [destruct rooted; by constructor|]. case_bool_decide; [by constructor|]. by inversion Ho.
Qed.

Lemma Clean_nonempty path : Clean path <> [].
Proof.
  unfold Clean. set (rooted := bool_decide _). destruct rooted; [done|]. case_bool_decide as E; [done|].
  pose proof (clean_components false (Split slash path) [] (Forall_nil_2 _)) as Hc. apply Forall_rev in Hc.
  destruct (rev _) as [|c cs]; [done|]. inversion Hc as [|? ? Hc1 _]; subst. cbn [sep_join]. by destruct c.
Qed.

Lemma pkiDir_nonempty dataDir : pkiDir dataDir <> [].
Proof. unfold pkiDir. cbn [path_Join]. case_bool_decide; apply Clean_nonempty. Qed.

Lemma pki_file_inj dataDir f1 f2 :
  bool_decide (plain_name f1 /\ plain_name f2 /\ f1 <> f2) = true -> pki_file dataDir f1 <> pki_file dataDir f2.
Proof.
  intros (H1 & H2 & Hne)%bool_decide_eq_true E. apply Hne. by apply (path_Join_plain (pkiDir dataDir)); [apply pkiDir_nonempty|..].
Qed.

(** Two of the four files are different ones. *)
Ltac pki_files := apply pki_file_inj; vm_compute; reflexivity.

Section Props.
Context {D : Type} `{!OsPkg D} `{!OsLaws D}.

Definition complete (id : NodeIdentity) : Prop := ni_CertPEM id <> [] /\ ni_KeyPEM id <> [] /\ ni_CAPEM id <> [].

Lemma nonempty_Some b : b <> [] -> nonempty (Some b) = Some b.
Proof. by destruct b. Qed.

(** A complete identity that was saved is the one that is loaded, and saving leaves the other
    files alone. *)
Lemma Save_Load id dir (d d' : D) :
  complete id -> Save id dir d = (None, d') -> LoadNodeIdentity dir d' = Some id.
Proof.
  intros (Hc & Hk & Ha). unfold Save. destruct (MkdirAll _ _ d) as [[|] d0] eqn:E0; [done|].
  destruct (WriteFile _ (ni_KeyPEM id) _ d0) as [[|] d1] eqn:E1; [done|].
  destruct (WriteFile _ (ni_CertPEM id) _ d1) as [[|] d2] eqn:E2; [done|]. intros E3.
  assert (ReadFile (pki_file dir caCertFile) d' = Some (ni_CAPEM id)) as R3 by by eapply write_read.
  assert (ReadFile (pki_file dir nodeCertFile) d' = Some (ni_CertPEM id)) as R2.
  { rewrite (write_frame _ _ _ _ _ _ _ E3) by pki_files. by eapply write_read. }
  assert (ReadFile (pki_file dir nodeKeyFile) d' = Some (ni_KeyPEM id)) as R1.
  { rewrite (write_frame _ _ _ _ _ _ _ E3), (write_frame _ _ _ _ _ _ _ E2) by pki_files. by eapply write_read. }
  unfold LoadNodeIdentity. rewrite R1, R2, R3, !nonempty_Some by done. by destruct id.
Qed.

Lemma Save_frame id dir (d d' : D) r :
  Save id dir d = (r, d') -> ReadFile (pki_file dir caKeyFile) d' = ReadFile (pki_file dir caKeyFile) d.
Proof.
  unfold Save. destruct (MkdirAll _ _ d) as [[|] d0] eqn:E0; [intros [= <- <-]; by eapply mkdir_frame|].
  rewrite <- (mkdir_frame _ _ _ _ _ (pki_file dir caKeyFile) E0).
  destruct (WriteFile _ (ni_KeyPEM id) _ d0) as [r1 d1] eqn:E1.
  rewrite <- (write_frame _ _ _ _ _ _ _ E1) by pki_files. destruct r1; [by intros [= <- <-]|].
  destruct (WriteFile _ (ni_CertPEM id) _ d1) as [r2 d2] eqn:E2.
  rewrite <- (write_frame _ _ _ _ _ _ _ E2) by pki_files. destruct r2; [by intros [= <- <-]|].
  intros E3. rewrite <- (write_frame _ _ _ _ _ _ _ E3) by pki_files. done.
Qed.

(** Staging the root's key leaves the identity alone. *)
Lemma SaveGenesisCA_Load dir rec (d d' : D) r :
  SaveGenesisCA dir rec d = (r, d') -> LoadNodeIdentity dir d' = LoadNodeIdentity dir d /\
    ReadFile (pki_file dir caCertFile) d' = ReadFile (pki_file dir caCertFile) d.
Proof.
  intros E. unfold LoadNodeIdentity. by rewrite !(write_frame _ _ _ _ _ _ _ E) by pki_files.
Qed.

Lemma Load_ca dir (d : D) id : LoadNodeIdentity dir d = Some id -> nonempty (ReadFile (pki_file dir caCertFile) d) = Some (ni_CAPEM id).
Proof.
  unfold LoadNodeIdentity. destruct (nonempty (ReadFile (pki_file dir nodeCertFile) d)); [|done].
  destruct (nonempty (ReadFile (pki_file dir nodeKeyFile) d)); [|done].
  destruct (nonempty (ReadFile (pki_file dir caCertFile) d)); cbn; [by intros [= <-]|done].
Qed.

Context `{X509Pkg} `{TlsPkg} {P : Type} (post : bytes -> EnrollRequest -> P -> result EnrollAnswer * P).

(** What a first provisioning that succeeds did. *)
Lemma provision_inv props now rnd nodeID (d d' : D) (p p' : P) id :
  provision post props now rnd nodeID d p = (Ret id, d', p') -> complete id ->
  LoadNodeIdentity (np_dataDir props) d' = Some id.
Proof.
  intros HP Hid. unfold provision in HP. destruct (LoadNodeIdentity (np_dataDir props) d) as [id0|] eqn:EL; [by injection HP as -> <- _|].
  assert (forall key token a h, enroll post props key nodeID token a h d p = (Ret id, d', p') -> LoadNodeIdentity (np_dataDir props) d' = Some id) as He.
  { intros key token a h. unfold enroll. destruct (bool_decide (np_join_peer props = [])); [done|]. destruct (EnrollNode _ _ _ _ _ _ _ _) as [[id1|?|] p1]; [|done|done].
    destruct (Save id1 _ d) as [[|] d1] eqn:ES; [done|]. intros [= -> -> _]. by eapply Save_Load. }
  case_bool_decide; cbn [negb] in HP; [|by eapply He]. destruct (np_bootstrap props).
  - unfold genesis in HP. destruct (GenesisIdentity _ _ _ _) as [[id1 rec]|?|]; [|done|done].
    destruct (Save id1 _ d) as [[|] d1] eqn:ES; [done|]. destruct (SaveGenesisCA _ _ d1) as [[|] d2] eqn:EG; [done|].
    injection HP as -> -> _. rewrite (proj1 (SaveGenesisCA_Load _ _ _ _ _ EG)). by eapply Save_Load.
  - case_bool_decide; cbn [negb] in HP; [done|]. by eapply He.
Qed.

(** C29: A node keeps its identity. Once a node has been provisioned, by generating the root or by
    enrolling, every later start on that data directory loads the same certificate, key and root,
    whatever its properties have become, without writing a file or contacting a peer: a join
    token is not presented twice and no second root is generated. *)
Theorem provision_survives_restart (props props2 : NodeProps) (now now2 : Z) (rnd rnd2 : GenesisRandom) (nodeID nodeID2 : bytes)
    (d d' : D) (p p' p2 : P) (id : NodeIdentity) :
  provision post props now rnd nodeID d p = (Ret id, d', p') -> complete id -> np_dataDir props2 = np_dataDir props ->
  provision post props2 now2 rnd2 nodeID2 d' p2 = (Ret id, d', p2).
Proof. intros HP Hid E. unfold provision at 1. by rewrite E, (provision_inv _ _ _ _ _ _ _ _ _ HP Hid). Qed.

(** ** The root of the cluster *)

Context `{UuidPkg} `{!UuidLaws} `{Badger} `{!BadgerSpec} `{StorePkg} `{!StoreLaws}.
Context `{ValuePkg} `{!IamStructs} `{!Struct JoinRecord} `{!Struct CARecord} `{!Codable CARecord} `{!X509Laws}.

Lemma loadCA_missing now (st : KeyValueStorageCtx) : BadgerReliable -> contents st !! ca_pk = None -> loadCA now st = Ret None.
Proof.
  intros HR Hc. unfold loadCA. destruct (get_local now st (PKIKey CAMinor) HR) as [size ->].
  unfold get_spec_rec. fold ca_pk. by rewrite Hc.
Qed.

Lemma ensureCA_creates now env (st : KeyValueStorageCtx) record :
  BadgerReliable -> contents st !! ca_pk = None -> newCARecord env = Ret record ->
  exists st', ensureCA None now env st = (CARecord_Load record, st').
Proof.
  intros HR Hc HN. unfold ensureCA. rewrite (loadCA_missing _ _ HR Hc), HN.
  destruct (coded record) as (raw & -> & _). destruct (cas_local now st (PKIKey CAMinor) raw 0 HR) as (st' & -> & _).
  fold ca_pk. rewrite Hc. by exists st'.
Qed.

Lemma ensureCA_refuses now env (st : KeyValueStorageCtx) e :
  BadgerReliable -> contents st !! ca_pk = None -> newCARecord env = Fail e -> ensureCA None now env st = (Fail e, st).
Proof. intros HR Hc HN. unfold ensureCA. by rewrite (loadCA_missing _ _ HR Hc), HN. Qed.

(** Loading does not look at the time of creation. *)
Lemma CARecord_Load_at r t :
  CARecord_Load {| cr_CertPEM := cr_CertPEM r; cr_KeyPEM := cr_KeyPEM r; cr_CreatedAt := t |} = CARecord_Load r.
Proof. done. Qed.

Lemma CARecord_Load_PEM r ca : CARecord_Load r = Ret ca -> ca_CertPEM ca = cr_CertPEM r.
Proof.
  unfold CARecord_Load. destruct (pem_Decode (cr_CertPEM r)); [|done]. destruct (ParseCertificate _); cbn; [|done|done].
  destruct (pem_Decode (cr_KeyPEM r)); [|done]. destruct (ParseECPrivateKey _); cbn; [|done|done]. by intros [= <-].
Qed.

(** The parts of a generated identity: a root that loads, and a leaf for both roles. *)
Lemma GenesisIdentity_inv now rnd nodeID hosts id rec :
  ParseIP NodeSANDNS = None -> GenesisIdentity now rnd nodeID hosts = Ret (id, rec) ->
  (exists ca, CARecord_Load rec = Ret ca) /\ ni_CAPEM id = cr_CertPEM rec /\
  (exists der cert, pem_Decode (ni_CertPEM id) = Some der /\ ParseCertificate der = Ret cert /\ xc_CommonName cert = nodeID /\
     xc_ClientAuth cert = true /\ xc_ServerAuth cert = true /\ xc_IsCA cert = false /\ xc_CertSign cert = false /\
     NodeSANDNS ∈ xc_DNSNames cert).
Proof.
  intros Hip. unfold GenesisIdentity. destruct (GenerateCA _ _ _) as [rec'|?|]; cbn [mbind outcome_bind]; [|done|done].
  destruct (CARecord_Load rec') as [ca|?|] eqn:EL; cbn [mbind outcome_bind]; [|done|done].
  destruct (GenerateLeafKey _) as [[keyPEM pub]|?|]; cbn [mbind outcome_bind]; [|done|done].
  assert (NodeSANDNS ∈ fst (splitNodeHosts ([nodeID; NodeSANDNS] ++ hosts))) as Hin.
  { apply (split_loop_dns ∅ _ NodeSANDNS NodeSANDNS); [by right; left|done|done|set_solver|done]. }
  destruct (splitNodeHosts _) as [dns ips]. unfold Sign. destruct (gr_leafSerial rnd) as [serial|?|]; cbn [wrap mbind outcome_bind]; [|done|done].
  cbn [parse_uris cq_URIs mbind outcome_bind]. set (tmpl := {| xc_SerialNumber := serial |}).
  destruct (CreateCertificate tmpl (ca_Cert ca) _ (ca_Key ca)) as [der|?|] eqn:EC; cbn [wrap mbind outcome_bind]; [|done|done].
  intros [= <- <-]. split; [by exists ca|]. split; [done|]. exists der, tmpl. cbn [ni_CertPEM]. rewrite pem_roundtrip.
  split; [done|]. split; [by eapply cert_roundtrip|]. by repeat split.
Qed.

Lemma GenesisIdentity_key now rnd nodeID hosts id rec :
  (forall typ b, pem_Encode typ b <> []) -> GenesisIdentity now rnd nodeID hosts = Ret (id, rec) -> cr_KeyPEM rec <> [].
Proof.
  intros Hpem. unfold GenesisIdentity. destruct (GenerateCA _ _ _) as [rec'|?|] eqn:EG; cbn [mbind outcome_bind]; [|done|done].
  assert (cr_KeyPEM rec' <> []) as Hk.
  { unfold GenerateCA in EG. destruct (gr_caKey rnd); cbn [wrap mbind outcome_bind] in EG; [|done|done].
    destruct (gr_caSerial rnd); cbn [wrap mbind outcome_bind] in EG; [|done|done].
    destruct (CreateCertificate _ _ _ _); cbn [wrap mbind outcome_bind] in EG; [|done|done].
    destruct (MarshalECPrivateKey _); cbn [wrap mbind outcome_bind] in EG; [|done|done]. injection EG as <-. apply Hpem. }
  destruct (CARecord_Load rec'); cbn [mbind outcome_bind]; [|done|done].
  destruct (GenerateLeafKey _) as [[]|?|]; cbn [mbind outcome_bind]; [|done|done].
  destruct (splitNodeHosts _). destruct (Sign _ _ _ _); cbn [mbind outcome_bind]; [|done|done]. by intros [= <- <-].
Qed.

(** The cluster publishes the root its seed trusts. When a seed provisions itself by
    generating a root, the authority that the console later publishes through the store is that
    root, so the certificate in the seed's own files, a leaf for both TLS roles that bears the
    node id and the cluster-wide name, chains to the authority every later certificate is signed
    by. *)
Theorem genesis_root_published (props : NodeProps) (now now2 : Z) (rnd : GenesisRandom) (nodeID boot : bytes) (d d' : D) (p p' : P)
    (id : NodeIdentity) (gen : result CARecord) (serial : result Z) (leafKey : result ECKey) (st : KeyValueStorageCtx) :
  BadgerReliable -> (forall typ b, pem_Encode typ b <> []) -> ParseIP NodeSANDNS = None ->
  LoadNodeIdentity (np_dataDir props) d = None -> np_join_token props = [] -> np_bootstrap props = true ->
  provision post props now rnd nodeID d p = (Ret id, d', p') -> complete id -> contents st !! ca_pk = None ->
  exists ca st' der cert, ensureCA None now2 (disk_env now2 (np_dataDir props) d' gen serial leafKey boot) st = (Ret ca, st') /\
    ca_CertPEM ca = ni_CAPEM id /\ pem_Decode (ni_CertPEM id) = Some der /\ ParseCertificate der = Ret cert /\
    xc_CommonName cert = nodeID /\ xc_ClientAuth cert = true /\ xc_ServerAuth cert = true /\ xc_IsCA cert = false /\
    NodeSANDNS ∈ xc_DNSNames cert.
Proof.
  intros HR Hpem Hip HL Hj Hb HP Hid Hc. unfold provision in HP. rewrite HL, Hj, Hb in HP.
  rewrite bool_decide_eq_true_2 in HP by done. cbn [negb] in HP. unfold genesis in HP.
  destruct (GenesisIdentity now rnd nodeID _) as [[id1 rec]|?|] eqn:EG; [|done|done].
  destruct (Save id1 _ d) as [[|] d1] eqn:ES; [done|]. destruct (SaveGenesisCA _ _ d1) as [[|] d2] eqn:EC; [done|].
  injection HP as -> -> _. assert (cr_KeyPEM rec <> []) as Hk by by eapply GenesisIdentity_key.
  destruct (GenesisIdentity_inv _ _ _ _ _ _ Hip EG) as ([ca ELo] & Eca & der & cert & Hd & Hp & Hcn & Hcl & Hse & Hisca & _ & Hsan).
  destruct (SaveGenesisCA_Load _ _ _ _ _ EC) as [EL2 ER2].
  assert (LoadGenesisCA now2 (np_dataDir props) d' = Some {| cr_CertPEM := cr_CertPEM rec; cr_KeyPEM := cr_KeyPEM rec; cr_CreatedAt := now2 |}) as EGen.
  { unfold LoadGenesisCA. rewrite ER2, (Load_ca _ _ _ (Save_Load _ _ _ _ Hid ES)), Eca.
    rewrite (write_read _ _ _ _ _ EC), nonempty_Some by done. done. }
  destruct (ensureCA_creates now2 (disk_env now2 (np_dataDir props) d' gen serial leafKey boot) st _ HR Hc
    ltac:(unfold newCARecord; cbn [disk_env pe_genesis]; by rewrite EGen)) as [st' E].
  rewrite CARecord_Load_at, ELo in E. exists ca, st', der, cert. split; [exact E|].
  split; [by rewrite (CARecord_Load_PEM _ _ ELo)|]. by repeat split.
Qed.

(** An interrupted genesis leaves an orphan (a defect). The seed writes its identity before it
    stages the root's signing key. If the staging write fails, or the process dies before it, the
    first start fails but every later one finds a complete identity and succeeds; the signing key
    is gone, the console refuses to mint a second root, and no join token can ever be minted on a
    cluster whose root was not published yet. *)
Theorem interrupted_genesis_orphans (props props2 : NodeProps) (now now2 : Z) (rnd rnd2 : GenesisRandom) (nodeID boot createdBy : bytes)
    (d d1 d2 : D) (p p2 : P) (id : NodeIdentity) (rec : CARecord) (e : error) (gen : result CARecord) (serial : result Z)
    (leafKey : result ECKey) (secret : result bytes) (ttl : Z) (st : KeyValueStorageCtx) :
  BadgerReliable -> LoadNodeIdentity (np_dataDir props) d = None -> np_join_token props = [] -> np_bootstrap props = true ->
  GenesisIdentity now rnd nodeID [hostOf (raft_address props); hostOf (np_advertised props)] = Ret (id, rec) -> complete id ->
  Save id (np_dataDir props) d = (None, d1) -> SaveGenesisCA (np_dataDir props) rec d1 = (Some e, d2) ->
  nonempty (ReadFile (pki_file (np_dataDir props) caKeyFile) d2) = None -> np_dataDir props2 = np_dataDir props ->
  contents st !! ca_pk = None ->
  provision post props now rnd nodeID d p = (Fail e, d2, p) /\
  provision post props2 now2 rnd2 nodeID d2 p2 = (Ret id, d2, p2) /\
  mintJoinToken None now2 (disk_env now2 (np_dataDir props2) d2 gen serial leafKey boot) secret ttl createdBy st =
    (Fail (ErrNew (str "cluster CA not published yet")), st).
Proof.
  intros HR HL Hj Hb EG Hid ES EC Hk Hdir Hc. destruct (SaveGenesisCA_Load _ _ _ _ _ EC) as [EL2 ER2].
  pose proof (Save_Load _ _ _ _ Hid ES) as EL1. split; [|split].
  - unfold provision, genesis. rewrite HL, Hj, Hb, EG, ES, EC. by rewrite bool_decide_eq_true_2.
  - unfold provision. by rewrite Hdir, EL2, EL1.
  - unfold mintJoinToken. rewrite (ensureCA_refuses _ _ _ (ErrNew (str "cluster CA not published yet"))); [done|done|done|].
    unfold newCARecord. cbn [disk_env pe_genesis pe_transport]. unfold LoadGenesisCA, HasTransportCA.
    rewrite Hdir, Hk, ER2, (Load_ca _ _ _ EL1). done.
Qed.

End Props.

(** ** Witnesses *)

(** Files in memory; the paths of [dd_broken] cannot be written. *)
Record demo_disk : Type := { dd_files : gmap bytes bytes; dd_broken : list bytes }.

Definition demo_os : OsPkg demo_disk := {|
  ReadFile := fun path d => dd_files d !! path;
  WriteFile := fun path data _ d =>
    if bool_decide (path ∈ dd_broken d) then (Some (ErrNew (str "no space left on device")), d)
    else (None, {| dd_files := <[path := data]> (dd_files d); dd_broken := dd_broken d |});
  MkdirAll := fun _ _ d => (None, d)
|}.

Lemma demo_os_laws : @OsLaws demo_disk demo_os.
Proof.
  split; cbn.
  - intros path data _ d d'. case_bool_decide; [done|]. intros [= <-]. apply lookup_insert_eq.
  - intros path data _ d r d' other. case_bool_decide; intros [= <- <-]; [done|]. intros Hne. by apply lookup_insert_ne.
  - by intros path _ d r d' other [= <- <-].
Qed.

(** As [flat_x509], with PEM blocks that are never empty. *)
Definition pem_x509 : X509Pkg := {|
  ECKey := bytes; PublicKey := bytes; ec_Public := fun k => k;
  MarshalECPrivateKey := fun k => Ret k; ParseECPrivateKey := fun b => Ret b;
  CreateCertificate := fun t _ _ _ => Ret (pos_bytes (encode t));
  ParseCertificate := fun der => match decode (bytes_pos der) with Some t => Ret t | None => Fail (ErrNew (str "malformed")) end;
  CreateCertificateRequest := fun cn k => Ret k;
  ParseCertificateRequest := fun der => Ret ([], der, true);
  pem_Encode := fun _ b => x2d :: b; pem_Decode := fun b => match b with _ :: b => Some b | [] => None end;
  url_Parse := fun u => Ret u; ParseIP := fun _ => None
|}.

Lemma pem_x509_laws : @X509Laws pem_x509.
Proof.
  split; cbn; [done|by intros k b [= <-]|]. intros t p pub k der [= <-]. by rewrite bytes_pos_bytes, decode_encode.
Qed.

Definition flat_tls : TlsPkg := {|
  tls_Certificate := bytes * bytes; CertPool := bytes; X509KeyPair := fun c k => Ret (c, k); AppendCertsFromPEM := fun b => Some b |}.

#[local] Existing Instances flat_uuid flat_uuid_laws mem_badger mem_spec flat_store flat_store_laws
  flat_value flat_iam_structs pem_x509 pem_x509_laws flat_tls demo_os demo_os_laws.
#[local] Instance node_join_struct : Struct JoinRecord := flat_struct JoinRecord.
#[local] Instance node_ca_struct : Struct CARecord := flat_struct CARecord.
#[local] Instance node_ca_codable : Codable CARecord := flat_codable CARecord.

Definition demo_post (url : bytes) (r : EnrollRequest) (p : unit) : result EnrollAnswer * unit := (Fail (ErrNew (str "refused")), p).

Definition demo_rnd : GenesisRandom := {| gr_caKey := Ret (str "root"); gr_caSerial := Ret 7; gr_leafKey := Ret (str "leaf"); gr_leafSerial := Ret 8 |}.

Definition demo_props : NodeProps := {|
  np_dataDir := str "/var/cdb"; np_advertised := str "10.0.0.1:8442"; np_advertise_address := []; np_join_token := [];
  np_bootstrap := true; np_bootstrap_token := str "shared"; np_join_peer := [] |}.

Definition demo_empty : demo_disk := {| dd_files := ∅; dd_broken := [] |}.

Definition demo_genesis : result NodeIdentity * demo_disk * unit := provision demo_post demo_props 100 demo_rnd (str "n1") demo_empty tt.

Definition no_identity : NodeIdentity := {| ni_CertPEM := []; ni_KeyPEM := []; ni_CAPEM := [] |}.

Definition demo_identity : NodeIdentity := match fst (fst demo_genesis) with Ret id => id | _ => no_identity end.

Definition demo_done : demo_disk := snd (fst demo_genesis).

Lemma demo_genesis_ok : provision demo_post demo_props 100 demo_rnd (str "n1") demo_empty tt = (Ret demo_identity, demo_done, tt).
Proof.
  unfold demo_done, demo_identity, demo_genesis. set (run := provision _ _ _ _ _ _ _).
  assert (match fst (fst run) with Ret _ => true | _ => false end = true) as Hr by (vm_compute; reflexivity).
  clearbody run. destruct run as [[r d] []]. by destruct r.
Qed.

Lemma demo_identity_complete : complete demo_identity.
Proof. vm_compute. repeat split; discriminate. Qed.

Definition demo_later : NodeProps := {|
  np_dataDir := str "/var/cdb"; np_advertised := []; np_advertise_address := []; np_join_token := str "join-1";
  np_bootstrap := false; np_bootstrap_token := []; np_join_peer := [] |}.

Lemma provision_survives_restart_witness :
  provision demo_post demo_later 900 demo_rnd (str "n1") demo_done tt = (Ret demo_identity, demo_done, tt).
Proof.
  apply (provision_survives_restart demo_post demo_props demo_later 100 900 demo_rnd demo_rnd (str "n1") (str "n1") demo_empty demo_done tt tt tt
    demo_identity); [exact demo_genesis_ok|exact demo_identity_complete|reflexivity].
Defined.

Lemma genesis_root_published_witness :
  exists ca st', ensureCA None 200 (disk_env 200 (str "/var/cdb") demo_done (Fail ErrorEmptyKey) (Ret 9) (Ret (str "k")) []) demo_storage
      = (Ret ca, st') /\ ca_CertPEM ca = ni_CAPEM demo_identity.
Proof.
  destruct (genesis_root_published demo_post demo_props 100 200 demo_rnd (str "n1") [] demo_empty demo_done tt tt demo_identity
    (Fail ErrorEmptyKey) (Ret 9) (Ret (str "k")) demo_storage mem_reliable ltac:(by intros ? ?) eq_refl ltac:(vm_compute; reflexivity)
    eq_refl eq_refl demo_genesis_ok demo_identity_complete ltac:(vm_compute; reflexivity)) as (ca & st' & _ & _ & HE & HC & _).
  exists ca, st'. split; [exact HE|exact HC].
Defined.

(** The disk fills up before the last file. *)
Definition demo_full_disk : demo_disk := {| dd_files := ∅; dd_broken := [pki_file (str "/var/cdb") caKeyFile] |}.

Definition demo_generated : result (NodeIdentity * CARecord) :=
  GenesisIdentity 100 demo_rnd (str "n1") [hostOf (raft_address demo_props); hostOf (np_advertised demo_props)].

Definition demo_pair : NodeIdentity * CARecord :=
  match demo_generated with Ret x => x | _ => (no_identity, {| cr_CertPEM := []; cr_KeyPEM := []; cr_CreatedAt := 0 |}) end.

Lemma interrupted_genesis_orphans_witness :
  provision demo_post demo_props 500 demo_rnd (str "n1") (snd (Save (fst demo_pair) (str "/var/cdb") demo_full_disk)) tt
    = (Ret (fst demo_pair), snd (Save (fst demo_pair) (str "/var/cdb") demo_full_disk), tt) /\
  fst (mintJoinToken None 500 (disk_env 500 (str "/var/cdb") (snd (Save (fst demo_pair) (str "/var/cdb") demo_full_disk))
      (Fail ErrorEmptyKey) (Ret 9) (Ret (str "k")) []) (Ret (str "s")) 60 (str "root") demo_storage)
    = Fail (ErrNew (str "cluster CA not published yet")).
Proof.
  destruct (interrupted_genesis_orphans demo_post demo_props demo_props 100 500 demo_rnd demo_rnd (str "n1") [] (str "root") demo_full_disk
    (snd (Save (fst demo_pair) (str "/var/cdb") demo_full_disk)) (snd (Save (fst demo_pair) (str "/var/cdb") demo_full_disk)) tt tt
    (fst demo_pair) (snd demo_pair) (ErrNew (str "no space left on device")) (Fail ErrorEmptyKey) (Ret 9) (Ret (str "k"))
    (Ret (str "s")) 60 demo_storage mem_reliable) as (_ & HP & HM).
  - vm_compute. reflexivity.
  - reflexivity.
  - reflexivity.
  - vm_compute. reflexivity.
  - vm_compute. repeat split; discriminate.
  - apply pair_by_fst. vm_compute. reflexivity.
  - vm_compute. reflexivity.
  - vm_compute. reflexivity.
  - reflexivity.
  - vm_compute. reflexivity.
  - split; [exact HP|]. exact (f_equal fst HM).
Defined.
