(* ===== verification/Membership.v ===== *)
(** * Raft membership of a node ([pkg/replication/host.go], [pkg/replication/address_reconciler.go])

    The seed forms a single-voter cluster once its raft server is up; a node whose recorded address
    has drifted from its configured one re-registers itself. The raft library, the connection pool
    and the watcher's interleaving with shutdown are explicit. *)

From S2P Require Import Prelude Pb Net.

(** ** The raft library

    A server of a raft configuration, and the calls the code makes. [LeaderWithID] is the
    leader's address and id, empty when unknown. *)
Record Server : Type := { sv_Voter : bool; sv_ID : bytes; sv_Address : bytes }.

#[global] Instance Server_eq_dec : EqDecision Server.
Proof. solve_decision. Defined.

Class RaftMembers (R : Type) : Type := {
  GetConfiguration : R -> result (list Server);
  LeaderWithID : R -> bytes * bytes;
  IsLeader : R -> bool;
  AddVoter : bytes -> bytes -> R -> option error * R;
  RemoveServer : bytes -> R -> option error * R;
  BootstrapCluster : list Server -> R -> option error * R
}.

Definition ErrCantBootstrap : error := ErrNew (str "bootstrap only works on new clusters").

(** [recordedAddress]: the address the configuration holds for an id. *)
Fixpoint recordedAddress (servers : list Server) (id : bytes) : option bytes :=
  match servers with
  | [] => None
  | s :: rest => if bool_decide (sv_ID s = id) then Some (sv_Address s) else recordedAddress rest id
  end.

(** What the library documents: a successful [AddVoter] records the address under the id,
    replacing the one of an existing server, and touches no other server; the call does not
    unseat the leader. *)
Class RaftMembersLaws (R : Type) `{RaftMembers R} : Prop := {
  addvoter_config : forall id addr r r' cfg, AddVoter id addr r = (None, r') -> GetConfiguration r = Ret cfg ->
    exists cfg', GetConfiguration r' = Ret cfg' /\ recordedAddress cfg' id = Some addr /\
      (exists s, s ∈ cfg' /\ sv_ID s = id /\ sv_Voter s = true) /\
      forall s, sv_ID s <> id -> s ∈ cfg' <-> s ∈ cfg
}.

(** ** Cluster formation *)

(** What [RaftHost.PostConstruct] decides. *)
Inductive host_action : Type := HostError (e : error) | Inert | JoinMode | Watch.

Definition host_PostConstruct (RaftAddress SerfAddress Mode : bytes) (Bootstrap : bool) : host_action :=
  if bool_decide (RaftAddress = []) || bool_decide (SerfAddress = []) then
    if bool_decide (Mode = str "cluster") then HostError (ErrNew (str "cluster mode requires raft.bind-address and serf.bind-address"))
    else Inert
  else if negb Bootstrap then JoinMode else Watch.

Section Raft.
Context {R : Type} `{!RaftMembers R}.

(** [RaftHost.bootstrap]. *)
Definition host_bootstrap (nodeIdHex localAddr : bytes) (r : R) : option error * R :=
  match BootstrapCluster [{| sv_Voter := true; sv_ID := nodeIdHex; sv_Address := localAddr |}] r with
  | (None, r) => (None, r)
  | (Some e, r) => if bool_decide (e = ErrCantBootstrap) then (None, r) else (Some (ErrWrap (str "bootstrap raft cluster") e), r)
  end.

(** *** The address reconciler *)

(** [PostConstruct]: whether the loop is started. *)
Definition reconciler_enabled (advertise : bytes) (Interval : Z) : bool :=
  negb (bool_decide (advertise = []) || (Interval <=? 0)).

(** The answer of a peer to the Join call: [Pool.GetAPIConn] failed, the connection is of another
    kind, the call failed, or the peer, leading, has re-registered the node. *)
Inductive join_answer : Type := NoConn (e : error) | OtherClient | Rejected (e : error) | Joined.

Variable join : bytes -> bytes -> bytes -> R -> join_answer * R.   (* peer, node id, node address *)

Variables selfID advertise : bytes.

(** The loop of [joinViaPeers]: the last error, or success with the first peer that accepts. *)
Fixpoint join_loop (targets : list bytes) (lastErr : option error) (r : R) : option error * R :=
  match targets with
  | [] => (lastErr, r)
  | addr :: rest =>
      match join addr selfID advertise r with
      | (NoConn e, r) => join_loop rest (Some e) r
      | (OtherClient, r) => join_loop rest lastErr r
      | (Rejected e, r) => join_loop rest (Some e) r
      | (Joined, r) => (None, r)
      end
  end.

Definition join_targets (cfg : list Server) (r : R) : list bytes :=
  let leaderAddr := fst (LeaderWithID r) in
  (if bool_decide (leaderAddr = []) then [] else [leaderAddr]) ++
  (sv_Address <$> filter (fun s => sv_ID s <> selfID) cfg).

Definition joinViaPeers (pool : bool) (cfg : list Server) (r : R) : option error * R :=
  if negb pool then (None, r) else join_loop (join_targets cfg r) None r.

(** [reconcileOnce]: [true] once the record matches. *)
Definition reconcileOnce (pool : bool) (r : R) : result bool * R :=
  match GetConfiguration r with
  | Fail e => (Fail e, r)
  | Panic => (Panic, r)
  | Ret cfg =>
      match recordedAddress cfg selfID with
      | None => (Ret false, r)
      | Some recorded =>
          if bool_decide (recorded = advertise) then (Ret true, r)
          else if IsLeader r then
            match AddVoter selfID advertise r with
            | (Some e, r) => (Fail e, r)
            | (None, r) => (Ret false, r)
            end
          else match joinViaPeers pool cfg r with
               | (Some e, r) => (Fail e, r)
               | (None, r) => (Ret false, r)
               end
      end
  end.

(** One turn of [loop] after a tick; [true] when the loop goes on. [up] says whether the raft
    server has been started. *)
Definition reconcile_tick (pool up : bool) (r : R) : bool * R :=
  if negb up then (true, r) else
  match reconcileOnce pool r with
  | (Ret true, r) => (false, r)
  | (_, r) => (true, r)
  end.

(** Successive ticks with nothing happening in between. *)
Fixpoint reconcile_ticks (n : nat) (pool : bool) (r : R) : bool * R :=
  match n with
  | O => (true, r)
  | S n => match reconcile_tick pool true r with (true, r) => reconcile_ticks n pool r | (false, r) => (false, r) end
  end.

End Raft.

(** ** The bootstrap watcher and its shutdown

    [bootstrapWhenReady] looks whether the raft server is up, and otherwise waits in a [select]
    on the field [stop] and on a ticker. The [select] reads the field when it is entered; a
    receive from a nil channel never happens. [Destroy] closes the channel and clears the field. *)
Inductive watch_pc : Type :=
| Looking                   (* at the top of the loop *)
| Selecting (stop : bool)   (* in the select; whether the channel it read is not nil *)
| Bootstrapped | Stopped | TimedOut.

#[global] Instance watch_pc_eq_dec : EqDecision watch_pc.
Proof. solve_decision. Defined.

Record host_state : Type := {
  hs_pc : watch_pc;
  hs_field : bool;     (* t.stop is not nil *)
  hs_closed : bool;    (* the channel has been closed *)
  hs_up : bool         (* Raft() and Transport() answer *)
}.

Definition host_start : host_state := {| hs_pc := Looking; hs_field := true; hs_closed := false; hs_up := false |}.

Definition at_pc (p : watch_pc) (s : host_state) : host_state :=
  {| hs_pc := p; hs_field := hs_field s; hs_closed := hs_closed s; hs_up := hs_up s |}.

Inductive host_step : host_state -> host_state -> Prop :=
| hstep_up s : host_step s {| hs_pc := hs_pc s; hs_field := hs_field s; hs_closed := hs_closed s; hs_up := true |}
| hstep_destroy s : hs_field s = true -> host_step s {| hs_pc := hs_pc s; hs_field := false; hs_closed := true; hs_up := hs_up s |}
| hstep_bootstrap s : hs_pc s = Looking -> hs_up s = true -> host_step s (at_pc Bootstrapped s)
| hstep_wait s : hs_pc s = Looking -> hs_up s = false -> host_step s (at_pc (Selecting (hs_field s)) s)
| hstep_stop s : hs_pc s = Selecting true -> hs_closed s = true -> host_step s (at_pc Stopped s)
| hstep_tick s b : hs_pc s = Selecting b -> host_step s (at_pc Looking s)
| hstep_deadline s b : hs_pc s = Selecting b -> host_step s (at_pc TimedOut s).
