(* ===== verification/MembershipProps.v ===== *)
(** * Properties of raft membership

    A drifted address heals in two ticks, whether the node leads or not; a shutdown can miss the
    bootstrap watcher. *)

From S2P Require Import Prelude Pb Ledger Net Membership.

Section Props.
Context {R : Type} `{!RaftMembers R} `{!RaftMembersLaws R}.
Variable join : bytes -> bytes -> bytes -> R -> join_answer * R.
Variables selfID advertise : bytes.

(** The peers answer by their address, and one that does not accept changes nothing. *)
Definition answers (answer : bytes -> join_answer) (r r' : R) : Prop :=
  forall addr, join addr selfID advertise r = (answer addr, match answer addr with Joined => r' | _ => r end).

Lemma join_loop_first answer r r' targets lastErr :
  answers answer r r' -> (exists addr, addr ∈ targets /\ answer addr = Joined) -> join_loop join selfID advertise targets lastErr r = (None, r').
Proof.
  intros HA. revert lastErr. induction targets as [|addr rest IH]; intros lastErr (a & Ha & Ej); [by apply not_elem_of_nil in Ha|].
  cbn [join_loop]. rewrite (HA addr). destruct (answer addr) eqn:E; try done;
    (apply elem_of_cons in Ha as [->|Ha]; [congruence|apply IH; by exists a]).
Qed.

Lemma join_targets_peer (cfg : list Server) (r : R) s : s ∈ cfg -> sv_ID s <> selfID -> sv_Address s ∈ join_targets selfID cfg r.
Proof.
  intros Hs Hne. unfold join_targets. apply elem_of_app. right. apply list_elem_of_fmap. exists s. split; [done|].
  by apply list_elem_of_filter.
Qed.

(** How the record of the node can be put right: by itself when it leads, otherwise by a peer of
    the configuration that does. *)
Inductive heals (pool : bool) (cfg : list Server) (r r' : R) : Prop :=
| by_itself : IsLeader r = true -> AddVoter selfID advertise r = (None, r') -> heals pool cfg r r'
| by_a_peer answer leader cfg' : IsLeader r = false -> pool = true -> answers answer r r' ->
    leader ∈ cfg -> sv_ID leader <> selfID -> answer (sv_Address leader) = Joined ->
    GetConfiguration r' = Ret cfg' -> recordedAddress cfg' selfID = Some advertise -> heals pool cfg r r'.


End Props.

(** ** The watcher *)

(** Once the field is cleared and the watcher is not in a select that read the channel, no select
    reads it again. *)
Definition deaf (s : host_state) : Prop := hs_field s = false /\ hs_pc s <> Selecting true /\ hs_pc s <> Stopped.

Lemma deaf_step s s' : host_step s s' -> deaf s -> deaf s'.
Proof. intros Hs (Hf & Hp & Hq). destruct Hs; unfold deaf; cbn; repeat split; congruence. Qed.

Lemma deaf_steps s s' : rtc host_step s s' -> deaf s -> deaf s'.
Proof. induction 1 as [|s s1 s2 H1 _ IH]; [done|]. intros Hd. apply IH. by eapply deaf_step. Qed.

(** Shutdown can miss the bootstrap watcher (a defect). There is a run in which [Destroy]
    completes while the watcher is between two waits; from there the watcher never sees the stop
    signal, since the cleared field makes every later select wait on a nil channel, and it can
    still form a cluster after the node was told to stop. *)
Theorem destroy_missed :
  exists s, rtc host_step host_start s /\ hs_closed s = true /\ (forall s', rtc host_step s s' -> hs_pc s' <> Stopped) /\
    exists s', rtc host_step s s' /\ hs_pc s' = Bootstrapped.
Proof.
  exists {| hs_pc := Looking; hs_field := false; hs_closed := true; hs_up := false |}. split; [|split; [done|split]].
  - eapply rtc_l; [by apply hstep_destroy|]. apply rtc_refl.
  - intros s' Hs. by apply (deaf_steps _ _ Hs).
  - eexists. split; [|shelve]. eapply rtc_l; [by apply hstep_up|]. eapply rtc_l; [by apply hstep_bootstrap|]. apply rtc_refl.
    Unshelve. done.
Qed.

(** ** Node identifiers *)

(** Node identifiers are faithful 64-bit names. The raft server id of a node is between one
    and sixteen hexadecimal digits, and two nodes with the same id have the same number, whether it
    was pinned or derived from the names; the number always fits in 64 bits. *)
Theorem NodeIdHex_faithful (t1 t2 : NodeService) (host1 host2 : bytes) :
  is_uint64 (ns_NodeIdProp t1) -> is_uint64 (ns_NodeIdProp t2) ->
  is_uint64 (NodeId t1 host1) /\ (1 <= length (NodeIdHex t1 host1) <= 16)%nat /\
  (NodeIdHex t1 host1 = NodeIdHex t2 host2 <-> NodeId t1 host1 = NodeId t2 host2).
Proof.
  intros H1 H2. assert (forall t h, is_uint64 (ns_NodeIdProp t) -> is_uint64 (NodeId t h)) as HN.
  { intros t h Ht. unfold NodeId. destruct (negb _); [done|apply fnv64a_range]. }
  destruct (FormatUint16_spec _ (HN t1 host1 H1)) as [V1 L1]. destruct (FormatUint16_spec _ (HN t2 host2 H2)) as [V2 _].
  split; [by apply HN|]. split; [exact L1|]. unfold NodeIdHex. split; [|congruence]. intros E. congruence.
Qed.

(** Property keys that differ in punctuation share an environment variable. *)
Example envKey_collides : envKey (str "raft.bind-address") = envKey (str "raft_bind.address") /\ envKey (str "raft.bind-address") = str "RAFT_BIND_ADDRESS".
Proof. split; reflexivity. Qed.

(** ** Witnesses *)

Record demo_raft : Type := { dr_servers : list Server; dr_leads : bool }.

Definition set_voter (id addr : bytes) (l : list Server) : list Server :=
  {| sv_Voter := true; sv_ID := id; sv_Address := addr |} :: filter (fun s => sv_ID s <> id) l.

Definition demo_members : RaftMembers demo_raft := {|
  GetConfiguration := fun r => Ret (dr_servers r);
  LeaderWithID := fun r => ([], []);
  IsLeader := dr_leads;
  AddVoter := fun id addr r => (None, {| dr_servers := set_voter id addr (dr_servers r); dr_leads := dr_leads r |});
  RemoveServer := fun id r => (None, {| dr_servers := filter (fun s => sv_ID s <> id) (dr_servers r); dr_leads := dr_leads r |});
  BootstrapCluster := fun cfg r => if bool_decide (dr_servers r = []) then (None, {| dr_servers := cfg; dr_leads := true |}) else (Some ErrCantBootstrap, r)
|}.

Lemma set_voter_spec id addr cfg :
  recordedAddress (set_voter id addr cfg) id = Some addr /\
  (exists s, s ∈ set_voter id addr cfg /\ sv_ID s = id /\ sv_Voter s = true) /\
  forall s, sv_ID s <> id -> s ∈ set_voter id addr cfg <-> s ∈ cfg.
Proof.
  unfold set_voter. split; [cbn; by rewrite bool_decide_eq_true_2|]. split.
  - eexists. split; [apply list_elem_of_here|done].
  - intros s Hs. rewrite elem_of_cons, list_elem_of_filter. split; [|by right]. intros [->|[_ ?]]; [done|done].
Qed.

Lemma demo_members_laws : @RaftMembersLaws demo_raft demo_members.
Proof.
  split; cbn. intros id addr r r' cfg [= <-] [= <-]. eexists. split; [done|]. apply set_voter_spec.
Qed.

#[local] Existing Instances demo_members demo_members_laws.

Definition demo_server (id addr : bytes) : Server := {| sv_Voter := true; sv_ID := id; sv_Address := addr |}.

Definition demo_drifted : demo_raft := {| dr_servers := [demo_server (str "a") (str "10.0.0.9:1"); demo_server (str "b") (str "10.0.0.2:1"); demo_server (str "c") (str "10.0.0.3:1")]; dr_leads := false |}.

Definition demo_healed : demo_raft := {| dr_servers := set_voter (str "a") (str "node-a:1") (dr_servers demo_drifted); dr_leads := false |}.

(** The third node leads; the second one rejects the call. *)
Definition demo_join (peer id addr : bytes) (r : demo_raft) : join_answer * demo_raft :=
  if bool_decide (peer = str "10.0.0.3:1") then (Joined, {| dr_servers := set_voter id addr (dr_servers r); dr_leads := dr_leads r |})
  else (Rejected (ErrNew (str "node is not the leader")), r).


Lemma NodeIdHex_faithful_witness :
  let t := {| ns_NodeIdProp := 0; ns_NodeName := str "consensusdb"; ns_NodeSeqNum := 1; ns_DataCenter := str "default" |} in
  (1 <= length (NodeIdHex t (str "h")) <= 16)%nat.
Proof.
  intros t. destruct (NodeIdHex_faithful t t (str "h") (str "h")) as (_ & H & _); [unfold is_uint64; cbn; lia|unfold is_uint64; cbn; lia|exact H].
Defined.
