(* ===== verification/Api.v ===== *)
(** * Requests and answers of the console's REST interface ([pkg/console/http.go],
    [pkg/console/nodes.go], [pkg/console/ledger.go], [pkg/console/stats.go])

    What the handlers are given and what they write, and the standard library's text forms they
    use: decimal and hexadecimal numbers, padded base64. A JSON answer is the value handed to the
    encoder. *)

From S2P Require Import Prelude Pb Keys Engine Storage StorageSpec StorageReads StorageProps Value Ledger Service Iam PolicyService Password Backup Quorum Verify Auth Console Pki Setup Net.

(** ** Text forms *)

(** The number of an all-digits string. *)
Definition decimal (s : bytes) : option Z := match scan_number s with Some (z, []) => Some z | _ => None end.

(** [strconv.ParseUint(s, 10, 64)]. *)
Definition ParseUint (s : bytes) : option Z := z ← decimal s; if z <? 2 ^ 64 then Some z else None.

(** [strconv.ParseInt(s, 10, 64)] and [strconv.Atoi]. *)
Definition ParseInt (s : bytes) : option Z :=
  match s with
  | c :: rest =>
      if bool_decide (c = x2d) then z ← decimal rest; if z <=? 2 ^ 63 then Some (- z) else None
      else if bool_decide (c = x2b) then z ← decimal rest; if z <? 2 ^ 63 then Some z else None
      else z ← decimal s; if z <? 2 ^ 63 then Some z else None
  | [] => None
  end.

(** [v, _ := strconv.ParseUint(s, 10, 64)] and [strconv.ParseInt] with the error ignored: zero for
    what is not a number, the nearest value for one out of range. *)
Definition UintOrZero (s : bytes) : Z := match decimal s with Some z => Z.min z (2 ^ 64 - 1) | None => 0 end.

Definition IntOrZero (s : bytes) : Z :=
  match s with
  | c :: rest =>
      if bool_decide (c = x2d) then match decimal rest with Some z => - Z.min z (2 ^ 63) | None => 0 end
      else match decimal (if bool_decide (c = x2b) then rest else s) with Some z => Z.min z (2 ^ 63 - 1) | None => 0 end
  | [] => 0
  end.

(** [hex.DecodeString]. *)
Definition hex_nibble (b : byte) : option Z :=
  let c := byte_val b in
  if (48 <=? c) && (c <=? 57) then Some (c - 48) else if (97 <=? c) && (c <=? 102) then Some (c - 87)
  else if (65 <=? c) && (c <=? 70) then Some (c - 55) else None.

Fixpoint hex_DecodeString (s : bytes) : option bytes :=
  match s with
  | [] => Some []
  | [_] => None
  | a :: b :: rest => x ← hex_nibble a; y ← hex_nibble b; r ← hex_DecodeString rest; Some (byte_of (16 * x + y) :: r)
  end.

(** [base64.StdEncoding]: the raw form padded to a multiple of four. *)
Definition b64_pad (n : nat) : bytes := match (n mod 3)%nat with 1%nat => [x3d; x3d] | 2%nat => [x3d] | _ => [] end.

Definition Std_EncodeToString (l : bytes) : bytes := EncodeToString l ++ b64_pad (length l).

Definition strip_pad (s : bytes) : bytes :=
  match rev s with
  | a :: b :: r => if bool_decide (a = x3d) then (if bool_decide (b = x3d) then rev r else rev (b :: r)) else s
  | _ => s
  end.

Definition Std_DecodeString (s : bytes) : option bytes :=
  let s := filter (fun c => c <> x0a /\ c <> x0d) s in
  if (length s mod 4 =? 0)%nat then decode_quanta (strip_pad s) else None.

(** [strings.TrimPrefix], [strings.HasSuffix], [strings.TrimSuffix], [strings.Contains] and
    [strings.SplitN(s, sep, 2)]. *)
Definition TrimPrefix (s p : bytes) : bytes := default s (CutPrefix s p).

Definition HasSuffix (s p : bytes) : bool := bool_decide (p `suffix_of` s).

Definition TrimSuffix (s p : bytes) : bytes := if HasSuffix s p then take (length s - length p) s else s.

Fixpoint Cut (s sep : bytes) : option (bytes * bytes) :=
  match CutPrefix s sep with
  | Some rest => Some ([], rest)
  | None => match s with [] => None | c :: s => '(a, b) ← Cut s sep; Some (c :: a, b) end
  end.

Definition Contains (s sep : bytes) : bool := bool_decide (is_Some (Cut s sep)).

(** ** Requests *)

Definition MethodGet : bytes := str "GET".
Definition MethodPost : bytes := str "POST".
Definition MethodDelete : bytes := str "DELETE".

(** [rq_Forwarded] is the header [X-Forwarded-Leader]; the body is a stream of which a decoder
    leaves the rest. *)
Record Request : Type := {
  rq_Method : bytes; rq_Path : bytes; rq_Query : gmap bytes bytes; rq_Auth : bytes; rq_Forwarded : bytes; rq_Body : bytes }.

Definition query (rq : Request) (name : bytes) : bytes := default [] (rq_Query rq !! name).

Definition with_body (rq : Request) (body : bytes) : Request := {|
  rq_Method := rq_Method rq; rq_Path := rq_Path rq; rq_Query := rq_Query rq; rq_Auth := rq_Auth rq;
  rq_Forwarded := rq_Forwarded rq; rq_Body := body |}.

(** [json.NewDecoder(http.MaxBytesReader(w, r.Body, n)).Decode(&req)]: the value, and what is left
    of the body. *)
Class JsonReq (A : Type) : Type := { json_Decode : Z -> bytes -> result A * bytes }.

(** A drained body holds no value: the decoder reports the end of the stream. *)
Class JsonReqLaws (A : Type) `{JsonReq A} : Prop := { json_eof : forall n, exists e, json_Decode n [] = (Fail e, []) }.

(** [decodeJSON]. *)
Definition decodeJSON {A} `{JsonReq A} (rq : Request) : option A :=
  match fst (json_Decode (2 ^ 16) (rq_Body rq)) with Ret a => Some a | _ => None end.

(** ** Answers *)

Definition StatusAccepted : Z := 202.
Definition StatusUnauthorized : Z := 401.
Definition StatusBadGateway : Z := 502.
Definition StatusServiceUnavailable : Z := 503.

(** Loads: percentages in tenths, as [round1] leaves them. *)
Record NodeMetrics : Type := {
  nm_CPUPercent : Z; nm_MemPercent : Z; nm_MemUsedBytes : Z; nm_MemTotalBytes : Z; nm_DiskPercent : Z;
  nm_DiskUsedBytes : Z; nm_DiskTotalBytes : Z; nm_StoreBytes : Z }.

Record Node : Type := {
  nd_ID : bytes; nd_Address : bytes; nd_Voter : bool; nd_Leader : bool; nd_Self : bool; nd_Up : bool;
  nd_Metrics : option NodeMetrics; nd_Detail : option error }.

Record RegionStat : Type := { rs_Tenant : bytes; rs_Region : bytes; rs_Keys : Z; rs_RestBytes : Z; rs_TransferByte : Z }.

Record digestOut : Type := {
  do_NodeID : bytes; do_Height : Z; do_Term : Z; do_Digest : bytes; do_Unix : Z; do_Signature : bytes; do_Cert : bytes; do_Signed : bool }.

(** The warnings of a collection, by what they report. *)
Inductive warning : Type :=
| WUnreachable (label : bytes) (e : error) | WMismatch (label : bytes) (height : Z) | WNoSigner (label : bytes)
| WMalformed (label : bytes) | WNoAttestations | WNoPinnedKey.

Record materialsOut : Type := {
  mo_Height : Z; mo_Digest : bytes; mo_Unix : Z; mo_Signers : list bytes; mo_Members : Z; mo_QuorumCert : bytes;
  mo_NodeCerts : list bytes; mo_CaPub : bytes; mo_Warnings : list warning }.

(** What [cluster] shows of a running raft server; the statistics may be missing. *)
Record RaftStatus : Type := {
  rf_state : bytes; rf_leader : bytes; rf_appliedIndex : Z; rf_lastIndex : Z; rf_stats : option (bytes * bytes) (* term, num_peers *) }.

(** The bodies of the answers, by handler. *)
Inductive Body : Type :=
| JMe (principal : bytes) (admin canRead : bool)
| JText (l : list bytes)                                   (* a few named strings *)
| JCluster (clusterId : option bytes) (replication : option RaftStatus)
| JLedgerStatus (head : option (Z * bytes))
| JStats (reads writes unix : Z) (disk : option (Z * Z * Z)) | JRegions (regions : list RegionStat)
| JMetrics (m : NodeMetrics) | JNodes (replication : bool) (nodes : list Node)
| JToken (token : bytes) (expiresAt : Z) | JPat (t : token_reply)
| JJob (job : Job) | JJobs (jobs : list Job)
| JDigest (d : digestOut) | JMaterials (m : materialsOut) | JCAPub (pub : bytes) (pinned : bool)
| JSetup (s : setup_status) | JDump (data : bytes)
| JUsers (l : list userOut) | JPats (l : list patOut) | JAccounts (l : list saOut) | JRoles (m : gmap bytes (list bytes))
| JBindings (l : list bindingOut) | JCerts (l : list certOut) | JIssued (c : issued_cert) | JGroups (l : list groupOut)
| JGroup (name : bytes) (members : list bytes).

(** The answer of a handler as a body. *)
Definition reply_map {A B} (f : A -> B) (r : reply A) : reply B :=
  match r with Reply code a => Reply code (f a) | ReplyErr code msg => ReplyErr code msg | Crash => Crash end.

(** ** Lemmas *)

Lemma reply_map_Crash {A B} (f : A -> B) r : reply_map f r = Crash <-> r = Crash.
Proof. by destruct r. Qed.

Lemma hex_nibble_digit n : 0 <= n < 16 -> hex_nibble (hex_digit n) = Some n.
Proof.
  intros Hn. unfold hex_nibble, hex_digit. destruct (Z.ltb_spec n 10); rewrite byte_val_of, Z.mod_small by lia.
  - destruct (Z.leb_spec 48 (48 + n)), (Z.leb_spec (48 + n) 57); cbn [andb]; [f_equal; lia|lia..].
  - destruct (Z.leb_spec 48 (87 + n)), (Z.leb_spec (87 + n) 57), (Z.leb_spec 97 (87 + n)), (Z.leb_spec (87 + n) 102); cbn [andb]; try lia.
    f_equal; lia.
Qed.

Lemma hex_roundtrip d : hex_DecodeString (DigestHex d) = Some d.
Proof.
  induction d as [|b d IH]; [done|]. unfold DigestHex. cbn [flat_map app hex_DecodeString]. fold (DigestHex d).
  pose proof (byte_val_range b). rewrite !hex_nibble_digit by (split; [apply Z.div_pos || apply Z.mod_pos_bound|apply Z.div_lt_upper_bound || apply Z.mod_pos_bound]; lia).
  cbn [mbind option_bind]. rewrite IH. cbn. do 2 f_equal. rewrite <- Z.div_mod by lia. apply byte_of_val.
Qed.
