(* ===== verification/Nodes.v ===== *)
(** * Cluster nodes in the console ([pkg/console/nodes.go])

    Listing the members with their load, adding and removing voters, minting join tokens and
    enrolling nodes. Membership changes run on the leader; a node that does not lead re-issues the
    request against the leader's console. [W] is what the cluster shares, the replicated store and
    the raft configuration; a node has its own view of who leads, which may be stale. The exchange
    with another console is the parameter [send], [None] when it does not come back. *)

From S2P Require Import Prelude Pb Keys Engine Storage StorageSpec StorageReads StorageProps Value Service Iam PolicyService Password Auth Console Pki Setup Net NodeIdentity Membership Api.

Section Nodes.
Context `{UuidPkg} `{Badger} `{StorePkg} `{ValuePkg} `{!IamStructs} `{X509Pkg} `{TlsPkg}.
Context `{!Struct JoinRecord} `{!Struct CARecord}.
Context {D : Type} `{!OsPkg D} {W : Type} `{!HasStorage W} `{!RaftMembers W}.
Variable replicator : option (Replicator W).
Variable dial : bytes -> tls_Config -> result (list x509_Certificate).

(** A console and its node's view of raft. *)
Record ConsoleNode : Type := {
  cn_raft : bool;               (* raftHandle *)
  cn_leads : bool;              (* IsLeader *)
  cn_leader : bytes * bytes;    (* LeaderWithID *)
  cn_localAddr : option bytes;  (* Transport().LocalAddr() *)
  cn_HTTPBind : bytes;
  cn_DataDir : bytes;
  cn_disk : D;
  cn_metrics : NodeMetrics      (* localMetrics *)
}.

Definition errLoop : error := ErrNew (str "leader-forward loop detected").

(** [errStatus]: the text of a status code. *)
Variable StatusText : Z -> bytes.
Definition errStatus (code : Z) : error := ErrNew (StatusText code).

(** *** Listing *)

Definition selfNodeID (t : ConsoleNode) (w : W) : bytes :=
  match cn_localAddr t with
  | Some local =>
      match GetConfiguration w with
      | Ret servers => default [] (sv_ID <$> (head (filter (fun s => sv_Address s = local) servers)))
      | _ => []
      end
  | None => []
  end.

(** The probe of a peer's metrics: the url and the caller's credential. *)
Variable get_metrics : bytes -> bytes -> result (Z * result NodeMetrics).

Definition fetchPeerMetrics (t : ConsoleNode) (raftAddr auth : bytes) : result NodeMetrics :=
  '(code, body) ← get_metrics (peer_http (cn_HTTPBind t) raftAddr ++ str "/api/node/metrics") auth;
  if negb (code =? StatusOK) then Fail (errStatus code) else body.

Definition list_node (t : ConsoleNode) (leaderID selfID auth : bytes) (srv : Server) : Node :=
  let self := bool_decide (sv_ID srv = selfID) in
  let probe := fetchPeerMetrics t (sv_Address srv) auth in
  {| nd_ID := sv_ID srv; nd_Address := sv_Address srv; nd_Voter := sv_Voter srv; nd_Leader := bool_decide (sv_ID srv = leaderID);
     nd_Self := self;
     nd_Up := self || match probe with Ret _ => true | _ => false end;
     nd_Metrics := if self then Some (cn_metrics t) else match probe with Ret m => Some m | _ => None end;
     nd_Detail := if self then None else match probe with Fail e => Some e | _ => None end |}.

(** [clusterNodes]: each probe writes its own slot, so their order does not matter. *)
Definition clusterNodes (t : ConsoleNode) (rq : Request) (w : W) : reply Body :=
  if negb (cn_raft t) then
    Reply StatusOK (JNodes false [{| nd_ID := str "local"; nd_Address := []; nd_Voter := true; nd_Leader := true; nd_Self := true; nd_Up := true;
                                     nd_Metrics := Some (cn_metrics t); nd_Detail := None |}])
  else match GetConfiguration w with
  | Panic => Crash
  | Fail _ => ReplyErr StatusInternalServerError (str "read configuration")
  | Ret servers => Reply StatusOK (JNodes true (list_node t (snd (cn_leader t)) (selfNodeID t w) (rq_Auth rq) <$> servers))
  end.

(** *** Changing membership *)

Variable send : bytes -> Request -> W -> option (result (reply Body) * W).

(** [proxyToLeader]: the same method, path, credential and what is left of the body, without the
    query. A request that was itself forwarded is refused. *)
Definition proxyToLeader (t : ConsoleNode) (rq : Request) (leaderRaftAddr : bytes) (w : W) : option (result (reply Body) * W) :=
  if bool_decide (rq_Forwarded rq = str "1") then Some (Fail errLoop, w) else
  send (peer_http (cn_HTTPBind t) leaderRaftAddr ++ rq_Path rq)
    {| rq_Method := rq_Method rq; rq_Path := rq_Path rq; rq_Query := ∅; rq_Auth := rq_Auth rq;
       rq_Forwarded := str "1"; rq_Body := rq_Body rq |} w.

(** What a follower answers: the leader's answer, or why there is none. *)
Definition via_leader (t : ConsoleNode) (rq : Request) (w : W) : option (reply Body * W) :=
  let leaderAddr := fst (cn_leader t) in
  if bool_decide (leaderAddr = []) then Some (ReplyErr StatusServiceUnavailable (str "no leader elected"), w) else
  '(r, w) ← proxyToLeader t rq leaderAddr w;
  Some (match r with
        | Ret answer => answer
        | Fail _ => ReplyErr StatusBadGateway (str "forward to leader")
        | Panic => Crash
        end, w).

Definition not_replicated : reply Body := ReplyErr StatusConflict (str "replication is not enabled on this node").

Definition membershipChange (t : ConsoleNode) (rq : Request) (apply : W -> option error * W) (what : bytes) (w : W) : option (reply Body * W) :=
  if negb (cn_raft t) then Some (not_replicated, w)
  else if cn_leads t then
    match apply w with
    | (Some _, w) => Some (ReplyErr StatusInternalServerError (what ++ str " failed"), w)
    | (None, w) => Some (Reply StatusOK (JText [what ++ str "ed"]), w)
    end
  else via_leader t rq w.

Record AddRequest : Type := { ar_NodeID : bytes; ar_Address : bytes }.
Context `{!JsonReq AddRequest} `{!JsonReq EnrollRequest}.

Definition bad_add : reply Body := ReplyErr StatusBadRequest (str "nodeId and address are required").

(** [addNode]: the body is read before the request may be forwarded. *)
Definition addNode (t : ConsoleNode) (rq : Request) (w : W) : option (reply Body * W) :=
  match json_Decode (2 ^ 16) (rq_Body rq) with
  | (Panic, _) => Some (Crash, w)
  | (Fail _, _) => Some (bad_add, w)
  | (Ret req, rest) =>
      if bool_decide (ar_NodeID req = []) || bool_decide (ar_Address req = []) then Some (bad_add, w) else
      let change := membershipChange t (with_body rq rest) (AddVoter (ar_NodeID req) (ar_Address req)) (str "add") w in
      if negb (cn_raft t) then change else
      match PreflightClusterPeer dial (cn_DataDir t) (ar_NodeID req) (ar_Address req) (cn_disk t) with
      | Panic => Some (Crash, w)
      | Fail _ => Some (ReplyErr StatusBadRequest (str "target is not a reachable member of this cluster"), w)
      | Ret _ => change
      end
  end.

Definition removeNode (t : ConsoleNode) (rq : Request) (id : bytes) (w : W) : option (reply Body * W) :=
  membershipChange t rq (RemoveServer id) (str "remove") w.

(** *** Join tokens and enrollment *)

Definition minute : Z := 60 * second.

(** The duration of [mintJoinTokenHandler]: [time.Duration(n) * time.Minute] wraps. *)
Definition join_ttl (m : bytes) : Z :=
  match ParseInt m with
  | Some n => if 0 <? n then int64 (n * minute) else 30 * minute
  | None => 30 * minute
  end.

Definition mintJoinTokenHandler (now : Z) (env : PkiEnv) (secret : result bytes) (rq : Request) (principal : bytes) (w : W) : reply Body * W :=
  match mintJoinToken replicator now env secret (join_ttl (query rq (str "ttlMinutes"))) principal w with
  | (Panic, w) => (Crash, w)
  | (Fail _, w) => (ReplyErr StatusInternalServerError (str "mint join token"), w)
  | (Ret (token, expiresAt), w) => (Reply StatusCreated (JToken token expiresAt), w)
  end.

Definition bad_enroll : reply Body := ReplyErr StatusBadRequest (str "nodeId, raftAddr and csrPem are required").

(** Everything [enrollNode] does on the leader once the request is decoded. *)
Definition enroll_act (now : Z) (env : PkiEnv) (req : EnrollRequest) (w : W) : reply Body * W :=
  if bool_decide (eq_NodeId req = []) || bool_decide (eq_RaftAddr req = []) || bool_decide (eq_CsrPem req = []) then (bad_enroll, w) else
  match signNodeEnrollment replicator now env (eq_Token req) (eq_NodeId req) [hostOnly (eq_RaftAddr req); hostOnly (eq_Advertise req)] (eq_CsrPem req) w with
  | (Panic, w) => (Crash, w)
  | (Fail _, w) => (ReplyErr StatusBadRequest (str "enrollment refused"), w)
  | (Ret (certPEM, caPEM), w) =>
      match AddVoter (eq_NodeId req) (eq_RaftAddr req) w with
      | (Some _, w) => (ReplyErr StatusInternalServerError (str "add voter"), w)
      | (None, w) => (Reply StatusCreated (JText [eq_NodeId req; certPEM; caPEM]), consumeJoinToken replicator now (eq_Token req) w)
      end
  end.

Definition enrollNode (now : Z) (env : PkiEnv) (t : ConsoleNode) (rq : Request) (w : W) : option (reply Body * W) :=
  if negb (cn_raft t) then Some (not_replicated, w)
  else if negb (cn_leads t) then via_leader t rq w
  else match decodeJSON rq with
       | None => Some (ReplyErr StatusBadRequest (str "invalid JSON body"), w)
       | Some req => Some (enroll_act now env req w)
       end.

End Nodes.
