(* ===== verification/NodesProps.v ===== *)
(** * Properties of the console's node management

    No voter is added without proof: a certificate of this cluster bearing the node's name, or a
    join token that was found, current and burned. A joiner that is provisioned is a voter under
    its address. Forwarding an add request from a follower always fails, and a long lifetime makes
    a join token eternal. *)

From S2P Require Import Prelude Sha256 Pb Keys Engine Storage StorageSpec StorageReads StorageProps ScanProps Value Service Iam PolicyService Password Auth Console Pki PkiProps Setup Net NodeIdentity NodeIdentityProps Membership MembershipProps Api Nodes.

Section Props.
Context `{UuidPkg} `{Badger} `{StorePkg} `{ValuePkg} `{!IamStructs} `{X509Pkg} `{TlsPkg}.
Context `{!Struct JoinRecord} `{!Struct CARecord}.
Context {D : Type} `{!OsPkg D} {W : Type} `{!HasStorage W} `{!RaftMembers W}.
Variable replicator : option (Replicator W).
Variable dial : bytes -> tls_Config -> result (list x509_Certificate).
Variable send : bytes -> Request -> W -> option (result (reply Body) * W).
Context `{!JsonReq AddRequest} `{!JsonReq EnrollRequest}.

(** What a handshake with a peer proved: a certificate accepted against this cluster's root, under
    the cluster-wide name, bearing the node id. *)
Definition proven_peer (t : ConsoleNode (D := D)) (nodeID addr : bytes) : Prop :=
  exists id cfg pool leaf rest, LoadNodeIdentity (cn_DataDir t) (cn_disk t) = Some id /\ MutualConfig id = Ret cfg /\
    AppendCertsFromPEM (ni_CAPEM id) = Some pool /\ tc_RootCAs cfg = Some pool /\ tc_ServerName cfg = NodeSANDNS /\
    dial addr cfg = Ret (leaf :: rest) /\ xc_CommonName leaf = nodeID.

Lemma MutualConfig_inv id cfg :
  MutualConfig id = Ret cfg -> exists pool, AppendCertsFromPEM (ni_CAPEM id) = Some pool /\ tc_RootCAs cfg = Some pool /\
    tc_ClientCAs cfg = Some pool /\ tc_RequireAndVerifyClientCert cfg = true /\ tc_ServerName cfg = NodeSANDNS.
Proof.
  unfold MutualConfig, MutualTLSConfig, certPool. destruct (X509KeyPair _ _); cbn [wrap mbind outcome_bind]; [|done|done].
  destruct (AppendCertsFromPEM _) as [pool|]; cbn [mbind outcome_bind]; [|done]. intros [= <-]. by exists pool.
Qed.

Lemma preflight_inv (t : ConsoleNode (D := D)) nodeID addr :
  nodeID <> [] -> PreflightClusterPeer dial (cn_DataDir t) nodeID addr (cn_disk t) = Ret tt -> proven_peer t nodeID addr.
Proof.
  intros Hne. unfold PreflightClusterPeer, proven_peer. destruct (LoadNodeIdentity _ _) as [id|]; [|done].
  destruct (MutualConfig id) as [cfg|?|] eqn:EM; cbn [mbind outcome_bind]; [|done|done].
  destruct (dial addr cfg) as [peers|?|] eqn:ED; [|done|done]. rewrite bool_decide_eq_false_2 by done.
  destruct peers as [|leaf rest]; [done|]. case_bool_decide as EC; [|done]. intros _.
  destruct (MutualConfig_inv id cfg EM) as (pool & HP & HR & _ & _ & HS). by exists id, cfg, pool, leaf, rest.
Qed.

(** C17: No voter is added unproven. When the leader handles a request to add a node, either
    nothing has changed, or the request named a node id and an address, a mutual-TLS handshake
    with that address succeeded under this cluster's root and the cluster-wide name, the peer's
    certificate bore that node id, and the change is that one [AddVoter] call. *)
Theorem addNode_needs_proof (t : ConsoleNode) (rq : Request) (w w' : W) (r : reply Body) :
  cn_raft t = true -> cn_leads t = true -> addNode dial send t rq w = Some (r, w') ->
  w' = w \/ exists req rest, json_Decode (2 ^ 16) (rq_Body rq) = (Ret req, rest) /\ ar_NodeID req <> [] /\ ar_Address req <> [] /\
    proven_peer t (ar_NodeID req) (ar_Address req) /\ w' = snd (AddVoter (ar_NodeID req) (ar_Address req) w).
Proof.
  intros HR HL. unfold addNode, bad_add. destruct (json_Decode _ _) as [[req|?|] rest]; [|by intros [= _ <-]; left|by intros [= _ <-]; left].
  case_bool_decide as E1; [by intros [= _ <-]; left|]. case_bool_decide as E2; [by intros [= _ <-]; left|]. cbn [orb].
  rewrite HR. cbn [negb]. destruct (PreflightClusterPeer _ _ _ _ _) as [[]|?|] eqn:EP; [|by intros [= _ <-]; left|by intros [= _ <-]; left].
  unfold membershipChange. rewrite HR, HL. cbn [negb]. intros Hw. right. exists req, rest. split; [done|]. split; [done|]. split; [done|].
  split; [by apply preflight_inv|]. destruct (AddVoter _ _ w) as [[|] w1]; by injection Hw as _ <-.
Qed.

(** What the leader's console makes of an enrollment, as the joiner decodes it. *)
Definition answer_of (r : reply Body) : result EnrollAnswer :=
  match r with
  | Reply code (JText [_; cert; ca]) => Ret {| ea_StatusCode := code; ea_Status := []; ea_CertPem := cert; ea_CaPem := ca; ea_Error := [] |}
  | Reply code _ => Ret {| ea_StatusCode := code; ea_Status := []; ea_CertPem := []; ea_CaPem := []; ea_Error := [] |}
  | ReplyErr code msg => Ret {| ea_StatusCode := code; ea_Status := []; ea_CertPem := []; ea_CaPem := []; ea_Error := msg |}
  | Crash => Fail (ErrNew (str "EOF"))
  end.

Definition leader_post (now : Z) (env : PkiEnv) (url : bytes) (req : EnrollRequest) (w : W) : result EnrollAnswer * W :=
  let '(r, w) := enroll_act replicator now env req w in (answer_of r, w).

Lemma enroll_created now env req w w' out :
  leader_post now env [] req w = (Ret out, w') -> ea_StatusCode out = StatusCreated -> ea_CertPem out <> [] ->
  exists w1 w2, signNodeEnrollment replicator now env (eq_Token req) (eq_NodeId req) [hostOnly (eq_RaftAddr req); hostOnly (eq_Advertise req)] (eq_CsrPem req) w
      = (Ret (ea_CertPem out, ea_CaPem out), w1) /\
    AddVoter (eq_NodeId req) (eq_RaftAddr req) w1 = (None, w2) /\ w' = consumeJoinToken replicator now (eq_Token req) w2.
Proof.
  unfold leader_post, enroll_act, bad_enroll. destruct (_ || _)%bool; [by intros [= <- <-]|].
  destruct (signNodeEnrollment _ _ _ _ _ _ _ _) as [[[certPEM caPEM]|?|] w1] eqn:ES; [|by intros [= <- <-]|done].
  destruct (AddVoter _ _ w1) as [[|] w2] eqn:EA; [by intros [= <- <-]|]. intros [= <- <-] _ _. exists w1, w2. by split; [|split].
Qed.

(** A joiner that is provisioned has been admitted. If a node without an identity starts with
    a join token and is provisioned through the leader's console, then the leader found the token
    valid and burned it before signing (the enrollment succeeded), the certificate and root in
    the node's files are the ones signed and handed out there, the private key never left the
    node, and the leader recorded the node as a voter under its own address, after the signature
    and before it deleted the token. *)
Theorem joiner_admitted (now now2 : Z) (env : PkiEnv) (props : NodeProps) (rnd : GenesisRandom) (nodeID : bytes)
    (d d' : D) (w w' : W) (id : NodeIdentity) :
  LoadNodeIdentity (np_dataDir props) d = None -> np_join_token props <> [] ->
  provision (leader_post now env) props now2 rnd nodeID d w = (Ret id, d', w') ->
  exists key keyPEM csr w1 w2, gr_leafKey rnd = Ret key /\ GenerateCSR (Ret key) nodeID = Ret (keyPEM, csr) /\ ni_KeyPEM id = keyPEM /\
    signNodeEnrollment replicator now env (np_join_token props) nodeID [hostOnly (raft_address props); hostOnly (hostOf (np_advertised props))] csr w
      = (Ret (ni_CertPEM id, ni_CAPEM id), w1) /\
    AddVoter nodeID (raft_address props) w1 = (None, w2) /\ w' = consumeJoinToken replicator now (np_join_token props) w2 /\
    Save id (np_dataDir props) d = (None, d').
Proof.
  intros HL Hj. unfold provision. rewrite HL, bool_decide_eq_false_2 by done. cbn [negb]. unfold enroll.
  destruct (bool_decide (np_join_peer props = [])); [done|]. unfold EnrollNode.
  destruct (GenerateCSR (gr_leafKey rnd) nodeID) as [[keyPEM csr]|?|] eqn:EG; [|done|done].
  set (req := {| eq_Token := np_join_token props |}). destruct (leader_post now env _ req w) as [[out|?|] w3] eqn:EP; [|done|done].
  destruct (Z.eqb_spec (ea_StatusCode out) StatusCreated) as [Ec|]; [|done]. cbn [negb orb].
  case_bool_decide as Ek; [done|]. set (id' := {| ni_CertPEM := ea_CertPem out |}).
  destruct (Save id' _ d) as [[|] d1] eqn:ES; [done|]. intros [= <- <- <-].
  destruct (enroll_created now env req w w3 out EP Ec Ek) as (w1 & w2 & HS & HA & HW).
  destruct (gr_leafKey rnd) as [key|?|] eqn:EK; [|done|done]. by exists key, keyPEM, csr, w1, w2.
Qed.

(** Adding a node through a follower fails (a defect). A follower reads the body of the request
    before it forwards it, so the leader receives an empty one and answers that the node id and
    the address are required: a request whose body the decoder has read to its end, and that a
    leader would accept, is refused with status 400 and changes nothing when sent to a follower. *)
Theorem follower_add_fails (send2 : bytes -> Request -> W -> option (result (reply Body) * W)) (t leader : ConsoleNode) (rq : Request) (w : W)
    (req : AddRequest) :
  (forall n, exists e, json_Decode n [] = (Fail e, []) :> result AddRequest * bytes) ->
  json_Decode (2 ^ 16) (rq_Body rq) = (Ret req, []) -> ar_NodeID req <> [] -> ar_Address req <> [] ->
  cn_raft t = true -> cn_leads t = false -> fst (cn_leader t) <> [] -> rq_Forwarded rq <> str "1" ->
  PreflightClusterPeer dial (cn_DataDir t) (ar_NodeID req) (ar_Address req) (cn_disk t) = Ret tt ->
  (forall url rq' w', send url rq' w' = ('(r, w') ← addNode dial send2 leader rq' w'; Some (Ret r, w'))) ->
  addNode dial send t rq w = Some (bad_add, w).
Proof.
  intros Heof HJ Hn Ha HR HL Hld Hf HP Hs. unfold addNode at 1. rewrite HJ, !bool_decide_eq_false_2 by done. cbn [orb]. rewrite HR. cbn [negb].
  rewrite HP. unfold membershipChange. rewrite HR, HL. cbn [negb]. unfold via_leader. rewrite bool_decide_eq_false_2 by done.
  unfold proxyToLeader. cbn [with_body rq_Forwarded rq_Body rq_Method rq_Path rq_Auth]. rewrite bool_decide_eq_false_2 by done.
  rewrite Hs. unfold addNode at 1. cbn [rq_Body]. destruct (Heof (2 ^ 16)) as [e ->]. done.
Qed.

(** C33: The lifetime of a join token is exact up to the range of a duration, and unlimited just
    beyond it. A request for up to 153722867 minutes gives a token that expires after exactly
    that time; at one minute more the duration wraps around to a negative one and the token is
    minted without an expiry. *)
Theorem join_ttl_bounds (n : Z) (m : bytes) (now : Z) (env : PkiEnv) (secret : result bytes) (rq : Request) (principal : bytes) (w w' : W)
    (token : bytes) (expiresAt : Z) :
  ParseInt m = Some n -> query rq (str "ttlMinutes") = m -> 0 < n <= 153722868 ->
  mintJoinTokenHandler replicator now env secret rq principal w = (Reply StatusCreated (JToken token expiresAt), w') ->
  expiresAt = if n =? 153722868 then 0 else now + 60 * n.
Proof.
  intros HP HQ Hn. unfold mintJoinTokenHandler. rewrite HQ. unfold join_ttl. rewrite HP.
  destruct (Z.ltb_spec 0 n); [|lia]. unfold mintJoinToken. destruct (ensureCA _ _ _ _) as [[ca|?|] w1]; [|done|done].
  destruct (new_token _ _) as [[tok hash]|?|]; [|done|done]. destruct (Z.eqb_spec n 153722868) as [->|Hne].
  - change (0 <? int64 (153722868 * minute)) with false. cbn iota. destruct (iam_Encode _); [|done|done].
    destruct (svc_Put _ _ _ _ _) as [[|?|] w2]; [|done|done]. by intros [= _ <- _].
  - rewrite int64_small by (unfold is_int64, minute, second; lia).
    destruct (Z.ltb_spec 0 (n * minute)); [|unfold minute, second in *; lia].
    destruct (iam_Encode _); [|done|done]. destruct (svc_Put _ _ _ _ _) as [[|?|] w2]; [|done|done]. intros [= _ <- _].
    unfold minute. rewrite Z.mul_assoc, Z.div_mul by (unfold second; lia). lia.
Qed.

End Props.

(** ** Witnesses *)

#[local] Existing Instances flat_uuid flat_uuid_laws mem_badger mem_spec flat_store flat_store_laws
  flat_value flat_iam_structs pem_x509 pem_x509_laws flat_tls demo_os demo_os_laws.
#[local] Instance nodes_join_struct : Struct JoinRecord := flat_struct JoinRecord.
#[local] Instance nodes_ca_struct : Struct CARecord := flat_struct CARecord.

Record demo_world : Type := { dw_store : KeyValueStorageCtx; dw_servers : list Server }.

#[local] Instance demo_world_storage : HasStorage demo_world := {|
  get_storage := dw_store; set_storage := fun w st => {| dw_store := st; dw_servers := dw_servers w |} |}.

#[local] Instance demo_world_members : RaftMembers demo_world := {|
  GetConfiguration := fun w => Ret (dw_servers w); LeaderWithID := fun _ => ([], []); IsLeader := fun _ => true;
  AddVoter := fun id addr w => (None, {| dw_store := dw_store w; dw_servers := set_voter id addr (dw_servers w) |});
  RemoveServer := fun id w => (None, {| dw_store := dw_store w; dw_servers := filter (fun s => sv_ID s <> id) (dw_servers w) |});
  BootstrapCluster := fun cfg w => (None, {| dw_store := dw_store w; dw_servers := cfg |}) |}.

(** A JSON body that is the numbering of the request; an empty one is at its end. *)
Definition flat_json (A : Type) `{Countable A} : JsonReq A := {|
  json_Decode := fun _ b =>
    match b with
    | [] => (Fail (ErrNew (str "EOF")), [])
    | _ => match decode (bytes_pos b) with Some a => (Ret a, []) | None => (Fail (ErrNew (str "syntax")), []) end
    end |}.

#[global] Instance AddRequest_eq_dec : EqDecision AddRequest.
Proof. solve_decision. Defined.
#[global] Instance AddRequest_countable : Countable AddRequest.
Proof.
  refine (inj_countable' (fun r => (ar_NodeID r, ar_Address r)) (fun '(a, b) => {| ar_NodeID := a; ar_Address := b |}) _). by intros [].
Defined.
#[local] Instance demo_add_json : JsonReq AddRequest := flat_json AddRequest.

Definition demo_add : AddRequest := {| ar_NodeID := str "n2"; ar_Address := str "10.0.0.2:8442" |}.

Definition demo_add_request : Request := {|
  rq_Method := MethodPost; rq_Path := str "/api/cluster/nodes"; rq_Query := ∅; rq_Auth := []; rq_Forwarded := []; rq_Body := pos_bytes (encode demo_add) |}.

Definition demo_peer_cert (cn : bytes) : x509_Certificate := {|
  xc_SerialNumber := 9; xc_CommonName := cn; xc_NotBefore := 0; xc_NotAfter := 1000; xc_CertSign := false; xc_DigitalSignature := true;
  xc_ClientAuth := true; xc_ServerAuth := true; xc_IsCA := false; xc_MaxPathLenZero := false; xc_DNSNames := [NodeSANDNS];
  xc_IPAddresses := []; xc_URIs := [] |}.

Definition demo_dial (addr : bytes) (cfg : tls_Config) : result (list x509_Certificate) := Ret [demo_peer_cert (str "n2")].

Definition no_metrics : NodeMetrics := {|
  nm_CPUPercent := 0; nm_MemPercent := 0; nm_MemUsedBytes := 0; nm_MemTotalBytes := 0; nm_DiskPercent := 0; nm_DiskUsedBytes := 0;
  nm_DiskTotalBytes := 0; nm_StoreBytes := 0 |}.

Definition demo_node (leads : bool) : ConsoleNode := {|
  cn_raft := true; cn_leads := leads; cn_leader := (str "10.0.0.1:8442", str "n1"); cn_localAddr := None; cn_HTTPBind := str "0.0.0.0:8441";
  cn_DataDir := str "/var/cdb"; cn_disk := demo_done; cn_metrics := no_metrics |}.

Definition demo_seed_world : demo_world := {| dw_store := demo_storage; dw_servers := [demo_server (str "n1") (str "10.0.0.1:8442")] |}.

Definition demo_no_send (url : bytes) (rq : Request) (w : demo_world) : option (result (reply Body) * demo_world) := None.

Definition demo_two_world : demo_world := snd (AddVoter (str "n2") (str "10.0.0.2:8442") demo_seed_world).

Lemma addNode_needs_proof_witness :
  demo_two_world <> demo_seed_world /\
  exists req rest, json_Decode (2 ^ 16) (rq_Body demo_add_request) = (Ret req, rest) /\ proven_peer demo_dial (demo_node true) (ar_NodeID req) (ar_Address req).
Proof.
  assert (demo_two_world <> demo_seed_world) as Hne by (intros E; apply (f_equal (fun w => length (dw_servers w))) in E; vm_compute in E; discriminate).
  split; [exact Hne|].
  destruct (addNode_needs_proof demo_dial demo_no_send (demo_node true) demo_add_request demo_seed_world demo_two_world (Reply StatusOK (JText [str "added"])))
    as [E|(req & rest & HJ & _ & _ & HP & _)].
  - reflexivity.
  - reflexivity.
  - vm_compute. reflexivity.
  - by destruct Hne.
  - by exists req, rest.
Defined.

(** A follower's exchange with the first node. *)
Definition demo_to_leader (url : bytes) (rq : Request) (w : demo_world) : option (result (reply Body) * demo_world) :=
  '(r, w) ← addNode demo_dial demo_no_send (demo_node true) rq w; Some (Ret r, w).

Lemma follower_add_fails_witness :
  addNode demo_dial demo_to_leader (demo_node false) demo_add_request demo_seed_world = Some (bad_add, demo_seed_world).
Proof.
  apply (follower_add_fails demo_dial demo_to_leader demo_no_send (demo_node false) (demo_node true) demo_add_request demo_seed_world demo_add).
  - intros n. by eexists.
  - vm_compute. reflexivity.
  - discriminate.
  - discriminate.
  - reflexivity.
  - reflexivity.
  - discriminate.
  - discriminate.
  - vm_compute. reflexivity.
  - reflexivity.
Defined.

(** A third node joins with a token minted by the seed, whose root was generated at genesis. *)
Definition demo_seed_env : PkiEnv := disk_env 200 (str "/var/cdb") demo_done (Fail ErrorEmptyKey) (Ret 9) (Ret (str "k")) [].

Definition demo_mint_request : Request := {|
  rq_Method := MethodPost; rq_Path := str "/api/cluster/join-token"; rq_Query := {[str "ttlMinutes" := str "153722868"]}; rq_Auth := [];
  rq_Forwarded := []; rq_Body := [] |}.

Definition demo_mint : reply Body * demo_world := mintJoinTokenHandler None 200 demo_seed_env (Ret (str "secret")) demo_mint_request (str "user:root") demo_seed_world.

Definition demo_join_token : bytes := match fst demo_mint with Reply _ (JToken token _) => token | _ => [] end.

Definition demo_expiry : Z := match fst demo_mint with Reply _ (JToken _ e) => e | _ => 1 end.

Lemma join_ttl_bounds_witness : demo_expiry = 0.
Proof.
  apply (join_ttl_bounds None 153722868 (str "153722868") 200 demo_seed_env (Ret (str "secret")) demo_mint_request (str "user:root")
    demo_seed_world (snd demo_mint) demo_join_token demo_expiry); [vm_compute; reflexivity|vm_compute; reflexivity|lia|].
  apply pair_by_fst. vm_compute. reflexivity.
Defined.

Definition demo_joiner_props : NodeProps := {|
  np_dataDir := str "/data"; np_advertised := str "10.0.0.3:8442"; np_advertise_address := str "node-3:8442"; np_join_token := demo_join_token;
  np_bootstrap := false; np_bootstrap_token := []; np_join_peer := str "http://10.0.0.1:8441/" |}.

Definition demo_joined : result NodeIdentity * demo_disk * demo_world :=
  provision (leader_post None 210 demo_seed_env) demo_joiner_props 210 demo_rnd (str "n3") demo_empty (snd demo_mint).

Definition demo_joiner : NodeIdentity := match fst (fst demo_joined) with Ret id => id | _ => no_identity end.

Lemma demo_joined_ok :
  provision (leader_post None 210 demo_seed_env) demo_joiner_props 210 demo_rnd (str "n3") demo_empty (snd demo_mint)
  = (Ret demo_joiner, snd (fst demo_joined), snd demo_joined).
Proof.
  unfold demo_joiner, demo_joined. set (run := provision _ _ _ _ _ _ _).
  assert (match fst (fst run) with Ret _ => true | _ => false end = true) as Hr by (vm_compute; reflexivity).
  clearbody run. destruct run as [[r d] w]. by destruct r.
Qed.

Lemma joiner_admitted_witness :
  exists w1 w2, AddVoter (str "n3") (str "node-3:8442") w1 = (None, w2) /\ snd demo_joined = consumeJoinToken None 210 demo_join_token w2.
Proof.
  destruct (joiner_admitted None 210 210 demo_seed_env demo_joiner_props demo_rnd (str "n3") demo_empty (snd (fst demo_joined))
    (snd demo_mint) (snd demo_joined) demo_joiner) as (key & keyPEM & csr & w1 & w2 & _ & _ & _ & _ & HA & HW & _).
  - vm_compute. reflexivity.
  - vm_compute. discriminate.
  - exact demo_joined_ok.
  - exists w1, w2. split; [exact HA|exact HW].
Defined.
