(* ===== verification/LedgerConsole.v ===== *)
(** * The ledger in the console ([pkg/console/ledger.go], [generateLedgerCA] of
    [pkg/console/setup.go], the codec and startup of [pkg/replication/ledger_service.go])

    The coordinator stamps a checkpoint of its own head, asks every member to co-sign exactly that,
    and aggregates the answers into a quorum certificate. Attestation itself is in [Quorum]; what
    this node's ledger service and the other consoles answer, pass by pass, are parameters. *)

From S2P Require Import Prelude Sha256 Pb Keys Engine Storage StorageSpec StorageReads StorageProps Value Command Ledger Fsm Service Iam PolicyService Codecs Password Backup Quorum Verify Auth Console Pki Setup Net NodeIdentity Membership Api Nodes.

(** ** The digest function of the data plane *)

Section Digest.
Context `{ValueMaps} `{!TextMaps}.

(** [m.Get(k) != nil]. *)
Class PresentMaps : Type := { MHas : WMap -> bytes -> bool }.

Record digestResponse : Type := { dg_checkpoint : Checkpoint; dg_nodeID : bytes; dg_signature : bytes; dg_cert : bytes }.

Definition digest_Encode (r : digestResponse) : WVal :=
  let c := dg_checkpoint r in
  VMap (MPut (MPut (MPut (MPut (MPut (MPut (MPut EmptyMap
    (str "height") (VLong (int64 (ck_Height c))))
    (str "term") (VLong (int64 (ck_Term c))))
    (str "digest") (VRaw (ck_Digest c)))
    (str "unix") (VLong (ck_Unix c)))
    (str "node_id") (VUtf8 (dg_nodeID r)))
    (str "signature") (VRaw (dg_signature r)))
    (str "cert") (VRaw (dg_cert r))).

(** The checkpoint fields of a map. *)
Definition map_checkpoint (m : WMap) : Checkpoint := {|
  ck_Height := wrap64 (GetLong m (str "height")); ck_Term := wrap64 (GetLong m (str "term"));
  ck_Digest := GetRaw m (str "digest"); ck_Unix := GetLong m (str "unix") |}.

Definition digest_Decode (v : WVal) : result digestResponse :=
  match AsMap v with
  | None => Fail (ErrNew (str "malformed digest"))
  | Some m => Ret {| dg_checkpoint := map_checkpoint m; dg_nodeID := GetText m (str "node_id");
                     dg_signature := GetRaw m (str "signature"); dg_cert := GetRaw m (str "cert") |}
  end.

(** [anyValueCodec]: a nil value is sent as an empty map. *)
Definition anyValue_Encode (v : option WVal) : WVal := match v with None => VMap EmptyMap | Some v => v end.
Definition anyValue_Decode (v : WVal) : result WVal := Ret v.

Definition requestedCheckpoint `{!PresentMaps} (req : WVal) : option Checkpoint :=
  m ← AsMap req;
  if negb (MHas m (str "height")) || negb (MHas m (str "digest")) then None else Some (map_checkpoint m).

End Digest.

Section Ledger.
Context `{UuidPkg} `{Badger} `{StorePkg} `{Payloads} `{!IamStructs} `{!Struct headRecord} `{!Struct NodeCert} `{!Struct QuorumCertificate}.
Context `{BlsPkg} `{Ed25519Pkg}.

(** [LedgerService.PostConstruct]: the signer, when both paths are set and the files load. *)
Definition ledger_signer (KeyPath CrtPath : bytes) (keyFile certFile : result bytes) : option NodeSigner :=
  if bool_decide (KeyPath = []) || bool_decide (CrtPath = []) then None else
  match LoadNodeSigner keyFile certFile with Ret s => Some s | _ => None end.

(** [LedgerService.digest]. *)
Definition ledger_digest `{ValueMaps} `{!PresentMaps} (now : Z) (fsm : FSM) (signer : option NodeSigner) (policy : option PolicyService)
    (principal : bytes) (req : WVal) : result digestResponse * option PolicyService :=
  match PolicyService.Authorize now (fsm_Storage fsm) policy principal PermProofsRead [] [] with
  | (Fail e, p) => (Fail e, p)
  | (Panic, p) => (Panic, p)
  | (Ret _, p) =>
      let a := Attest now fsm signer (requestedCheckpoint req) in
      (Ret {| dg_checkpoint := at_checkpoint a; dg_nodeID := at_nodeID a; dg_signature := at_sig a; dg_cert := at_cert a |}, p)
  end.

(** ** One node's attestation over REST *)

Definition checkpointFromQuery (rq : Request) : option Checkpoint :=
  let q := query rq in
  if bool_decide (q (str "height") = []) || bool_decide (q (str "digest") = []) then None else
  height ← ParseUint (q (str "height"));
  digest ← hex_DecodeString (q (str "digest"));
  Some {| ck_Height := height; ck_Term := UintOrZero (q (str "term")); ck_Digest := digest;
          ck_Unix := IntOrZero (q (str "unix")) |}.

Definition digest_out (a : Attestation) : digestOut := {|
  do_NodeID := at_nodeID a; do_Height := ck_Height (at_checkpoint a); do_Term := ck_Term (at_checkpoint a);
  do_Digest := DigestHex (ck_Digest (at_checkpoint a)); do_Unix := ck_Unix (at_checkpoint a);
  do_Signature := Std_EncodeToString (at_sig a); do_Cert := Std_EncodeToString (at_cert a); do_Signed := at_signed a |}.

Definition no_ledger {A} : reply A := ReplyErr StatusConflict (str "the ledger service runs in cluster mode only").

(** [attest] is [t.Ledger], [None] when it is not wired. *)
Definition ledgerDigest (attest : option (option Checkpoint -> Attestation)) (rq : Request) : reply Body :=
  match attest with
  | None => no_ledger
  | Some attest => Reply StatusOK (JDigest (digest_out (attest (checkpointFromQuery rq))))
  end.

(** ** Collecting from the cluster *)

Record ledgerMember : Type := { lm_label : bytes; lm_self : bool; lm_host : bytes }.

Definition local_member : list ledgerMember := [{| lm_label := str "local"; lm_self := true; lm_host := [] |}].

Definition ledgerMembers {D W} `{!RaftMembers W} (t : ConsoleNode (D := D)) (w : W) : list ledgerMember :=
  if negb (cn_raft t) then local_member else
  match GetConfiguration w with
  | Ret [] | Fail _ | Panic => local_member
  | Ret servers =>
      let selfID := selfNodeID t w in
      (fun s => if bool_decide (sv_ID s = selfID) then {| lm_label := sv_ID s; lm_self := true; lm_host := [] |}
                else {| lm_label := sv_ID s; lm_self := false; lm_host := hostOnly (sv_Address s) |}) <$> servers
  end.

(** The query a peer's digest is asked with. *)
Definition digest_query (c : Checkpoint) : gmap bytes bytes :=
  <[str "height" := fmt_d (ck_Height c)]> (<[str "digest" := DigestHex (ck_Digest c)]>
    (<[str "unix" := fmt_d (ck_Unix c)]> {[str "term" := fmt_d (ck_Term c)]})).

Section Collect.
Context (StatusText : Z -> bytes) (HTTPBind auth : bytes).
(** In pass [n]: this node's own head, its co-signature, and a peer's answer to a request. *)
Context (own : nat -> Checkpoint) (attest : nat -> Checkpoint -> Attestation).
Context (get_digest : nat -> bytes -> Request -> result (Z * result digestOut)).

Definition digest_request (c : Checkpoint) : Request := {|
  rq_Method := MethodGet; rq_Path := str "/api/ledger/digest"; rq_Query := digest_query c; rq_Auth := auth; rq_Forwarded := []; rq_Body := [] |}.

Definition collectDigest (n : nat) (m : ledgerMember) (ckpt : Checkpoint) : result digestOut :=
  if lm_self m then
    let d := digest_out (attest n ckpt) in
    Ret {| do_NodeID := do_NodeID d; do_Height := do_Height d; do_Term := 0; do_Digest := do_Digest d; do_Unix := 0;
           do_Signature := do_Signature d; do_Cert := do_Cert d; do_Signed := do_Signed d |}
  else
    '(code, d) ← get_digest n (str "http://" ++ JoinHostPort (lm_host m) (httpPort HTTPBind)) (digest_request ckpt);
    if negb (code =? StatusOK) then Fail (errStatus StatusText code) else d.

Record collected : Type := {
  cl_sigs : gmap bytes bytes; cl_certs : list bytes; cl_Signers : list bytes; cl_Warnings : list warning; cl_diverged : bool }.

Definition nothing_collected : collected := {| cl_sigs := ∅; cl_certs := []; cl_Signers := []; cl_Warnings := []; cl_diverged := false |}.

Definition warn (w : warning) (diverged : bool) (acc : collected) : collected := {|
  cl_sigs := cl_sigs acc; cl_certs := cl_certs acc; cl_Signers := cl_Signers acc; cl_Warnings := cl_Warnings acc ++ [w];
  cl_diverged := cl_diverged acc || diverged |}.

(** The body of the loop over the members. *)
Definition collect_member (n : nat) (ckpt : Checkpoint) (acc : collected) (m : ledgerMember) : collected :=
  match collectDigest n m ckpt with
  | Fail e => warn (WUnreachable (lm_label m) e) false acc
  | Panic => acc
  | Ret d =>
      if negb (do_Signed d) then
        if negb (do_Height d =? ck_Height ckpt) || negb (bool_decide (do_Digest d = DigestHex (ck_Digest ckpt)))
        then warn (WMismatch (lm_label m) (do_Height d)) true acc
        else warn (WNoSigner (lm_label m)) false acc
      else
        match Std_DecodeString (do_Signature d), Std_DecodeString (do_Cert d), do_NodeID d with
        | Some sig, Some cert, (_ :: _) as id => {|
            cl_sigs := <[id := sig]> (cl_sigs acc); cl_certs := cl_certs acc ++ [cert]; cl_Signers := cl_Signers acc ++ [id];
            cl_Warnings := cl_Warnings acc; cl_diverged := cl_diverged acc |}
        | _, _, _ => warn (WMalformed (lm_label m)) false acc
        end
  end.

Definition collect (n : nat) (members : list ledgerMember) : collected := fold_left (collect_member n (own n)) members nothing_collected.

(** Two passes: the second one when a head differed in the first. *)
Definition collect_passes (members : list ledgerMember) : Checkpoint * collected :=
  let first := collect 0 members in
  if cl_diverged first then (own 1%nat, collect 1 members) else (own 0%nat, first).

(** [pub] is the pinned CA key, empty when there is none. *)
Definition ledgerMaterials (members : list ledgerMember) (pub : bytes) : reply materialsOut :=
  let '(ckpt, c) := collect_passes members in
  let finish qc certs warnings :=
    Reply StatusOK {| mo_Height := ck_Height ckpt; mo_Digest := DigestHex (ck_Digest ckpt); mo_Unix := ck_Unix ckpt; mo_Signers := cl_Signers c;
      mo_Members := len members; mo_QuorumCert := qc; mo_NodeCerts := certs;
      mo_CaPub := if bool_decide (pub = []) then [] else Std_EncodeToString pub;
      mo_Warnings := warnings ++ (if bool_decide (pub = []) then [WNoPinnedKey] else []) |} in
  if bool_decide (cl_sigs c = ∅) then finish [] [] (cl_Warnings c ++ [WNoAttestations]) else
  match BuildQuorumCertificate ckpt (cl_sigs c) with
  | Panic => Crash
  | Fail _ => ReplyErr StatusInternalServerError (str "aggregate quorum certificate")
  | Ret qc =>
      match EncodeQuorum qc with
      | Panic => Crash
      | Fail _ => ReplyErr StatusInternalServerError (str "encode quorum certificate")
      | Ret raw => finish (Std_EncodeToString raw) (Std_EncodeToString <$> cl_certs c) (cl_Warnings c)
      end
  end.

End Collect.

(** ** The pinned CA key *)

Section Pinned.
Context {W : Type} `{!HasStorage W}.
Variable replicator : option (Replicator W).

Definition pinnedLedgerCAPub (now : Z) (w : W) : result bytes :=
  match svc_Get now w (key_request (PKIKey LedgerCAPubMinor)) with
  | Ret rec => Ret (rec_Value rec)
  | Fail _ => Ret []
  | Panic => Panic
  end.

Definition pinLedgerCAPub (now : Z) (pub : bytes) (w : W) : result Status * W :=
  svc_Put replicator now now w (put_request (PKIKey LedgerCAPubMinor) pub).

Definition ledgerCAPubGet (now : Z) (w : W) : reply Body :=
  match pinnedLedgerCAPub now w with
  | Ret pub => Reply StatusOK (JCAPub (Std_EncodeToString pub) (0 <? len pub))
  | _ => Crash
  end.

(** [req] is the field [caPub] of the body. *)
Definition ledgerCAPubSet (now : Z) (req : option bytes) (w : W) : reply Body * W :=
  match req with
  | None => (ReplyErr StatusBadRequest (str "invalid JSON body"), w)
  | Some caPub =>
      let bad := ReplyErr StatusBadRequest (str "caPub must be the base64 Ed25519 ledger-CA public key") in
      match Std_DecodeString caPub with
      | None => (bad, w)
      | Some pub =>
          match ParseCAPublicKey pub with
          | Ret _ =>
              match pinLedgerCAPub now pub w with
              | (Ret _, w) => (Reply StatusCreated (JText [str "pinned"]), w)
              | (Fail _, w) => (internal_error, w)
              | (Panic, w) => (Crash, w)
              end
          | _ => (bad, w)
          end
      end
  end.

(** [generateLedgerCA]: the seed and the public key; that the key could not be pinned is only
    logged. *)
Definition generateLedgerCA (now : Z) (ca : result EdPriv) (w : W) : reply Body * W :=
  match ca with
  | Ret ca =>
      match pinLedgerCAPub now (ed_Public ca) w with
      | (Panic, w) => (Crash, w)
      | (_, w) => (Reply StatusOK (JText [Std_EncodeToString (ed_Seed ca); Std_EncodeToString (ed_Public ca)]), w)
      end
  | Fail _ => (ReplyErr StatusInternalServerError (str "generate CA"), w)
  | Panic => (Crash, w)
  end.

End Pinned.
End Ledger.
