(* ===== verification/LedgerConsoleProps.v ===== *)
(** * Properties of the ledger console

    Numbers, digests and keys read back from the query and from base64; a checkpoint asked for is
    the checkpoint signed; materials collected from honest members verify; the pinned key reads
    back. *)

From stdpp Require Import pretty.
From S2P Require Import Prelude Sha256 Pb Keys Engine Storage StorageSpec StorageReads StorageProps ScanProps Value Command Ledger Fsm FsmProps Service Iam PolicyService Codecs Password Backup Quorum QuorumProps Verify VerifyProps Auth Console Pki PkiProps Setup Net NodeIdentity Membership Api Nodes LedgerConsole.

(** ** Decimal numbers *)

Definition dig (d : Z) : byte := byte_of (48 + d).

Lemma byte_val_dig d : 0 <= d < 10 -> byte_val (dig d) = 48 + d.
Proof. intros Hd. unfold dig. rewrite byte_val_of. apply Z.mod_small. lia. Qed.

Lemma digits_dig ds : Forall (fun d => 0 <= d < 10) ds -> digits (dig <$> ds) = (ds, []).
Proof.
  induction 1 as [|d ds Hd _ IH]; [done|]. rewrite fmap_cons. cbn [digits]. rewrite byte_val_dig, IH by done.
  destruct (Z.leb_spec 48 (48 + d)), (Z.ltb_spec (48 + d) 58); try lia. cbn [andb]. by replace (48 + d - 48) with d by lia.
Qed.

Lemma str_String a s : str (String a s) = Strings.Ascii.byte_of_ascii a :: str s.
Proof. reflexivity. Qed.

Lemma pretty_char_dig (n : N) : (n < 10)%N -> Strings.Ascii.byte_of_ascii (pretty_N_char n) = dig (Z.of_N n).
Proof.
  intros Hn. assert (Z.of_N n = Z.of_nat (N.to_nat n)) as -> by lia. rewrite <- (N2Nat.id n) at 1.
  assert (N.to_nat n < 10)%nat as Hk by lia. generalize dependent (N.to_nat n). clear. intros n Hn.
  do 10 (destruct n as [|n]; [reflexivity|]). lia.
Qed.

Lemma pretty_go_digits x : forall s, exists ds, str (pretty_N_go x s) = (dig <$> ds) ++ str s /\ Forall (fun d => 0 <= d < 10) ds /\
  fold_left (fun acc d => acc * 10 + d) ds 0 = Z.of_N x /\ ((0 < x)%N -> ds <> []).
Proof.
  induction (N.lt_wf_0 x) as [x _ IH]. intros s. destruct (decide (0 < x)%N) as [Hx|Hx].
  - rewrite (pretty_N_go_step x s Hx). destruct (IH (x / 10)%N ltac:(apply N.div_lt; lia) (String (pretty_N_char (x mod 10)) s)) as (ds & E & Hd & V & _).
    exists (ds ++ [Z.of_N (x mod 10)]). rewrite E, fmap_app, <- app_assoc. split; [|split; [|split]].
    + f_equal. rewrite str_String, pretty_char_dig by (apply N.mod_lt; lia). done.
    + apply Forall_app. split; [done|]. constructor; [|done]. cbn beta. rewrite N2Z.inj_mod. apply Z.mod_pos_bound. lia.
    + rewrite fold_left_app. cbn [fold_left]. rewrite V, N2Z.inj_div, N2Z.inj_mod. pose proof (Z.div_mod (Z.of_N x) 10 ltac:(lia)). change (Z.of_N 10) with 10. lia.
    + intros _. by destruct ds.
  - assert (x = 0)%N as -> by lia. exists []. by rewrite pretty_N_go_0.
Qed.

Lemma decimal_fmt z : 0 <= z -> decimal (fmt_d z) = Some z.
Proof.
  intros Hz. unfold decimal, scan_number, fmt_d. destruct (decide (z = 0)) as [->|Hne]; [reflexivity|].
  assert (str (pretty z) = str (pretty_N_go (Z.to_N z) "")) as ->.
  { destruct z as [|p|p]; [done| |lia]. change (pretty (Z.pos p)) with (pretty (N.pos p)). unfold pretty, pretty_N. by rewrite decide_False. }
  destruct (pretty_go_digits (Z.to_N z) "") as (ds & -> & Hd & V & Hn). change (str "") with (@nil byte). rewrite app_nil_r, digits_dig by done.
  specialize (Hn ltac:(lia)). destruct ds as [|d ds]; [done|]. rewrite V, Z2N.id by lia. done.
Qed.

Lemma fmt_d_neg z : z < 0 -> fmt_d z = x2d :: fmt_d (- z).
Proof. intros Hz. by destruct z as [|p|p]. Qed.

Lemma fmt_d_head z : 0 <= z -> exists c l, fmt_d z = c :: l /\ c <> x2d /\ c <> x2b.
Proof.
  intros Hz. unfold fmt_d. destruct (decide (z = 0)) as [->|Hne]; [by eexists _, _|].
  assert (str (pretty z) = str (pretty_N_go (Z.to_N z) "")) as ->.
  { destruct z as [|p|p]; [done| |lia]. change (pretty (Z.pos p)) with (pretty (N.pos p)). unfold pretty, pretty_N. by rewrite decide_False. }
  destruct (pretty_go_digits (Z.to_N z) "") as (ds & -> & Hd & V & Hn). specialize (Hn ltac:(lia)). destruct ds as [|d ds]; [done|].
  apply Forall_cons in Hd as [Hd _]. exists (dig d), ((dig <$> ds) ++ str ""). split; [done|].
  split; intros E; apply (f_equal byte_val) in E; rewrite byte_val_dig in E by done; change (byte_val x2d) with 45 in E; change (byte_val x2b) with 43 in E; lia.
Qed.

Lemma ParseUint_fmt z : is_uint64 z -> ParseUint (fmt_d z) = Some z.
Proof.
  intros [H1 H2]. unfold ParseUint. rewrite decimal_fmt by done. cbn [mbind option_bind]. by rewrite (proj2 (Z.ltb_lt z (2 ^ 64)) H2).
Qed.

Lemma UintOrZero_fmt z : is_uint64 z -> UintOrZero (fmt_d z) = z.
Proof. intros [H1 H2]. unfold UintOrZero. rewrite decimal_fmt by done. lia. Qed.

Lemma IntOrZero_fmt z : is_int64 z -> IntOrZero (fmt_d z) = z.
Proof.
  intros [H1 H2]. unfold IntOrZero. destruct (Z_lt_le_dec z 0) as [Hz|Hz].
  - rewrite fmt_d_neg by done. rewrite bool_decide_eq_true_2, decimal_fmt by (done || lia). lia.
  - destruct (fmt_d_head z Hz) as (c & l & E & Hm & Hp). rewrite E, !bool_decide_eq_false_2 by done. rewrite <- E, decimal_fmt by done. lia.
Qed.

(** ** Padded base64 *)

Lemma length_Encode l : (length (EncodeToString l) + length (b64_pad (length l)) = 4 * ((length l + 2) / 3))%nat.
Proof.
  induction l as [|a|a b|a b c l IH] using list_ind3; [done|done|done|]. cbn [EncodeToString length].
  assert (b64_pad (S (S (S (length l)))) = b64_pad (length l)) as ->.
  { unfold b64_pad. replace (S (S (S (length l)))) with (length l + 1 * 3)%nat by lia. by rewrite Nat.Div0.mod_add. }
  replace (S (S (S (length l))) + 2)%nat with (length l + 2 + 1 * 3)%nat by lia. rewrite Nat.div_add by lia. lia.
Qed.

Lemma b64_char_not_pad z : 0 <= z < 64 -> b64_char z <> x3d /\ b64_char z <> x0a /\ b64_char z <> x0d.
Proof.
  intros Hz. rewrite <- (Z2Nat.id z) by lia. assert (Z.to_nat z < 64)%nat as Hn by lia. generalize dependent (Z.to_nat z). clear. intros n Hn.
  do 64 (destruct n as [|n]; [by vm_compute|]). lia.
Qed.

(** The last character of an encoding is not the padding. *)
Lemma strip_pad_encode l : strip_pad (EncodeToString l ++ b64_pad (length l)) = EncodeToString l.
Proof.
  assert (Forall (fun c => c <> x3d) (EncodeToString l)) as HF by (apply Forall_b64; intros z Hz; by destruct (b64_char_not_pad z Hz)).
  apply Forall_rev in HF. pose proof (length_Encode l) as HL. rewrite <- (length_rev (EncodeToString l)) in HL.
  unfold strip_pad. rewrite rev_app_distr. assert (EncodeToString l = rev (rev (EncodeToString l))) as HE by (by rewrite rev_involutive).
  generalize dependent (rev (EncodeToString l)). intros R HF HL HE. rewrite HE. clear HE.
  unfold b64_pad in *. destruct (length l mod 3)%nat as [|[|[|n]]] eqn:Em; cbn [rev app length] in *.
  - rewrite app_nil_r. destruct R as [|a [|b r]]; [done|done|]. apply Forall_cons in HF as [Ha _]. by rewrite bool_decide_eq_false_2.
  - by rewrite !bool_decide_eq_true_2.
  - destruct R as [|a r].
    + cbn [length] in HL. pose proof (Nat.div_mod (length l) 3). pose proof (Nat.div_mod (length l + 2) 3). lia.
    + apply Forall_cons in HF as [Ha _]. by rewrite bool_decide_eq_true_2, bool_decide_eq_false_2.
  - pose proof (Nat.mod_upper_bound (length l) 3). lia.
Qed.

Lemma Std_roundtrip l : Std_DecodeString (Std_EncodeToString l) = Some l.
Proof.
  unfold Std_DecodeString, Std_EncodeToString. rewrite filter_all.
  - rewrite length_app, length_Encode. rewrite Nat.mul_comm, Nat.Div0.mod_mul. cbn [Nat.eqb]. rewrite strip_pad_encode. apply decode_quanta_encode.
  - apply Forall_app. split; [apply Forall_b64; intros z Hz; by destruct (b64_char_not_pad z Hz) as (_ & ? & ?)|].
    unfold b64_pad. destruct (length l mod 3)%nat as [|[|[|n]]]; repeat constructor; discriminate.
Qed.

(** ** Asking for a checkpoint *)

Section Query.
Context `{UuidPkg} `{Badger} `{StorePkg} `{Payloads} `{!Struct headRecord} `{!Struct NodeCert} `{BlsPkg} `{Ed25519Pkg}.

Definition ck_ok (c : Checkpoint) : Prop := is_uint64 (ck_Height c) /\ is_uint64 (ck_Term c) /\ ck_Digest c <> [] /\ is_int64 (ck_Unix c).

Lemma query_get auth c k : query (digest_request auth c) k = default [] (digest_query c !! k).
Proof. done. Qed.

(** The checkpoint a peer decodes from the query is the one it was asked to sign. *)
Lemma checkpointFromQuery_request auth c : ck_ok c -> checkpointFromQuery (digest_request auth c) = Some c.
Proof.
  intros (Hh & Ht & Hd & Hu). unfold checkpointFromQuery. cbn zeta. rewrite !query_get.
  assert (digest_query c !! str "height" = Some (fmt_d (ck_Height c)) /\ digest_query c !! str "digest" = Some (DigestHex (ck_Digest c)) /\
    digest_query c !! str "unix" = Some (fmt_d (ck_Unix c)) /\ digest_query c !! str "term" = Some (fmt_d (ck_Term c))) as (-> & -> & -> & ->).
  { unfold digest_query. repeat split; repeat first [apply lookup_insert_eq|apply lookup_singleton_eq|rewrite lookup_insert_ne by discriminate]. }
  cbn [from_option id]. destruct (fmt_d_head (ck_Height c)) as (h & l & E & _ & _); [apply Hh|].
  rewrite bool_decide_eq_false_2 by (by rewrite E). rewrite bool_decide_eq_false_2 by (destruct (ck_Digest c); [done|discriminate]). cbn [orb].
  rewrite ParseUint_fmt by done. cbn [mbind option_bind]. rewrite hex_roundtrip. cbn [mbind option_bind].
  rewrite UintOrZero_fmt, IntOrZero_fmt by done. by destruct c.
Qed.

End Query.

(** ** Collecting from honest members *)

Section Collect.
Context `{UuidPkg} `{Badger} `{StorePkg} `{Payloads} `{!PayloadLaws} `{!Struct headRecord} `{!Struct NodeCert} `{!Struct QuorumCertificate} `{!StructLaws QuorumCertificate}.
Context `{BlsPkg} `{!BlsLaws} `{Ed25519Pkg} `{!Ed25519Laws}.
Context (StatusText : Z -> bytes) (HTTPBind auth : bytes).
Context (own : nat -> Checkpoint) (attest : nat -> Checkpoint -> Attestation).
Context (get_digest : nat -> bytes -> Request -> result (Z * result digestOut)).
Context (ca : EdPriv) (keys : bytes -> PrivKey) (notAfter : Z) (cert_of : bytes -> NodeCert) (raw_of : bytes -> bytes).

(** The node [id] holds its key and the certificate the CA issued for it. *)
Definition certified_node (id : bytes) : Prop :=
  id <> [] /\ EncodeCert (cert_of id) = Ret (raw_of id) /\ DecodeCert (raw_of id) = Ret (cert_of id) /\
  exists pop, ProofOfPossession (keys id) id = Ret pop /\ Issue ca id (bls_PublicKey (keys id)) pop notAfter = Ret (cert_of id).

Definition signer_of (id : bytes) : NodeSigner := {| ns_key := keys id; ns_cert := cert_of id |}.

(** A member answers for node [id]: itself, or through its console, from a replica whose chain head
    is the checkpoint's. *)
Definition honest_member (c : Checkpoint) (m : ledgerMember) (id : bytes) : Prop :=
  certified_node id /\ exists now fsm, fst (ChainHead now fsm) = (ck_Height c, ck_Digest c) /\
  let co := Attest now fsm (Some (signer_of id)) in
  if lm_self m then attest 0 c = co (Some c)
  else exists d, ledgerDigest (Some co) (digest_request auth c) = Reply StatusOK (JDigest d) /\
    get_digest 0%nat (str "http://" ++ JoinHostPort (lm_host m) (httpPort HTTPBind)) (digest_request auth c) = Ret (StatusOK, Ret d).

Lemma Attest_agrees now fsm s c : fst (ChainHead now fsm) = (ck_Height c, ck_Digest c) -> Attest now fsm (Some s) (Some c) = signed_head s c.
Proof. intros E. unfold Attest. rewrite E. by rewrite Z.eqb_refl, bool_decide_eq_true_2. Qed.

Lemma cert_name id : certified_node id -> nc_NodeID (cert_of id) = id.
Proof.
  intros (_ & _ & _ & pop & _ & HI). unfold Issue in HI. destruct (pub_MarshalBinary _); cbn [mbind outcome_bind] in HI; [|done|done].
  destruct (negb _) in HI; [done|]. by injection HI as <-.
Qed.

Lemma collect_honest c m id acc :
  ck_ok c -> honest_member c m id ->
  collect_member StatusText HTTPBind auth attest get_digest 0 c acc m = {|
    cl_sigs := <[id := SignCheckpoint (keys id) id c]> (cl_sigs acc); cl_certs := cl_certs acc ++ [raw_of id];
    cl_Signers := cl_Signers acc ++ [id]; cl_Warnings := cl_Warnings acc; cl_diverged := cl_diverged acc |}.
Proof.
  intros Hc (Hid & now & fsm & Hh & Hm). pose proof Hid as (Hne & HE & _). pose proof (cert_name id Hid) as Hn.
  unfold collect_member, collectDigest. destruct (lm_self m).
  - rewrite Hm, (Attest_agrees _ _ _ _ Hh). unfold digest_out, signed_head. cbn -[Std_DecodeString Std_EncodeToString SignCheckpoint EncodeCert].
    rewrite !Std_roundtrip, Hn, HE. destruct id as [|b id]; [done|]. cbn [NodeSigner_Sign ns_key signer_of ns_cert]. unfold NodeSigner_Sign. cbn [ns_key ns_cert signer_of]. by rewrite Hn.
  - destruct Hm as (d & HL & HG). rewrite HG. cbn [mbind outcome_bind]. rewrite Z.eqb_refl. cbn [negb].
    unfold ledgerDigest in HL. rewrite checkpointFromQuery_request, (Attest_agrees _ _ _ _ Hh) in HL by done. injection HL as <-.
    unfold digest_out, signed_head. cbn -[Std_DecodeString Std_EncodeToString SignCheckpoint EncodeCert].
    rewrite !Std_roundtrip, Hn, HE. destruct id as [|b id]; [done|]. unfold NodeSigner_Sign. cbn [ns_key ns_cert signer_of]. by rewrite Hn.
Qed.

Lemma collect_all c members ids acc :
  ck_ok c -> Forall2 (honest_member c) members ids ->
  fold_left (collect_member StatusText HTTPBind auth attest get_digest 0 c) members acc = {|
    cl_sigs := fold_left (fun m id => <[id := SignCheckpoint (keys id) id c]> m) ids (cl_sigs acc); cl_certs := cl_certs acc ++ (raw_of <$> ids);
    cl_Signers := cl_Signers acc ++ ids; cl_Warnings := cl_Warnings acc; cl_diverged := cl_diverged acc |}.
Proof.
  intros Hc HF. revert acc. induction HF as [|m id members ids Hm _ IH]; intros acc; cbn [fold_left].
  - rewrite !app_nil_r. by destruct acc.
  - rewrite (collect_honest c m id) by done. rewrite IH. cbn. by rewrite <- !app_assoc.
Qed.

(** The collected map is the set of signers with their signatures. *)
Lemma fold_sigs (f : bytes -> bytes) ids :
  fold_left (fun m id => <[id := f id]> m) ids (∅ : gmap bytes bytes) = set_to_map (fun id => (id, f id)) (list_to_set ids : gset bytes).
Proof.
  assert (forall (m : gmap bytes bytes) id, fold_left (fun m id => <[id := f id]> m) ids m !! id = if decide (id ∈ ids) then Some (f id) else m !! id) as HG.
  { induction ids as [|x ids IH]; intros m id; cbn [fold_left]; [done|]. rewrite IH. destruct (decide (id ∈ ids)) as [Hi|Hi].
    - by rewrite decide_True by (by right).
    - rewrite lookup_insert. case_decide as E; [subst; by rewrite decide_True by left|].
      rewrite decide_False; [done|]. rewrite not_elem_of_cons. split; [congruence|done]. }
  apply map_eq. intros id. rewrite HG, lookup_empty. destruct (decide (id ∈ ids)) as [Hi|Hi]; symmetry.
  - apply lookup_set_to_map; [done|]. exists id. by rewrite elem_of_list_to_set.
  - apply eq_None_not_Some. intros [x Hx]. apply lookup_set_to_map in Hx as (y & Hy & [= -> _]); [|done]. by rewrite elem_of_list_to_set in Hy.
Qed.

Lemma fold_bundle (ids : list bytes) (id : bytes) (b : gmap bytes NodeCert) :
  Forall certified_node ids -> id ∈ ids -> fold_left AddCert (cert_of <$> ids) b !! id = Some (cert_of id).
Proof.
  intros HF Hin. revert b. induction HF as [|x ids Hx HF IH]; intros b; [by apply not_elem_of_nil in Hin|].
  rewrite fmap_cons. cbn [fold_left]. destruct (decide (id ∈ ids)) as [Hi|Hi]; [by apply IH|].
  apply elem_of_cons in Hin as [->|Hin]; [|done].
  assert (forall (b : gmap bytes NodeCert) l, Forall certified_node l -> x ∉ l -> fold_left AddCert (cert_of <$> l) b !! x = b !! x) as HG.
  { clear. intros b l HF. revert b. induction HF as [|y l Hy HF IH]; intros b Hl; [done|]. apply not_elem_of_cons in Hl as [Hxy Hl].
    rewrite fmap_cons. cbn [fold_left]. rewrite IH by done. unfold AddCert. rewrite (cert_name y Hy). by rewrite lookup_insert_ne by congruence. }
  rewrite HG by done. unfold AddCert. rewrite (cert_name x Hx). apply lookup_insert_eq.
Qed.

(** C16: Collected materials verify. If every member of the cluster answers for a certified node
    whose chain head is the coordinator's, each co-signing through its own console, then the
    endpoint answers without complaint about any of them, and what it returns, decoded from
    base64, is a quorum certificate over the coordinator's checkpoint and a set of node
    certificates against which it verifies under the CA's key at every threshold up to the number
    of members. *)
Theorem materials_verify (members : list ledgerMember) (ids : list bytes) (pub : bytes) (now threshold : Z) :
  StructReliable QuorumCertificate -> ck_ok (own 0%nat) -> ids <> [] -> Forall2 (honest_member (own 0%nat)) members ids ->
  threshold <= Z.of_nat (size (list_to_set ids : gset bytes)) -> (notAfter = 0 \/ now = 0 \/ now <= notAfter) ->
  exists mo raw qc raws bundle, ledgerMaterials StatusText HTTPBind auth own attest get_digest members pub = Reply StatusOK mo /\
    mo_Signers mo = ids /\ mo_Warnings mo = (if bool_decide (pub = []) then [WNoPinnedKey] else []) /\
    Std_DecodeString (mo_QuorumCert mo) = Some raw /\ DecodeQuorum raw = Ret qc /\ qc_Checkpoint qc = own 0%nat /\
    Forall2 (fun s raw => Std_DecodeString s = Some raw) (mo_NodeCerts mo) raws /\ decode_bundle raws ∅ = Ret bundle /\
    VerifyQuorum (ed_Public ca) (Some qc) bundle threshold now = Ret tt.
Proof.
  intros HR Hc Hne HF Hth Ht. set (c := own 0%nat) in *. set (nodes := list_to_set ids : gset bytes).
  assert (Forall certified_node ids) as Hids by (clear -HF; induction HF as [|m id ms js [Hm _] _ IH]; by constructor).
  assert (nodes <> ∅) as Hnn by (destruct ids as [|x ids]; [done|]; unfold nodes; set_solver).
  destruct (honest_quorum ca keys notAfter now threshold c nodes (fold_left AddCert (cert_of <$> ids) ∅)) as (qc & HQ & Hck & HV); [done|done|done| |].
  { intros id Hin. apply elem_of_list_to_set in Hin. rewrite (fold_bundle ids id ∅ Hids Hin). rewrite Forall_forall in Hids.
    destruct (Hids id Hin) as (_ & _ & _ & pop & HP & HI). by exists pop, (cert_of id). }
  destruct (encodes qc) as (v & raw & Hm & Hpk).
  assert (EncodeQuorum qc = Ret raw) as HE by (unfold EncodeQuorum; by rewrite Hm).
  assert (DecodeQuorum raw = Ret qc) as HD by (unfold DecodeQuorum; rewrite (unpack_pack _ _ Hpk); by apply unmarshal_marshal).
  unfold ledgerMaterials, collect_passes, collect. fold c. rewrite (collect_all c members ids) by done. cbn -[BuildQuorumCertificate EncodeQuorum].
  rewrite fold_sigs. fold nodes. rewrite bool_decide_eq_false_2.
  - rewrite HQ, HE. eexists _, raw, qc, (raw_of <$> ids), (fold_left AddCert (cert_of <$> ids) ∅). split; [done|]. cbn.
    split; [done|]. split; [done|]. split; [apply Std_roundtrip|]. split; [done|]. split; [done|]. split; [|split; [|done]].
    + clear. induction ids as [|id ids IH]; [constructor|]. constructor; [apply Std_roundtrip|exact IH].
    + apply decode_bundle_ok. clear -Hids. induction Hids as [|id ids (_ & _ & Hd & _) _ IH]; [constructor|]. by constructor.
  - intros E. destruct (signer_ids (fun id => SignCheckpoint (keys id) id c) nodes Hnn) as (_ & _ & _ & _ & Hs & _).
    apply Hnn, leibniz_equiv, size_empty_inv. rewrite <- Hs. rewrite E. apply map_size_empty.
Qed.

End Collect.

(** ** The pinned key *)

Section Pinned.
Context `{UuidPkg} `{!UuidLaws} `{Badger} `{!BadgerSpec} `{StorePkg} `{!StoreLaws} `{ValuePkg} `{!IamStructs} `{Ed25519Pkg}.

Lemma put_local now (st : KeyValueStorageCtx) key raw :
  BadgerReliable ->
  exists st', svc_Put None now now st (put_request key raw) = (Ret {| Updated := true |}, st') /\
    contents st' = <[enc_key key := cas_entry (contents st !! enc_key key) raw]> (contents st).
Proof.
  intros HR. unfold svc_Put. cbn [replicates].
  destruct (refines_reliable _ _ _ HR (Put_refines now st (stamp_record now (put_request key raw)) 0
    ltac:(by unfold stamp_record, resolveExpiry; cbn) ltac:(by unfold is_uint64))) as (Ea & Ec & _).
  unfold on_storage, get_storage, set_storage, storage_has_storage. rewrite Ea. unfold put_spec in *.
  cbn [stamp_record put_request rr_Key rr_CompareAndSet rr_Version andb negb fst snd] in *. eexists. split; [done|]. by rewrite Ec.
Qed.

Lemma pinned_reads now (st st' : KeyValueStorageCtx) old pub :
  BadgerReliable -> pub <> [] -> contents st' = <[enc_key (PKIKey LedgerCAPubMinor) := cas_entry old pub]> (contents st) ->
  ledgerCAPubGet now st' = Reply StatusOK (JCAPub (Std_EncodeToString pub) true).
Proof.
  intros HR Hp Hc. unfold ledgerCAPubGet, pinnedLedgerCAPub. destruct (get_local now st' (PKIKey LedgerCAPubMinor) HR) as [size ->].
  unfold get_spec_rec. rewrite Hc, lookup_insert_eq. unfold live. cbn [cas_entry e_expires]. rewrite no_expiry. cbn [negb entry_record rec_Value e_value].
  change (e_value (cas_entry old pub)) with pub. destruct pub as [|b pub]; [done|]. rewrite len_cons. pose proof (len_nonneg pub). destruct (Z.ltb_spec 0 (1 + len pub)); [done|lia].
Qed.

(** The pinned key is the one that was set. Setting the ledger CA key succeeds exactly for the
    base64 form of 32 bytes, and then every later reading returns that key as pinned; any other
    value is refused with status 400 and changes nothing. The key pair generated by the console
    pins its own public half. *)
Theorem pinned_key_roundtrip (now now2 : Z) (caPub : bytes) (ca : EdPriv) (st : KeyValueStorageCtx) :
  BadgerReliable -> len (ed_Public ca) = PublicKeySize ->
  (match Std_DecodeString caPub with
   | Some pub => if len pub =? PublicKeySize
                 then exists st', ledgerCAPubSet None now (Some caPub) st = (Reply StatusCreated (JText [str "pinned"]), st') /\
                        ledgerCAPubGet now2 st' = Reply StatusOK (JCAPub (Std_EncodeToString pub) true)
                 else exists msg, ledgerCAPubSet None now (Some caPub) st = (ReplyErr StatusBadRequest msg, st)
   | None => exists msg, ledgerCAPubSet None now (Some caPub) st = (ReplyErr StatusBadRequest msg, st)
   end) /\
  exists st', generateLedgerCA None now (Ret ca) st = (Reply StatusOK (JText [Std_EncodeToString (ed_Seed ca); Std_EncodeToString (ed_Public ca)]), st') /\
    ledgerCAPubGet now2 st' = Reply StatusOK (JCAPub (Std_EncodeToString (ed_Public ca)) true).
Proof.
  intros HR Hca. assert (forall pub : bytes, len pub = PublicKeySize -> pub <> []) as Hne by (intros pub Hl ->; done). split.
  - unfold ledgerCAPubSet. destruct (Std_DecodeString caPub) as [pub|]; [|by eexists]. unfold ParseCAPublicKey.
    destruct (Z.eqb_spec (len pub) PublicKeySize) as [Hl|Hl]; cbn [negb]; [|by eexists].
    destruct (put_local now st (PKIKey LedgerCAPubMinor) pub HR) as (st' & EP & Hc). exists st'. unfold pinLedgerCAPub. rewrite EP.
    split; [done|]. by eapply pinned_reads; [|apply Hne|].
  - destruct (put_local now st (PKIKey LedgerCAPubMinor) (ed_Public ca) HR) as (st' & EP & Hc). exists st'.
    unfold generateLedgerCA, pinLedgerCAPub. rewrite EP. split; [done|]. by eapply pinned_reads; [|apply Hne|].
Qed.

End Pinned.

(** ** The digest codec *)

Section Codec.
Context `{ValueMaps} `{!ValueMapLaws} `{!TextMaps}.
Context (text_put : forall m k b, GetText (MPut m k (VUtf8 b)) k = b).
Context (text_other : forall m k k' v, bool_decide (k = k') = false -> GetText (MPut m k v) k' = GetText m k').

(** A digest response with fields of their widths reads back from the wire. *)
Lemma digest_codec_roundtrip (r : digestResponse) :
  is_uint64 (ck_Height (dg_checkpoint r)) -> is_uint64 (ck_Term (dg_checkpoint r)) -> is_int64 (ck_Unix (dg_checkpoint r)) ->
  digest_Decode (digest_Encode r) = Ret r.
Proof.
  intros Hh Ht Hu. unfold digest_Decode, digest_Encode. cbn zeta. rewrite as_map. f_equal. unfold map_checkpoint.
  repeat first [rewrite raw_put|rewrite long_put by (done || apply int64_range)|rewrite text_put
    |rewrite raw_other by (vm_compute; reflexivity)|rewrite long_other by (vm_compute; reflexivity)|rewrite text_other by (vm_compute; reflexivity)].
  rewrite !wrap64_int64, !wrap64_small by done. by destruct r as [[] ? ? ?].
Qed.

End Codec.

(** ** Witnesses *)

#[local] Existing Instances flat_uuid flat_uuid_laws mem_badger mem_spec flat_store flat_store_laws
  flat_value flat_payloads flat_payload_laws flat_head flat_head_laws toy_bls toy_bls_laws toy_ed toy_ed_laws flat_iam_structs.
#[local] Instance led_cert : Struct NodeCert := flat_struct NodeCert.
#[local] Instance led_quorum : Struct QuorumCertificate := flat_struct QuorumCertificate.
#[local] Instance led_quorum_laws : StructLaws QuorumCertificate := flat_struct_laws QuorumCertificate.

Definition led_ck : Checkpoint := {| ck_Height := 5; ck_Term := 0; ck_Digest := demo_digest; ck_Unix := 200 |}.

Definition led_raw (id : bytes) : bytes := match EncodeCert (demo_node_cert id) with Ret b => b | _ => [] end.

Definition led_attest (id : bytes) : option Checkpoint -> Attestation := Attest 210 demo_after (Some (signer_of toy_key demo_node_cert id)).

(** The console of the second member. *)
Definition led_get (n : nat) (url : bytes) (rq : Request) : result (Z * result digestOut) :=
  match ledgerDigest (Some (led_attest (str "n3"))) rq with Reply code (JDigest d) => Ret (code, Ret d) | _ => Fail (ErrNew []) end.

Definition led_members : list ledgerMember := [{| lm_label := str "a"; lm_self := true; lm_host := [] |}; {| lm_label := str "b"; lm_self := false; lm_host := str "10.0.0.2" |}].

Lemma led_head : fst (ChainHead 210 demo_after) = (5, demo_digest).
Proof. vm_compute. reflexivity. Qed.

Lemma led_certified id : id <> [] -> DecodeCert (led_raw id) = Ret (demo_node_cert id) -> certified_node demo_ca_key toy_key 500 demo_node_cert led_raw id.
Proof. intros Hne HD. split; [done|]. split; [done|]. split; [done|]. eexists. split; [reflexivity|]. unfold Issue. cbn. rewrite bool_decide_eq_true_2 by done. done. Qed.

Lemma materials_verify_witness :
  exists mo raw qc raws bundle, ledgerMaterials (fun _ => []) (str "0.0.0.0:8441") [] (fun _ => led_ck) (fun _ c => led_attest (str "n1") (Some c)) led_get led_members []
      = Reply StatusOK mo /\ mo_Warnings mo = [WNoPinnedKey] /\ Std_DecodeString (mo_QuorumCert mo) = Some raw /\ DecodeQuorum raw = Ret qc /\
    decode_bundle raws ∅ = Ret bundle /\ VerifyQuorum (ed_Public demo_ca_key) (Some qc) bundle 2 300 = Ret tt.
Proof.
  destruct (materials_verify (fun _ => []) (str "0.0.0.0:8441") [] (fun _ => led_ck) (fun _ c => led_attest (str "n1") (Some c)) led_get
    demo_ca_key toy_key 500 demo_node_cert led_raw led_members [str "n1"; str "n3"] [] 300 2 (flat_struct_reliable QuorumCertificate))
    as (mo & raw & qc & raws & bundle & H1 & _ & H2 & H3 & H4 & _ & _ & H5 & H6).
  - split; [unfold is_uint64; cbn; lia|]. split; [unfold is_uint64; cbn; lia|]. split; [vm_compute; discriminate|unfold is_int64; cbn; lia].
  - discriminate.
  - constructor; [|constructor; [|constructor]]; (split; [apply led_certified; [discriminate|vm_compute; reflexivity]|]).
    + exists 210, demo_after. split; [exact led_head|reflexivity].
    + exists 210, demo_after. split; [exact led_head|]. eexists. split; reflexivity.
  - vm_compute. discriminate.
  - lia.
  - exists mo, raw, qc, raws, bundle. split; [exact H1|]. split; [exact H2|]. split; [exact H3|]. split; [exact H4|]. split; [exact H5|exact H6].
Defined.

Lemma pinned_key_roundtrip_witness :
  exists st', ledgerCAPubSet None 100 (Some (Std_EncodeToString (replicate 32 x07))) demo_storage = (Reply StatusCreated (JText [str "pinned"]), st') /\
    ledgerCAPubGet 200 st' = Reply StatusOK (JCAPub (Std_EncodeToString (replicate 32 x07)) true).
Proof.
  destruct (pinned_key_roundtrip 100 200 (Std_EncodeToString (replicate 32 x07)) demo_ca_key demo_storage mem_reliable eq_refl) as [H _].
  rewrite Std_roundtrip in H. exact H.
Defined.
