(* ===== verification/Surface.v ===== *)
(** * The functions a node serves ([PostConstruct] of [pkg/server/admin.go] and of
    [pkg/replication/ledger_service.go], with [VrpcDataService] of [Wire])

    Three beans register their functions on the one value-rpc server of a node: the data plane, the
    admin service and, in a cluster, the ledger service. The container calls their [PostConstruct]
    in an order of its own. *)

From S2P Require Import Prelude Sha256 Pb Keys Engine Storage StorageSpec StorageReads StorageProps ScanProps Value Command Ledger Fsm FsmProps Service Iam PolicyService Codecs DataPlane Wire Password Backup BackupProps Quorum QuorumProps Verify VerifyProps Net Admin NodeIdentity LedgerConsole.

(** ** Chats of value-rpc *)

(** A chat: the call, the state, the argument and the values the client streams in; [None] is a
    handler that waits for ever. *)
Definition chat `{ValueMaps} (St : Type) : Type := Call -> St -> WVal -> list WVal -> result (option (list WVal)) * St.

Class ValueChat `{ValueRpc} : Type := {
  AddChat : Server -> bytes -> chat St -> option error * Server;
  open_chat : Server -> bytes -> chat St
}.

(** [s'] is [s] with the functions [ns] added; the others are served as before. *)
Definition extends `{ValueChat} (s s' : Server) (ns : list bytes) : Prop :=
  functions s' = ns ++ functions s /\
  forall n, n ∉ ns -> invoke s' n = invoke s n /\ open_stream s' n = open_stream s n /\ open_chat s' n = open_chat s n.

Class ValueChatLaws `{ValueChat} : Prop := {
  add_chat : forall s n h, n ∉ functions s -> let '(e, s') := AddChat s n h in
    e = None /\ adds s s' n /\ open_chat s' n = h /\ forall n', n' <> n -> open_chat s' n' = open_chat s n';
  unary_keeps_chats : forall {Req Resp : Type} s n dec enc (h : handler St Req Resp), n ∉ functions s ->
    forall n', n' <> n -> open_chat (snd (AddUnary s n dec enc h)) n' = open_chat s n';
  stream_keeps_chats : forall {Req Item : Type} s n dec enc (h : handler St Req (list Item)), n ∉ functions s ->
    forall n', n' <> n -> open_chat (snd (AddOutgoingStreamTyped s n dec enc h)) n' = open_chat s n';
  auth_keeps : forall s a, extends s (SetAuthenticator s a) []
}.

(** ** The registrations *)

Section Surface.
Context `{UuidPkg} `{Badger} `{StorePkg} `{Payloads} `{!IamStructs} `{!Struct headRecord} `{!Struct NodeCert}.
Context `{BlsPkg} `{Ed25519Pkg} `{ValueMaps} `{!TextMaps} `{!PresentMaps}.
Context {W : Type} `{!HasStorage W} {Auth : Type}.

Abbreviation node := (W * option PolicyService)%type.

Context `{!ValueRpc node Auth} `{!ValueChat}.

(** The beans the services are built from, and for the data plane the reader of a stream and the
    events of the hub, as in [Wire]. *)
Variables (replicator : option (Replicator W)) (budget : option nat) (evs : list HubEvent) (auth : option (bool * Auth)).

(** The engine's backup as it is written into the pipe, and what a failing load takes of a dump. *)
Variables (engine_backup : W -> Z -> BackupRun) (stop : W -> list WVal -> nat) (error_text : error -> bytes).

(** The chain of the state machine, which is over the storage of the node, and the signer. *)
Variables (chain_of : W -> option HashChain) (signer : option NodeSigner).

Definition backup_stream : handler node Z (list backupFrame) := fun c st since =>
  let '(r, p) := admin_backup (clock c) (get_storage (fst st)) (snd st) (principal c) (engine_backup (fst st) since) in (r, (fst st, p)).

Definition restore_chat : chat node := fun c st _ inC =>
  let replicated := match replicates replicator (fst st) with Some _ => true | None => false end in
  let '(r, storage, p) := admin_restore error_text (clock c) (snd st) (principal c) replicated (stop (fst st) inC) inC (get_storage (fst st)) in
  (r, (set_storage (fst st) storage, p)).

Definition digest_unary : handler node WVal digestResponse := fun c st req =>
  let fsm := {| fsm_Storage := get_storage (fst st); fsm_chain := chain_of (fst st) |} in
  let '(r, p) := ledger_digest (clock c) fsm signer (snd st) (principal c) req in (r, (fst st, p)).

(** A failed registration is only logged. *)
Definition Admin_PostConstruct (srv : Server) : Server :=
  let srv := must (AddOutgoingStreamTyped srv (str "admin.backup") (fun v => Ret (backupRequest_Decode v)) backupFrame_Encode backup_stream) in
  must (AddChat srv (str "admin.restore") restore_chat).

Definition Ledger_PostConstruct (srv : Server) : Server :=
  must (AddUnary srv (str "ledger.digest") anyValue_Decode digest_Encode digest_unary).

Inductive service : Type := DataService | AdminFunctions | LedgerFunctions.

#[global] Instance service_eq_dec : EqDecision service.
Proof. solve_decision. Defined.

Definition construct (srv : Server) (x : service) : Server :=
  match x with
  | DataService => VrpcData_PostConstruct replicator budget evs auth srv
  | AdminFunctions => Admin_PostConstruct srv
  | LedgerFunctions => Ledger_PostConstruct srv
  end.

(** The container constructs the services in some order. *)
Definition construct_all (order : list service) (srv : Server) : Server := fold_left construct order srv.

Definition service_names (x : service) : list bytes :=
  match x with
  | DataService => kv_names
  | AdminFunctions => [str "admin.restore"; str "admin.backup"]
  | LedgerFunctions => [str "ledger.digest"]
  end.

End Surface.

(** ** Properties *)

Section Props.
Context `{UuidPkg} `{Badger} `{StorePkg} `{Payloads} `{!IamStructs} `{!Struct headRecord} `{!Struct NodeCert}.
Context `{BlsPkg} `{Ed25519Pkg} `{ValueMaps} `{!ValueMapLaws} `{!TextMaps} `{!PresentMaps}.
Context {W : Type} `{!HasStorage W} {Auth : Type} `{!ValueRpc (W * option PolicyService) Auth} `{!ValueRpcLaws} `{!ValueChat} `{!ValueChatLaws}.

Variables (replicator : option (Replicator W)) (budget : option nat) (evs : list HubEvent) (auth : option (bool * Auth)).
Variables (engine_backup : W -> Z -> BackupRun) (stop : W -> list WVal -> nat) (error_text : error -> bytes).
Variables (chain_of : W -> option HashChain) (signer : option NodeSigner).

(** *** Extensions *)

Lemma extends_refl (s : Server) : extends s s [].
Proof. by split. Qed.

Lemma extends_trans (s1 s2 s3 : Server) ns ns' : extends s1 s2 ns -> extends s2 s3 ns' -> extends s1 s3 (ns' ++ ns).
Proof.
  intros [F1 O1] [F2 O2]. split; [by rewrite F2, F1, app_assoc|]. intros n [Hn' Hn]%not_elem_of_app.
  destruct (O2 n Hn') as (-> & -> & ->). by apply O1.
Qed.

Lemma extends_free (s s' : Server) ns n : extends s s' ns -> n ∉ ns -> n ∉ functions s -> n ∉ functions s'.
Proof. intros [-> _] Hn Hs. by apply not_elem_of_app. Qed.

(** One more function on top of an extension. *)
Lemma extends_unary {Req Resp : Type} (s0 s : Server) ns n dec enc (h : handler _ Req Resp) :
  extends s0 s ns -> n ∉ ns -> n ∉ functions s0 -> extends s0 (must (AddUnary s n dec enc h)) (n :: ns).
Proof.
  intros HE Hn Hs. pose proof (extends_free _ _ _ _ HE Hn Hs) as Hf. apply (extends_trans s0 s _ ns [n]); [done|].
  destruct (must_unary s n dec enc h Hf) as [(F & _ & O) _]. split; [done|]. intros n' Hne%not_elem_of_cons. destruct Hne as [Hne _].
  destruct (O n' Hne) as [-> ->]. do 2 (split; [done|]). by apply unary_keeps_chats.
Qed.

Lemma extends_stream {Req Item : Type} (s0 s : Server) ns n dec enc (h : handler _ Req (list Item)) :
  extends s0 s ns -> n ∉ ns -> n ∉ functions s0 -> extends s0 (must (AddOutgoingStreamTyped s n dec enc h)) (n :: ns).
Proof.
  intros HE Hn Hs. pose proof (extends_free _ _ _ _ HE Hn Hs) as Hf. apply (extends_trans s0 s _ ns [n]); [done|].
  destruct (must_stream s n dec enc h Hf) as [(F & _ & O) _]. split; [done|]. intros n' Hne%not_elem_of_cons. destruct Hne as [Hne _].
  destruct (O n' Hne) as [-> ->]. do 2 (split; [done|]). by apply stream_keeps_chats.
Qed.

Lemma must_chat (s : Server) n h : n ∉ functions s -> extends s (must (AddChat s n h)) [n] /\ open_chat (must (AddChat s n h)) n = h /\
  authenticator (must (AddChat s n h)) = authenticator s.
Proof.
  intros Hf. unfold must. pose proof (add_chat s n h Hf) as HA. destruct (AddChat s n h) as [e s']. destruct HA as (_ & (F & A & O) & Hc & Ho). cbn [snd].
  split; [|done]. split; [done|]. intros n' Hne%not_elem_of_cons. destruct Hne as [Hne _]. destruct (O n' Hne) as [-> ->]. do 2 (split; [done|]). by apply Ho.
Qed.

(** *** What each service leaves *)

(** A name is not among those of a list that is computed. *)
Ltac fresh_name := match goal with |- ?n ∉ ?l => apply (bool_decide_eq_false_1 (n ∈ l)); vm_compute; reflexivity end.

(** A name of the service is free. *)
Ltac free Hfree := apply Hfree; match goal with |- ?n ∈ ?l => apply (bool_decide_eq_true_1 (n ∈ l)); vm_compute; reflexivity end.

Lemma data_extends (s : Server) : (forall n, n ∈ kv_names -> n ∉ functions s) ->
  extends s (VrpcData_PostConstruct replicator budget evs auth s) kv_names.
Proof.
  intros Hfree. unfold VrpcData_PostConstruct. cbn zeta. do 2 (apply extends_stream; [|fresh_name|free Hfree]). do 7 (apply extends_unary; [|fresh_name|free Hfree]).
  destruct auth as [[[] a]|]; [apply auth_keeps|apply extends_refl..].
Qed.

(** What a service serves, by name. *)
Definition serves (s : Server) (x : service) : Prop :=
  match x with
  | DataService => served replicator budget evs s
  | AdminFunctions =>
      open_stream s (str "admin.backup") = stream_wire (fun v => Ret (backupRequest_Decode v)) backupFrame_Encode (backup_stream engine_backup) /\
      open_chat s (str "admin.restore") = restore_chat replicator stop error_text
  | LedgerFunctions => invoke s (str "ledger.digest") = unary_wire anyValue_Decode digest_Encode (digest_unary chain_of signer)
  end.

(** The three services on one server. *)
Abbreviation construct_one := (construct replicator budget evs auth engine_backup stop error_text chain_of signer).
Abbreviation construct_these := (construct_all replicator budget evs auth engine_backup stop error_text chain_of signer).

(** The authenticator after a service. *)
Definition installs (x : service) (before : option Auth) : option Auth :=
  match x, auth with DataService, Some (true, a) => Some a | _, _ => before end.

Lemma construct_does (s : Server) x : (forall n, n ∈ service_names x -> n ∉ functions s) ->
  extends s (construct_one s x) (service_names x) /\ serves (construct_one s x) x /\ authenticator (construct_one s x) = installs x (authenticator s).
Proof.
  intros Hfree. destruct x; cbn [construct service_names serves installs] in *.
  - split; [by apply data_extends|]. destruct (PostConstruct_serves replicator budget evs auth s Hfree) as (Hs & _ & ->). split; [done|]. by destruct auth as [[[] a]|].
  - unfold Admin_PostConstruct. cbn zeta. assert (str "admin.backup" ∉ functions s) as Hb by (free Hfree).
    destruct (must_stream s _ (fun v => Ret (backupRequest_Decode v)) backupFrame_Encode (backup_stream engine_backup) Hb) as [(F1 & A1 & O1) I1].
    pose proof (extends_stream s s [] _ (fun v => Ret (backupRequest_Decode v)) backupFrame_Encode (backup_stream engine_backup) (extends_refl s) (not_elem_of_nil _) Hb) as E1.
    set (s1 := must (AddOutgoingStreamTyped s _ _ _ _)) in *. clearbody s1.
    assert (str "admin.restore" ∉ functions s1) as Hr by (eapply extends_free; [exact E1|fresh_name|free Hfree]).
    destruct (must_chat s1 _ (restore_chat replicator stop error_text) Hr) as (E2 & I2 & A2).
    split; [exact (extends_trans _ _ _ _ _ E1 E2)|]. split; [|congruence]. split; [|done].
    destruct E2 as [_ O2]. destruct (O2 (str "admin.backup") ltac:(fresh_name)) as (_ & -> & _). done.
  - unfold Ledger_PostConstruct. assert (str "ledger.digest" ∉ functions s) as Hd by (free Hfree).
    destruct (must_unary s _ anyValue_Decode digest_Encode (digest_unary chain_of signer) Hd) as [(F1 & A1 & O1) I1]. split; [|done].
    apply extends_unary; [apply extends_refl|apply not_elem_of_nil|done].
Qed.

(** A service that adds other names does not disturb what is served. *)
Lemma served_extends (s s' : Server) ns : extends s s' ns -> (forall n, n ∈ kv_names -> n ∉ ns) -> served replicator budget evs s -> served replicator budget evs s'.
Proof.
  intros [_ O] Hd []. split; match goal with
    | |- invoke s' ?n = _ => rewrite (proj1 (O n ltac:(free Hd)))
    | |- open_stream s' ?n = _ => rewrite (proj1 (proj2 (O n ltac:(free Hd)))) end; assumption.
Qed.

Lemma serves_extends (s s' : Server) ns x : extends s s' ns -> (forall n, n ∈ service_names x -> n ∉ ns) -> serves s x -> serves s' x.
Proof.
  intros HE Hd. destruct x; cbn [serves service_names] in *; [by apply (served_extends s s' ns)| |]; destruct HE as [_ O].
  - destruct (O (str "admin.backup") ltac:(free Hd)) as (_ & -> & _). by destruct (O (str "admin.restore") ltac:(free Hd)) as (_ & _ & ->).
  - by destruct (O (str "ledger.digest") ltac:(free Hd)) as (-> & _).
Qed.

Lemma services_disjoint x y n : x <> y -> n ∈ service_names x -> n ∉ service_names y.
Proof.
  intros Hne. assert (forallb (fun n => negb (bool_decide (n ∈ service_names y))) (service_names x) = true) as HF by (destruct x, y; first [done|vm_compute; reflexivity]).
  intros Hn Hy. rewrite forallb_forall in HF. specialize (HF n (proj1 (list_elem_of_In _ _) Hn)). by rewrite bool_decide_eq_true_2 in HF.
Qed.

(** All of them, in any order. *)
Lemma construct_all_does order (s : Server) : NoDup order -> (forall x n, x ∈ order -> n ∈ service_names x -> n ∉ functions s) ->
  (forall n, n ∈ functions (construct_these order s) <-> n ∈ functions s \/ exists x, x ∈ order /\ n ∈ service_names x) /\
  (forall x, x ∈ order -> serves (construct_these order s) x) /\
  (forall x, x ∉ order -> serves s x -> serves (construct_these order s) x) /\
  authenticator (construct_these order s) = match auth with Some (true, a) => if bool_decide (DataService ∈ order) then Some a else authenticator s | _ => authenticator s end.
Proof.
  intros HND. revert s. induction HND as [|x order Hx HND IH]; intros s Hfree.
  - cbn. split; [set_solver|]. split; [set_solver|]. split; [done|]. by destruct auth as [[[] a]|].
  - destruct (construct_does s x) as (HE & HS & HA); [intros n; apply Hfree; left|]. cbn [construct_all fold_left]. fold (construct_these order (construct_one s x)).
    assert (forall y n, y <> x -> n ∈ service_names y -> n ∉ functions s -> n ∉ functions (construct_one s x)) as Hstill
      by (intros y n Hy Hn Hf; eapply extends_free; [exact HE|by apply (services_disjoint y x)|done]).
    destruct (IH (construct_one s x)) as (HF & HS' & HK & HA').
    { intros y n Hy Hn. apply (Hstill y); [by intros ->|done|by eapply Hfree; [right|]]. }
    split; [|split; [|split]].
    + intros n. rewrite HF, (proj1 HE), elem_of_app. set_solver.
    + intros y [->|Hy]%elem_of_cons; [by apply HK|by apply HS'].
    + intros y [Hy Hyo]%not_elem_of_cons Hs. apply HK; [done|]. eapply (serves_extends s); [exact HE| |done]. intros n. by apply services_disjoint.
    + rewrite HA', HA. unfold installs. destruct auth as [[[] a]|]; [|by destruct x..]. destruct x.
      * rewrite (bool_decide_eq_true_2 (DataService ∈ DataService :: _)) by left. by case_bool_decide.
      * by rewrite (bool_decide_ext (DataService ∈ AdminFunctions :: order) (DataService ∈ order)) by set_solver.
      * by rewrite (bool_decide_ext (DataService ∈ LedgerFunctions :: order) (DataService ∈ order)) by set_solver.
Qed.

(** *** A caller without the permission *)

(** With authorization on, the policy in force grants the caller a permission in no scope. *)
Definition ungranted (c : Call) (w : W) (t : PolicyService) (perm : bytes) : Prop :=
  ps_Enabled t = true /\
  forall snap tenant region, ps_snap (refresh (clock c) (get_storage w) t) = Some snap ->
    Snapshot_Authorize snap (principal c) (EffectivePermission perm tenant) tenant region = false.

(** A call that is refused, whatever the error, and leaves the node as it was. *)
Definition refused {A} (w : W) (x : result A * (W * option PolicyService)) : Prop := (forall a, fst x <> Ret a) /\ fst (snd x) = w.

Section Refusal.
Variables (c : Call) (w : W) (t : PolicyService).

Lemma Authorize_refuses perm tenant region : ungranted c w t perm ->
  Authorize (clock c) (get_storage w) (Some t) (principal c) perm tenant region = (Fail denied, Some (refresh (clock c) (get_storage w) t)).
Proof.
  intros [He Hn]. unfold Authorize. rewrite He. cbn [negb]. destruct (ps_snap (refresh _ _ t)) as [snap|] eqn:Es; [|done]. by rewrite (Hn snap _ _ eq_refl).
Qed.

Lemma wire_refuses {Req Resp : Type} dec enc (h : handler _ Req Resp) v : (forall req, refused w (h c (w, Some t) req)) ->
  refused w (unary_wire dec enc h c (w, Some t) v).
Proof.
  intros Hh. unfold unary_wire. destruct (dec v) as [req|?|]; [|by split..]. destruct (Hh req) as [Hr Hw]. destruct (h c _ req) as [[a|?|] st']; cbn in *; [by destruct (Hr a)|by split..].
Qed.

Lemma stream_refuses {Req Item : Type} dec enc (h : handler _ Req (list Item)) v : (forall req, refused w (h c (w, Some t) req)) ->
  refused w (stream_wire dec enc h c (w, Some t) v).
Proof.
  intros Hh. unfold stream_wire. destruct (dec v) as [req|?|]; [|by split..]. destruct (Hh req) as [Hr Hw]. destruct (h c _ req) as [[a|?|] st']; cbn in *; [by destruct (Hr a)|by split..].
Qed.

Lemma guarded_refuses {Req Resp : Type} perm (keyOf : Req -> option Key) (fn : W -> Req -> result Resp * W) req : ungranted c w t perm ->
  refused w (unary (fun c p w req => guarded c p perm keyOf fn w req) c (w, Some t) req).
Proof. intros Hu. unfold unary, guarded, guardKey. cbn [fst snd]. destruct (scopeOf (keyOf req)) as [tenant region]. rewrite Authorize_refuses by done. by split. Qed.

Lemma batch_refuses req : ungranted c w t PermRecordsBatch -> refused w (unary (guardedBatch replicator) c (w, Some t) req).
Proof. intros Hu. unfold unary, guardedBatch. cbn [fst snd]. destruct (batchScope req) as [[tenant region]|]; [|by split]. rewrite Authorize_refuses by done. by split. Qed.

Lemma enumerate_refuses req : ungranted c w t PermRecordsEnumerate -> refused w (streaming (fun c p w req => enumerate c p w req budget) c (w, Some t) req).
Proof. intros Hu. unfold streaming, enumerate. cbn [fst snd]. destruct (scopeOf _) as [tenant region]. rewrite Authorize_refuses by done. by split. Qed.

Lemma watch_refuses req : ungranted c w t PermRecordsWatch -> refused w (streaming (fun c p w req => watch c p w req evs) c (w, Some t) req).
Proof. intros Hu. unfold streaming, watch. cbn [fst snd]. destruct (scopeOf _) as [tenant region]. rewrite Authorize_refuses by done. by split. Qed.

Lemma backup_refuses since : ungranted c w t PermBackupsCreate -> refused w (backup_stream engine_backup c (w, Some t) since).
Proof. intros Hu. unfold backup_stream, admin_backup. cbn [fst snd]. rewrite Authorize_refuses by done. by split. Qed.

Lemma restore_refuses v inC : ungranted c w t PermBackupsRestore -> set_storage w (get_storage w) = w -> refused w (restore_chat replicator stop error_text c (w, Some t) v inC).
Proof. intros Hu Hw. unfold restore_chat, admin_restore. cbn [fst snd]. rewrite Authorize_refuses by done. by split. Qed.

Lemma digest_refuses req : ungranted c w t PermProofsRead -> refused w (digest_unary chain_of signer c (w, Some t) req).
Proof. intros Hu. unfold digest_unary, ledger_digest. cbn [fst snd fsm_Storage]. rewrite Authorize_refuses by done. by split. Qed.

End Refusal.

(** How a function is called. *)
Inductive kind : Type := Unary | Stream | Chat.

Definition kind_of (n : bytes) : kind :=
  if bool_decide (n ∈ str <$> ["kv.watch"; "kv.enumerate"; "admin.backup"]%string) then Stream
  else if bool_decide (n = str "admin.restore") then Chat else Unary.

(** The permission a function asks for. *)
Definition permission_of (n : bytes) : bytes :=
  if bool_decide (n ∈ str <$> ["kv.get"; "kv.getrecent"]%string) then PermRecordsGet
  else if bool_decide (n ∈ str <$> ["kv.put"; "kv.touch"]%string) then PermRecordsPut
  else if bool_decide (n = str "kv.remove") then PermRecordsDelete
  else if bool_decide (n = str "kv.increment") then PermRecordsIncrement
  else if bool_decide (n = str "kv.batch") then PermRecordsBatch
  else if bool_decide (n = str "kv.enumerate") then PermRecordsEnumerate
  else if bool_decide (n = str "kv.watch") then PermRecordsWatch
  else if bool_decide (n = str "admin.backup") then PermBackupsCreate
  else if bool_decide (n = str "admin.restore") then PermBackupsRestore
  else PermProofsRead.

(** Every call of a function of the server is refused to the caller. *)
Definition refuses_all (s : Server) (c : Call) (w : W) (t : PolicyService) (n : bytes) : Prop :=
  match kind_of n with
  | Unary => forall v, refused w (invoke s n c (w, Some t) v)
  | Stream => forall v, refused w (open_stream s n c (w, Some t) v)
  | Chat => forall v inC, refused w (open_chat s n c (w, Some t) v inC)
  end.

(** The name is known: how it is called and what it asks for are computed. *)
Ltac known_name Hu :=
  match goal with |- refuses_all _ _ _ _ ?n =>
    let k := eval vm_compute in (kind_of n) in let p := eval vm_compute in (permission_of n) in
    change (permission_of n) with p in Hu; unfold refuses_all; change (kind_of n) with k; cbn iota
  end.

Lemma serves_refuses (s : Server) x c w t n :
  set_storage w (get_storage w) = w -> ungranted c w t (permission_of n) -> serves s x -> n ∈ service_names x -> refuses_all s c w t n.
Proof.
  intros Hw Hu HS Hn. assert (Exists (fun m => n = m) (service_names x)) as HE by (apply Exists_exists; eauto). clear Hn.
  destruct x; cbn [serves service_names kv_names fmap list_fmap] in *.
  - destruct HS. repeat (apply Exists_cons in HE as [->|HE]); [..|by apply Exists_nil in HE]; known_name Hu; intros v.
    + rewrite sv_watch. apply stream_refuses. intros req. by apply watch_refuses.
    + rewrite sv_enumerate. apply stream_refuses. intros req. by apply enumerate_refuses.
    + rewrite sv_batch. apply wire_refuses. intros req. by apply batch_refuses.
    + rewrite sv_increment. apply wire_refuses. intros req. by apply guarded_refuses.
    + rewrite sv_remove. apply wire_refuses. intros req. by apply guarded_refuses.
    + rewrite sv_touch. apply wire_refuses. intros req. by apply guarded_refuses.
    + rewrite sv_put. apply wire_refuses. intros req. by apply guarded_refuses.
    + rewrite sv_getrecent. apply wire_refuses. intros req. by apply guarded_refuses.
    + rewrite sv_get. apply wire_refuses. intros req. by apply guarded_refuses.
  - destruct HS as [Hb Hr]. repeat (apply Exists_cons in HE as [->|HE]); [..|by apply Exists_nil in HE]; known_name Hu.
    + intros v inC. rewrite Hr. by apply restore_refuses.
    + intros v. rewrite Hb. apply stream_refuses. intros since. by apply backup_refuses.
  - repeat (apply Exists_cons in HE as [->|HE]); [|by apply Exists_nil in HE]. known_name Hu. intros v. rewrite HS. apply wire_refuses. intros req. by apply digest_refuses.
Qed.

(** C6: a node serves nothing unguarded. Whichever of the data plane, the admin and the ledger
    service are built, and in whichever order the container constructs them on a server that has
    none of their names: the server then has exactly their functions besides its own, each served
    by its handler; an enabled authenticator of the data plane stands in front of all of them; and
    with authorization on, a caller to whom the policy in force grants the permission of a function
    in no tenant or region is refused by it, whatever it sends, and the node stays as it was. *)
Theorem surface_guarded (order : list service) (srv : Server) :
  NoDup order -> (forall x n, x ∈ order -> n ∈ service_names x -> n ∉ functions srv) ->
  let s := construct_these order srv in
  (forall n, n ∈ functions s <-> n ∈ functions srv \/ exists x, x ∈ order /\ n ∈ service_names x) /\
  (forall x, x ∈ order -> serves s x) /\
  (forall a, auth = Some (true, a) -> DataService ∈ order -> authenticator s = Some a) /\
  (forall c w t x n, set_storage w (get_storage w) = w -> ungranted c w t (permission_of n) -> x ∈ order -> n ∈ service_names x -> refuses_all s c w t n).
Proof.
  intros HND Hfree s. destruct (construct_all_does order srv HND Hfree) as (HF & HS & _ & HA). fold s in HF, HS, HA.
  split; [done|]. split; [done|]. split.
  - intros a -> Hd. by rewrite HA, bool_decide_eq_true_2.
  - intros c w t x n Hw Hu Hx Hn. by apply (serves_refuses s x); [..|apply HS|].
Qed.

End Props.

(** ** A concrete server with chats *)

Section Talk.
Context (St Auth : Type).
#[local] Existing Instance flat_maps.
#[local] Existing Instance flat_rpc.

Definition talk_server : Type := flat_server St Auth * (bytes -> chat St).

(** [flat_rpc] beside the chats. *)
Definition talk_rpc : ValueRpc St Auth := {|
  Server := talk_server;
  SetAuthenticator := fun s a => (SetAuthenticator (fst s) a, snd s);
  AddUnary := fun Req Resp s n dec enc h => let '(e, f) := AddUnary (fst s) n dec enc h in (e, (f, snd s));
  AddOutgoingStreamTyped := fun Req Item s n dec enc h => let '(e, f) := AddOutgoingStreamTyped (fst s) n dec enc h in (e, (f, snd s));
  authenticator := fun s => authenticator (fst s);
  functions := fun s => functions (fst s);
  invoke := fun s => invoke (fst s);
  open_stream := fun s => open_stream (fst s);
  Client := Client;
  connected := fun cli s c => connected cli (fst s) c;
  CallUnary := fun Req Resp => CallUnary;
  GetStreamTyped := fun Req Item => GetStreamTyped
|}.

Lemma talk_rpc_laws : @ValueRpcLaws _ _ _ talk_rpc.
Proof.
  split; cbn; try done.
  - intros Req Resp [f ch] n dec enc h Hn. cbn in *. rewrite bool_decide_eq_false_2 by done. split; [done|]. cbn. rewrite bool_decide_eq_true_2 by done.
    split; [|done]. split; [done|]. split; [done|]. intros n' Hne. cbn. by rewrite bool_decide_eq_false_2.
  - intros Req Item [f ch] n dec enc h Hn. cbn in *. rewrite bool_decide_eq_false_2 by done. split; [done|]. cbn. rewrite bool_decide_eq_true_2 by done.
    split; [|done]. split; [done|]. split; [done|]. intros n' Hne. cbn. by rewrite bool_decide_eq_false_2.
  - by intros Req Resp cli s c n req enc dec st ->.
  - by intros Req Item cli s c n req enc dec st ->.
Qed.

Definition talk_chat : @ValueChat _ _ _ talk_rpc := @Build_ValueChat _ _ _ talk_rpc
  (fun (s : talk_server) n h =>
    if bool_decide (n ∈ fs_names _ _ (fst s)) then (Some (ErrNew (str "function exists")), s)
    else (None, ({| fs_auth := fs_auth _ _ (fst s); fs_names := n :: fs_names _ _ (fst s); fs_unary := fs_unary _ _ (fst s); fs_stream := fs_stream _ _ (fst s) |},
                 fun n' => if bool_decide (n' = n) then h else snd s n')))
  (fun s : talk_server => snd s).

Lemma talk_chat_laws : @ValueChatLaws _ _ _ talk_rpc talk_chat.
Proof.
  split; cbn.
  - intros [f ch] n h Hn. cbn in *. rewrite bool_decide_eq_false_2 by done. split; [done|]. split; [by split|]. cbn. rewrite bool_decide_eq_true_2 by done. split; [done|].
    intros n' Hne. by rewrite bool_decide_eq_false_2.
  - intros Req Resp [f ch] n dec enc h Hn n' Hne. cbn in *. by case_bool_decide.
  - intros Req Item [f ch] n dec enc h Hn n' Hne. cbn in *. by case_bool_decide.
  - intros [f ch] a. by split.
Qed.

Definition talk_none : talk_server := (flat_none St Auth, fun _ _ st _ _ => (Fail (ErrNew (str "no such function")), st)).

End Talk.

(** ** Witness: three services and a caller nobody has heard of *)

Section Witness.
#[local] Existing Instances flat_uuid flat_uuid_laws mem_badger mem_spec flat_store flat_store_laws flat_value flat_payloads flat_head flat_iam_structs
  toy_bls toy_ed flat_maps flat_maps_laws flat_text.
#[local] Instance talk_cert : Struct NodeCert := flat_struct NodeCert.
#[local] Instance talk_present : @PresentMaps flat_maps := {| MHas := fun m k => match assoc m k with Some _ => true | None => false end |}.
#[local] Instance surface_rpc : ValueRpc (KeyValueStorageCtx * option PolicyService) unit := talk_rpc _ unit.
#[local] Instance surface_rpc_laws : ValueRpcLaws := talk_rpc_laws _ unit.
#[local] Instance surface_chat : ValueChat := talk_chat _ unit.
#[local] Instance surface_chat_laws : ValueChatLaws := talk_chat_laws _ unit.

Definition surface_order : list service := [LedgerFunctions; DataService; AdminFunctions].

Definition surface_server : Server := talk_none _ unit.

(** The server with all three services. *)
Definition surface_built : Server := construct_all None None [] (Some (true, tt)) (fun _ _ => {| br_writes := []; br_end := Ret 0 |}) (fun _ _ => 0%nat) (fun _ => [])
  (fun _ => None) None surface_order surface_server.

Definition stranger : Call := {| principal := str "user:nobody"; clock := 100; clock' := 100 |}.

Lemma stranger_ungranted perm : ungranted stranger demo_empty demo_policy perm.
Proof.
  split; [reflexivity|]. intros snap tenant region Hs.
  assert ((fun s => (map_to_list (Policies s), Admins s !! principal stranger)) <$> ps_snap (refresh (clock stranger) (get_storage demo_empty) demo_policy) = Some ([], None))
    as HB by (vm_compute; reflexivity).
  rewrite Hs in HB. injection HB as HP HA. apply map_to_list_empty_iff in HP. unfold Snapshot_Authorize. change (Admins snap !! principal stranger = None) in HA. rewrite HA, HP.
  destruct (_ || _); [done|]. cbn [default from_option id]. induction (scopes_for tenant region) as [|x l IH]; [done|]. cbn. by rewrite lookup_empty.
Qed.

Lemma surface_guarded_witness :
  authenticator surface_built = Some tt /\ refuses_all surface_built stranger demo_empty demo_policy (str "admin.restore") /\
  length (functions surface_built) = 12%nat.
Proof.
  destruct (surface_guarded None None [] (Some (true, tt)) (fun _ _ => {| br_writes := []; br_end := Ret 0 |}) (fun _ _ => 0%nat) (fun _ => []) (fun _ => None) None
    surface_order surface_server) as (_ & _ & HA & HR).
  - apply (bool_decide_eq_true_1 (NoDup surface_order)). vm_compute. reflexivity.
  - intros x n _ _. apply not_elem_of_nil.
  - split; [apply HA; [reflexivity|right; left]|]. split; [|vm_compute; reflexivity].
    apply (HR stranger demo_empty demo_policy AdminFunctions); [reflexivity|apply stranger_ungranted|right; right; left|left].
Defined.

End Witness.
