(* ===== verification/Stats.v ===== *)
(** * Region statistics ([pkg/console/stats.go])

    The per-region footprint is a full scan aggregated in a map, sorted, and kept for ten seconds.
    Times are in nanoseconds; badger's counters and the size on disk are arguments. *)

From S2P Require Import Prelude Pb Keys Engine Storage StorageSpec StorageReads StorageProps ScanProps Service Value Iam PolicyService Password Auth Console ConsoleProps Api.

Definition regionsCacheTTL : Z := 10 * 10 ^ 9.

(** [nil] regions are [None]. *)
Record regionsCache : Type := { rc_at : Z; rc_regions : option (list RegionStat) }.

(** The key of the aggregation: [tenant + "\x00" + region]. *)
Definition region_key (tenant region : bytes) : bytes := tenant ++ [x00] ++ region.

Definition add_to (rec : Rec) (s : RegionStat) : RegionStat := {|
  rs_Tenant := rs_Tenant s; rs_Region := rs_Region s; rs_Keys := int64 (rs_Keys s + 1);
  rs_RestBytes := match rec_Head rec with Some h => int64 (rs_RestBytes s + hd_DiskSize h) | None => rs_RestBytes s end;
  rs_TransferByte := int64 (rs_TransferByte s + len (rec_Value rec)) |}.

Definition empty_stat (tenant region : bytes) : RegionStat := {|
  rs_Tenant := tenant; rs_Region := region; rs_Keys := 0; rs_RestBytes := 0; rs_TransferByte := 0 |}.

(** The body of the sender for one record. *)
Definition agg_record (agg : gmap bytes RegionStat) (rec : Rec) : gmap bytes RegionStat :=
  match rec_Key rec with
  | None => agg
  | Some key =>
      let k := region_key (MajorKey key) (RegionName key) in
      <[k := add_to rec (default (empty_stat (MajorKey key) (RegionName key)) (agg !! k))]> agg
  end.

Definition region_sender : BlockSender (gmap bytes RegionStat) := fun block agg => (None, fold_left agg_record (blk_Record block) agg).

(** The order of the rows: by tenant, then by region. *)
Definition stat_le (a b : RegionStat) : Prop :=
  match bytes_compare (rs_Tenant a) (rs_Tenant b) with Lt => True | Eq => bytes_le (rs_Region a) (rs_Region b) | Gt => False end.

#[global] Instance stat_le_dec : RelDecision stat_le.
Proof. intros a b. unfold stat_le. destruct (bytes_compare _ _); apply _. Defined.

Section Stats.
Context `{UuidPkg} `{Badger} `{StorePkg} `{MapOrder}.

(** The scan; its error is only logged. *)
Definition scan_regions (now : Z) (st : KeyValueStorageCtx) : result (list RegionStat) :=
  match Scan now st {| sc_HeadOnly := false |} region_sender ∅ with
  | (Panic, _) => Panic
  | (_, agg) => Ret (merge_sort stat_le (snd <$> map_order agg))
  end.

(** [wall] is the clock of the cache, [now] that of the storage. *)
Definition cachedRegions (wall now : Z) (st : KeyValueStorageCtx) (cache : regionsCache) : result (list RegionStat) * regionsCache :=
  match (if wall - rc_at cache <? regionsCacheTTL then rc_regions cache else None) with
  | Some regions => (Ret regions, cache)
  | None =>
      match scan_regions now st with
      | Ret out => (Ret out, {| rc_at := wall; rc_regions := Some out |})
      | Fail e => (Fail e, cache)
      | Panic => (Panic, cache)
      end
  end.

Definition regions (wall now : Z) (st : KeyValueStorageCtx) (cache : regionsCache) : reply Body * regionsCache :=
  match cachedRegions wall now st cache with
  | (Ret out, cache) => (Reply StatusOK (JRegions out), cache)
  | (_, cache) => (Crash, cache)
  end.

End Stats.

(** [stats]: badger's counters, the clock in milliseconds and, when the store can tell, its sizes
    on disk with their sum. *)
Definition stats (reads writes unix : Z) (disk : option (Z * Z)) : reply Body :=
  Reply StatusOK (JStats reads writes unix (match disk with Some (lsm, vlog) => Some (lsm, vlog, int64 (lsm + vlog)) | None => None end)).

(** ** What the rows say *)

Definition in_region (tenant region : bytes) (rec : Rec) : Prop :=
  match rec_Key rec with Some key => MajorKey key = tenant /\ RegionName key = region | None => False end.

#[global] Instance in_region_dec tenant region rec : Decision (in_region tenant region rec).
Proof. unfold in_region. destruct (rec_Key rec); apply _. Defined.

Definition total (f : Rec -> Z) (records : list Rec) : Z := foldr (fun r acc => f r + acc) 0 records.

Definition disk_of (r : Rec) : Z := match rec_Head r with Some h => hd_DiskSize h | None => 0 end.

(** The row that the records of a region deserve. *)
Definition summary (tenant region : bytes) (records : list Rec) : RegionStat :=
  let group := filter (in_region tenant region) records in
  {| rs_Tenant := tenant; rs_Region := region; rs_Keys := int64 (len group); rs_RestBytes := int64 (total disk_of group);
     rs_TransferByte := int64 (total (fun r => len (rec_Value r)) group) |}.

(** Tenant names without the separator. *)
Definition plain_tenants (records : list Rec) : Prop :=
  Forall (fun r => match rec_Key r with Some key => x00 ∉ MajorKey key | None => True end) records.

(** ** Lemmas *)

Lemma region_key_inj t1 r1 t2 r2 : x00 ∉ t1 -> x00 ∉ t2 -> region_key t1 r1 = region_key t2 r2 -> t1 = t2 /\ r1 = r2.
Proof.
  unfold region_key. revert t2. induction t1 as [|b t1 IH]; intros [|c t2] H1 H2 E; cbn in E.
  - by injection E as ->.
  - injection E as <- _. by destruct H2; left.
  - injection E as -> _. by destruct H1; left.
  - injection E as -> E. apply not_elem_of_cons in H1 as [_ H1]. apply not_elem_of_cons in H2 as [_ H2]. by destruct (IH t2 H1 H2 E) as [-> ->].
Qed.

Lemma total_snoc f l r : total f (l ++ [r]) = total f l + f r.
Proof. unfold total. induction l as [|x l IH]; cbn; [lia|]. rewrite IH. lia. Qed.

Lemma len_snoc {A} (l : list A) x : len (l ++ [x]) = len l + 1.
Proof. rewrite len_app. done. Qed.

(** Adding a record to the row of its region gives the row of the records with it. *)
Lemma summary_snoc t rg records r :
  in_region t rg r -> add_to r (summary t rg records) = summary t rg (records ++ [r]).
Proof.
  intros Hr. unfold add_to, summary. cbn [rs_Tenant rs_Region rs_Keys rs_RestBytes rs_TransferByte].
  rewrite filter_app, filter_cons_True, filter_nil by done. rewrite !total_snoc, len_snoc.
  assert (disk_of r = match rec_Head r with Some h => hd_DiskSize h | None => 0 end) as -> by done.
  destruct (rec_Head r); rewrite !int64_add_int64; [done|]. by rewrite Z.add_0_r.
Qed.

Lemma summary_other t rg records r : ~ in_region t rg r -> summary t rg (records ++ [r]) = summary t rg records.
Proof. intros Hr. unfold summary. by rewrite filter_app, filter_cons_False, filter_nil, app_nil_r by done. Qed.

Lemma filter_none {A} (P : A -> Prop) `{!forall x, Decision (P x)} l : ~ Exists P l -> filter P l = [].
Proof.
  induction l as [|x l IH]; intros Hn; [done|]. rewrite filter_cons_False; [apply IH|]; intros Hx; apply Hn; [by right|by left].
Qed.

(** The aggregation of a list of records. *)
Lemma agg_lookup records t rg :
  plain_tenants records -> x00 ∉ t ->
  fold_left agg_record records ∅ !! region_key t rg = if decide (Exists (in_region t rg) records) then Some (summary t rg records) else None.
Proof.
  induction records as [|r records IH] using rev_ind; intros HP Ht; [by rewrite decide_False by (intros E; inversion E)|].
  apply Forall_app in HP as [HP Hr]. apply Forall_cons in Hr as [Hr _]. specialize (IH HP Ht). rewrite fold_left_app. cbn [fold_left].
  destruct (decide (in_region t rg r)) as [Hin|Hin].
  - rewrite decide_True by (apply Exists_app; right; by constructor). rewrite <- summary_snoc by done.
    unfold agg_record at 1. unfold in_region in Hin. destruct (rec_Key r) as [key|]; [|done]. destruct Hin as [-> ->].
    rewrite lookup_insert_eq, IH. do 2 f_equal. destruct (decide (Exists _ records)) as [|Hn]; [done|].
    unfold summary. by rewrite filter_none.
  - assert (fold_left agg_record (records ++ [r]) ∅ !! region_key t rg = fold_left agg_record records ∅ !! region_key t rg) as HE.
    { rewrite fold_left_app. cbn [fold_left]. unfold agg_record at 1. unfold in_region in Hin. destruct (rec_Key r) as [key|]; [|done].
      rewrite lookup_insert_ne; [done|]. intros E. apply region_key_inj in E as [E1 E2]; [|done|done]. by destruct Hin. }
    rewrite fold_left_app in HE. cbn [fold_left] in HE. rewrite HE, IH, summary_other by done.
    destruct (decide (Exists (in_region t rg) records)) as [He|He].
    + by rewrite decide_True by (apply Exists_app; by left).
    + rewrite decide_False; [done|]. intros [?|Hx]%Exists_app; [done|]. apply Exists_cons in Hx as [?|Hx]; [done|inversion Hx].
Qed.

(** Every key of the aggregation is the key of a region seen. *)
Lemma agg_keys records k s :
  fold_left agg_record records ∅ !! k = Some s -> exists r key, r ∈ records /\ rec_Key r = Some key /\ k = region_key (MajorKey key) (RegionName key).
Proof.
  induction records as [|r records IH] using rev_ind; [done|]. rewrite fold_left_app. cbn [fold_left].
  unfold agg_record at 1. destruct (rec_Key r) as [key|] eqn:Ek.
  - rewrite lookup_insert. case_decide as E.
    + intros _. exists r, key. split; [apply elem_of_app; right; by left|]. by split.
    + intros (r' & key' & Hr & Hk)%IH. exists r', key'. split; [apply elem_of_app; by left|done].
  - intros (r' & key' & Hr & Hk)%IH. exists r', key'. split; [apply elem_of_app; by left|done].
Qed.

#[global] Instance stat_le_trans : Transitive stat_le.
Proof.
  intros a b c. unfold stat_le. destruct (bytes_compare (rs_Tenant a) (rs_Tenant b)) eqn:E1; [| |done];
    destruct (bytes_compare (rs_Tenant b) (rs_Tenant c)) eqn:E2; try done.
  - apply bytes_compare_eq in E1 as ->. rewrite E2. apply transitivity.
  - apply bytes_compare_eq in E1 as ->. by rewrite E2.
  - apply bytes_compare_eq in E2 as <-. by rewrite E1.
  - assert (bytes_compare (rs_Tenant a) (rs_Tenant c) = Lt) as ->; [|done].
    assert (bytes_le (rs_Tenant a) (rs_Tenant c)) as Hle by (transitivity (rs_Tenant b); unfold bytes_le; congruence).
    unfold bytes_le in Hle. destruct (bytes_compare (rs_Tenant a) (rs_Tenant c)) eqn:E3; [|done|done].
    apply bytes_compare_eq in E3. rewrite E3, bytes_compare_antisym, E2 in E1. done.
Qed.

#[global] Instance stat_le_total : Total stat_le.
Proof.
  intros a b. unfold stat_le. rewrite (bytes_compare_antisym (rs_Tenant a) (rs_Tenant b)).
  destruct (bytes_compare (rs_Tenant a) (rs_Tenant b)); cbn; [apply bytes_le_total|by left|by right].
Qed.

Lemma send_all_regions bs agg : send_all region_sender bs agg = (Ret tt, fold_left agg_record (concat (blk_Record <$> bs)) agg).
Proof.
  revert agg. induction bs as [|b bs IH]; intros agg; [done|]. cbn [send_all region_sender fmap list_fmap concat]. rewrite IH.
  by rewrite fold_left_app.
Qed.

Section Props.
Context `{UuidPkg} `{!UuidLaws} `{Badger} `{!BadgerSpec} `{StorePkg} `{!StoreLaws} `{MapOrder} `{!MapOrderLaws}.

(** The dashboard's rows are exact. When the cached rows are missing or ten seconds old, the
    endpoint scans the store; if no tenant name holds a zero byte, the answer has exactly one row
    per tenant and region that holds a live record, in order, with the number of its records,
    their size on disk and the size of their values, and is what the cache now holds. *)
Theorem regions_exact (wall now : Z) (st : KeyValueStorageCtx) (cache : regionsCache) :
  BadgerReliable -> keys_wf (contents st) -> rc_regions cache = None \/ regionsCacheTTL <= wall - rc_at cache ->
  exists records, Scan now st {| sc_HeadOnly := false |} collectSender [] = (Ret tt, records) /\
    (plain_tenants records ->
     exists out, cachedRegions wall now st cache = (Ret out, {| rc_at := wall; rc_regions := Some out |}) /\
       StronglySorted stat_le out /\ NoDup out /\
       forall s, s ∈ out <-> exists t rg, Exists (in_region t rg) records /\ s = summary t rg records).
Proof.
  intros HR Hwf Hc. set (items := txn_Iterate (NewTransaction (db st) false) {| it_Reverse := false; it_Prefix := [] |} None).
  set (records := yields now false items). pose proof (items_no_panic now false st {| it_Reverse := false; it_Prefix := [] |} None HR Hwf) as HP.
  exists records. split.
  { unfold Scan. fold items. rewrite stream_loop_spec by done. by rewrite send_all_collect, concat_blocks_of. }
  intros Hpl. set (agg := fold_left agg_record records ∅).
  assert (scan_regions now st = Ret (merge_sort stat_le (snd <$> map_order agg))) as ES.
  { unfold scan_regions, Scan. fold items. rewrite stream_loop_spec by done. by rewrite send_all_regions, concat_blocks_of. }
  exists (merge_sort stat_le (snd <$> map_order agg)). split.
  { unfold cachedRegions. assert ((if wall - rc_at cache <? regionsCacheTTL then rc_regions cache else None) = None) as ->; [|by rewrite ES].
    destruct Hc as [->|Hc]; [by destruct (_ <? _)|]. by rewrite (proj2 (Z.ltb_ge _ _) Hc). }
  assert (forall k s, agg !! k = Some s -> exists t rg, k = region_key t rg /\ Exists (in_region t rg) records /\ s = summary t rg records) as Hrow.
  { intros k s Hk. destruct (agg_keys records k s Hk) as (r & key & Hr & Ek & ->). exists (MajorKey key), (RegionName key). split; [done|].
    assert (x00 ∉ MajorKey key) as Hn by (pose proof (proj1 (Forall_forall _ _) Hpl r Hr) as Hx; cbn beta in Hx; by rewrite Ek in Hx).
    unfold agg in Hk. rewrite agg_lookup in Hk by done. destruct (decide _); [|done]. by injection Hk as <-. }
  assert (forall s, s ∈ merge_sort stat_le (snd <$> map_order agg) <-> exists k, agg !! k = Some s) as Hin.
  { intros s. rewrite merge_sort_Permutation, map_order_perm, list_elem_of_fmap. split.
    - intros ([k x] & -> & Hx%elem_of_map_to_list). by exists k.
    - intros [k Hk]. exists (k, s). split; [done|]. by apply elem_of_map_to_list. }
  split; [apply (StronglySorted_merge_sort stat_le)|]. split.
  - rewrite merge_sort_Permutation, map_order_perm. apply NoDup_fmap_2_strong; [|apply NoDup_map_to_list].
    intros [k1 s1] [k2 s2] L1%elem_of_map_to_list L2%elem_of_map_to_list E. cbn in E. subst s2.
    destruct (Hrow _ _ L1) as (t1 & g1 & -> & _ & E1). destruct (Hrow _ _ L2) as (t2 & g2 & -> & _ & E2).
    assert (t1 = t2) as -> by (by apply (f_equal rs_Tenant) in E1 as E; rewrite E2 in E). assert (g1 = g2) as -> by (by apply (f_equal rs_Region) in E1 as E; rewrite E2 in E). done.
  - intros s. rewrite Hin. split.
    + intros [k Hk]. destruct (Hrow k s Hk) as (t & rg & _ & He & Es). by exists t, rg.
    + intros (t & rg & He & ->). exists (region_key t rg). unfold agg. apply Exists_exists in He as Hx. destruct Hx as (r & Hr & Hreg).
      unfold in_region in Hreg. destruct (rec_Key r) as [key|] eqn:Ek; [|done]. destruct Hreg as [<- <-].
      rewrite agg_lookup; [by rewrite decide_True|done|]. pose proof (proj1 (Forall_forall _ _) Hpl r Hr) as Hx; cbn beta in Hx. by rewrite Ek in Hx.
Qed.

End Props.

(** Zero bytes make regions collide (a defect). A record of region [g] of tenant [t\x00u] and one
    of region [u\x00g] of tenant [t] are counted in one row, the one of whichever the scan meets
    first, and the other region has no row. *)
Theorem regions_collide (t u g : bytes) (r1 r2 : Rec) (k1 k2 : Key) :
  rec_Key r1 = Some k1 -> rec_Key r2 = Some k2 -> MajorKey k1 = t ++ [x00] ++ u -> RegionName k1 = g -> MajorKey k2 = t -> RegionName k2 = u ++ [x00] ++ g ->
  exists s, map_to_list (fold_left agg_record [r1; r2] ∅) = [(region_key t (u ++ [x00] ++ g), s)] /\
    rs_Tenant s = t ++ [x00] ++ u /\ rs_Region s = g /\ rs_Keys s = 2.
Proof.
  intros H1 H2 M1 R1 M2 R2. cbn [fold_left]. unfold agg_record at 1. rewrite H2. unfold agg_record. rewrite H1, M1, R1, M2, R2.
  assert (region_key (t ++ [x00] ++ u) g = region_key t (u ++ [x00] ++ g)) as -> by (unfold region_key; by rewrite <- !app_assoc).
  rewrite lookup_insert_eq, lookup_empty, insert_insert_eq. cbn [from_option]. eexists. rewrite insert_empty, map_to_list_singleton. done.
Qed.

(** ** Witnesses *)

#[local] Existing Instances flat_uuid flat_uuid_laws mem_badger mem_spec flat_store flat_store_laws flat_order flat_order_laws.

Lemma regions_exact_witness :
  exists records, Scan 110 demo_stored {| sc_HeadOnly := false |} collectSender [] = (Ret tt, records) /\ records <> [].
Proof.
  destruct (regions_exact 0 110 demo_stored {| rc_at := 0; rc_regions := None |} mem_reliable (reachable_wf _ demo_reachable) (or_introl eq_refl)) as (records & E & _).
  exists records. split; [exact E|]. vm_compute in E. injection E as <-. discriminate.
Defined.

Definition nul_record (tenant region : bytes) : Rec := {|
  rec_Key := Some {| MajorKey := tenant; RegionName := region; MinorKey := str "k"; Timestamp := None |}; rec_Head := None; rec_Value := str "v" |}.

Lemma regions_collide_witness :
  exists s, map_to_list (fold_left agg_record [nul_record (str "a" ++ [x00] ++ str "b") (str "c"); nul_record (str "a") (str "b" ++ [x00] ++ str "c")] ∅)
      = [(region_key (str "a") (str "b" ++ [x00] ++ str "c"), s)] /\ rs_Keys s = 2.
Proof.
  destruct (regions_collide (str "a") (str "b") (str "c") (nul_record (str "a" ++ [x00] ++ str "b") (str "c")) (nul_record (str "a") (str "b" ++ [x00] ++ str "c"))
    _ _ eq_refl eq_refl eq_refl eq_refl eq_refl eq_refl) as (s & HM & _ & _ & HK). exists s. exact (conj HM HK).
Defined.
