(* ===== verification/Http.v ===== *)
(** * The console's REST interface ([pkg/console/http.go])

    Every request under /api/ goes through one function: three onboarding endpoints are open, all
    others need an identity and, one by one, a permission. The handlers are those of [Setup],
    [Console], [Pki], [Nodes], [LedgerConsole], [Stats] and [Verify]. What a request finds outside
    the store, a random value, an opened file, the answer of a peer, is in [Inputs]. *)

From S2P Require Import Prelude Sha256 Pb Keys Engine Storage StorageSpec StorageReads StorageProps Value Command Ledger Fsm Service Iam PolicyService Codecs Password Backup Quorum Verify Auth Console Pki Setup Net NodeIdentity Membership Api Nodes LedgerConsole Stats.

(** ** Routes *)

Inductive route : Type :=
| RMe | RCluster | RLedgerStatus | RStats | RRegions | RNodeMetrics | RListNodes | RAddNode | RRemoveNode (id : bytes) | RJoinToken
| RStartVerify | RListJobs | RDigest | RMaterials | RCAPubGet | RCAPubSet | RJob (id : bytes) | RExport | RImport | RLedgerCA
| RListUsers | RCreateUser | RListPats (user : bytes) | RCreatePat (user : bytes) | RRevokePat (user id : bytes) | RDeleteUser (name : bytes)
| RListAccounts | RCreateAccount | RDeleteAccount (name : bytes) | RListRoles | RListBindings | RChangeBinding (grant : bool)
| RListCerts | RRegisterCert | RIssueCert | RRevokeCert | RListGroups | RSetGroup | RDeleteGroup (name : bytes) | RNotFound
| RIndexPanic.   (* parts[1] of a path that did not split *)

(** The switch of [ServeHTTP] over the guarded endpoints, in the order of its cases, and the
    permission each case asks for. *)
Definition route_of (path method : bytes) : route * option bytes :=
  let at_ p m := bool_decide (path = str p) && bool_decide (method = m) in
  let under p m := HasPrefix path (str p) && bool_decide (method = m) in
  let after p := TrimPrefix path (str p) in
  let tokens m := HasPrefix path (str "/api/iam/users/") && HasSuffix path (str "/tokens") && bool_decide (method = m) in
  let user := TrimSuffix (after "/api/iam/users/") (str "/tokens") in
  if at_ "/api/me" MethodGet then (RMe, None)
  else if at_ "/api/cluster" MethodGet then (RCluster, Some PermRecordsGet)
  else if at_ "/api/ledger/status" MethodGet then (RLedgerStatus, Some PermRecordsGet)
  else if at_ "/api/stats" MethodGet then (RStats, Some PermRecordsGet)
  else if at_ "/api/regions" MethodGet then (RRegions, Some PermRecordsGet)
  else if at_ "/api/node/metrics" MethodGet then (RNodeMetrics, Some PermRecordsGet)
  else if at_ "/api/cluster/nodes" MethodGet then (RListNodes, Some PermRecordsGet)
  else if at_ "/api/cluster/nodes" MethodPost then (RAddNode, Some PermClusterAdmin)
  else if under "/api/cluster/nodes/" MethodDelete then (RRemoveNode (after "/api/cluster/nodes/"), Some PermClusterAdmin)
  else if at_ "/api/cluster/join-token" MethodPost then (RJoinToken, Some PermClusterAdmin)
  else if at_ "/api/ledger/verify" MethodPost then (RStartVerify, Some PermProofsRead)
  else if at_ "/api/ledger/verify" MethodGet then (RListJobs, Some PermProofsRead)
  else if at_ "/api/ledger/digest" MethodGet then (RDigest, Some PermProofsRead)
  else if at_ "/api/ledger/materials" MethodGet then (RMaterials, Some PermProofsRead)
  else if at_ "/api/ledger/ca-pub" MethodGet then (RCAPubGet, Some PermProofsRead)
  else if at_ "/api/ledger/ca-pub" MethodPost then (RCAPubSet, Some PermClusterAdmin)
  else if under "/api/ledger/verify/" MethodGet then (RJob (after "/api/ledger/verify/"), Some PermProofsRead)
  else if at_ "/api/database/export" MethodGet then (RExport, Some PermBackupsCreate)
  else if at_ "/api/database/import" MethodPost then (RImport, Some PermBackupsRestore)
  else if at_ "/api/setup/ledger-ca" MethodPost then (RLedgerCA, Some PermClusterAdmin)
  else if at_ "/api/iam/users" MethodGet then (RListUsers, Some PermIamGet)
  else if at_ "/api/iam/users" MethodPost then (RCreateUser, Some PermIamSet)
  else if tokens MethodGet then (RListPats user, Some PermIamGet)
  else if tokens MethodPost then (RCreatePat user, Some PermIamSet)
  else if HasPrefix path (str "/api/iam/users/") && Contains path (str "/tokens/") && bool_decide (method = MethodDelete) then
    (match Cut (after "/api/iam/users/") (str "/tokens/") with Some (u, id) => RRevokePat u id | None => RIndexPanic end, Some PermIamSet)
  else if under "/api/iam/users/" MethodDelete then (RDeleteUser (after "/api/iam/users/"), Some PermIamSet)
  else if at_ "/api/iam/service-accounts" MethodGet then (RListAccounts, Some PermIamGet)
  else if at_ "/api/iam/service-accounts" MethodPost then (RCreateAccount, Some PermIamSet)
  else if under "/api/iam/service-accounts/" MethodDelete then (RDeleteAccount (after "/api/iam/service-accounts/"), Some PermIamSet)
  else if at_ "/api/iam/roles" MethodGet then (RListRoles, Some PermIamGet)
  else if at_ "/api/iam/bindings" MethodGet then (RListBindings, Some PermIamGet)
  else if at_ "/api/iam/bindings" MethodPost then (RChangeBinding true, Some PermIamSet)
  else if at_ "/api/iam/bindings/revoke" MethodPost then (RChangeBinding false, Some PermIamSet)
  else if at_ "/api/iam/certs" MethodGet then (RListCerts, Some PermIamGet)
  else if at_ "/api/iam/certs/register" MethodPost then (RRegisterCert, Some PermIamSet)
  else if at_ "/api/iam/certs/issue" MethodPost then (RIssueCert, Some PermIamSet)
  else if at_ "/api/iam/certs" MethodDelete then (RRevokeCert, Some PermIamSet)
  else if at_ "/api/iam/groups" MethodGet then (RListGroups, Some PermIamGet)
  else if at_ "/api/iam/groups" MethodPost then (RSetGroup, Some PermIamSet)
  else if under "/api/iam/groups/" MethodDelete then (RDeleteGroup (after "/api/iam/groups/"), Some PermIamSet)
  else (RNotFound, None).

(** The endpoints that need no identity. *)
Inductive open_route : Type := OSetupStatus | OSetupBootstrap | OEnroll.

Definition open_of (path method : bytes) : option open_route :=
  if bool_decide (path = str "/api/setup/status") && bool_decide (method = MethodGet) then Some OSetupStatus
  else if bool_decide (path = str "/api/setup/bootstrap") && bool_decide (method = MethodPost) then Some OSetupBootstrap
  else if bool_decide (path = str "/api/cluster/enroll") && bool_decide (method = MethodPost) then Some OEnroll
  else None.

(** ** Credentials *)

Definition lower (b : byte) : byte := let c := byte_val b in if (65 <=? c) && (c <=? 90) then byte_of (c + 32) else b.

(** [r.BasicAuth()]: the scheme is matched without case, the user ends at the first colon. *)
Definition BasicAuth (auth : bytes) : option (bytes * bytes) :=
  if (len auth <? 6) || negb (bool_decide (lower <$> take 6 auth = str "basic ")) then None else
  c ← Std_DecodeString (drop 6 auth); Cut c [colon].

(** ** Bodies of the requests *)

Record verifyRequest : Type := {
  vr_Source : bytes; vr_Password : bytes; vr_CACert : bytes; vr_QuorumCert : bytes; vr_NodeCerts : list bytes; vr_Threshold : Z }.

(** [decodeJSON] of each endpoint's body; [None] when it is malformed. *)
Class ConsoleJson : Type := {
  js_bootstrap : bytes -> option (bytes * bytes); js_user : bytes -> option (bytes * bytes); js_pat : bytes -> option (bytes * Z);
  js_account : bytes -> option bytes; js_binding : bytes -> option binding_request; js_register : bytes -> option (bytes * bytes);
  js_issue : bytes -> option (bytes * Z); js_group : bytes -> option (bytes * list bytes); js_capub : bytes -> option bytes;
  js_verify : bytes -> option verifyRequest
}.

Section Http.
Context `{UuidPkg} `{Badger} `{StorePkg} `{Payloads} `{!IamStructs} `{Argon2Pkg} `{AeadPkg} `{MapOrder} `{X509Pkg} `{TlsPkg} `{BlsPkg} `{Ed25519Pkg}.
Context `{!Struct JoinRecord} `{!Struct CARecord} `{!Struct GenesisRecord} `{!Struct headRecord} `{!Struct NodeCert} `{!Struct QuorumCertificate}.
Context {D : Type} `{!OsPkg D} {W : Type} `{!HasStorage W} `{!RaftMembers W} `{!JsonReq AddRequest} `{!JsonReq EnrollRequest} `{!ConsoleJson}.
Variable replicator : option (Replicator W).
Variable dial : bytes -> tls_Config -> result (list x509_Certificate).
Variable StatusText : Z -> bytes.

(** What one request finds outside the store. *)
Record Inputs : Type := {
  in_now : Z;                                     (* the clock, in seconds *)
  in_wall : Z;                                    (* and in nanoseconds *)
  in_salt : result bytes; in_secret : result bytes; in_dumpSalt : result bytes; in_noncePfx : result bytes; in_jobID : bytes;
  in_env : PkiEnv; in_ledgerCA : result EdPriv;
  in_metrics : bytes -> bytes -> result (Z * result NodeMetrics);
  in_attest : option (option Checkpoint -> Attestation);
  in_own : nat -> Checkpoint; in_co : nat -> Checkpoint -> Attestation;
  in_digest : nat -> bytes -> Request -> result (Z * result digestOut);
  in_head : option (Z * bytes);                   (* t.Head.ChainHead() *)
  in_counters : Z * Z; in_disk : option (Z * Z);  (* reads and writes; lsm and vlog bytes *)
  in_raft : option RaftStatus;                    (* of t.Raft.Raft(), when it is there *)
  in_fresh : result KeyValueStorageCtx; in_open : bytes -> result (Source * Z); in_reads : list Z;
  in_partial : KeyValueStorageCtx                 (* what a load that failed part way leaves *)
}.

(** A console process: the node's view, whether authentication is on, and the state. *)
Record ConsoleState : Type := { cs_world : W; cs_policy : option PolicyService; cs_jobs : JobManager * list goroutine; cs_cache : regionsCache }.

Definition set_world (s : ConsoleState) (w : W) : ConsoleState :=
  {| cs_world := w; cs_policy := cs_policy s; cs_jobs := cs_jobs s; cs_cache := cs_cache s |}.
Definition set_policy (s : ConsoleState) (p : option PolicyService) : ConsoleState :=
  {| cs_world := cs_world s; cs_policy := p; cs_jobs := cs_jobs s; cs_cache := cs_cache s |}.
Definition set_jobs (s : ConsoleState) (j : JobManager * list goroutine) : ConsoleState :=
  {| cs_world := cs_world s; cs_policy := cs_policy s; cs_jobs := j; cs_cache := cs_cache s |}.
Definition set_cache (s : ConsoleState) (c : regionsCache) : ConsoleState :=
  {| cs_world := cs_world s; cs_policy := cs_policy s; cs_jobs := cs_jobs s; cs_cache := c |}.

Variable send : bytes -> Request -> W -> option (result (reply Body) * W).

(** [authenticate]: the principal, [None] when there is no valid credential. *)
Definition authenticate (now : Z) (st : KeyValueStorageCtx) (rq : Request) : result (option bytes) :=
  let try r := match r with Ret p => Ret (Some p) | Fail _ => Ret None | Panic => Panic end in
  match CutPrefix (rq_Auth rq) (str "Bearer ") with
  | Some token => try (AuthenticateToken now now st token)
  | None => match BasicAuth (rq_Auth rq) with Some (user, pass) => try (AuthenticatePassword now st user pass) | None => Ret None end
  end.

(** *** Verification jobs *)

(** [startVerify]. The goroutine's reports and outcome are those of the verification. *)
Definition startVerify (inp : Inputs) (req : option verifyRequest) (jobs : JobManager * list goroutine) : reply Body * (JobManager * list goroutine) :=
  match req with
  | None => (ReplyErr StatusBadRequest (str "invalid request body"), jobs)
  | Some req =>
      match Std_DecodeString (vr_CACert req), Std_DecodeString (vr_QuorumCert req), vr_Source req with
      | Some caCert, Some quorum, _ :: _ =>
          match mapM Std_DecodeString (vr_NodeCerts req) with
          | None => (ReplyErr StatusBadRequest (str "invalid node cert encoding"), jobs)
          | Some nodeCerts =>
              let id := newJobID (in_jobID inp) in
              let '(out, trace) := VerifyBackup (in_now inp) {| op_Password := vr_Password req; op_CACert := caCert; op_QuorumCert := quorum;
                    op_NodeCerts := nodeCerts; op_Threshold := vr_Threshold req |} (in_fresh inp) (in_open inp (vr_Source req)) (in_reads inp) in
              (Reply StatusAccepted (JText [id]),
               (start_job (fst jobs) id (in_now inp), {| go_id := id; go_reports := trace; go_outcome := out |} :: snd jobs))
          end
      | _, _, _ => (ReplyErr StatusBadRequest (str "source, caCert and quorumCert are required"), jobs)
      end
  end.

(** *** Cluster and ledger status *)

(** [cluster]: the identity of the cluster, from the transport root or from the stored authority. *)
Definition cluster_id (now : Z) (t : ConsoleNode (D := D)) (w : W) : result (option bytes) :=
  match TransportCAFingerprint (cn_DataDir t) (cn_disk t) with
  | Some fp => Ret (Some fp)
  | None =>
      match loadCA now w with
      | Ret (Some ca) => match CAFingerprintFromPEM (ca_CertPEM ca) with Ret fp => Ret (Some fp) | _ => Ret None end
      | Panic => Panic
      | _ => Ret None
      end
  end.

Definition cluster (now : Z) (raft : option RaftStatus) (t : ConsoleNode (D := D)) (w : W) : reply Body :=
  match cluster_id now t w with Ret id => Reply StatusOK (JCluster id raft) | _ => Crash end.

Definition ledgerStatus (head : option (Z * bytes)) : reply Body :=
  Reply StatusOK (JLedgerStatus (match head with Some (index, digest) => Some (index, DigestHex digest) | None => None end)).

(** *** Onboarding *)

(** [forwardedToLeader]: the leader's answer, when there is one. *)
Definition setup_forward (t : ConsoleNode (D := D)) (rq : Request) (w : W) : option (option (reply Body) * W) :=
  if negb (cn_raft t) || cn_leads t || bool_decide (rq_Forwarded rq = str "1") || bool_decide (fst (cn_leader t) = []) then Some (None, w) else
  '(r, w) ← proxyToLeader send t rq (fst (cn_leader t)) w;
  Some (match r with Ret answer => Some answer | _ => None end, w).

(** The view the setup handlers have once the request was not forwarded. *)
Definition local_view (t : ConsoleNode (D := D)) : RaftView :=
  {| rv_raft := cn_raft t; rv_leads := cn_leads t; rv_leaderAddr := fst (cn_leader t); rv_forwarded := true; rv_proxied := false |}.

Definition or_answered {A} (f : A -> Body) (r : option (reply A)) : reply Body := match r with Some r => reply_map f r | None => Crash end.

Definition serve_open (authEnabled : bool) (inp : Inputs) (t : ConsoleNode (D := D)) (rq : Request) (o : open_route) (w : W) : option (reply Body * W) :=
  match o with
  | OEnroll => enrollNode replicator send (in_now inp) (in_env inp) t rq w
  | OSetupStatus =>
      '(answer, w) ← setup_forward t rq w;
      match answer with
      | Some r => Some (r, w)
      | None => let '(r, w) := setupStatus replicator (in_now inp) (local_view t) authEnabled w in Some (or_answered JSetup r, w)
      end
  | OSetupBootstrap =>
      '(answer, w) ← setup_forward t rq w;
      match answer with
      | Some r => Some (r, w)
      | None =>
          let '(r, w) := setupBootstrap replicator (in_now inp) (local_view t) (in_env inp) (js_bootstrap (rq_Body rq)) (in_salt inp) w in
          Some (or_answered (fun name => JText [name]) r, w)
      end
  end.

(** *** The guarded endpoints *)

(** Whether the replicator refuses an import. *)
Definition replicating (w : W) : bool := match replicates replicator w with Some _ => true | None => false end.

Definition pairs2 (p : bytes * bytes) : Body := JText [fst p; snd p].

(** A handler that only reads, one that changes the store, and the others. *)
Definition reads (s : ConsoleState) (r : reply Body) : option (reply Body * ConsoleState) := Some (r, s).

Definition writes {A} (s : ConsoleState) (f : A -> Body) (r : reply A * W) : option (reply Body * ConsoleState) :=
  Some (reply_map f (fst r), set_world s (snd r)).

Definition forwards (s : ConsoleState) (r : option (reply Body * W)) : option (reply Body * ConsoleState) :=
  '(r, w) ← r; Some (r, set_world s w).

Definition handle (inp : Inputs) (t : ConsoleNode (D := D)) (rq : Request) (principal : bytes) (admin canRead : bool) (r : route) (s : ConsoleState) :
    option (reply Body * ConsoleState) :=
  let w := cs_world s in let st := get_storage w in let now := in_now inp in let body := rq_Body rq in
  match r with
  | RMe => reads s (Reply StatusOK (JMe principal admin canRead))
  | RCluster => reads s (cluster now (in_raft inp) t w)
  | RLedgerStatus => reads s (ledgerStatus (in_head inp))
  | RStats => reads s (stats (fst (in_counters inp)) (snd (in_counters inp)) (Z.div (in_wall inp) (10 ^ 6)) (in_disk inp))
  | RRegions => let '(r, c) := regions (in_wall inp) now st (cs_cache s) in Some (r, set_cache s c)
  | RNodeMetrics => reads s (Reply StatusOK (JMetrics (cn_metrics t)))
  | RListNodes => reads s (clusterNodes StatusText (in_metrics inp) t rq w)
  | RAddNode => forwards s (addNode dial send t rq w)
  | RRemoveNode id => forwards s (removeNode send t rq id w)
  | RJoinToken => writes s id (mintJoinTokenHandler replicator now (in_env inp) (in_secret inp) rq principal w)
  | RStartVerify => let '(r, j) := startVerify inp (js_verify body) (cs_jobs s) in Some (r, set_jobs s j)
  | RListJobs => reads s (Reply StatusOK (JJobs (List_jobs (fst (cs_jobs s)))))
  | RJob id => reads s (match Get_job (fst (cs_jobs s)) id with Some job => Reply StatusOK (JJob job) | None => ReplyErr StatusNotFound (str "no such job") end)
  | RDigest => reads s (ledgerDigest (in_attest inp) rq)
  | RMaterials =>
      reads s (match in_attest inp, pinnedLedgerCAPub now w with
               | None, _ => no_ledger
               | Some _, Ret pub => reply_map JMaterials (ledgerMaterials StatusText (cn_HTTPBind t) (rq_Auth rq) (in_own inp) (in_co inp) (in_digest inp) (ledgerMembers t w) pub)
               | Some _, _ => Crash
               end)
  | RCAPubGet => reads s (ledgerCAPubGet now w)
  | RCAPubSet => writes s id (ledgerCAPubSet replicator now (js_capub body) w)
  | RLedgerCA => writes s id (generateLedgerCA replicator now (in_ledgerCA inp) w)
  | RExport => reads s (Reply StatusOK (JDump (exportDatabase (query rq (str "password")) (in_dumpSalt inp) (in_noncePfx inp) st)))
  | RImport =>
      let '(r, st') := importDatabase (replicating w) (query rq (str "password")) body st in
      writes s (fun b => JText [b]) (r, set_storage w (default (in_partial inp) st'))
  | RListUsers => reads s (reply_map JUsers (iamListUsers now w))
  | RCreateUser => writes s (fun b => JText [b]) (iamCreateUser replicator now (js_user body) (in_salt inp) w)
  | RListPats user => reads s (reply_map JPats (iamListUserTokens now w user))
  | RCreatePat user => writes s JPat (iamCreateUserToken replicator now (js_pat body) (in_secret inp) user w)
  | RRevokePat user id => writes s (fun b => JText [b]) (iamRevokeUserToken replicator now user id w)
  | RDeleteUser name => writes s (fun b => JText [b]) (iamDeleteUser replicator now name w)
  | RListAccounts => reads s (reply_map JAccounts (iamListServiceAccounts now w))
  | RCreateAccount => writes s pairs2 (iamCreateServiceAccount replicator now (js_account body) (in_secret inp) w)
  | RDeleteAccount name => writes s (fun b => JText [b]) (iamDeleteServiceAccount replicator now name w)
  | RListRoles => reads s (reply_map JRoles (iamListRoles now w))
  | RListBindings => reads s (reply_map JBindings (iamListBindings now w))
  | RChangeBinding grant => writes s pairs2 (iamChangeBinding replicator now (js_binding body) grant w)
  | RListCerts => reads s (reply_map JCerts (iamListCerts now w (query rq (str "principal"))))
  | RRegisterCert => writes s pairs2 (iamRegisterCert replicator now (js_register body) w)
  | RIssueCert => writes s JIssued (iamIssueCert replicator now (in_env inp) (js_issue body) w)
  | RRevokeCert => writes s (fun b => JText [b]) (iamRevokeCert replicator (query rq (str "identity")) w)
  | RListGroups => reads s (reply_map JGroups (iamListGroups now w))
  | RSetGroup => writes s (fun p => JGroup (fst p) (snd p)) (iamSetGroup replicator now (js_group body) w)
  | RDeleteGroup name => writes s (fun b => JText [b]) (iamDeleteGroup replicator name w)
  | RNotFound => reads s (ReplyErr StatusNotFound (str "not found"))
  | RIndexPanic => reads s Crash
  end.

Definition unauthorized : reply Body := ReplyErr StatusUnauthorized (str "authentication required").
Definition forbidden : reply Body := ReplyErr StatusForbidden (str "permission denied").

(** [Policy.Authorize] on the instance scope: whether it was granted. *)
Definition granted (now : Z) (s : ConsoleState) (principal perm : bytes) : bool * ConsoleState :=
  let '(r, p) := PolicyService.Authorize now (get_storage (cs_world s)) (cs_policy s) principal perm [] [] in
  (match r with Ret _ => true | _ => false end, set_policy s p).

Definition ServeHTTP (authEnabled : bool) (inp : Inputs) (t : ConsoleNode (D := D)) (rq : Request) (s : ConsoleState) : option (reply Body * ConsoleState) :=
  match open_of (rq_Path rq) (rq_Method rq) with
  | Some o => '(r, w) ← serve_open authEnabled inp t rq o (cs_world s); Some (r, set_world s w)
  | None =>
      match authenticate (in_now inp) (get_storage (cs_world s)) rq with
      | Panic | Fail _ => Some (Crash, s)
      | Ret who =>
          if authEnabled && negb (bool_decide (is_Some who)) then Some (unauthorized, s) else
          let principal := default [] who in
          let '(admin, s) := granted (in_now inp) s principal PermClusterAdmin in
          let '(canRead, s) := granted (in_now inp) s principal PermRecordsGet in
          match route_of (rq_Path rq) (rq_Method rq) with
          | (r, None) => handle inp t rq principal admin canRead r s
          | (r, Some perm) =>
              let '(ok, s) := granted (in_now inp) s principal perm in
              if ok then handle inp t rq principal admin canRead r s else Some (forbidden, s)
          end
      end
  end.

(** *** A cluster of consoles *)

(** What runs at an address: a node, its configuration and its local state. *)
Record Peer : Type := {
  pr_auth : bool; pr_inputs : Inputs; pr_node : ConsoleNode (D := D); pr_policy : option PolicyService;
  pr_jobs : JobManager * list goroutine; pr_cache : regionsCache }.

End Http.

Section Cluster.
Context `{UuidPkg} `{Badger} `{StorePkg} `{Payloads} `{!IamStructs} `{Argon2Pkg} `{AeadPkg} `{MapOrder} `{X509Pkg} `{TlsPkg} `{BlsPkg} `{Ed25519Pkg}.
Context `{!Struct JoinRecord} `{!Struct CARecord} `{!Struct GenesisRecord} `{!Struct headRecord} `{!Struct NodeCert} `{!Struct QuorumCertificate}.
Context {D : Type} `{!OsPkg D} {W : Type} `{!HasStorage W} `{!RaftMembers W} `{!JsonReq AddRequest} `{!JsonReq EnrollRequest} `{!ConsoleJson}.
Variable replicator : option (Replicator W).
Variable dial : bytes -> tls_Config -> result (list x509_Certificate).
Variable StatusText : Z -> bytes.
Variable peer_at : bytes -> option (Peer (D := D)).

(** The exchange with the console at an address. The request is served there like any other, and
    may be sent on, [hops] times at most; a handler that panics closes the connection. *)
Fixpoint cluster_send (hops : nat) (url : bytes) (rq : Request) (w : W) : option (result (reply Body) * W) :=
  match hops with
  | O => None
  | S hops =>
      match peer_at url with
      | None => Some (Fail (ErrNew (str "connection refused")), w)
      | Some p =>
          '(r, s) ← ServeHTTP replicator dial StatusText (cluster_send hops) (pr_auth p) (pr_inputs p) (pr_node p) rq
             {| cs_world := w; cs_policy := pr_policy p; cs_jobs := pr_jobs p; cs_cache := pr_cache p |};
          Some (match r with Crash => Fail (ErrNew (str "EOF")) | r => Ret r end, cs_world s)
      end
  end.

End Cluster.
