(* ===== verification/HttpProps.v ===== *)
(** * Properties of the REST interface

    Nothing changes the store without an identity and a permission to write, the three onboarding
    endpoints excepted; a request makes at most one hop between consoles; one malformed path makes
    the handler panic. *)

From S2P Require Import Prelude Sha256 Pb Keys Engine Storage StorageSpec StorageReads StorageProps Value Command Ledger Fsm FsmProps Service Iam PolicyService Codecs Password Backup BackupProps Quorum QuorumProps Verify VerifyProps Auth Console ConsoleProps Pki Setup SetupProps Net NodeIdentity NodeIdentityProps Membership MembershipProps Api Nodes NodesProps LedgerConsole Stats Http.

(** ** Routes *)

(** The routes whose handlers may change the store or the membership. *)
Definition changes (r : route) : bool :=
  match r with
  | RAddNode | RRemoveNode _ | RJoinToken | RCAPubSet | RLedgerCA | RImport | RCreateUser | RCreatePat _ | RRevokePat _ _ | RDeleteUser _
  | RCreateAccount | RDeleteAccount _ | RChangeBinding _ | RRegisterCert | RIssueCert | RRevokeCert | RSetGroup | RDeleteGroup _ => true
  | _ => false
  end.

Definition write_permissions : list bytes := [PermClusterAdmin; PermIamSet; PermBackupsRestore].

Lemma route_changes path method r perm :
  route_of path method = (r, perm) -> changes r = true -> exists p, perm = Some p /\ p ∈ write_permissions.
Proof.
  assert (PermClusterAdmin ∈ write_permissions) as H1 by left. assert (PermIamSet ∈ write_permissions) as H2 by (right; left).
  assert (PermBackupsRestore ∈ write_permissions) as H3 by (right; right; left). unfold route_of. cbv zeta. intros E Hc. revert E.
  repeat match goal with
         | |- (if ?b then _ else _) = _ -> _ => destruct b
         | |- (match ?b with Some _ => _ | None => _ end, _) = _ -> _ => destruct b as [[? ?]|]
         end; intros [= <- <-]; try discriminate Hc; (eexists; split; [reflexivity|assumption]).
Qed.

Section Props.
Context `{UuidPkg} `{!UuidLaws} `{Badger} `{!BadgerSpec} `{StorePkg} `{!StoreLaws} `{Payloads} `{!IamStructs} `{Argon2Pkg} `{AeadPkg} `{MapOrder} `{X509Pkg} `{TlsPkg} `{BlsPkg} `{Ed25519Pkg}.
Context `{!Struct JoinRecord} `{!Struct CARecord} `{!Struct GenesisRecord} `{!Struct headRecord} `{!Struct NodeCert} `{!Struct QuorumCertificate}.
Context {D : Type} `{!OsPkg D} {W : Type} `{!HasStorage W} `{!RaftMembers W} `{!JsonReq AddRequest} `{!JsonReq EnrollRequest} `{!ConsoleJson}.
Variable replicator : option (Replicator W).
Variable dial : bytes -> tls_Config -> result (list x509_Certificate).
Variable StatusText : Z -> bytes.

(** ** Who is asking *)

(** What makes a request's claim to be [p] good. *)
Inductive rest_authentic (now : Z) (st : KeyValueStorageCtx) (rq : Request) (p : bytes) : Prop :=
| rest_token token rec :
    rq_Auth rq = str "Bearer " ++ token -> stored_as now st (TokenIndexKey (HashToken token)) rec -> tk_Principal rec = p -> p <> [] ->
    (tk_ExpiresAt rec = 0 \/ now <= tk_ExpiresAt rec) -> rest_authentic now st rq p
| rest_password user pass u :
    BasicAuth (rq_Auth rq) = Some (user, pass) -> stored_as now st (UserPrefix ++ user) u -> us_Disabled u = false ->
    VerifyPassword (us_PasswordHash u) pass = Ret true -> p = PrincipalUser user -> rest_authentic now st rq p.

Lemma authenticate_sound now st rq p : authenticate now st rq = Ret (Some p) -> rest_authentic now st rq p.
Proof.
  unfold authenticate. destruct (CutPrefix (rq_Auth rq) (str "Bearer ")) as [token|] eqn:EC.
  - apply CutPrefix_spec in EC. unfold AuthenticateToken. destruct (load _ _ _) as [[rec|]|?|] eqn:EL; cbn [mbind outcome_bind]; try done.
    case_bool_decide as Ep; [done|].
    destruct (Z.eqb_spec (tk_ExpiresAt rec) 0), (Z.ltb_spec (tk_ExpiresAt rec) now); cbn [negb andb]; try done; intros [= <-];
      (eapply rest_token; [done|by apply load_sound|done|done|lia]).
  - destruct (BasicAuth (rq_Auth rq)) as [[user pass]|] eqn:EB; [|done]. unfold AuthenticatePassword.
    destruct (load _ _ _) as [[u|]|?|] eqn:EL; cbn [mbind outcome_bind]; try done. destruct (us_Disabled u) eqn:Ed; [done|].
    destruct (VerifyPassword _ _) as [[]|?|] eqn:EV; cbn [mbind outcome_bind negb]; try done. intros [= <-].
    eapply rest_password; [done|by apply load_sound|done|done|done].
Qed.

(** ** What was granted *)

Lemma refresh_idem now st t : refresh now st (refresh now st t) = refresh now st t.
Proof.
  unfold refresh. destruct (ps_dirty t) eqn:Ed; [|by rewrite Ed]. destruct (rebuild now st) eqn:Er; cbn [ps_dirty]; [done|by rewrite ?Er|by rewrite ?Er].
Qed.

Lemma granted_world now (s : ConsoleState (W := W)) principal perm : cs_world (snd (granted now s principal perm)) = cs_world s.
Proof. unfold granted. by destruct (PolicyService.Authorize _ _ _ _ _ _ _). Qed.

(** The decision and the policy afterwards, for an enabled policy. *)
Lemma granted_policy now (s : ConsoleState (W := W)) t principal perm :
  cs_policy s = Some t -> ps_Enabled t = true ->
  cs_policy (snd (granted now s principal perm)) = Some (refresh now (get_storage (cs_world s)) t) /\
  (fst (granted now s principal perm) = true -> exists snap, ps_snap (refresh now (get_storage (cs_world s)) t) = Some snap /\
     Snapshot_Authorize snap principal (EffectivePermission perm []) [] [] = true).
Proof.
  intros Hp He. unfold granted, PolicyService.Authorize. rewrite Hp, He. cbn [negb].
  destruct (ps_snap (refresh now (get_storage (cs_world s)) t)) as [snap|] eqn:Es; [|done].
  destruct (Snapshot_Authorize _ _ _ _ _) eqn:EA; cbn [fst snd set_policy cs_policy]; [|done]. split; [done|]. intros _. by exists snap.
Qed.

Lemma refresh_enabled now st t : ps_Enabled (refresh now st t) = ps_Enabled t.
Proof. unfold refresh. destruct (ps_dirty t); [|done]. by destruct (rebuild now st). Qed.

(** ** What the handlers change *)

Variable send : bytes -> Request -> W -> option (result (reply Body) * W).

Lemma handle_reads inp t rq principal admin canRead r s resp s' :
  changes r = false -> handle replicator dial StatusText send inp t rq principal admin canRead r s = Some (resp, s') -> cs_world s' = cs_world s.
Proof.
  destruct r; intros Hc; try discriminate Hc; unfold handle, Http.reads; cbv zeta; intros E.
  all: try (injection E as _ <-; reflexivity).
  - destruct (Stats.regions _ _ _ _). by injection E as _ <-.
  - destruct (startVerify _ _ _). by injection E as _ <-.
Qed.

(** C9: No change without an identity and a permission to write. With authentication and
    authorization on, if serving a request changes the replicated store or the membership, then
    the request was for one of the three onboarding endpoints, or it carried a valid credential:
    an indexed unexpired token, or the password of a stored enabled user; and the policy in force,
    compiled from the stored records if they had changed, grants that principal the permission of
    the endpoint, which is one of the three that allow writing. *)
Theorem console_guarded (inp : Inputs) (t : ConsoleNode (D := D)) (rq : Request) (s s' : ConsoleState) (policy : PolicyService) (r : reply Body) :
  cs_policy s = Some policy -> ps_Enabled policy = true ->
  ServeHTTP replicator dial StatusText send true inp t rq s = Some (r, s') -> cs_world s' <> cs_world s ->
  (exists o, open_of (rq_Path rq) (rq_Method rq) = Some o) \/
  exists principal perm snap, rest_authentic (in_now inp) (get_storage (cs_world s)) rq principal /\
    snd (route_of (rq_Path rq) (rq_Method rq)) = Some perm /\ perm ∈ write_permissions /\
    ps_snap (refresh (in_now inp) (get_storage (cs_world s)) policy) = Some snap /\
    Snapshot_Authorize snap principal (EffectivePermission perm []) [] [] = true.
Proof.
  intros Hp He HS Hne. unfold ServeHTTP in HS. destruct (open_of _ _) as [o|]; [left; by exists o|]. right.
  destruct (authenticate _ _ rq) as [who|?|] eqn:EA; [|by injection HS as _ <-|by injection HS as _ <-].
  destruct who as [principal|]; cbn [andb bool_decide] in HS; [|by injection HS as _ <-].
  rewrite bool_decide_eq_true_2 in HS by done. cbn [negb default from_option id] in HS.
  set (now := in_now inp) in *. set (st := get_storage (cs_world s)) in *.
  destruct (granted_policy now s policy principal PermClusterAdmin Hp He) as [P1 _]. pose proof (granted_world now s principal PermClusterAdmin) as W1.
  destruct (granted now s principal PermClusterAdmin) as [admin s1]. cbn [fst snd] in P1, W1.
  destruct (granted_policy now s1 _ principal PermRecordsGet P1 ltac:(by rewrite refresh_enabled)) as [P2 _]. pose proof (granted_world now s1 principal PermRecordsGet) as W2.
  destruct (granted now s1 principal PermRecordsGet) as [canRead s2]. cbn [fst snd] in P2, W2. rewrite W1 in P2. fold st in P1, P2. rewrite refresh_idem in P2.
  destruct (route_of _ _) as [rt [perm|]] eqn:ER.
  - destruct (granted_policy now s2 _ principal perm P2 ltac:(by rewrite refresh_enabled)) as [_ G3]. pose proof (granted_world now s2 principal perm) as W3.
    destruct (granted now s2 principal perm) as [ok s3]. cbn [fst snd] in G3, W3. rewrite W2, W1 in G3. fold st in G3. rewrite refresh_idem in G3.
    destruct ok; [|injection HS as _ <-; congruence]. destruct (changes rt) eqn:Ec.
    + destruct (route_changes _ _ _ _ ER Ec) as (p & [= <-] & Hw). destruct (G3 eq_refl) as (snap & Hs & Ha).
      exists principal, perm, snap. split; [by apply authenticate_sound|]. by repeat split.
    + apply handle_reads in HS; [|done]. congruence.
  - destruct (changes rt) eqn:Ec; [by destruct (route_changes _ _ _ _ ER Ec) as (p & ? & _)|]. apply handle_reads in HS; [|done]. congruence.
Qed.

End Props.

(** ** Hops *)

Section Hops.
Context `{UuidPkg} `{Badger} `{StorePkg} `{Payloads} `{!IamStructs} `{Argon2Pkg} `{AeadPkg} `{MapOrder} `{X509Pkg} `{TlsPkg} `{BlsPkg} `{Ed25519Pkg}.
Context `{!Struct JoinRecord} `{!Struct CARecord} `{!Struct GenesisRecord} `{!Struct headRecord} `{!Struct NodeCert} `{!Struct QuorumCertificate}.
Context {D : Type} `{!OsPkg D} {W : Type} `{!HasStorage W} `{!RaftMembers W} `{!JsonReq AddRequest} `{!JsonReq EnrollRequest} `{!ConsoleJson}.
Variable replicator : option (Replicator W).
Variable dial : bytes -> tls_Config -> result (list x509_Certificate).
Variable StatusText : Z -> bytes.

Abbreviation sender := (bytes -> Request -> W -> option (result (reply Body) * W)).

(** Two exchanges give the same when this node forwards a request with the header of [rq], and one
    always comes back. *)
Definition same_proxy (send1 send2 : sender) (t : ConsoleNode (D := D)) (rq : Request) : Prop :=
  forall rq' a w, rq_Forwarded rq' = rq_Forwarded rq -> proxyToLeader send1 t rq' a w = proxyToLeader send2 t rq' a w.

Definition proxy_returns (send : sender) (t : ConsoleNode (D := D)) (rq : Request) : Prop :=
  forall rq' a w, rq_Forwarded rq' = rq_Forwarded rq -> proxyToLeader send t rq' a w <> None.

Lemma via_leader_ext send1 send2 t rq rq' w :
  same_proxy send1 send2 t rq -> rq_Forwarded rq' = rq_Forwarded rq -> via_leader send1 t rq' w = via_leader send2 t rq' w.
Proof. intros HE Hf. unfold via_leader. case_bool_decide; [done|]. by rewrite (HE rq'). Qed.

Lemma via_leader_returns send t rq rq' w : proxy_returns send t rq -> rq_Forwarded rq' = rq_Forwarded rq -> via_leader send t rq' w <> None.
Proof.
  intros HR Hf. unfold via_leader. case_bool_decide; [done|]. pose proof (HR rq' (fst (cn_leader t)) w Hf).
  by destruct (proxyToLeader _ _ _ _ _) as [[]|].
Qed.

Lemma membership_ext send1 send2 t rq rq' f what w :
  same_proxy send1 send2 t rq -> rq_Forwarded rq' = rq_Forwarded rq -> membershipChange send1 t rq' f what w = membershipChange send2 t rq' f what w.
Proof. intros HE Hf. unfold membershipChange. by rewrite (via_leader_ext send1 send2 t rq). Qed.

Lemma membership_returns send t rq rq' f what w :
  proxy_returns send t rq -> rq_Forwarded rq' = rq_Forwarded rq -> membershipChange send t rq' f what w <> None.
Proof.
  intros HR Hf. unfold membershipChange. destruct (cn_raft t); cbn [negb]; [|done]. destruct (cn_leads t); [by destruct (f w) as [[]]|].
  by apply (via_leader_returns _ _ rq).
Qed.

Lemma handle_ext send1 send2 inp t rq principal admin canRead r s :
  same_proxy send1 send2 t rq ->
  handle replicator dial StatusText send1 inp t rq principal admin canRead r s = handle replicator dial StatusText send2 inp t rq principal admin canRead r s.
Proof.
  intros HE. destruct r; try reflexivity; unfold handle; cbv zeta; f_equal.
  - unfold addNode. destruct (json_Decode _ _) as [[req|?|] rest]; [|done|done]. by rewrite (membership_ext send1 send2 t rq) by done.
  - unfold removeNode. by rewrite (membership_ext send1 send2 t rq).
Qed.

Lemma forwards_returns (s : ConsoleState (W := W)) r : r <> None -> forwards s r <> None.
Proof. by destruct r as [[]|]. Qed.

Lemma handle_returns send inp t rq principal admin canRead r s :
  proxy_returns send t rq -> handle replicator dial StatusText send inp t rq principal admin canRead r s <> None.
Proof.
  intros HR. destruct r; try discriminate; unfold handle; cbv zeta.
  - by destruct (Stats.regions _ _ _ _).
  - apply forwards_returns. unfold addNode. destruct (json_Decode _ _) as [[req|?|] rest]; [|done|done]. destruct (_ || _)%bool; [done|].
    destruct (cn_raft t) eqn:Er; cbn [negb]; [|by apply (membership_returns _ _ rq)].
    destruct (PreflightClusterPeer _ _ _ _ _); [|done|done]. by apply (membership_returns _ _ rq).
  - apply forwards_returns. by apply (membership_returns _ _ rq).
  - by destruct (startVerify _ _ _).
  - by destruct (importDatabase _ _ _ _).
Qed.

Lemma setup_forward_ext send1 send2 t rq w : same_proxy send1 send2 t rq -> setup_forward send1 t rq w = setup_forward send2 t rq w.
Proof. intros HE. unfold setup_forward. destruct (_ || _)%bool; [done|]. by rewrite (HE rq). Qed.

Lemma setup_forward_returns send t rq w : proxy_returns send t rq -> setup_forward send t rq w <> None.
Proof.
  intros HR. unfold setup_forward. destruct (_ || _)%bool; [done|]. pose proof (HR rq (fst (cn_leader t)) w eq_refl).
  by destruct (proxyToLeader _ _ _ _ _) as [[]|].
Qed.

(** Serving depends on the exchange only through what is forwarded. *)
Lemma ServeHTTP_ext send1 send2 auth inp t rq s :
  same_proxy send1 send2 t rq -> ServeHTTP replicator dial StatusText send1 auth inp t rq s = ServeHTTP replicator dial StatusText send2 auth inp t rq s.
Proof.
  intros HE. unfold ServeHTTP. destruct (open_of _ _) as [o|].
  - f_equal. destruct o; unfold serve_open; [by rewrite (setup_forward_ext send1 send2)|by rewrite (setup_forward_ext send1 send2)|].
    unfold enrollNode. by rewrite (via_leader_ext send1 send2 t rq).
  - destruct (authenticate _ _ rq); [|done|done]. destruct (_ && _)%bool; [done|]. destruct (granted _ s _ _) as [? s1]. destruct (granted _ s1 _ _) as [? s2].
    destruct (route_of _ _) as [r [perm|]]; [|by apply handle_ext]. destruct (granted _ s2 _ _) as [[] s3]; [by apply handle_ext|done].
Qed.

Lemma ServeHTTP_returns send auth inp t rq s : proxy_returns send t rq -> ServeHTTP replicator dial StatusText send auth inp t rq s <> None.
Proof.
  intros HR. unfold ServeHTTP. destruct (open_of _ _) as [o|].
  - assert (serve_open replicator send auth inp t rq o (cs_world s) <> None) as HO; [|by destruct (serve_open _ _ _ _ _ _ _ _) as [[]|]].
    pose proof (setup_forward_returns send t rq (cs_world s) HR) as HF. destruct o; unfold serve_open.
    + destruct (setup_forward _ _ _ _) as [[[a|] w]|]; [done| |done]. cbn [mbind option_bind]. by destruct (setupStatus _ _ _ _ _).
    + destruct (setup_forward _ _ _ _) as [[[a|] w]|]; [done| |done]. cbn [mbind option_bind]. by destruct (setupBootstrap _ _ _ _ _ _ _).
    + unfold enrollNode. destruct (cn_raft t); cbn [negb]; [|done]. destruct (cn_leads t); cbn [negb]; [by destruct (decodeJSON rq)|].
      by apply (via_leader_returns _ _ rq).
  - destruct (authenticate _ _ rq); [|done|done]. destruct (_ && _)%bool; [done|]. destruct (granted _ s _ _) as [? s1]. destruct (granted _ s1 _ _) as [? s2].
    destruct (route_of _ _) as [r [perm|]]; [|by apply handle_returns]. destruct (granted _ s2 _ _) as [[] s3]; [by apply handle_returns|done].
Qed.

(** A forwarded request is not forwarded again, whatever the exchange. *)
Lemma forwarded_same send1 send2 t rq : rq_Forwarded rq = str "1" -> same_proxy send1 send2 t rq /\ proxy_returns send1 t rq.
Proof.
  intros Hf. split; intros rq' a w Hf'; unfold proxyToLeader; rewrite Hf', Hf, bool_decide_eq_true_2 by done; done.
Qed.

Variable peer_at : bytes -> option (Peer (D := D)).

Lemma cluster_send_once hops url rq w :
  rq_Forwarded rq = str "1" ->
  cluster_send replicator dial StatusText peer_at (S hops) url rq w = cluster_send replicator dial StatusText peer_at 1 url rq w /\
  cluster_send replicator dial StatusText peer_at 1 url rq w <> None.
Proof.
  intros Hf. cbn [cluster_send]. destruct (peer_at url) as [p|]; [|done]. split.
  - by rewrite (ServeHTTP_ext _ (cluster_send replicator dial StatusText peer_at 0) _ _ _ _ _ (proj1 (forwarded_same _ _ _ _ Hf))).
  - pose proof (ServeHTTP_returns (fun _ _ _ => None) (pr_auth p) (pr_inputs p) (pr_node p) rq
      {| cs_world := w; cs_policy := pr_policy p; cs_jobs := pr_jobs p; cs_cache := pr_cache p |} (proj2 (forwarded_same _ (fun _ _ _ => None) _ _ Hf))) as HR.
    by destruct (ServeHTTP _ _ _ _ _ _ _ _ _) as [[]|].
Qed.


End Hops.

(** ** A path that panics *)

Section Panics.
Context `{UuidPkg} `{Badger} `{StorePkg} `{Payloads} `{!IamStructs} `{Argon2Pkg} `{AeadPkg} `{MapOrder} `{X509Pkg} `{TlsPkg} `{BlsPkg} `{Ed25519Pkg}.
Context `{!Struct JoinRecord} `{!Struct CARecord} `{!Struct GenesisRecord} `{!Struct headRecord} `{!Struct NodeCert} `{!Struct QuorumCertificate}.
Context {D : Type} `{!OsPkg D} {W : Type} `{!HasStorage W} `{!RaftMembers W} `{!JsonReq AddRequest} `{!JsonReq EnrollRequest} `{!ConsoleJson}.
Variable replicator : option (Replicator W).
Variable dial : bytes -> tls_Config -> result (list x509_Certificate).
Variable StatusText : Z -> bytes.
Variable send : bytes -> Request -> W -> option (result (reply Body) * W).

(** A token path without a user makes the handler panic (a defect). The test for a token path
    looks for "/tokens/" in the whole path, but the path is split after the prefix of the users
    endpoint was cut off, together with the slash: DELETE /api/iam/users/tokens/x passes the test
    and does not split in two, and the handler indexes past the end for every caller that may
    set identities. *)
Theorem token_path_panics (auth : bool) (inp : Inputs) (t : ConsoleNode (D := D)) (rq : Request) (s : ConsoleState (W := W)) (principal : bytes)
    (policy : PolicyService) (snap : Snapshot) :
  rq_Path rq = str "/api/iam/users/tokens/x" -> rq_Method rq = MethodDelete ->
  authenticate (in_now inp) (get_storage (cs_world s)) rq = Ret (Some principal) ->
  cs_policy s = Some policy -> ps_Enabled policy = true -> ps_snap (refresh (in_now inp) (get_storage (cs_world s)) policy) = Some snap ->
  Snapshot_Authorize snap principal (EffectivePermission PermIamSet []) [] [] = true ->
  exists s', ServeHTTP replicator dial StatusText send auth inp t rq s = Some (Crash, s').
Proof.
  intros Ep Em Ea Hp He Hs Ha. unfold ServeHTTP. rewrite Ep, Em. change (open_of (str "/api/iam/users/tokens/x") MethodDelete) with (@None open_route). cbv iota.
  rewrite Ea. rewrite bool_decide_eq_true_2 by done. rewrite andb_false_r. cbn [default from_option id].
  change (route_of (str "/api/iam/users/tokens/x") MethodDelete) with (RIndexPanic, Some PermIamSet).
  set (now := in_now inp) in *. pose proof (granted_world now s principal PermClusterAdmin) as W1.
  destruct (granted_policy now s policy principal PermClusterAdmin Hp He) as [P1 _]. destruct (granted now s principal PermClusterAdmin) as [? s1]. cbn [fst snd] in W1, P1.
  pose proof (granted_world now s1 principal PermRecordsGet) as W2.
  destruct (granted_policy now s1 _ principal PermRecordsGet P1 ltac:(by rewrite refresh_enabled)) as [P2 _].
  destruct (granted now s1 principal PermRecordsGet) as [? s2]. cbn [fst snd] in W2, P2. rewrite W1, refresh_idem in P2.
  assert (fst (granted now s2 principal PermIamSet) = true) as Hg.
  { unfold granted, PolicyService.Authorize. rewrite P2, refresh_enabled, He, W2, W1. cbn [negb]. by rewrite refresh_idem, Hs, Ha. }
  destruct (granted now s2 principal PermIamSet) as [ok s3]. cbn [fst] in Hg. subst ok. by exists s3.
Qed.

End Panics.

(** ** Witnesses *)

#[local] Existing Instances flat_uuid flat_uuid_laws mem_badger mem_spec flat_store flat_store_laws flat_value flat_payloads flat_iam_structs
  flat_argon2 toy_aead flat_order pem_x509 flat_tls toy_bls toy_ed flat_head demo_os demo_world_storage demo_world_members demo_add_json.
#[local] Instance web_join : Struct JoinRecord := flat_struct JoinRecord.
#[local] Instance web_ca : Struct CARecord := flat_struct CARecord.
#[local] Instance web_genesis : Struct GenesisRecord := flat_struct GenesisRecord.
#[local] Instance web_cert : Struct NodeCert := flat_struct NodeCert.
#[local] Instance web_quorum : Struct QuorumCertificate := flat_struct QuorumCertificate.
#[local] Instance web_enroll : JsonReq EnrollRequest := {| json_Decode := fun _ _ => (Fail (ErrNew (str "EOF")), []) |}.
#[local] Instance web_json : ConsoleJson := {|
  js_bootstrap := fun _ => None; js_user := fun _ => None; js_pat := fun _ => None; js_account := fun _ => None; js_binding := fun _ => None;
  js_register := fun _ => None; js_issue := fun _ => None; js_group := fun _ => None; js_capub := fun _ => None; js_verify := fun _ => None |}.

Definition web_inputs : Inputs := {|
  in_now := 120; in_wall := 0; in_salt := Fail ErrorEmptyKey; in_secret := Fail ErrorEmptyKey; in_dumpSalt := Ret []; in_noncePfx := Ret []; in_jobID := [];
  in_env := demo_seed_env; in_ledgerCA := Fail ErrorEmptyKey; in_metrics := fun _ _ => Fail ErrorEmptyKey; in_attest := None; in_own := fun _ => toy_ck;
  in_co := fun _ c => unsigned_head c; in_digest := fun _ _ _ => Fail ErrorEmptyKey; in_head := None; in_counters := (0, 0); in_disk := None; in_raft := None;
  in_fresh := Fail ErrorEmptyKey; in_open := fun _ => Fail ErrorEmptyKey; in_reads := []; in_partial := demo_storage |}.

(** The owner of a stored token is an administrator. *)
Definition web_policy : PolicyService := {|
  ps_Enabled := true; ps_dirty := false;
  ps_snap := Some {| Admins := {[str "user:bob" := true]}; Disabled := ∅; MemberGroups := ∅; Roles := PredefinedRoles; Policies := ∅ |} |}.

Definition web_state : ConsoleState (W := demo_world) := {|
  cs_world := {| dw_store := demo_tokens; dw_servers := [demo_server (str "n1") (str "10.0.0.1:8442"); demo_server (str "n2") (str "10.0.0.2:8442")] |};
  cs_policy := Some web_policy; cs_jobs := (∅, []); cs_cache := {| rc_at := 0; rc_regions := None |} |}.

Definition web_request (path : bytes) : Request := {|
  rq_Method := MethodDelete; rq_Path := path; rq_Query := ∅; rq_Auth := str "Bearer pat-1"; rq_Forwarded := []; rq_Body := [] |}.

Definition web_run (path : bytes) : option (reply Body * ConsoleState (W := demo_world)) :=
  ServeHTTP None demo_dial (fun _ => []) demo_no_send true web_inputs (demo_node true) (web_request path) web_state.

Definition web_after : ConsoleState (W := demo_world) :=
  match web_run (str "/api/cluster/nodes/n2") with Some (_, s) => s | None => web_state end.

Lemma web_removed : web_run (str "/api/cluster/nodes/n2") = Some (Reply StatusOK (JText [str "removeed"]), web_after).
Proof.
  unfold web_after. assert (fst <$> web_run (str "/api/cluster/nodes/n2") = Some (Reply StatusOK (JText [str "removeed"]))) as E by (vm_compute; reflexivity).
  destruct (web_run (str "/api/cluster/nodes/n2")) as [[r s]|]; [|discriminate E]. cbn in E. by injection E as ->.
Qed.

Lemma console_guarded_witness :
  exists principal perm, rest_authentic 120 demo_tokens (web_request (str "/api/cluster/nodes/n2")) principal /\ perm ∈ write_permissions.
Proof.
  destruct (console_guarded None demo_dial (fun _ => []) demo_no_send web_inputs (demo_node true) (web_request (str "/api/cluster/nodes/n2")) web_state web_after
    web_policy (Reply StatusOK (JText [str "removeed"]))) as [[o Ho]|(principal & perm & snap & HA & _ & HP & _)].
  - reflexivity.
  - reflexivity.
  - exact web_removed.
  - intros E. apply (f_equal (fun w => length (dw_servers w))) in E. vm_compute in E. discriminate.
  - vm_compute in Ho. discriminate.
  - exists principal, perm. exact (conj HA HP).
Defined.

Lemma token_path_panics_witness :
  exists s', web_run (str "/api/iam/users/tokens/x") = Some (Crash, s').
Proof.
  apply (token_path_panics None demo_dial (fun _ => []) demo_no_send true web_inputs (demo_node true) (web_request (str "/api/iam/users/tokens/x"))
    web_state (str "user:bob") web_policy {| Admins := {[str "user:bob" := true]}; Disabled := ∅; MemberGroups := ∅; Roles := PredefinedRoles; Policies := ∅ |}).
  - reflexivity.
  - reflexivity.
  - vm_compute. reflexivity.
  - reflexivity.
  - reflexivity.
  - reflexivity.
  - vm_compute. reflexivity.
Defined.
