(* ===== verification/Cli.v ===== *)
(** * The identity and cluster commands ([cmd/iam_cmd.go], [cmd/iam_authz_cmd.go],
    [cmd/cluster_cmd.go], [pkg/iam/client.go])

    The command line writes identity records over the data plane, with the credential the operator
    configured. A command is a computation over the node it talks to, in a small state and error
    monad; what it prints is its result. The environment, the random bytes and the clock are
    arguments. *)

From S2P Require Import Prelude Pb Keys Engine Storage StorageSpec StorageReads StorageProps Value Service Ledger Iam PolicyService Codecs DataPlane Password Auth Console Pki Net NodeIdentity.

(** ** Strings *)

(** [os.Getenv]. *)
Definition Getenv (environ : gmap bytes bytes) (name : string) : bytes := default [] (environ !! str name).

(** The verb [%q], of text without characters to escape. *)
Definition fmt_q (s : bytes) : bytes := [x22] ++ s ++ [x22].

Fixpoint firstNonEmpty (vals : list bytes) : bytes :=
  match vals with
  | [] => []
  | v :: rest => if bool_decide (v = []) then firstNonEmpty rest else v
  end.

Definition comma : byte := x2c.

Definition splitCSV (s : bytes) : list bytes := filter (fun p => p <> []) (TrimSpace <$> Split comma s).

(** ** Bindings *)

(** The in-place [dedup] of the commands: unlike the console's it keeps empty names. *)
Fixpoint cli_dedup_loop (seen : gset bytes) (l : list bytes) : list bytes :=
  match l with
  | [] => []
  | s :: rest => if bool_decide (s ∈ seen) then cli_dedup_loop seen rest else s :: cli_dedup_loop ({[s]} ∪ seen) rest
  end.

Definition cli_dedup (l : list bytes) : list bytes := cli_dedup_loop ∅ l.

Fixpoint mergeBinding (bindings : list Binding) (role : bytes) (add : list bytes) : list Binding :=
  match bindings with
  | [] => [{| bd_Role := role; bd_Members := cli_dedup add |}]
  | b :: rest =>
      if bool_decide (bd_Role b = role) then {| bd_Role := bd_Role b; bd_Members := cli_dedup (bd_Members b ++ add) |} :: rest
      else b :: mergeBinding rest role add
  end.

(** The policy record of a scope and its description. *)
Definition cli_bindingMinor (tenant region : bytes) : bytes * bytes :=
  if bool_decide (tenant = []) then (PolicyInstance, str "instance")
  else if bool_decide (region = []) then (PolicyTenantMinor tenant, str "tenant " ++ tenant)
  else (PolicyRegionMinor tenant region, str "tenant " ++ tenant ++ str " region " ++ region).

Section Cli.
Context `{UuidPkg} `{Badger} `{StorePkg} `{ValuePkg} `{!IamStructs} `{Argon2Pkg} `{ValueMaps} `{!TextMaps}.
Context {W : Type} `{!HasStorage W}.
Variable replicator : option (Replicator W).

(** ** The node *)

(** What a connection reaches: the store behind the node and its policy. *)
Record Endpoint : Type := { ep_world : W; ep_policy : option PolicyService }.

Definition CLI (A : Type) : Type := Endpoint -> result A * Endpoint.

#[global] Instance CLI_ret : MRet CLI := fun A a n => (Ret a, n).
#[global] Instance CLI_bind : MBind CLI := fun A B f m n =>
  match m n with
  | (Ret a, n) => f a n
  | (Fail e, n) => (Fail e, n)
  | (Panic, n) => (Panic, n)
  end.

Definition lift {A} (r : result A) : CLI A := fun n => (r, n).

(** [xerrors.Errorf] around the error of a call. *)
Definition errorf_cli {A} (what : bytes) (m : CLI A) : CLI A := fun n =>
  match m n with (Fail e, n) => (Fail (ErrWrap what e), n) | r => r end.

(** A registered function: decode the request, call the handler, encode the response. *)
Definition served {Req Resp} (decode : WVal -> result Req) (encode : Resp -> WVal)
    (handler : option PolicyService -> W -> Req -> result Resp * W * option PolicyService) (v : WVal) : CLI WVal := fun n =>
  match decode v with
  | Fail e => (Fail e, n)
  | Panic => (Panic, n)
  | Ret req =>
      let '(r, w, p) := handler (ep_policy n) (ep_world n) req in
      (resp ← r; Ret (encode resp), {| ep_world := w; ep_policy := p |})
  end.

(** [cli.CallFunction] of the two functions the commands use. *)
Definition call_get (c : Call) : WVal -> CLI WVal := served keyRequest_Decode record_Encode (kv_get c).
Definition call_put (c : Call) : WVal -> CLI WVal := served recordRequest_Decode status_Encode (kv_put replicator c).

(** ** Records over the wire ([pkg/iam/client.go]) *)

Definition keyValueRegion (region minor : bytes) : WVal :=
  VMap (MPut (MPut (MPut EmptyMap (str "major") (VRaw SystemTenant)) (str "region") (VRaw region)) (str "minor") (VRaw minor)).

Definition keyValue (minor : bytes) : WVal := keyValueRegion Region minor.

Definition putRecordKey (c : Call) (key : WVal) (val : bytes) (createOnly : bool) : CLI bool :=
  res ← call_put c (VMap (MPut (MPut (MPut (MPut (MPut (MPut (MPut EmptyMap
    (str "key") key)
    (str "value") (VRaw val))
    (str "metadata") (VLong 0))
    (str "ttl") (VLong 0))
    (str "cas") (VBoolean createOnly))
    (str "version") (VLong 0))
    (str "expires_at") (VLong 0)));
  mret (match AsMap res with Some m => GetBool m (str "updated") | None => false end).

Definition putRecord (c : Call) (minor val : bytes) (createOnly : bool) : CLI bool := putRecordKey c (keyValue minor) val createOnly.

Definition PutPKIRecord (c : Call) (minor val : bytes) : CLI unit := _ ← putRecordKey c (keyValueRegion PKIRegion minor) val false; mret tt.

Definition CreateRecord (c : Call) (minor val : bytes) : CLI bool := putRecord c minor val true.

Definition PutRecord (c : Call) (minor val : bytes) : CLI unit := _ ← putRecord c minor val false; mret tt.

(** [None] when there is no record. *)
Definition GetRecord {M} `{!Struct M} (c : Call) (minor : bytes) : CLI (option M) :=
  res ← call_get c (VMap (MPut (MPut EmptyMap (str "key") (keyValue minor)) (str "head_only") (VBoolean false)));
  match AsMap res with
  | None => mret None
  | Some m => if negb (GetBool m (str "found")) then mret None else obj ← lift (iam_Decode (GetRaw m (str "value"))); mret (Some obj)
  end.

(** ** Connecting *)

Record iamDial : Type := { di_Address : bytes; di_User : bytes; di_Password : bytes; di_Token : bytes }.

Definition dial_address (environ : gmap bytes bytes) (t : iamDial) : bytes :=
  firstNonEmpty [di_Address t; Getenv environ "IAM_ADDRESS"; str "tcp://127.0.0.1:8444"].

(** The credential that is attached, if any. *)
Definition dial_credential (environ : gmap bytes bytes) (t : iamDial) : option WVal :=
  let token := firstNonEmpty [di_Token t; Getenv environ "IAM_TOKEN"] in
  let user := firstNonEmpty [di_User t; Getenv environ "IAM_USER"] in
  let password := firstNonEmpty [di_Password t; Getenv environ "IAM_PASSWORD"] in
  if negb (bool_decide (token = [])) then
    Some (VMap (MPut (MPut EmptyMap (str "method") (VUtf8 (str "token"))) (str "token") (VUtf8 token)))
  else if negb (bool_decide (user = [])) then
    Some (VMap (MPut (MPut (MPut EmptyMap (str "method") (VUtf8 (str "password"))) (str "user") (VUtf8 user)) (str "pass") (VUtf8 password)))
  else None.

(** [iamDial.run]: the handshake of the node resolves the credential, when authentication is on;
    the callback then runs as that principal. *)
Definition dial_run {A : Type} (authEnabled : bool) (now : Z) (environ : gmap bytes bytes) (t : iamDial) (cb : Call -> CLI A) : CLI A := fun n =>
  match (if authEnabled then Authenticate now now (get_storage (ep_world n)) None (dial_credential environ t) else Ret []) with
  | Ret principal => cb {| principal := principal; clock := now; clock' := now |} n
  | Fail e => (Fail (ErrWrap (str "connect " ++ dial_address environ t) e), n)
  | Panic => (Panic, n)
  end.

(** ** Identities *)

Section Commands.
Variables (authEnabled : bool) (now : Z) (environ : gmap bytes bytes) (dial : iamDial).

Definition generatePassword (random : result bytes) : result bytes := buf ← random; Ret (DigestHex buf).

(** The password to store, and whether it was generated. *)
Definition choose_password (password : bytes) (random : result bytes) : result (bytes * bool) :=
  if bool_decide (password = []) then p ← generatePassword random; Ret (p, true) else Ret (password, false).

Definition new_user (name password : bytes) (salt : result bytes) : result bytes :=
  hash ← HashPassword password salt;
  iam_Encode {| us_Name := name; us_PasswordHash := hash; us_Admin := false; us_Disabled := false; us_CreatedAt := now |}.

(** The read, merge and write of the policy record of a scope. *)
Definition add_binding (c : Call) (minor role : bytes) (members : list bytes) : CLI unit :=
  policy ← GetRecord c minor;
  raw ← lift (iam_Encode {| po_Bindings := mergeBinding (po_Bindings (default {| po_Bindings := [] |} policy)) role members |});
  PutRecord c minor raw.

Inductive bootstrap_outcome : Type := AlreadyDone | AdminCreated (shown : option bytes).

(** [IamBootstrapCommand.Run]; the password is shown when it was generated. *)
Definition IamBootstrap_Run (Username Password : bytes) (random salt : result bytes) : CLI bootstrap_outcome :=
  '(password, generated) ← lift (choose_password Password random);
  record ← lift (new_user Username password salt);
  dial_run authEnabled now environ dial (fun c =>
    created ← CreateRecord c (UserPrefix ++ Username) record;
    if negb created then mret AlreadyDone else
    _ ← add_binding c PolicyInstance RoleAdmin [PrincipalUser Username];
    mret (AdminCreated (if generated : bool then Some password else None))).

(** [IamUserAddCommand.Run]. *)
Definition IamUserAdd_Run (Username Password : bytes) (Admin : bool) (random salt : result bytes) : CLI (option bytes) :=
  '(password, generated) ← lift (choose_password Password random);
  record ← lift (new_user Username password salt);
  dial_run authEnabled now environ dial (fun c =>
    created ← CreateRecord c (UserPrefix ++ Username) record;
    if negb created then lift (Fail (ErrNew (str "user " ++ fmt_q Username ++ str " already exists"))) else
    _ ← (if Admin then add_binding c PolicyInstance RoleAdmin [PrincipalUser Username] else mret tt);
    mret (if generated : bool then Some password else None)).

(** The certificate identities of a new service account, one index record each. *)
Fixpoint register_idents (c : Call) (name : bytes) (idents : list bytes) : CLI unit :=
  match idents with
  | [] => mret tt
  | ident :: rest =>
      idx ← lift (iam_Encode {| ci_Principal := PrincipalServiceAccount name; ci_Issued := false; ci_CreatedAt := now |});
      _ ← errorf_cli (str "cert identity " ++ fmt_q ident) (PutRecord c (CertPrefix ++ ident) idx);
      register_idents c name rest
  end.

(** [IamSaAddCommand.Run]: the token. *)
Definition IamSaAdd_Run (Name CertIdents : bytes) (secret : result bytes) : CLI bytes :=
  '(token, tokenHash) ← lift (new_token TokenPrefixServiceAccount secret);
  tokenIndex ← lift (iam_Encode {| tk_Principal := PrincipalServiceAccount Name; tk_ExpiresAt := 0; tk_Label := []; tk_CreatedAt := 0 |});
  record ← lift (iam_Encode {| sa_Name := Name; sa_TokenHash := tokenHash; sa_Disabled := false; sa_CreatedAt := now |});
  dial_run authEnabled now environ dial (fun c =>
    created ← CreateRecord c (ServiceAccountPrefix ++ Name) record;
    if negb created then lift (Fail (ErrNew (str "service account " ++ fmt_q Name ++ str " already exists"))) else
    _ ← errorf_cli (str "token index") (PutRecord c (TokenIndexKey tokenHash) tokenIndex);
    _ ← register_idents c Name (splitCSV CertIdents);
    mret token).

(** ** Roles, groups and bindings *)

(** [IamRoleAddCommand.Run]. *)
Definition IamRoleAdd_Run (Name Permissions : bytes) : CLI unit :=
  let perms := splitCSV Permissions in
  match List.find (fun p => negb (IsPermission p)) perms with
  | Some p => lift (Fail (ErrNew (str "unknown permission " ++ fmt_q p ++ str " (see --help)")))
  | None =>
      record ← lift (iam_Encode {| ro_Name := Name; ro_Permissions := perms |});
      dial_run authEnabled now environ dial (fun c => PutRecord c (RolePrefix ++ Name) record)
  end.

(** [IamGroupSetCommand.Run]. *)
Definition IamGroupSet_Run (Name Members : bytes) : CLI unit :=
  let members := splitCSV Members in
  match List.find (fun m => negb (HasPrefix m (str "user:")) && negb (HasPrefix m (str "serviceAccount:"))) members with
  | Some m => lift (Fail (ErrNew (str "member " ++ fmt_q m ++ str " must be user:… or serviceAccount:…")))
  | None =>
      record ← lift (iam_Encode {| gr_Name := Name; gr_Members := members |});
      dial_run authEnabled now environ dial (fun c => PutRecord c (GroupPrefix ++ Name) record)
  end.

(** [IamBindingAddCommand.Run]. *)
Definition IamBindingAdd_Run (Role Members Tenant Rgn : bytes) : CLI unit :=
  if negb (bool_decide (Rgn = [])) && bool_decide (Tenant = []) then lift (Fail (ErrNew (str "--region requires --tenant"))) else
  let members := splitCSV Members in
  if len members =? 0 then lift (Fail (ErrNew (str "--members is required"))) else
  dial_run authEnabled now environ dial (fun c => add_binding c (fst (cli_bindingMinor Tenant Rgn)) Role members).

(** ** Cluster *)

(** [ClusterJoinTokenCommand.Run]; [ttl] is the parsed duration, in nanoseconds. *)
Definition ClusterJoinToken_Run `{!Struct JoinRecord} (ttl : result Z) (secret : result bytes) : CLI bytes :=
  ttl ← lift ttl;
  '(token, hash) ← lift (new_token TokenPrefixJoin secret);
  let expiresAt := if 0 <? ttl then now + ttl / second else 0 in
  raw ← lift (iam_Encode {| jr_ExpiresAt := expiresAt; jr_CreatedBy := str "cli"; jr_Reusable := false |});
  dial_run authEnabled now environ dial (fun c => _ ← PutPKIRecord c (JoinIndexKey hash) raw; mret token).

End Commands.

(** [ClusterIdentityCommand.Run]: the fingerprint and the node id that are printed. *)
Definition ClusterIdentity_Run `{X509Pkg} {D} `{!OsPkg D} (DataDir defaultDir : bytes) (d : D) : option (bytes * option bytes) :=
  let dir := if bool_decide (DataDir = []) then defaultDir else DataDir in
  fp ← TransportCAFingerprint dir d;
  Some (fp, id ← LoadNodeIdentity dir d; der ← pem_Decode (ni_CertPEM id);
            match ParseCertificate der with Ret cert => Some (xc_CommonName cert) | _ => None end).

End Cli.
