(* ===== verification/CliProps.v ===== *)
(** * Properties of the identity and cluster commands

    A user added on the command line can log in with the password that was set or shown; the
    commands grant roles exactly as the console does; a join token minted on the command line is
    one that an enrollment accepts; a bootstrap that breaks off between its two writes cannot be
    repeated. *)

From S2P Require Import Prelude Sha256 Pb Keys Engine Storage StorageSpec StorageReads StorageProps ScanProps Value Service Ledger Iam PolicyService Codecs DataPlane Password Backup BackupProps Auth Console ConsoleProps Pki PkiProps Setup SetupProps Net NodeIdentity Admin AdminProps Cli.

(** ** Merging a binding *)

Lemma cli_dedup_loop_spec seen l m : m ∈ cli_dedup_loop seen l <-> m ∈ l /\ m ∉ seen.
Proof.
  revert seen. induction l as [|x l IH]; intros seen; cbn [cli_dedup_loop]; [set_solver|].
  case_bool_decide as E; [rewrite IH; set_solver|]. rewrite elem_of_cons, IH. destruct (decide (m = x)); set_solver.
Qed.

Lemma cli_dedup_spec l m : m ∈ cli_dedup l <-> m ∈ l.
Proof. unfold cli_dedup. rewrite cli_dedup_loop_spec. set_solver. Qed.

Lemma holds_cons b bs r m : holds (b :: bs) r m <-> (bd_Role b = r /\ m ∈ bd_Members b) \/ holds bs r m.
Proof. unfold holds. setoid_rewrite elem_of_cons. naive_solver. Qed.

Lemma mergeBinding_holds bs role add r m :
  holds (mergeBinding bs role add) r m <-> holds bs r m \/ (r = role /\ m ∈ add).
Proof.
  induction bs as [|b bs IH]; cbn [mergeBinding].
  - rewrite holds_cons. cbn [bd_Role bd_Members]. rewrite cli_dedup_spec. unfold holds. set_solver.
  - case_bool_decide as Eb; rewrite !holds_cons; [|rewrite IH; naive_solver].
    cbn [bd_Role bd_Members]. rewrite cli_dedup_spec, elem_of_app. naive_solver.
Qed.

(** The command line and the console grant alike. Adding members to a role by the commands'
    [mergeBinding] and by the console's [applyBinding] leads to policies in which exactly the same
    principals hold exactly the same roles, in whatever order the console ranges over its sets. *)
Theorem grants_agree `{MapOrder} `{!MapOrderLaws} (bs : list Binding) (role : bytes) (add : list bytes) (r m : bytes) :
  m <> [] -> holds (mergeBinding bs role add) r m <-> holds (applyBinding bs role add true) r m.
Proof. intros Hm. rewrite mergeBinding_holds, applyBinding_holds by done. case_decide; naive_solver. Qed.

Section Props.
Context `{UuidPkg} `{!UuidLaws} `{Badger} `{!BadgerSpec} `{StorePkg} `{!StoreLaws}.
Context `{ValuePkg} `{!IamStructs} `{Argon2Pkg} `{!Argon2Laws} `{ValueMaps} `{!ValueMapLaws} `{!TextMaps} `{!TextMapLaws}.

(** ** Requests on the wire *)

Definition system_key (region minor : bytes) : Key :=
  {| MajorKey := SystemTenant; RegionName := region; MinorKey := minor; Timestamp := None |}.

Definition client_request (key : Key) (val : bytes) (createOnly : bool) : RecordRequest :=
  if createOnly then cas_request key val 0 else put_request key val.

Lemma key_wire m region minor :
  decodeKey (GetMap (MPut m (str "key") (keyValueRegion region minor)) (str "key")) = Some (system_key region minor).
Proof. unfold keyValueRegion. read_map. cbn [decodeKey]. by read_map. Qed.

Lemma put_wire region minor val createOnly :
  recordRequest_Decode (VMap (MPut (MPut (MPut (MPut (MPut (MPut (MPut EmptyMap
    (str "key") (keyValueRegion region minor)) (str "value") (VRaw val)) (str "metadata") (VLong 0)) (str "ttl") (VLong 0))
    (str "cas") (VBoolean createOnly)) (str "version") (VLong 0)) (str "expires_at") (VLong 0))) =
  Ret (client_request (system_key region minor) val createOnly).
Proof.
  unfold recordRequest_Decode, asMap. rewrite as_map. cbn [mbind outcome_bind]. read_map. cbn [decodeKey].
  unfold keyValueRegion. read_map. cbn [decodeKey]. read_map. by destruct createOnly.
Qed.

Lemma get_wire minor :
  keyRequest_Decode (VMap (MPut (MPut EmptyMap (str "key") (keyValue minor)) (str "head_only") (VBoolean false))) =
  Ret (key_request (iam_Key minor)).
Proof.
  unfold keyRequest_Decode, asMap, keyValue. rewrite as_map. cbn [mbind outcome_bind]. read_map.
  unfold keyValueRegion. read_map. cbn [decodeKey]. by read_map.
Qed.

Abbreviation Local_endpoint := (Endpoint (W := KeyValueStorageCtx)).

(** A successful write of the client: what it answers and what it leaves. *)
Lemma putRecordKey_ok (c : Call) region minor val createOnly (n n' : Local_endpoint) b :
  BadgerReliable -> putRecordKey None c (keyValueRegion region minor) val createOnly n = (Ret b, n') ->
  clock c = clock' c ->
  let old := contents (ep_world n) !! enc_key (system_key region minor) in
  b = (negb createOnly || cas_matches old 0) /\
  contents (ep_world n') =
    if b then <[enc_key (system_key region minor) := cas_entry old val]> (contents (ep_world n)) else contents (ep_world n).
Proof.
  intros HR E Hc old. unfold putRecordKey, call_put, mbind, CLI_bind, served in E. rewrite put_wire in E.
  unfold kv_put, guarded, guardKey in E. unfold client_request in E.
  destruct (scopeOf _) as [tenant rg]. destruct (Authorize _ _ _ _ _ _ _) as [[u|e|] p]; [|discriminate E..].
  unfold redirected in E. rewrite Hc in E. destruct createOnly; cbn [negb orb].
  - destruct (cas_local (clock' c) (ep_world n) (system_key region minor) val 0 HR) as (st' & Ep & Ec). rewrite Ep in E.
    cbn [redirectable mbind outcome_bind] in E. unfold status_Encode in E. rewrite as_map in E. cbn [Updated] in E. rewrite bool_put in E.
    unfold mret, CLI_ret in E. injection E as <- <-. by split.
  - unfold svc_Put in E. cbn [replicates] in E.
    destruct (refines_reliable _ _ _ HR (Put_refines (clock' c) (ep_world n) (stamp_record (clock' c) (put_request (system_key region minor) val)) 0
      ltac:(by unfold stamp_record, resolveExpiry; cbn) ltac:(by unfold is_uint64))) as (Ea & Ec & _).
    unfold on_storage, get_storage, set_storage, storage_has_storage in E. rewrite Ea in E.
    cbn [redirectable mbind outcome_bind put_spec stamp_record put_request rr_Key rr_CompareAndSet andb fst] in E.
    unfold status_Encode in E. rewrite as_map in E. cbn [Updated] in E. rewrite bool_put in E.
    unfold mret, CLI_ret in E. injection E as <- <-. split; [done|]. cbn [ep_world]. rewrite Ec. done.
Qed.

(** A successful read of the client. *)
Lemma GetRecord_ok {M} `{!Struct M} (c : Call) minor (n n' : Local_endpoint) (o : option M) :
  BadgerReliable -> GetRecord c minor n = (Ret o, n') ->
  ep_world n' = ep_world n /\
  match contents (ep_world n) !! iam_pk minor with
  | Some e => if live (clock' c) e then exists obj, o = Some obj /\ iam_Decode (e_value e) = Ret obj else o = None
  | None => o = None
  end.
Proof.
  intros HR E. unfold GetRecord, call_get, mbind, CLI_bind, served in E. rewrite get_wire in E.
  unfold kv_get, guarded, guardKey in E. destruct (scopeOf _) as [tenant rg].
  destruct (Authorize _ _ _ _ _ _ _) as [[u|e|] p]; [|discriminate E..].
  destruct (get_local (clock' c) (ep_world n) (iam_Key minor) HR) as [size Eg]. cbv beta in E. rewrite Eg in E.
  cbn [mbind outcome_bind] in E. unfold record_Encode in E. rewrite as_map in E. unfold get_spec_rec in E. unfold iam_pk.
  destruct (contents (ep_world n) !! enc_key (iam_Key minor)) as [e|]; [destruct (live (clock' c) e)|];
    cbn [RecordNotFound entry_record RecordValue rec_Head rec_Value rec_Key] in E; revert E; read_map; cbn [negb].
  - unfold lift. destruct (iam_Decode (e_value e)) as [obj|?|] eqn:Ed; [|done|done]. intros [= <- <-]. split; [done|]. by exists obj.
  - by intros [= <- <-].
  - by intros [= <- <-].
Qed.

Lemma PutRecord_ok (c : Call) minor val (n n' : Local_endpoint) u :
  BadgerReliable -> PutRecord None c minor val n = (Ret u, n') -> clock c = clock' c ->
  exists v, contents (ep_world n') = <[iam_pk minor := iam_entry v val]> (contents (ep_world n)).
Proof.
  intros HR E Hc. unfold PutRecord, putRecord, keyValue, mbind, CLI_bind in E.
  destruct (putRecordKey _ _ _ _ _ _) as [[b|?|] n1] eqn:Ep; [|discriminate E..]. injection E as _ <-.
  destruct (putRecordKey_ok c Region minor val false n n1 b HR Ep Hc) as [-> Hw]. eexists. exact Hw.
Qed.

Context `{!Codable UserRecord} `{!Codable PolicyRecord}.

(** Granting a role on the command line: afterwards the members hold it, and whoever held a role
    still does. *)
Lemma add_binding_ok (c : Call) minor role members (n n' : Local_endpoint) u :
  BadgerReliable -> add_binding None c minor role members n = (Ret u, n') -> clock c = clock' c ->
  (exists e, contents (ep_world n') = <[iam_pk minor := e]> (contents (ep_world n))) /\
  forall now' r m, holds (policy_of (clock' c) (ep_world n) minor) r m \/ (r = role /\ m ∈ members) ->
    holds (policy_of now' (ep_world n') minor) r m.
Proof.
  intros HR E Hc. unfold add_binding, mbind, CLI_bind in E.
  destruct (GetRecord (M := PolicyRecord) c minor n) as [[o|?|] n1] eqn:Eg; [|discriminate E..].
  destruct (GetRecord_ok c minor n n1 o HR Eg) as [Hw Ho]. unfold lift in E.
  set (pol := {| po_Bindings := mergeBinding (po_Bindings (default {| po_Bindings := [] |} o)) role members |}) in E.
  destruct (coded pol) as (raw & Er & Hraw & Hdec). rewrite Er in E.
  destruct (PutRecord_ok c minor raw n1 n' u HR E Hc) as [v Hc']. rewrite Hw in Hc'. split; [by eexists|]. intros now' r m Hrm.
  rewrite (policy_of_entry now' (ep_world n') minor v raw pol) by (done || by rewrite Hc', lookup_insert_eq).
  unfold pol. cbn [po_Bindings]. apply mergeBinding_holds. destruct Hrm as [Hr|]; [left|by right].
  unfold policy_of in Hr. destruct (contents (ep_world n) !! iam_pk minor) as [e|]; [|by destruct Hr as (b & Hb%not_elem_of_nil & _)].
  destruct (live (clock' c) e); cbn [andb] in Hr; [|by destruct Hr as (b & Hb%not_elem_of_nil & _)].
  destruct (0 <? len (e_value e)); [|by destruct Hr as (b & Hb%not_elem_of_nil & _)].
  destruct Ho as (obj & -> & Hd). unfold decoded in Hr. by rewrite Hd in Hr.
Qed.

(** ** Logging in *)

(** The configuration of an operator who logs in by name. *)
Definition login (address name password : bytes) : iamDial :=
  {| di_Address := address; di_User := name; di_Password := password; di_Token := [] |}.

Lemma firstNonEmpty_pad v : firstNonEmpty [v; []] = v.
Proof. cbn [firstNonEmpty]. repeat case_bool_decide; congruence. Qed.

Lemma dial_password (st : KeyValueStorageCtx) now address name password :
  name <> [] -> Authenticate now now st None (dial_credential ∅ (login address name password)) = AuthenticatePassword now st name password.
Proof.
  intros Hn. unfold dial_credential, Getenv. rewrite !lookup_empty. cbn [default from_option id login di_Token di_User di_Password].
  rewrite !firstNonEmpty_pad. rewrite bool_decide_eq_true_2 by done. rewrite bool_decide_eq_false_2 by done. cbn [negb].
  unfold Authenticate. cbn [mbind option_bind]. rewrite as_map.
  rewrite !text_other by (vm_compute; reflexivity). rewrite !text_put. rewrite text_other by (vm_compute; reflexivity). rewrite text_put.
  by rewrite bool_decide_eq_true_2.
Qed.

(** The password of a stored user record is accepted. *)
Lemma new_user_logs_in (st : KeyValueStorageCtx) now now' name password salt raw v :
  BadgerReliable -> new_user now name password (Ret salt) = Ret raw -> contents st !! iam_pk (UserPrefix ++ name) = Some (iam_entry v raw) ->
  AuthenticatePassword now' st name password = Ret (PrincipalUser name).
Proof.
  intros HR Hn Hc. unfold new_user in Hn. destruct (VerifyPassword_HashPassword password password salt) as (hash & _ & _ & Hh & _ & _ & _ & Hv).
  rewrite Hh in Hn. cbn [mbind outcome_bind] in Hn.
  set (u := {| us_Name := name; us_PasswordHash := hash; us_Admin := false; us_Disabled := false; us_CreatedAt := now |}) in Hn.
  destruct (coded u) as (raw' & Er & Hraw & Hd). rewrite Er in Hn. injection Hn as <-.
  unfold AuthenticatePassword. rewrite (load_complete now' st _ u HR (stored_entry now' st _ v raw' u Hc Hraw Hd)).
  cbn [mbind outcome_bind us_Disabled us_PasswordHash u]. by rewrite Hv.
Qed.

Lemma dial_run_ok {A : Type} authEnabled now environ dial (cb : Call -> CLI A) (n n' : Local_endpoint) (a : A) :
  dial_run authEnabled now environ dial cb n = (Ret a, n') -> exists c, clock c = now /\ clock' c = now /\ cb c n = (Ret a, n').
Proof. unfold dial_run. destruct (if authEnabled then _ else _) as [p|?|]; intros E; [|discriminate E..]. eexists. split; [|split; [|exact E]]; done. Qed.

(** What a successful [iam user-add] did. *)
Lemma user_add_ok authEnabled now environ dial name pw admin random salt (n n' : Local_endpoint) shown :
  BadgerReliable -> IamUserAdd_Run None authEnabled now environ dial name pw admin random salt n = (Ret shown, n') ->
  exists raw v, new_user now name (default pw shown) salt = Ret raw /\
    cas_matches (contents (ep_world n) !! iam_pk (UserPrefix ++ name)) 0 = true /\
    contents (ep_world n') !! iam_pk (UserPrefix ++ name) = Some (iam_entry v raw) /\
    (admin = true -> forall now', holds (policy_of now' (ep_world n') PolicyInstance) RoleAdmin (PrincipalUser name)).
Proof.
  intros HR E. unfold IamUserAdd_Run, mbind, CLI_bind, lift in E.
  destruct (choose_password pw random) as [[password generated]|?|] eqn:Ep; [|discriminate E..].
  destruct (new_user now name password salt) as [raw|?|] eqn:En; [|discriminate E..].
  apply dial_run_ok in E as (c & Hc & Hc' & E). unfold CreateRecord, putRecord, keyValue in E.
  destruct (putRecordKey _ _ _ _ _ _) as [[b|?|] n1] eqn:Eu; [|discriminate E..].
  destruct (putRecordKey_ok c _ _ _ _ _ _ _ HR Eu (eq_trans Hc (eq_sym Hc'))) as [Hb Hw]. destruct b; cbn [negb] in E; [|discriminate E].
  cbn [negb orb] in Hb. assert (default pw shown = password) as Hpw.
  { assert (shown = if generated : bool then Some password else None) as ->.
    { destruct admin; [destruct (add_binding _ _ _ _ _ _) as [[u|?|] n2]; [|discriminate E..]|]; by injection E as <- _. }
    unfold choose_password in Ep. case_bool_decide.
    - destruct (generatePassword random) as [p|?|]; cbn in Ep; [|discriminate Ep..]. by injection Ep as -> <-.
    - by injection Ep as -> <-. }
  rewrite Hpw, En. eexists raw, _. split; [done|]. split; [by symmetry|].
  assert (contents (ep_world n1) !! iam_pk (UserPrefix ++ name) = Some (cas_entry (contents (ep_world n) !! iam_pk (UserPrefix ++ name)) raw)) as Hu1
    by (rewrite Hw; apply lookup_insert_eq).
  destruct admin; [|injection E as _ <-; by split].
  destruct (add_binding _ _ _ _ _ _) as [[u|?|] n2] eqn:Ea; [|discriminate E..]. injection E as _ <-.
  destruct (add_binding_ok c PolicyInstance RoleAdmin _ n1 n2 u HR Ea (eq_trans Hc (eq_sym Hc'))) as [[e He] Hh].
  split; [rewrite He, lookup_insert_ne by (apply iam_pk_ne, not_eq_sym, user_ne_policy); exact Hu1|].
  intros _ now'. apply Hh. right. split; [done|]. by left.
Qed.


(** ** A bootstrap that broke off *)

Lemma create_fails (c : Call) minor val (n n' : Local_endpoint) r :
  BadgerReliable -> clock c = clock' c -> CreateRecord None c minor val n = (r, n') -> (forall b, r <> Ret b) -> ep_world n' = ep_world n.
Proof.
  intros HR Hc E Hr. unfold CreateRecord, putRecord, keyValue, putRecordKey, call_put, mbind, CLI_bind, served in E. rewrite put_wire in E.
  unfold kv_put, guarded, guardKey, client_request in E. destruct (scopeOf _) as [tenant rg].
  destruct (Authorize _ _ _ _ _ _ _) as [[u|x|] p]; [|by injection E as _ <-..].
  unfold redirected in E. rewrite Hc in E. destruct (cas_local (clock' c) (ep_world n) (system_key Region minor) val 0 HR) as (st' & Ep & _).
  rewrite Ep in E. cbn in E. unfold status_Encode in E. rewrite as_map in E. injection E as <- _. by destruct (Hr _ eq_refl).
Qed.

Lemma create_refused (c : Call) minor val (n n' : Local_endpoint) r e :
  BadgerReliable -> clock c = clock' c -> contents (ep_world n) !! iam_pk minor = Some e -> e_version e <> 0 ->
  CreateRecord None c minor val n = (r, n') -> contents (ep_world n') = contents (ep_world n) /\ r <> Ret true.
Proof.
  intros HR Hc He Hv E. destruct r as [b|?|].
  - destruct (putRecordKey_ok c Region minor val true n n' b HR E Hc) as [Hb Hw]. cbn [negb orb] in Hb.
    change (enc_key (system_key Region minor)) with (iam_pk minor) in *. rewrite He in Hb. cbn [cas_matches] in Hb.
    rewrite (proj2 (Z.eqb_neq 0 (e_version e))) in Hb by done. subst b. by split.
  - split; [|done]. by rewrite (create_fails c minor val n n' _ HR Hc E).
  - split; [|done]. by rewrite (create_fails c minor val n n' _ HR Hc E).
Qed.

(** A bootstrap that broke off cannot be completed (a defect). [iam bootstrap] writes the user and
    then the administrator binding. If the first write happened and the second one did not, every
    later run, with any password and at any clock, leaves the store as it is: the user exists, the
    command reports that the bootstrap is already done or fails, and the policy stays without the
    binding. *)
Theorem bootstrap_not_resumed (authEnabled : bool) (now : Z) (environ : gmap bytes bytes) (dial : iamDial) (name pw : bytes)
    (random salt : result bytes) (n n' : Endpoint (W := KeyValueStorageCtx)) (r : result bootstrap_outcome) (e : entry) :
  BadgerReliable -> contents (ep_world n) !! iam_pk (UserPrefix ++ name) = Some e -> e_version e <> 0 ->
  IamBootstrap_Run None authEnabled now environ dial name pw random salt n = (r, n') ->
  contents (ep_world n') = contents (ep_world n) /\ (forall out, r = Ret out -> out = AlreadyDone) /\
  forall now', policy_of now' (ep_world n') PolicyInstance = policy_of now' (ep_world n) PolicyInstance.
Proof.
  intros HR He Hv E. assert (contents (ep_world n') = contents (ep_world n) /\ forall out, r = Ret out -> out = AlreadyDone) as [Hc Ho].
  { unfold IamBootstrap_Run, mbind, CLI_bind, lift in E.
    destruct (choose_password pw random) as [[password generated]|?|]; [|by injection E as <- <-..].
    destruct (new_user now name password salt) as [raw|?|]; [|by injection E as <- <-..].
    unfold dial_run in E. destruct (if authEnabled then _ else _) as [p|?|]; [|by injection E as <- <-..].
    destruct (CreateRecord _ _ _ _ _) as [b n1] eqn:Ec. destruct (create_refused {| principal := p; clock := now; clock' := now |} _ _ _ _ _ _ HR eq_refl He Hv Ec) as [Hc Hb].
    destruct b as [[]|?|]; [done|..]; injection E as <- <-; (split; [exact Hc|]; by intros out [= <-]). }
  split; [done|]. split; [done|]. intros now'. unfold policy_of. by rewrite Hc.
Qed.

(** ** Join tokens *)

Context `{X509Pkg} `{!Struct JoinRecord} `{!Codable JoinRecord}.

(** A join token minted on the command line admits a node. If [cluster join-token] succeeds, then
    until the announced time, or for ever when the lifetime was not positive, the leader's
    enrollment finds the token's record and burns it, which is what it requires before it signs;
    as for a token of the console, the record is not reusable. *)
Theorem cli_join_token_redeems (authEnabled : bool) (now now' ttl : Z) (environ : gmap bytes bytes) (dial : iamDial) (secret : result bytes)
    (n n' : Endpoint (W := KeyValueStorageCtx)) (token nodeID : bytes) (env : PkiEnv) :
  BadgerReliable -> ClusterJoinToken_Run None authEnabled now environ dial (Ret ttl) secret n = (Ret token, n') -> nodeID <> [] ->
  ttl <= 0 \/ now' <= now + ttl / second ->
  exists rec jr st, find_join None now' env token nodeID (ep_world n') = (Ret rec, ep_world n') /\
    iam_Decode (rec_Value rec) = Ret jr /\ jr_Reusable jr = false /\ jr_ExpiresAt jr = (if 0 <? ttl then now + ttl / second else 0) /\
    burn_join None now' token rec (ep_world n') = (Ret tt, st).
Proof.
  intros HR E Hn Ht. unfold ClusterJoinToken_Run, mbind, CLI_bind, lift in E.
  destruct secret as [s|?|]; cbn [new_token NewToken] in E; [|discriminate E..]. set (tok := TokenPrefixJoin ++ DigestHex s) in E.
  set (jr := {| jr_ExpiresAt := _; jr_CreatedBy := str "cli"; jr_Reusable := false |}) in E.
  destruct (coded jr) as (raw & Er & Hraw & Hdec). rewrite Er in E. apply dial_run_ok in E as (c & Hc & Hc' & E).
  unfold PutPKIRecord, mbind, CLI_bind in E. destruct (putRecordKey _ _ _ _ _ _) as [[b|?|] n1] eqn:Ep; [|discriminate E..]. injection E as <- <-.
  destruct (putRecordKey_ok c _ _ _ _ _ _ _ HR Ep (eq_trans Hc (eq_sym Hc'))) as [-> Hw]. cbn [negb orb] in Hw.
  change (system_key PKIRegion (JoinIndexKey (HashToken tok))) with (PKIKey (JoinIndexKey (HashToken tok))) in Hw.
  set (key := PKIKey (JoinIndexKey (HashToken tok))) in *. set (e := cas_entry (contents (ep_world n) !! enc_key key) raw) in *.
  destruct (get_local now' (ep_world n1) key HR) as [size Hg]. unfold get_spec_rec in Hg. rewrite Hw, lookup_insert_eq in Hg.
  assert (live now' e = true) as Hl by (unfold live; cbn; by rewrite no_expiry). rewrite Hl in Hg.
  destruct (coded {| jr_ExpiresAt := 1; jr_CreatedBy := str "cli"; jr_Reusable := false |}) as (burned & Hb & _ & _).
  destruct (cas_local now' (ep_world n1) key burned (e_version e) HR) as (st & Hp & _). rewrite Hw, lookup_insert_eq in Hp.
  cbn [cas_matches] in Hp. rewrite Z.eqb_refl in Hp.
  exists (entry_record (Some key) e size false), jr, st. split; [|split; [exact Hdec|split; [done|split; [done|]]]].
  - unfold find_join. rewrite (bool_decide_eq_false_2 (nodeID = [])) by done. rewrite (bool_decide_eq_false_2 (tok = [])) by done. cbn [orb].
    fold key. rewrite Hg. cbn [entry_record rec_Value e_value e cas_entry].
    destruct raw as [|x raw]; [done|]. rewrite len_cons. pose proof (len_nonneg raw). by rewrite (proj2 (Z.eqb_neq _ 0)) by lia.
  - unfold burn_join. change (rec_Value (entry_record (Some key) e size false)) with raw. rewrite Hdec. cbn [jr_ExpiresAt jr_Reusable jr_CreatedBy jr].
    assert (negb ((if 0 <? ttl then now + ttl / second else 0) =? 0) && ((if 0 <? ttl then now + ttl / second else 0) <? now') = false) as ->.
    { destruct (Z.ltb_spec 0 ttl); [|done]. rewrite (proj2 (Z.ltb_ge _ now')) by lia. apply andb_false_r. }
    cbn [entry_record rec_Head RecordValue]. rewrite Hb. fold key. change (hd_Version _) with (e_version e). by rewrite Hp.
Qed.

End Props.

(** ** Witnesses *)

Section Witness.
#[local] Existing Instances flat_uuid flat_uuid_laws mem_badger mem_spec flat_store flat_store_laws
  flat_value flat_iam_structs flat_argon2 flat_argon2_laws flat_order flat_order_laws flat_x509 flat_maps flat_maps_laws flat_text flat_text_laws.
#[local] Instance cli_join_struct : Struct JoinRecord := flat_struct JoinRecord.
#[local] Instance cli_user_codable : Codable UserRecord := flat_codable UserRecord.
#[local] Instance cli_policy_codable : Codable PolicyRecord := flat_codable PolicyRecord.
#[local] Instance cli_join_codable : Codable JoinRecord := flat_codable JoinRecord.

Definition no_dial : iamDial := {| di_Address := []; di_User := []; di_Password := []; di_Token := [] |}.

Definition cli_node : Endpoint (W := KeyValueStorageCtx) := {| ep_world := demo_storage; ep_policy := None |}.

Lemma grants_agree_witness :
  holds (mergeBinding [{| bd_Role := str "r"; bd_Members := [str "a"] |}] (str "r") [str "b"]) (str "r") (str "b").
Proof.
  apply (grants_agree [{| bd_Role := str "r"; bd_Members := [str "a"] |}] (str "r") [str "b"] (str "r") (str "b")); [discriminate|].
  apply applyBinding_holds; [discriminate|]. rewrite decide_True by reflexivity. right. apply list_elem_of_here.
Defined.

(** An administrator with a generated password. *)
Definition cli_added := IamUserAdd_Run None false 100 ∅ no_dial (str "ann") [] true (Ret [xab; xcd]) (Ret (str "salt")) cli_node.


(** The user record without the binding. *)
Definition half_done : Endpoint (W := KeyValueStorageCtx) :=
  snd (IamUserAdd_Run None false 100 ∅ no_dial (str "ann") (str "pw") false (Ret []) (Ret (str "salt")) cli_node).

Lemma bootstrap_not_resumed_witness :
  contents (ep_world (snd (IamBootstrap_Run None false 200 ∅ no_dial (str "ann") (str "new") (Ret []) (Ret (str "salt")) half_done))) = contents (ep_world half_done).
Proof.
  destruct (contents (ep_world half_done) !! iam_pk (UserPrefix ++ str "ann")) as [e|] eqn:Ee; [|vm_compute in Ee; discriminate].
  apply (bootstrap_not_resumed false 200 ∅ no_dial (str "ann") (str "new") (Ret []) (Ret (str "salt")) half_done _
    (fst (IamBootstrap_Run None false 200 ∅ no_dial (str "ann") (str "new") (Ret []) (Ret (str "salt")) half_done)) e mem_reliable Ee).
  - assert (e_version <$> (contents (ep_world half_done) !! iam_pk (UserPrefix ++ str "ann")) = Some 1) as Hv by (vm_compute; reflexivity).
    rewrite Ee in Hv. injection Hv as ->. discriminate.
  - apply surjective_pairing.
Defined.

Definition cli_minted := ClusterJoinToken_Run None false 100 ∅ no_dial (Ret (1800 * second)) (Ret [x01]) cli_node.

Lemma cli_join_token_redeems_witness :
  exists rec jr st, find_join None 1900 demo_env (str "join-01") (str "n2") (ep_world (snd cli_minted)) = (Ret rec, ep_world (snd cli_minted)) /\
    iam_Decode (rec_Value rec) = Ret jr /\ jr_Reusable jr = false /\ jr_ExpiresAt jr = 1900 /\
    burn_join None 1900 (str "join-01") rec (ep_world (snd cli_minted)) = (Ret tt, st).
Proof.
  apply (cli_join_token_redeems false 100 1900 (1800 * second) ∅ no_dial (Ret [x01]) cli_node (snd cli_minted) (str "join-01") (str "n2") demo_env mem_reliable).
  - unfold cli_minted. apply pair_by_fst. vm_compute. reflexivity.
  - discriminate.
  - right. vm_compute. discriminate.
Defined.

End Witness.
