(* ===== verification/LedgerCli.v ===== *)
(** * The ledger and backup commands ([cmd/ledger_cmd.go], [cmd/backup_cmd.go])

    Keys, certificates and quorum certificates are files; the disk is a class parameter, the random
    source, the clock and the connections are arguments. What a command prints is its
    result. *)

From S2P Require Import Prelude Sha256 Pb Keys Engine Storage StorageSpec StorageReads StorageProps Value Command Ledger Fsm Service Iam PolicyService Codecs Password Backup Quorum Verify Auth Console Net Admin NodeIdentity.

(** The private keys of circl/bls on disk, and the documented sizes of Ed25519 keys. *)
Class BlsPrivPkg `{BlsPkg} : Type := {
  priv_MarshalBinary : PrivKey -> result bytes;
  bls_KeyGen : bytes -> result PrivKey (* [bls.KeyGen] of the keying material, without salt and info *)
}.

Class BlsPrivLaws `{BlsPrivPkg} : Prop := {
  priv_roundtrip : forall k, exists b, priv_MarshalBinary k = Ret b /\ priv_UnmarshalBinary b = Ret k
}.

Class Ed25519SeedLaws `{Ed25519Pkg} : Prop := {
  ed_seed_key : forall k, ed_NewKeyFromSeed (ed_Seed k) = k;
  ed_seed_size : forall k, len (ed_Seed k) = SeedSize;
  ed_public_size : forall k, len (ed_Public k) = PublicKeySize
}.

Section LedgerCli.
Context `{UuidPkg} `{Badger} `{StorePkg} `{ValuePkg} `{!Struct headRecord} `{!Struct NodeCert} `{!Struct QuorumCertificate}.
Context `{BlsPkg} `{!BlsPrivPkg} `{Ed25519Pkg} `{Argon2Pkg} `{AeadPkg}.
Context {D : Type} `{!OsPkg D}.

(** [os.ReadFile]; the text of its error is not looked at. *)
Definition read_file (path : bytes) (d : D) : result bytes :=
  match ReadFile path d with Some data => Ret data | None => Fail (ErrNew (str "open " ++ path)) end.

Definition writeFile (path data : bytes) (d : D) : option error * D := WriteFile path data mode0600 d.

(** Two files one after the other. *)
Definition write_pair (p1 b1 p2 b2 : bytes) (d : D) : result unit * D :=
  match writeFile p1 b1 d with
  | (Some e, d) => (Fail e, d)
  | (None, d) => match writeFile p2 b2 d with (Some e, d) => (Fail e, d) | (None, d) => (Ret tt, d) end
  end.

(** The bytes of [x, _ := f()]. *)
Definition or_nil (r : result bytes) : bytes := match r with Ret b => b | _ => [] end.

(** ** Keys and certificates *)

(** [ledger.GenerateCA]; [seed] is what the random source gives to [ed25519.GenerateKey]. *)
Definition ledger_GenerateCA (seed : result bytes) : result EdPriv := seed ← seed; Ret (ed_NewKeyFromSeed seed).

(** [GenerateNodeKey]; [ikm] is the keying material that is read from the random source. *)
Definition GenerateNodeKey (ikm : result bytes) : result PrivKey := ikm ← ikm; bls_KeyGen ikm.

(** [LedgerCAInitCommand.Run]. *)
Definition LedgerCAInit_Run (seed : result bytes) (KeyOut PubOut : bytes) (d : D) : result unit * D :=
  match ledger_GenerateCA seed with
  | Ret ca => write_pair KeyOut (ed_Seed ca) PubOut (ed_Public ca) d
  | Fail e => (Fail e, d)
  | Panic => (Panic, d)
  end.

(** [LedgerKeygenCommand.Run]. *)
Definition LedgerKeygen_Run (ikm : result bytes) (KeyOut PubOut : bytes) (d : D) : result unit * D :=
  match GenerateNodeKey ikm with
  | Ret key => write_pair KeyOut (or_nil (priv_MarshalBinary key)) PubOut (or_nil (pub_MarshalBinary (bls_PublicKey key))) d
  | Fail e => (Fail e, d)
  | Panic => (Panic, d)
  end.

(** The certificate [LedgerIssueCommand.Run] makes, encoded. *)
Definition issue_cert (now : Z) (CAKey NodeID NodeKey : bytes) (Days : Z) (d : D) : result bytes :=
  caSeed ← read_file CAKey d;
  ca ← ParseCA caSeed;
  keyBytes ← read_file NodeKey d;
  nodeKey ← ParseNodePrivateKey keyBytes;
  pop ← ProofOfPossession nodeKey NodeID;
  let notAfter := if 0 <? Days then add_days now Days else 0 in
  cert ← Issue ca NodeID (bls_PublicKey nodeKey) pop notAfter;
  EncodeCert cert.

Definition LedgerIssue_Run (now : Z) (CAKey NodeID NodeKey CertOut : bytes) (Days : Z) (d : D) : result unit * D :=
  match issue_cert now CAKey NodeID NodeKey Days d with
  | Fail e => (Fail e, d)
  | Panic => (Panic, d)
  | Ret raw => match writeFile CertOut raw d with (Some e, d) => (Fail e, d) | (None, d) => (Ret tt, d) end
  end.

(** ** Offline verification *)

(** [digest32]: a copy into 32 bytes. *)
Definition digest32 (b : bytes) : bytes := take 32 (b ++ replicate 32 x00).

(** The loop over the certificate files. *)
Fixpoint read_certs (paths : list bytes) (certs : gmap bytes NodeCert) (d : D) : result (gmap bytes NodeCert) :=
  match paths with
  | [] => Ret certs
  | path :: rest =>
      raw ← read_file path d;
      cert ← match DecodeCert raw with Fail e => Fail (ErrWrap path e) | r => r end;
      read_certs rest (<[nc_NodeID cert := cert]> certs) d
  end.

(** The line that is printed: height, digest, signers and threshold. *)
Record verified_line : Type := { vl_height : Z; vl_digest : bytes; vl_signers : Z; vl_threshold : Z }.

Definition LedgerVerify_Run (now : Z) (CAPub QuorumIn : bytes) (CertPaths : list bytes) (Threshold : Z) (d : D) : result verified_line :=
  caPubBytes ← read_file CAPub d;
  caPub ← ParseCAPublicKey caPubBytes;
  qcBytes ← read_file QuorumIn d;
  qc ← DecodeQuorum qcBytes;
  certs ← read_certs CertPaths ∅ d;
  let threshold := if Threshold =? 0 then len (qc_Signers qc) else Threshold in
  _ ← VerifyQuorum caPub (Some qc) certs threshold now;
  Ret {| vl_height := ck_Height (qc_Checkpoint qc); vl_digest := DigestHex (digest32 (ck_Digest (qc_Checkpoint qc)));
         vl_signers := len (qc_Signers qc); vl_threshold := threshold |}.

Fixpoint read_all (paths : list bytes) (d : D) : result (list bytes) :=
  match paths with
  | [] => Ret []
  | p :: rest => raw ← read_file p d; raws ← read_all rest d; Ret (raw :: raws)
  end.

(** The percentages that are printed: at ten per cent steps; division truncates towards zero. *)
Fixpoint printed_steps (lastPct : Z) (pcts : list Z) : list Z :=
  match pcts with
  | [] => []
  | pct :: rest => if negb (Z.quot pct 10 =? Z.quot lastPct 10) then pct :: printed_steps pct rest else printed_steps lastPct rest
  end.

(** [LedgerVerifyBackupCommand.Run]; [fresh], [opened] and [ns] as for [VerifyBackup]. *)
Definition LedgerVerifyBackup_Run (now : Z) (CAPub QuorumIn : bytes) (CertPaths : list bytes) (password : bytes) (Threshold : Z)
    (fresh : result KeyValueStorageCtx) (opened : result (Source * Z)) (ns : list Z) (d : D) : result Result * list Z :=
  match (caCert ← read_file CAPub d; quorum ← read_file QuorumIn d; nodeCerts ← read_all CertPaths d; Ret (caCert, quorum, nodeCerts)) with
  | Fail e => (Fail e, [])
  | Panic => (Panic, [])
  | Ret (caCert, quorum, nodeCerts) =>
      let '(r, trace) := VerifyBackup now {| op_Password := password; op_CACert := caCert; op_QuorumCert := quorum;
                           op_NodeCerts := nodeCerts; op_Threshold := Threshold |} fresh opened ns in
      (res ← r; if negb (rs_Verified res) then Fail (ErrNew (str "NOT VERIFIED: " ++ rs_Message res)) else Ret res,
       printed_steps (-1) trace)
  end.

(** ** Backups *)

(** [s3Options] as they are injected, and the configuration made of them. *)
Record s3Options : Type := {
  so_Endpoint : bytes; so_Region : bytes; so_AccessKey : bytes; so_SecretKey : bytes; so_UseSSL : bool; so_RetainDays : Z; so_Password : bytes }.

Definition s3_config (o : s3Options) : S3Config := {|
  s3_Endpoint := so_Endpoint o; s3_Region := so_Region o; s3_AccessKey := so_AccessKey o; s3_SecretKey := so_SecretKey o;
  s3_UseSSL := so_UseSSL o; s3_RetainDays := so_RetainDays o |}.

Definition resolvePassword (o : s3Options) (flag : bytes) : bytes := if bool_decide (flag = []) then so_Password o else flag.

(** [backupDial] and the credential it attaches, if any. *)
Record backupDial : Type := { bk_Address : bytes; bk_User : bytes; bk_Password : bytes; bk_Token : bytes }.

Definition backup_credential `{ValueMaps} `{!TextMaps} (t : backupDial) : option WVal :=
  if negb (bool_decide (bk_Token t = [])) then
    Some (VMap (MPut (MPut EmptyMap (str "method") (VUtf8 (str "token"))) (str "token") (VUtf8 (bk_Token t))))
  else if negb (bool_decide (bk_User t = [])) then
    Some (VMap (MPut (MPut (MPut EmptyMap (str "method") (VUtf8 (str "password"))) (str "user") (VUtf8 (bk_User t))) (str "pass") (VUtf8 (bk_Password t))))
  else None.

(** The lines that [BackupCommand.Run] prints: whether the dump is encrypted, and the version. *)
Definition Backup_Run `{ValueMaps} `{!TextMaps} {S} (write : Writer S) (t : backupDial) (o : s3Options) (flag : bytes) (sink : result S) (salt noncePfx : result bytes)
    (connect : result unit) (stream : result (list WVal)) (close : S -> option error) : option (result (bool * Z) * option S) :=
  match connect with
  | Fail e => Some (Fail (ErrWrap (str "connect " ++ bk_Address t) e), None)
  | Panic => None
  | Ret _ =>
      let password := resolvePassword o flag in
      '(version, err, d) ← client_Backup write sink password salt noncePfx stream close;
      Some (match err with Some e => Fail e | None => Ret (negb (bool_decide (password = [])), version) end, d)
  end.

Definition Restore_Run `{ValueMaps} `{!TextMaps} (t : backupDial) (o : s3Options) (flag : bytes) (source : result Source) (connect : result unit)
    (chat : list WVal -> option (result (list WVal))) : option (result unit) :=
  match connect with
  | Fail e => Some (Fail (ErrWrap (str "connect " ++ bk_Address t) e))
  | Panic => None
  | Ret _ => client_Restore source (resolvePassword o flag) chat
  end.

End LedgerCli.
