(* ===== verification/LedgerCliProps.v ===== *)
(** * Properties of the ledger and backup commands

    The key ceremony works: the files that ca-init, keygen and issue leave make a node a signer, and
    a certificate of such signers verifies offline. *)

From S2P Require Import Prelude Sha256 Pb Keys Engine Storage StorageSpec StorageReads StorageProps Value Command Ledger Fsm FsmProps Service Iam PolicyService Codecs Password Backup Quorum QuorumProps Verify VerifyProps Auth Console Net Admin NodeIdentity NodeIdentityProps LedgerCli.

Section Props.
Context `{UuidPkg} `{Badger} `{StorePkg} `{ValuePkg} `{!ValueLaws} `{!Struct headRecord} `{!Struct NodeCert} `{!Struct QuorumCertificate}.
Context `{!StructLaws NodeCert} `{!StructLaws QuorumCertificate}.
Context `{BlsPkg} `{!BlsPrivPkg} `{!BlsLaws} `{!BlsPrivLaws} `{Ed25519Pkg} `{!Ed25519Laws} `{!Ed25519SeedLaws}.
Context {D : Type} `{!OsPkg D} `{!OsLaws D}.

(** [d2] still has the file that [d1] had. *)
Definition keeps (path : bytes) (d1 d2 : D) : Prop := ReadFile path d2 = ReadFile path d1.

Lemma write_pair_ok p1 b1 p2 b2 (d d' : D) :
  write_pair p1 b1 p2 b2 d = (Ret tt, d') -> p1 <> p2 -> ReadFile p1 d' = Some b1 /\ ReadFile p2 d' = Some b2.
Proof.
  unfold write_pair, writeFile. destruct (WriteFile p1 b1 mode0600 d) as [[e|] d1] eqn:E1; [done|].
  destruct (WriteFile p2 b2 mode0600 d1) as [[e|] d2] eqn:E2; [done|]. intros [= <-] Hne.
  split; [|by eapply write_read]. rewrite (write_frame _ _ _ _ _ _ p1 E2) by done. by eapply write_read.
Qed.

(** The certificate of a node without an expiry. *)
Definition node_cert (ca : EdPriv) (key : PrivKey) (id : bytes) : NodeCert :=
  let pub := or_nil (pub_MarshalBinary (bls_PublicKey key)) in
  {| nc_NodeID := id; nc_PublicKey := pub; nc_NotAfter := 0; nc_CASig := ed_Sign ca (certBody id pub 0) |}.

Lemma node_cert_issued ca key id :
  exists pop, ProofOfPossession key id = Ret pop /\ Issue ca id (bls_PublicKey key) pop 0 = Ret (node_cert ca key id).
Proof.
  destruct (pub_roundtrip key) as (b & Hb & _). unfold ProofOfPossession, Issue, node_cert. rewrite Hb. cbn [mbind outcome_bind or_nil].
  eexists. split; [done|]. by rewrite bls_sign_verify.
Qed.

Lemma cert_roundtrip (cert : NodeCert) raw : EncodeCert cert = Ret raw -> DecodeCert raw = Ret cert.
Proof.
  unfold EncodeCert, DecodeCert. destruct (Marshal cert) as [v|?|] eqn:Em; cbn [mbind outcome_bind]; [|done|done]. intros Hp.
  rewrite (unpack_pack v raw Hp). cbn [mbind outcome_bind]. by apply unmarshal_marshal.
Qed.

Lemma quorum_roundtrip (qc : QuorumCertificate) raw : EncodeQuorum qc = Ret raw -> DecodeQuorum raw = Ret qc.
Proof.
  unfold EncodeQuorum, DecodeQuorum. destruct (Marshal qc) as [v|?|] eqn:Em; cbn [mbind outcome_bind]; [|done|done]. intros Hp.
  rewrite (unpack_pack v raw Hp). cbn [mbind outcome_bind]. by apply unmarshal_marshal.
Qed.

(** What [ledger issue] leaves, for keys made by the other two commands. *)
Lemma issue_ok now ca key id caKey nodeKey certOut (d d' : D) :
  ReadFile caKey d = Some (ed_Seed ca) -> ReadFile nodeKey d = Some (or_nil (priv_MarshalBinary key)) ->
  LedgerIssue_Run now caKey id nodeKey certOut 0 d = (Ret tt, d') ->
  exists raw, EncodeCert (node_cert ca key id) = Ret raw /\ ReadFile certOut d' = Some raw.
Proof.
  intros Hca Hkey E. unfold LedgerIssue_Run, issue_cert, read_file in E. rewrite Hca in E. cbn [mbind outcome_bind] in E.
  unfold ParseCA in E. rewrite ed_seed_size, Z.eqb_refl in E. cbn [negb] in E. rewrite ed_seed_key in E. cbn [mbind outcome_bind] in E.
  rewrite Hkey in E. cbn [mbind outcome_bind] in E. destruct (priv_roundtrip key) as (b & Hb & Hu). unfold ParseNodePrivateKey in E.
  rewrite Hb in E. cbn [or_nil] in E. rewrite Hu in E. cbn [mbind outcome_bind] in E.
  destruct (node_cert_issued ca key id) as (pop & Hp & Hi). rewrite Hp in E. cbn [mbind outcome_bind Z.ltb Z.compare] in E. rewrite Hi in E.
  cbn [mbind outcome_bind] in E. destruct (EncodeCert (node_cert ca key id)) as [raw|?|]; [|discriminate E..].
  unfold writeFile in E. destruct (WriteFile certOut raw mode0600 d) as [[e|] d1] eqn:Ew; [discriminate E|]. injection E as <-.
  exists raw. split; [done|]. by eapply write_read.
Qed.

Section Ceremony.
Context (seed : result bytes) (ikm : bytes -> result bytes) (ca : EdPriv) (keys : bytes -> PrivKey) (caKey caPub : bytes) (keyFile pubFile certFile : bytes -> bytes).

(** What is read from the random source makes the keys. *)
Definition generated (nodes : gset bytes) : Prop :=
  ledger_GenerateCA seed = Ret ca /\ forall id, id ∈ nodes -> GenerateNodeKey (ikm id) = Ret (keys id).

(** A node went through keygen and issue, after [ca-init] left the disk [d0], and its two files are
    still on [d]. *)
Definition went_through (d0 d : D) (id : bytes) : Prop :=
  exists now d1 d2 d3 d4, LedgerKeygen_Run (ikm id) (keyFile id) (pubFile id) d1 = (Ret tt, d2) /\ keyFile id <> pubFile id /\
    keeps (keyFile id) d2 d3 /\ keeps caKey d0 d3 /\
    LedgerIssue_Run now caKey id (keyFile id) (certFile id) 0 d3 = (Ret tt, d4) /\
    keeps (keyFile id) d3 d /\ keeps (certFile id) d4 d.

(** The two files it needs. *)
Definition has_files (d : D) (id : bytes) : Prop :=
  exists raw, ReadFile (keyFile id) d = Some (or_nil (priv_MarshalBinary (keys id))) /\
    ReadFile (certFile id) d = Some raw /\ DecodeCert raw = Ret (node_cert ca (keys id) id).

Lemma went_through_files dA d0 d id :
  ledger_GenerateCA seed = Ret ca -> GenerateNodeKey (ikm id) = Ret (keys id) ->
  caKey <> caPub -> LedgerCAInit_Run seed caKey caPub dA = (Ret tt, d0) -> went_through d0 d id -> has_files d id.
Proof.
  intros Gca Gk Hne HA (now & d1 & d2 & d3 & d4 & HK & Hkp & K1 & K2 & HI & K3 & K4).
  unfold LedgerCAInit_Run in HA. unfold LedgerKeygen_Run in HK. rewrite Gca in HA. rewrite Gk in HK.
  destruct (write_pair_ok _ _ _ _ _ _ HA Hne) as [Hca _]. destruct (write_pair_ok _ _ _ _ _ _ HK Hkp) as [Hkey _].
  unfold keeps in *. destruct (issue_ok now ca (keys id) id caKey (keyFile id) (certFile id) d3 d4) as (raw & He & Hr); [congruence|congruence|done|].
  exists raw. split; [congruence|]. split; [congruence|]. by apply cert_roundtrip.
Qed.

Lemma signer_loads d id : has_files d id ->
  LoadNodeSigner (read_file (keyFile id) d) (read_file (certFile id) d) = Ret {| ns_key := keys id; ns_cert := node_cert ca (keys id) id |}.
Proof.
  intros (raw & Hk & Hc & Hd). unfold LoadNodeSigner, read_file. rewrite Hk, Hc. cbn [errorf mbind outcome_bind]. unfold ParseNodePrivateKey.
  destruct (priv_roundtrip (keys id)) as (b & Hb & Hu). rewrite Hb. cbn [or_nil]. rewrite Hu. cbn [errorf mbind outcome_bind]. rewrite Hd.
  cbn [errorf mbind outcome_bind]. unfold NewNodeSigner. destruct (pub_roundtrip (keys id)) as (p & Hp & _). unfold node_cert. rewrite Hp.
  cbn [mbind outcome_bind or_nil nc_PublicKey]. by rewrite bool_decide_eq_true_2.
Qed.

Lemma read_certs_ok d ids acc :
  Forall (fun id => exists raw, ReadFile (certFile id) d = Some raw /\ DecodeCert raw = Ret (node_cert ca (keys id) id)) ids ->
  exists m, read_certs (certFile <$> ids) acc d = Ret m /\
    forall id, id ∈ ids \/ acc !! id = Some (node_cert ca (keys id) id) -> m !! id = Some (node_cert ca (keys id) id).
Proof.
  intros Hall. revert acc. induction Hall as [|x ids (raw & Hr & Hd) _ IH]; intros acc.
  - exists acc. split; [done|]. intros id [?%not_elem_of_nil|]; done.
  - rewrite fmap_cons. cbn [read_certs]. unfold read_file. rewrite Hr. cbn [mbind outcome_bind]. rewrite Hd. cbn [mbind outcome_bind].
    destruct (IH (<[x := node_cert ca (keys x) x]> acc)) as (m & Hm & Hl). exists m. split; [exact Hm|]. intros id Hid. apply Hl.
    destruct (decide (id = x)) as [->|Hne]; [right; by rewrite lookup_insert_eq|]. rewrite lookup_insert_ne by done. set_solver.
Qed.

(** The certificate built from one signature per node: its signers. *)
Lemma built_signers (c : Checkpoint) (nodes : gset bytes) (qc : QuorumCertificate) :
  nodes <> ∅ -> BuildQuorumCertificate c (set_to_map (fun id => (id, SignCheckpoint (keys id) id c)) nodes) = Ret qc ->
  len (qc_Signers qc) = Z.of_nat (size nodes).
Proof.
  intros Hne. destruct (signer_ids (fun id => SignCheckpoint (keys id) id c) nodes Hne) as (_ & _ & _ & Hlen & _ & _).
  unfold BuildQuorumCertificate. destruct (_ =? 0); [done|]. destruct (Aggregate _) as [agg|?|]; cbn [mbind outcome_bind]; [|done|done].
  intros [= <-]. exact Hlen.
Qed.

(** C34: the key ceremony works. Let [ledger ca-init] create the authority from what the random source
    gives, and let every node of a set have gone through [ledger keygen] and [ledger issue] without an expiry, in any order and
    with anything else happening to the disk as long as the files are kept. Then each node's key and
    certificate files load as its signer; and for every checkpoint the nodes sign, the quorum
    certificate exists and encodes, and [ledger verify], given the authority's public key, a file
    with the certificate and the nodes' certificate files, accepts it at any clock and at every
    threshold up to the number of nodes (zero standing for all signers) and prints the height and
    the number of signers. *)
Theorem ledger_ceremony (dA d0 d : D) (nodes : gset bytes) (c : Checkpoint) (threshold now : Z) :
  StructReliable QuorumCertificate -> generated nodes -> caKey <> caPub -> LedgerCAInit_Run seed caKey caPub dA = (Ret tt, d0) -> nodes <> ∅ ->
  (forall id, id ∈ nodes -> went_through d0 d id) -> keeps caPub d0 d -> threshold <= Z.of_nat (size nodes) ->
  (forall id, id ∈ nodes -> exists s, LoadNodeSigner (read_file (keyFile id) d) (read_file (certFile id) d) = Ret s /\
     NodeSigner_Sign s c = SignCheckpoint (keys id) id c) /\
  exists qc raw, BuildQuorumCertificate c (set_to_map (fun id => (id, SignCheckpoint (keys id) id c)) nodes) = Ret qc /\ EncodeQuorum qc = Ret raw /\
    forall path d', ReadFile path d' = Some raw -> keeps caPub d d' -> (forall id, id ∈ nodes -> keeps (certFile id) d d') ->
      exists line, LedgerVerify_Run now caPub path (certFile <$> elements nodes) threshold d' = Ret line /\
        vl_height line = ck_Height c /\ vl_signers line = Z.of_nat (size nodes).
Proof.
  intros [HQ] [Gca Gk] Hne HA Hn Hall Hpub Hth.
  assert (forall id, id ∈ nodes -> has_files d id) as HF by (intros id Hid; by eapply went_through_files; [..|apply Hall]; [|apply Gk| | |]).
  unfold LedgerCAInit_Run in HA. rewrite Gca in HA.
  split; [intros id Hid; eexists; split; [by apply signer_loads, HF|done]|].
  set (certs0 := set_to_map (fun id => (id, node_cert ca (keys id) id)) nodes : gmap bytes NodeCert).
  destruct (honest_quorum ca keys 0 now 0 c nodes certs0 Hn ltac:(lia) ltac:(by left)) as (qc & Hqc & Hck & _).
  { intros id Hid. destruct (node_cert_issued ca (keys id) id) as (pop & Hp & Hi). exists pop, (node_cert ca (keys id) id). split; [done|]. split; [done|].
    unfold certs0. apply lookup_set_to_map; [done|]. by exists id. }
  destruct (HQ qc) as (v & raw & Hv & Hp). assert (EncodeQuorum qc = Ret raw) as He by (unfold EncodeQuorum; by rewrite Hv).
  exists qc, raw. split; [done|]. split; [done|]. intros path d' Hpath Kpub Kcert.
  pose proof (built_signers c nodes qc Hn Hqc) as Hlen. destruct (write_pair_ok _ _ _ _ _ _ HA Hne) as [_ Hcp].
  destruct (read_certs_ok d' (elements nodes) ∅) as (certs & Hcerts & Hl).
  { apply Forall_forall. intros id Hid%elem_of_elements. destruct (HF id Hid) as (r & _ & Hr & Hd). exists r. split; [|done].
    by rewrite (Kcert id Hid). }
  set (t := if threshold =? 0 then len (qc_Signers qc) else threshold).
  assert (t <= Z.of_nat (size nodes)) as Ht by (unfold t; destruct (threshold =? 0); lia).
  destruct (honest_quorum ca keys 0 now t c nodes certs Hn Ht ltac:(by left)) as (qc' & Hqc' & _ & HV).
  { intros id Hid. destruct (node_cert_issued ca (keys id) id) as (pop & Hp' & Hi). exists pop, (node_cert ca (keys id) id). split; [done|]. split; [done|].
    apply Hl. left. by apply elem_of_elements. }
  assert (qc' = qc) as -> by congruence.
  unfold LedgerVerify_Run, read_file. unfold keeps in *. rewrite Kpub, Hpub, Hcp. cbn [mbind outcome_bind]. unfold ParseCAPublicKey.
  rewrite ed_public_size, Z.eqb_refl. cbn [negb mbind outcome_bind]. rewrite Hpath. cbn [mbind outcome_bind]. rewrite (quorum_roundtrip qc raw He).
  cbn [mbind outcome_bind]. rewrite Hcerts. cbn [mbind outcome_bind]. fold t. rewrite HV. cbn [mbind outcome_bind].
  eexists. split; [done|]. cbn. by rewrite Hck.
Qed.

End Ceremony.
End Props.

(** ** Witness *)

(** Keys of one byte, written as thirty-two. *)
Definition wide_ed : Ed25519Pkg := {|
  EdPriv := byte; ed_Public := fun k => replicate 32 k; ed_Sign := fun k m => replicate 32 k ++ m;
  ed_Verify := fun p m s => bool_decide (s = p ++ m); ed_NewKeyFromSeed := fun s => default x00 (head s); ed_Seed := fun k => replicate 32 k
|}.

#[local] Existing Instances flat_value flat_value_laws toy_bls toy_bls_laws wide_ed demo_os demo_os_laws.

Lemma wide_ed_laws : Ed25519Laws.
Proof. split. intros k m. cbn. by rewrite bool_decide_eq_true. Qed.

Lemma wide_ed_seed_laws : Ed25519SeedLaws.
Proof. split; intros k; reflexivity. Qed.

Definition toy_priv : BlsPrivPkg := {| priv_MarshalBinary := fun k : PrivKey => Ret k; bls_KeyGen := fun ikm => Ret (ikm : PrivKey) |}.

#[local] Existing Instances wide_ed_laws wide_ed_seed_laws toy_priv.

Lemma toy_priv_laws : BlsPrivLaws.
Proof. split. intros k. by exists k. Qed.

#[local] Existing Instances toy_priv_laws.
#[local] Instance cli_cert : Struct NodeCert := flat_struct NodeCert.
#[local] Instance cli_cert_laws : StructLaws NodeCert := flat_struct_laws NodeCert.
#[local] Instance cli_quorum : Struct QuorumCertificate := flat_struct QuorumCertificate.
#[local] Instance cli_quorum_laws : StructLaws QuorumCertificate := flat_struct_laws QuorumCertificate.

Definition key_file (id : bytes) : bytes := id ++ str ".key".
Definition pub_file (id : bytes) : bytes := id ++ str ".pub".
Definition cert_file (id : bytes) : bytes := id ++ str ".cert".

Definition demo_keygen (id : bytes) (d : demo_disk) : demo_disk := snd (LedgerKeygen_Run (Ret (toy_key id)) (key_file id) (pub_file id) d).
Definition demo_issue (id : bytes) (d : demo_disk) : demo_disk := snd (LedgerIssue_Run 100 (str "ca.key") id (key_file id) (cert_file id) 0 d).

Definition demo_authority : EdPriv := x07.
Definition demo_inited : demo_disk := snd (LedgerCAInit_Run (Ret [demo_authority]) (str "ca.key") (str "ca.pub") demo_empty).
Definition demo_first : demo_disk := demo_issue (str "n1") (demo_keygen (str "n1") demo_inited).
Definition demo_both : demo_disk := demo_issue (str "n3") (demo_keygen (str "n3") demo_first).

Ltac ran := apply pair_by_fst; vm_compute; reflexivity.
Ltac kept := unfold keeps; vm_compute; reflexivity.

Lemma ledger_ceremony_witness :
  exists qc raw, BuildQuorumCertificate toy_ck (set_to_map (fun id => (id, SignCheckpoint (toy_key id) id toy_ck)) toy_nodes) = Ret qc /\
    EncodeQuorum qc = Ret raw /\
    exists line, LedgerVerify_Run 900 (str "ca.pub") (str "quorum") (cert_file <$> elements toy_nodes) 0
        (snd (writeFile (str "quorum") raw demo_both)) = Ret line /\ vl_height line = 7 /\ vl_signers line = 2.
Proof.
  destruct (ledger_ceremony (Ret [demo_authority]) (fun id => Ret (toy_key id)) demo_authority toy_key (str "ca.key") (str "ca.pub") key_file pub_file cert_file demo_empty demo_inited demo_both
    toy_nodes toy_ck 0 900 (flat_struct_reliable QuorumCertificate)) as [_ (qc & raw & Hqc & He & HV)].
  - split; [reflexivity|]. intros id _. reflexivity.
  - discriminate.
  - ran.
  - intros E. apply (f_equal size) in E. vm_compute in E. discriminate.
  - intros id [->%elem_of_singleton| ->%elem_of_singleton]%elem_of_union.
    + exists 100, demo_inited, (demo_keygen (str "n1") demo_inited), (demo_keygen (str "n1") demo_inited), demo_first.
      split; [ran|]. split; [discriminate|]. split; [kept|]. split; [kept|]. split; [ran|]. split; kept.
    + exists 100, demo_first, (demo_keygen (str "n3") demo_first), (demo_keygen (str "n3") demo_first), demo_both.
      split; [ran|]. split; [discriminate|]. split; [kept|]. split; [kept|]. split; [ran|]. split; kept.
  - kept.
  - vm_compute. discriminate.
  - exists qc, raw. split; [exact Hqc|]. split; [exact He|]. apply HV.
    + apply (lookup_insert_eq (M := gmap bytes)).
    + apply (lookup_insert_ne (M := gmap bytes)). discriminate.
    + intros id [->%elem_of_singleton| ->%elem_of_singleton]%elem_of_union; apply (lookup_insert_ne (M := gmap bytes)); discriminate.
Defined.
