(* ===== verification/Config.v ===== *)
(** * The settings file and the run mode ([pkg/config/config.go], [cmd/init_cmd.go], [pkg/run/config_init.go])

    The settings that are written on a first run or by [init], the file they are rendered to, and
    the decision between a single node and a cluster that is taken from the environment, the
    arguments and the files. The yaml parser is a class parameter. *)

From S2P Require Import Prelude Pb Ledger Password Console Net NodeIdentity Api Cli.

(** Whether a path exists ([os.Stat]; not existing is one of the reasons it can fail), and
    [os.Mkdir]. *)
Class StatPkg (D : Type) : Type := {
  Stat : bytes -> D -> bool;
  stat_notExist : bytes -> D -> bool;
  Mkdir : bytes -> Z -> D -> option error * D
}.

Class StatLaws (D : Type) `{OsPkg D} `{!StatPkg D} : Prop := {
  read_stat : forall path d data, ReadFile path d = Some data -> Stat path d = true
}.

(** A decoded yaml value: a map, in the order in which [range] happens to visit it, or anything
    else, of which only what [fmt.Sprint] prints matters. *)
Inductive YAny : Type :=
  | YScalar (text : bytes)
  | YMap (m : list (bytes * YAny)).

(** [yaml.Unmarshal] into a [map[string]any]; [None] is an error. *)
Class YamlPkg : Type := { yaml_Unmarshal : bytes -> option (list (bytes * YAny)) }.

(** ** Defaults *)

Definition Home (environ : gmap bytes bytes) : bytes :=
  let h := TrimSpace (Getenv environ "CONSENSUSDB_HOME") in
  if negb (bool_decide (h = [])) then h else str ".".

Definition DefaultConfigPath (environ : gmap bytes bytes) : bytes :=
  let c := TrimSpace (Getenv environ "CONSENSUSDB_CONFIG") in
  if negb (bool_decide (c = [])) then c else path_Join [Home environ; str "consensusdb.yaml"].

Definition DefaultDataDir (environ : gmap bytes bytes) : bytes := path_Join [Home environ; str "data"].

Definition ModeSingle : bytes := str "single".
Definition ModeCluster : bytes := str "cluster".

Record Settings : Type := {
  se_Mode : bytes; se_DataDir : bytes; se_HTTPBind : bytes; se_VrpcBind : bytes; se_AuthEnabled : bool;
  se_RaftBind : bytes; se_SerfBind : bytes; se_Bootstrap : bool; se_Advertise : bytes }.

Definition DefaultSettings (environ : gmap bytes bytes) : Settings := {|
  se_Mode := ModeSingle; se_DataDir := DefaultDataDir environ; se_HTTPBind := str "0.0.0.0:8441"; se_VrpcBind := str "0.0.0.0:8444";
  se_AuthEnabled := false; se_RaftBind := []; se_SerfBind := []; se_Bootstrap := false; se_Advertise := [] |}.

(** ** Rendering *)

Definition backslash : byte := x5c.
Definition quote : byte := x22.

(** The replacer of [yq]. *)
Fixpoint yq_escape (s : bytes) : bytes :=
  match s with
  | [] => []
  | c :: rest => (if bool_decide (c = backslash) || bool_decide (c = quote) then [backslash; c] else [c]) ++ yq_escape rest
  end.

Definition yq (s : bytes) : bytes := [quote] ++ yq_escape s ++ [quote].

(** The verb [%t]. *)
Definition fmt_t (b : bool) : bytes := if b then str "true" else str "false".

Definition nl : bytes := [x0a].

(** What [Render] writes, string by string. *)
Definition Render (s : Settings) : bytes := concat ([
  str "# ConsensusDB settings." ++ nl;
  str "# Written on first run; edit and restart to change. Environment variables" ++ nl;
  str "# (CONSENSUSDB_DATA_DIR, AUTH_ENABLED, RAFT_BIND_ADDRESS, …) and -D flags" ++ nl;
  str "# override these. See `consensusdb init --help`." ++ nl ++ nl;
  str "consensusdb:" ++ nl;
  str "  mode: " ++ se_Mode s ++ nl;
  str "  # single: standalone node (no raft). cluster: joins/forms a raft cluster." ++ nl;
  str "  data-dir: " ++ yq (se_DataDir s) ++ nl;
  str "  file-io: true" ++ nl;
  str "  encryption-key: " ++ [quote; quote] ++ str "   # base64 AES-256 master key; empty = unencrypted (see `seal`)" ++ nl ++ nl;
  str "http-server:" ++ nl;
  str "  bind-address: " ++ yq (se_HTTPBind s) ++ str "   # admin console + REST API" ++ nl ++ nl;
  str "vrpc-server:" ++ nl;
  str "  bind-address: " ++ yq (se_VrpcBind s) ++ str "   # value-rpc data plane for clients" ++ nl ++ nl;
  str "auth:" ++ nl;
  str "  enabled: " ++ fmt_t (se_AuthEnabled s) ++ str "   # require a credential / mTLS on the data plane" ++ nl ] ++
  if bool_decide (se_Mode s = ModeCluster) then
    [nl ++ str "# Replication. This node participates in a raft cluster." ++ nl] ++
    (if negb (bool_decide (se_Advertise s = [])) then
       [str "# Detected host address: " ++ se_Advertise s ++ str " (peers must be able to reach this node here)." ++ nl] else []) ++
    [str "raft:" ++ nl;
     str "  bind-address: " ++ yq (se_RaftBind s) ++ nl;
     str "  bootstrap: " ++ fmt_t (se_Bootstrap s) ++ str "   # true on the seed node; false on nodes that join it" ++ nl;
     str "serf:" ++ nl;
     str "  bind-address: " ++ yq (se_SerfBind s) ++ nl]
  else []).

(** ** The file *)

(** [filepath.Dir]. *)
Definition path_Dir (path : bytes) : bytes :=
  Clean (match LastIndexByte path slash with Some i => take (S i) path | None => [] end).

Definition mode0755 : Z := 493.
Definition mode0644 : Z := 420.

(** [strings.ToLower]; letters outside ASCII are left alone. *)
Definition lower_byte (b : byte) : byte := let c := byte_val b in if (65 <=? c) && (c <=? 90) then byte_of (c + 32) else b.
Definition ToLower (s : bytes) : bytes := lower_byte <$> s.

Definition normMode (s : bytes) : bytes :=
  let m := ToLower (TrimSpace s) in
  if bool_decide (m = ModeCluster) then ModeCluster else if bool_decide (m = ModeSingle) then ModeSingle else [].

Definition configFlagPaths : list bytes -> list bytes :=
  fix go (args : list bytes) : list bytes :=
    match args with
    | [] => []
    | a :: rest =>
        if bool_decide (a = str "-c") || bool_decide (a = str "--config") then
          match rest with next :: rest => next :: go rest | [] => [] end
        else if HasPrefix a (str "--config=") then TrimPrefix a (str "--config=") :: go rest
        else if HasPrefix a (str "-c=") then TrimPrefix a (str "-c=") :: go rest
        else go rest
    end.

Definition dotted (prefix k : bytes) : bytes := if negb (bool_decide (prefix = [])) then prefix ++ str "." ++ k else k.

(** [flatten]: [flatten_value] is the body of its loop. *)
Fixpoint flatten_value (key : bytes) (v : YAny) (out : gmap bytes bytes) : gmap bytes bytes :=
  match v with
  | YScalar text => <[key := text]> out
  | YMap next => fold_left (fun out kv => flatten_value (dotted key (fst kv)) (snd kv) out) next out
  end.

Definition flatten (prefix : bytes) (m : list (bytes * YAny)) (out : gmap bytes bytes) : gmap bytes bytes :=
  fold_left (fun out kv => flatten_value (dotted prefix (fst kv)) (snd kv) out) m out.

Section Config.
Context {D : Type} `{!OsPkg D} `{!StatPkg D} `{YamlPkg}.

Definition Settings_Write (s : Settings) (path : bytes) (d : D) : option error * D :=
  let dir := path_Dir path in
  let write d := WriteFile path (Render s) mode0644 d in
  if negb (bool_decide (dir = [])) then
    match MkdirAll dir mode0755 d with (Some e, d) => (Some e, d) | (None, d) => write d end
  else write d.

Definition Ensure (path : bytes) (s : Settings) (d : D) : result bool * D :=
  if Stat path d then (Ret false, d)
  else match Settings_Write s path d with (Some e, d) => (Fail e, d) | (None, d) => (Ret true, d) end.

(** [ConfigInitializer.PostConstruct], which only logs what [Ensure] answers. *)
Definition ConfigInitializer_PostConstruct (environ : gmap bytes bytes) (path mode : bytes) (d : D) : option error * D :=
  if negb (bool_decide (mode = ModeSingle)) then (None, d)
  else let '(_, d) := Ensure path (DefaultSettings environ) d in (None, d).

Definition peek (configPath : bytes) (d : D) : gmap bytes bytes :=
  match ReadFile configPath d with
  | None => ∅
  | Some data => match yaml_Unmarshal data with None => ∅ | Some m => flatten [] m ∅ end
  end.

(** What a file says in the loop of [ResolveMode]. *)
Definition says_cluster (d : D) (p : bytes) : bool :=
  let flat := peek p d in
  bool_decide (normMode (default [] (flat !! str "consensusdb.mode")) = ModeCluster) ||
  negb (bool_decide (TrimSpace (default [] (flat !! str "raft.bind-address")) = [])).

Definition ResolveMode (environ : gmap bytes bytes) (args : list bytes) (configPath : bytes) (d : D) : bytes :=
  let m := normMode (Getenv environ "CONSENSUSDB_MODE") in
  if negb (bool_decide (m = [])) then m
  else if negb (bool_decide (TrimSpace (Getenv environ "RAFT_BIND_ADDRESS") = [])) then ModeCluster
  else if existsb (says_cluster d) ([configPath] ++ configFlagPaths args) then ModeCluster
  else ModeSingle.

(** ** The init command *)

Record InitCommand : Type := {
  ic_Cluster : bool; ic_Seed : bool; ic_Host : bytes; ic_DataDir : bytes; ic_HTTP : bytes; ic_Vrpc : bytes; ic_Auth : bool;
  ic_Out : bytes; ic_Force : bool }.

Definition init_path (environ : gmap bytes bytes) (t : InitCommand) : bytes :=
  if bool_decide (ic_Out t = []) then DefaultConfigPath environ else ic_Out t.

Definition or_else (x y : bytes) : bytes := if bool_decide (x = []) then y else x.

(** The settings [init] writes; [ip] is what [OutboundIP] finds. *)
Definition init_settings (environ : gmap bytes bytes) (ip : bytes) (t : InitCommand) : Settings :=
  let s := DefaultSettings environ in
  let DataDir := or_else (ic_DataDir t) (se_DataDir s) in
  let HTTPBind := or_else (ic_HTTP t) (se_HTTPBind s) in
  let VrpcBind := or_else (ic_Vrpc t) (se_VrpcBind s) in
  if ic_Cluster t then
    let host := or_else (or_else (ic_Host t) ip) (str "0.0.0.0") in
    {| se_Mode := ModeCluster; se_DataDir := DataDir; se_HTTPBind := HTTPBind; se_VrpcBind := VrpcBind; se_AuthEnabled := ic_Auth t;
       se_RaftBind := JoinHostPort host (str "8300"); se_SerfBind := JoinHostPort host (str "8301"); se_Bootstrap := ic_Seed t;
       se_Advertise := ip |}
  else
    {| se_Mode := se_Mode s; se_DataDir := DataDir; se_HTTPBind := HTTPBind; se_VrpcBind := VrpcBind; se_AuthEnabled := ic_Auth t;
       se_RaftBind := se_RaftBind s; se_SerfBind := se_SerfBind s; se_Bootstrap := se_Bootstrap s; se_Advertise := se_Advertise s |}.

(** [InitCommand.Run]: the settings that were written and are printed, or that the file exists. *)
Definition Init_Run (environ : gmap bytes bytes) (ip : bytes) (t : InitCommand) (d : D) : result (option Settings) * D :=
  let path := init_path environ t in
  if Stat path d && negb (ic_Force t) then (Ret None, d)
  else
    let s := init_settings environ ip t in
    match Settings_Write s path d with
    | (Some e, d) => (Fail (ErrWrap (str "write settings " ++ path) e), d)
    | (None, d) => (Ret (Some s), d)
    end.

End Config.
