(* ===== verification/Process.v ===== *)
(** * The process around the server

    The data directories ([pkg/server/configuration.go], [pkg/util/fsutil.go]), the master key and
    the opening of the store ([pkg/util/master_key.go], [cmd/seal.go], [cmd/unseal.go],
    [OpenKeyValueStorage]), the listener of the data plane ([pkg/replication/vrpc_server.go]), the
    embedded pages, the health endpoints and the metric names ([pkg/run]). Listeners, embedded files
    and the disk are parameters. *)

From S2P Require Import Prelude Pb Keys Engine Storage Ledger Password Console Net NodeIdentity Api Cli LedgerCli Config.

(** ** Data directories *)

Record Configuration : Type := {
  cf_DataDir : bytes; cf_NumCPU : Z; cf_EncryptionKey : bytes;
  cf_KeyDir : bytes; cf_ValueDir : bytes; cf_WalDir : bytes; cf_SnapDir : bytes; cf_LogDir : bytes }.

Section Directories.
Context {D : Type} `{!OsPkg D} `{!StatPkg D}.

Fixpoint CreateDirsIfNotExist (dirs : list bytes) (d : D) : option error * D :=
  match dirs with
  | [] => (None, d)
  | dir :: rest =>
      if stat_notExist dir d then
        match Mkdir dir mode0755 d with (Some e, d) => (Some e, d) | (None, d) => CreateDirsIfNotExist rest d end
      else CreateDirsIfNotExist rest d
  end.

(** [Configuration.PostConstruct]; the number of processors is a setting of the runtime. *)
Definition Configuration_PostConstruct (t : Configuration) (d : D) : result Configuration * D :=
  let dir name := path_Join [cf_DataDir t; str name] in
  let t := {| cf_DataDir := cf_DataDir t; cf_NumCPU := cf_NumCPU t; cf_EncryptionKey := cf_EncryptionKey t;
              cf_KeyDir := dir "key"%string; cf_ValueDir := dir "value"%string; cf_WalDir := dir "WAL"%string;
              cf_SnapDir := dir "snapshot"%string; cf_LogDir := dir "log"%string |} in
  match MkdirAll (cf_DataDir t) mode0755 d with
  | (Some e, d) => (Fail e, d)
  | (None, d) =>
      match CreateDirsIfNotExist [cf_KeyDir t; cf_ValueDir t; cf_WalDir t; cf_SnapDir t; cf_LogDir t] d with
      | (Some e, d) => (Fail e, d)
      | (None, d) => (Ret t, d)
      end
  end.

End Directories.

(** ** The master key *)

(** [base64.RawURLEncoding]: the two last digits are [-] and [_]. *)
Definition to_url (b : byte) : byte := if bool_decide (b = x2b) then x2d else if bool_decide (b = x2f) then x5f else b.

(** The other way; the two digits of the standard alphabet are not digits here. *)
Definition from_url (b : byte) : byte :=
  if bool_decide (b = x2d) then x2b else if bool_decide (b = x5f) then x2f
  else if bool_decide (b = x2b) || bool_decide (b = x2f) then x21 else b.

Definition RawURL_EncodeToString (l : bytes) : bytes := to_url <$> EncodeToString l.
Definition RawURL_DecodeString (s : bytes) : option bytes := DecodeString (from_url <$> s).

Definition KeySize : Z := 32.

(** [nonce] are the random bytes, [KeySize] of them. *)
Definition GenerateMasterKey (nonce : result bytes) : result bytes := n ← nonce; Ret (RawURL_EncodeToString n).

Definition ParseMasterKey (base64key : bytes) : result bytes :=
  match RawURL_DecodeString base64key with
  | None => Fail (ErrNew (str "illegal base64 data"))
  | Some key => if negb (len key =? KeySize) then Fail (ErrNew (str "wrong key size " ++ fmt_d (len key))) else Ret key
  end.

(** [SealCommand.Run] and [UnsealCommand.Run]: what they print. *)
Definition Seal_Run (nonce : result bytes) : result bytes := GenerateMasterKey nonce.

(** [PromptPassword] trims the line it reads. *)
Definition PromptPassword (line : bytes) : bytes := TrimSpace line.

Definition Unseal_Run (line : bytes) : result bytes := ParseMasterKey (TrimSpace (PromptPassword line)).

(** ** Opening the store *)

Definition encryptionIndexCacheSize : Z := Z.shiftl 128 20.

(** The options of badger that are set. *)
Record BadgerOptions : Type := {
  bo_Dir : bytes; bo_ValueDir : bytes; bo_CompactL0OnClose : bool; bo_EncryptionKey : bytes; bo_IndexCacheSize : Z }.

(** The options of [OpenKeyValueStorage]; without a key badger's default cache size stays. *)
Definition open_options (defaultIndexCacheSize : Z) (conf : Configuration) : result BadgerOptions :=
  let opts := {| bo_Dir := cf_KeyDir conf; bo_ValueDir := cf_ValueDir conf; bo_CompactL0OnClose := true; bo_EncryptionKey := [];
                 bo_IndexCacheSize := defaultIndexCacheSize |} in
  if negb (bool_decide (cf_EncryptionKey conf = [])) then
    match ParseMasterKey (cf_EncryptionKey conf) with
    | Ret key => Ret {| bo_Dir := bo_Dir opts; bo_ValueDir := bo_ValueDir opts; bo_CompactL0OnClose := bo_CompactL0OnClose opts;
                        bo_EncryptionKey := key; bo_IndexCacheSize := encryptionIndexCacheSize |}
    | Fail e => Fail (ErrWrap (str "invalid 'consensusdb.encryption-key'") e)
    | Panic => Panic
    end
  else Ret opts.

Section Open.
Context `{UuidPkg} `{Badger} `{StorePkg}.

(** [open] is [badger.Open]. *)
Definition OpenKeyValueStorage (defaultIndexCacheSize : Z) (open : BadgerOptions -> result DB) (conf : Configuration) : result KeyValueStorageCtx :=
  opts ← open_options defaultIndexCacheSize conf;
  db ← open opts;
  Ret {| db := db; hub := Some [] |}.

End Open.

(** ** The data-plane listener *)

(** [strings.Index]. *)
Fixpoint Index (s sub : bytes) : option nat :=
  if HasPrefix s sub then Some 0%nat else match s with [] => None | _ :: rest => S <$> Index rest sub end.

Definition splitAddressScheme (address : bytes) : bytes * bytes :=
  match Index address (str "://") with
  | Some i => (take i address, drop (i + 3) address)
  | None => (str "tcp", address)
  end.

Section Vrpc.
Context `{TlsPkg} {D : Type} `{!OsPkg D}.

(** The server that is started: in process under a name, over TCP or a socket, or over TLS. *)
Inductive vrpc_server : Type :=
  | MemServer (name : bytes)
  | PlainServer (address : bytes)
  | TLSServer (rest : bytes) (cfg : tls_Config)
  | QuicServer (rest : bytes) (cfg : tls_Config).

(** The properties of the bean, absent ones with their defaults. *)
Record VrpcProps : Type := {
  vp_bind_address : bytes; vp_tls_cert : bytes; vp_tls_key : bytes; vp_client_auth : bool; vp_tls_ca : bytes }.

(** [tls.LoadX509KeyPair]. *)
Definition LoadX509KeyPair (certFile keyFile : bytes) (d : D) : result tls_Certificate :=
  certPEM ← read_file certFile d; keyPEM ← read_file keyFile d; X509KeyPair certPEM keyPEM.

Definition vrpc_error (beanName msg : bytes) : error := ErrNew (str "vrpc server " ++ fmt_q beanName ++ str ": " ++ msg).

Definition vrpc_wrap {A} (beanName : bytes) (what : string) (r : result A) : result A :=
  match r with Fail e => Fail (ErrWrap (str "vrpc server " ++ fmt_q beanName ++ str ": " ++ str what) e) | r => r end.

Definition serverTLS (beanName : bytes) (p : VrpcProps) (d : D) : result tls_Config :=
  if bool_decide (vp_tls_cert p = []) || bool_decide (vp_tls_key p = []) then
    Fail (vrpc_error beanName (str "tls/quic transport requires " ++ beanName ++ str ".tls-cert and " ++ beanName ++ str ".tls-key"))
  else
    cert ← vrpc_wrap beanName "load key pair" (LoadX509KeyPair (vp_tls_cert p) (vp_tls_key p) d);
    if vp_client_auth p then
      if bool_decide (vp_tls_ca p = []) then
        Fail (vrpc_error beanName (str "client-auth requires " ++ beanName ++ str ".tls-ca (CA bundle to verify client certs)"))
      else
        pem ← vrpc_wrap beanName "read tls-ca" (read_file (vp_tls_ca p) d);
        match AppendCertsFromPEM pem with
        | None => Fail (vrpc_error beanName (str "tls-ca " ++ fmt_q (vp_tls_ca p) ++ str " has no certificates"))
        | Some pool => Ret {| tc_Certificates := [cert]; tc_RootCAs := None; tc_ClientCAs := Some pool;
                              tc_RequireAndVerifyClientCert := true; tc_ServerName := []; tc_MinVersion := VersionTLS12 |}
        end
    else Ret {| tc_Certificates := [cert]; tc_RootCAs := None; tc_ClientCAs := None;
                tc_RequireAndVerifyClientCert := false; tc_ServerName := []; tc_MinVersion := VersionTLS12 |}.

(** [Object]; [listen] says whether the server could be created, [counter] is the number of
    in-process servers so far. *)
Definition vrpc_Object (listen : vrpc_server -> option error) (beanName : bytes) (p : VrpcProps) (counter : Z) (d : D) : result vrpc_server * Z :=
  let start srv := match listen srv with Some e => Fail e | None => Ret srv end in
  if bool_decide (vp_bind_address p = []) then
    let counter := int64 (counter + 1) in
    (start (MemServer (beanName ++ str "-disabled-" ++ fmt_d counter)), counter)
  else
    let '(scheme, rest) := splitAddressScheme (vp_bind_address p) in
    let made :=
      if bool_decide (scheme = str "tls") then cfg ← serverTLS beanName p d; start (TLSServer rest cfg)
      else if bool_decide (scheme = str "quic") then cfg ← serverTLS beanName p d; start (QuicServer rest cfg)
      else if bool_decide (scheme ∈ [[]; str "tcp"; str "unix"]) then start (PlainServer (vp_bind_address p))
      else Fail (vrpc_error beanName (str "unsupported address scheme " ++ fmt_q scheme ++ str " (want tcp/tls/quic/unix)")) in
    (made, counter).

End Vrpc.

(** ** Pages, assets and health *)

(** An answer: status, content type, cache header and body. *)
Record Page : Type := { pg_status : Z; pg_ctype : bytes; pg_cache : bytes; pg_body : bytes }.

Definition NotFound : Page := {| pg_status := StatusNotFound; pg_ctype := str "text/plain; charset=utf-8"; pg_cache := []; pg_body := str "404 page not found" ++ nl |}.

Section Web.
Variable Asset : bytes -> option bytes.             (* the files in the binary *)
Variable ContentType : bytes -> bytes -> bytes.     (* by the extension of a name, or by the data *)
Variable placeholder : bytes.

(** [serveEmbedded]; conditional and range requests are those of [http.ServeContent]. *)
Definition serveEmbedded (name : bytes) : Page :=
  match Asset name with
  | None => NotFound
  | Some data =>
      {| pg_status := StatusOK; pg_ctype := ContentType name data;
         pg_cache := if HasPrefix name (str "assets/") then str "public, max-age=31536000, immutable" else str "no-cache";
         pg_body := data |}
  end.

(** [PageHandler.ServeHTTP]; [ok] is whether the page was in the binary at construction. *)
Definition Page_ServeHTTP (page : bytes) (ok : bool) : Page :=
  if negb ok then {| pg_status := StatusOK; pg_ctype := str "text/html; charset=utf-8"; pg_cache := []; pg_body := placeholder |}
  else serveEmbedded page.

(** The file an asset request is about, if it is about one. *)
Definition asset_name (urlPath : bytes) : option bytes :=
  let name := TrimPrefix (Clean urlPath) (str "/") in
  if negb (HasPrefix name (str "assets/")) then None else Some name.

Definition Assets_ServeHTTP (urlPath : bytes) : Page :=
  match asset_name urlPath with None => NotFound | Some name => serveEmbedded name end.

End Web.

Definition StatusMethodNotAllowed : Z := 405.

(** [HealthHandler.ServeHTTP]: status and body. *)
Definition Health_ServeHTTP (method : bytes) : Z * bytes :=
  if negb (bool_decide (method = str "GET")) && negb (bool_decide (method = str "HEAD")) then
    (StatusMethodNotAllowed, str "method not allowed" ++ nl)
  else (StatusOK, if negb (bool_decide (method = str "HEAD")) then str "OK" else []).

(** ** Metric names *)

(** [sanitizeMetricName], for a name of ASCII characters. *)
Definition metric_byte (b : byte) : byte :=
  let c := byte_val b in
  if ((97 <=? c) && (c <=? 122)) || ((65 <=? c) && (c <=? 90)) || ((48 <=? c) && (c <=? 57)) || bool_decide (b = x5f) || bool_decide (b = x3a)
  then b else x5f.

Definition sanitizeMetricName (name : bytes) : bytes := metric_byte <$> name.

(** A variable of [expvar], and the samples [Collect] emits: name, label and value. Values are left
    abstract: a metric carries the float of the variable. *)
Inductive expvar (V : Type) : Type :=
  | XInt (v : V)
  | XFloat (v : V)
  | XMap (entries : list (bytes * option V))   (* [None]: an entry that is neither *)
  | XOther.
Arguments XInt {V} v.
Arguments XFloat {V} v.
Arguments XMap {V} entries.
Arguments XOther {V}.

Definition collect_one {V} (prefix : bytes) (kv : bytes * expvar V) : list (bytes * option bytes * V) :=
  let '(key, value) := kv in
  if negb (HasPrefix key prefix) then []
  else
    let name := sanitizeMetricName key in
    match value with
    | XInt v | XFloat v => [(name, None, v)]
    | XMap entries => omap (fun e => match snd e with Some v => Some (name, Some (fst e), v) | None => None end) entries
    | XOther => []
    end.

Definition Collect {V} (prefix : bytes) (vars : list (bytes * expvar V)) : list (bytes * option bytes * V) := vars ≫= collect_one prefix.
