(* ===== verification/ConfigProps.v ===== *)
(** * Properties of the settings file and the run mode

    What [init] writes is read back: every property with its value, and the mode. The mode is decided
    by the environment first and by any file that asks for a cluster. A settings file that is there is
    never replaced unasked. *)

From S2P Require Import Prelude Pb Ledger Password Console Net NodeIdentity NodeIdentityProps Api Cli Config.

(** ** The part of yaml that is written *)

(** Printable ASCII; a comment may also have an ellipsis. *)
Definition printable (c : byte) : Prop := 32 <= byte_val c <= 126.

#[global] Instance printable_dec c : Decision (printable c).
Proof. unfold printable. apply _. Defined.

Fixpoint comment_from (pending s : bytes) : bool :=
  match s, pending with
  | [], _ => bool_decide (pending = [])
  | c :: rest, p :: pending => bool_decide (c = p) && comment_from pending rest
  | c :: rest, [] => if bool_decide (c = xe2) then comment_from [x80; xa6] rest else bool_decide (printable c) && comment_from [] rest
  end.

Definition comment_ok (s : bytes) : bool := comment_from [] s.

(** A name: letters and dashes. *)
Definition name_byte (c : byte) : Prop := 97 <= byte_val c <= 122 \/ c = x2d.

#[global] Instance name_byte_dec c : Decision (name_byte c).
Proof. unfold name_byte. apply _. Defined.

Definition name_ok (s : bytes) : Prop := s <> [] /\ Forall name_byte s.

#[global] Instance name_ok_dec s : Decision (name_ok s).
Proof. unfold name_ok. apply _. Defined.

(** What the text between double quotes denotes, for the two escapes that are used. *)
Fixpoint dq_value (body : bytes) : option bytes :=
  match body with
  | [] => Some []
  | c :: rest =>
      if bool_decide (c = quote) then None
      else if bool_decide (c = backslash) then
        match rest with
        | e :: rest => if bool_decide (e = backslash) || bool_decide (e = quote) then cons e <$> dq_value rest else None
        | [] => None
        end
      else cons c <$> dq_value rest
  end.

(** Values: a text between double quotes, or one of four plain words. *)
Inductive scalar : Type := Quoted (body : bytes) | Word (w : bytes).

Definition scalar_text (v : scalar) : bytes := match v with Quoted body => [quote] ++ body ++ [quote] | Word w => w end.
Definition scalar_value (v : scalar) : bytes := match v with Quoted body => default [] (dq_value body) | Word w => w end.

Definition scalar_ok (v : scalar) : Prop :=
  match v with
  | Quoted body => Forall printable body /\ is_Some (dq_value body)
  | Word w => w ∈ [str "single"; str "cluster"; str "true"; str "false"]
  end.

(** Lines: blank, a comment, the name of a group, and an entry of it that can end in a comment. *)
Inductive yline : Type :=
  | Blank
  | Comment (indent : nat) (text : bytes)
  | Group (name : bytes)
  | Entry (key : bytes) (v : scalar) (note : bytes).

(** The comment after an entry. *)
Definition note_text (note : bytes) : bytes := if bool_decide (note = []) then [] else str "   # " ++ note.

Definition line_text (l : yline) : bytes :=
  match l with
  | Blank => []
  | Comment n text => replicate n x20 ++ str "# " ++ text
  | Group name => name ++ str ":"
  | Entry key v note => str "  " ++ key ++ str ": " ++ scalar_text v ++ note_text note
  end.

Definition doc_text (lines : list yline) : bytes := concat ((fun l => line_text l ++ nl) <$> lines).

Definition line_ok (l : yline) : Prop :=
  match l with
  | Blank => True
  | Comment _ text => comment_ok text = true
  | Group name => name_ok name
  | Entry key v note => name_ok key /\ scalar_ok v /\ comment_ok note = true
  end.

(** The entries before the first group, and the groups with their entries. *)
Fixpoint doc_groups (lines : list yline) : list (bytes * bytes) * list (bytes * list (bytes * bytes)) :=
  match lines with
  | [] => ([], [])
  | Group name :: rest => let '(loose, gs) := doc_groups rest in ([], (name, loose) :: gs)
  | Entry key v _ :: rest => let '(loose, gs) := doc_groups rest in ((key, scalar_value v) :: loose, gs)
  | _ :: rest => doc_groups rest
  end.

(** A document: no entry outside a group, no empty group and no key twice. *)
Definition doc_ok (lines : list yline) : Prop :=
  Forall line_ok lines /\ fst (doc_groups lines) = [] /\
  NoDup (fst <$> snd (doc_groups lines)) /\ Forall (fun g => snd g <> [] /\ NoDup (fst <$> snd g)) (snd (doc_groups lines)).

(** A decoded map with these groups, in whatever order it is visited. *)
Definition reads_as (gs : list (bytes * list (bytes * bytes))) (m : list (bytes * YAny)) : Prop :=
  exists ms, Forall2 (fun g y => fst y = fst g /\ exists es, snd y = YMap es /\ es ≡ₚ ((fun e => (fst e, YScalar (snd e))) <$> snd g)) gs ms /\ m ≡ₚ ms.

(** What yaml says about such documents. *)
Class YamlLaws `{YamlPkg} : Prop := {
  yaml_document : forall lines, doc_ok lines -> exists m, yaml_Unmarshal (doc_text lines) = Some m /\ reads_as (snd (doc_groups lines)) m
}.

(** ** Flattening does not depend on the order *)

(** The properties of a document. *)
Definition group_props (g : bytes * list (bytes * bytes)) : list (bytes * bytes) := (fun e => (dotted (fst g) (fst e), snd e)) <$> snd g.
Definition doc_props (gs : list (bytes * list (bytes * bytes))) : list (bytes * bytes) := gs ≫= group_props.

Definition put (out : gmap bytes bytes) (kv : bytes * bytes) : gmap bytes bytes := <[fst kv := snd kv]> out.

Lemma flatten_group name es (g : list (bytes * bytes)) out :
  es ≡ₚ ((fun e => (fst e, YScalar (snd e))) <$> g) ->
  exists g', g' ≡ₚ group_props (name, g) /\ flatten_value name (YMap es) out = fold_left put g' out.
Proof.
  intros HP. apply Permutation_map_inv in HP as (g' & -> & HP).
  exists (group_props (name, g')). split; [unfold group_props; cbn [fst snd]; by rewrite HP|].
  unfold group_props. cbn [fst snd flatten_value]. clear HP. revert out. induction g' as [|e g' IH]; intros out; [done|].
  rewrite !fmap_cons. cbn [map fold_left]. apply IH.
Qed.

Lemma flatten_groups gs ms out :
  Forall2 (fun g y => fst y = fst g /\ exists es, snd y = YMap es /\ es ≡ₚ ((fun e => (fst e, YScalar (snd e))) <$> snd g)) gs ms ->
  exists ps, ps ≡ₚ doc_props gs /\ flatten [] ms out = fold_left put ps out.
Proof.
  intros HF. revert out. induction HF as [|[n g] [n' y] gs ms (Hn & es & Hy & He) _ IH]; intros out; [by exists []|].
  cbn [fst snd] in *. subst n' y. destruct (flatten_group n es g out He) as (g' & Hg & Ef).
  destruct (IH (fold_left put g' out)) as (ps & Hps & Er). exists (g' ++ ps). split.
  - unfold doc_props. rewrite bind_cons. by rewrite Hg, Hps.
  - rewrite fold_left_app, <- Er. unfold flatten. cbn [fold_left fst snd]. by rewrite <- Ef.
Qed.

Lemma fold_put (ps : list (bytes * bytes)) (out : gmap bytes bytes) : NoDup (fst <$> ps) -> fold_left put ps out = list_to_map ps ∪ out.
Proof.
  revert out. induction ps as [|[k v] ps IH]; intros out; [intros _; symmetry; apply (left_id_L ∅ (∪))|].
  rewrite fmap_cons. cbn [fst]. rewrite NoDup_cons. intros [Hk Hn]. cbn [fold_left]. rewrite IH by done. unfold put. cbn [fst snd list_to_map foldr].
  change (foldr (fun p => <[p.1 := p.2]>) ∅ ps) with (list_to_map ps : gmap bytes bytes).
  rewrite <- insert_union_l, insert_union_r; [done|]. by apply not_elem_of_list_to_map.
Qed.

Lemma reads_as_flatten gs m : reads_as gs m -> NoDup (fst <$> doc_props gs) -> flatten [] m ∅ = list_to_map (doc_props gs).
Proof.
  intros (ms & HF & HP) Hn. symmetry in HP.
  assert (exists gs', gs' ≡ₚ gs /\ Forall2 (fun g y => fst y = fst g /\ exists es, snd y = YMap es /\ es ≡ₚ ((fun e => (fst e, YScalar (snd e))) <$> snd g)) gs' m)
    as (gs' & Hgs & HF').
  { apply Forall2_flip in HF. destruct (Permutation_Forall2 HP HF) as (gs' & ? & HF'). exists gs'. split; [done|]. by apply Forall2_flip. }
  destruct (flatten_groups gs' m ∅ HF') as (ps & Hps & ->).
  assert (ps ≡ₚ doc_props gs) as Hp by (rewrite Hps; unfold doc_props; by rewrite Hgs).
  rewrite fold_put by (by rewrite Hp). transitivity (list_to_map ps : gmap bytes bytes); [apply (right_id_L ∅ (∪))|]. apply list_to_map_proper; [by rewrite Hp|done].
Qed.

(** ** The settings file as a document *)

Definition settings_doc (s : Settings) : list yline := [
  Comment 0 (str "ConsensusDB settings.");
  Comment 0 (str "Written on first run; edit and restart to change. Environment variables");
  Comment 0 (str "(CONSENSUSDB_DATA_DIR, AUTH_ENABLED, RAFT_BIND_ADDRESS, …) and -D flags");
  Comment 0 (str "override these. See `consensusdb init --help`.");
  Blank;
  Group (str "consensusdb");
  Entry (str "mode") (Word (se_Mode s)) [];
  Comment 2 (str "single: standalone node (no raft). cluster: joins/forms a raft cluster.");
  Entry (str "data-dir") (Quoted (yq_escape (se_DataDir s))) [];
  Entry (str "file-io") (Word (str "true")) [];
  Entry (str "encryption-key") (Quoted []) (str "base64 AES-256 master key; empty = unencrypted (see `seal`)");
  Blank;
  Group (str "http-server");
  Entry (str "bind-address") (Quoted (yq_escape (se_HTTPBind s))) (str "admin console + REST API");
  Blank;
  Group (str "vrpc-server");
  Entry (str "bind-address") (Quoted (yq_escape (se_VrpcBind s))) (str "value-rpc data plane for clients");
  Blank;
  Group (str "auth");
  Entry (str "enabled") (Word (fmt_t (se_AuthEnabled s))) (str "require a credential / mTLS on the data plane")] ++
  if bool_decide (se_Mode s = ModeCluster) then
    [Blank; Comment 0 (str "Replication. This node participates in a raft cluster.")] ++
    (if negb (bool_decide (se_Advertise s = [])) then
       [Comment 0 (str "Detected host address: " ++ se_Advertise s ++ str " (peers must be able to reach this node here).")] else []) ++
    [Group (str "raft");
     Entry (str "bind-address") (Quoted (yq_escape (se_RaftBind s))) [];
     Entry (str "bootstrap") (Word (fmt_t (se_Bootstrap s))) (str "true on the seed node; false on nodes that join it");
     Group (str "serf");
     Entry (str "bind-address") (Quoted (yq_escape (se_SerfBind s))) []]
  else [].

Lemma Render_doc s : Render s = doc_text (settings_doc s).
Proof.
  unfold Render, yq, doc_text, settings_doc. rewrite fmap_app, !concat_app. f_equal.
  - cbn [fmap list_fmap concat line_text scalar_text]. unfold note_text. rewrite !bool_decide_eq_true_2 by done. rewrite !bool_decide_eq_false_2 by done.
    rewrite <- !app_assoc. reflexivity.
  - case_bool_decide; [|done]. rewrite !fmap_app, !concat_app. f_equal. f_equal.
    + destruct (negb _); [|done]. cbn [fmap list_fmap concat line_text]. rewrite <- !app_assoc. reflexivity.
    + cbn [fmap list_fmap concat line_text scalar_text]. unfold note_text. rewrite !bool_decide_eq_true_2 by done. rewrite !bool_decide_eq_false_2 by done.
      rewrite <- !app_assoc. reflexivity.
Qed.

(** Settings that can be written: a known mode and printable texts. *)
Definition settings_ok (s : Settings) : Prop :=
  (se_Mode s = ModeSingle \/ se_Mode s = ModeCluster) /\ Forall printable (se_DataDir s) /\ Forall printable (se_HTTPBind s) /\
  Forall printable (se_VrpcBind s) /\ Forall printable (se_RaftBind s) /\ Forall printable (se_SerfBind s) /\ Forall printable (se_Advertise s).

(** The properties a node gets from them. *)
Definition settings_props (s : Settings) : gmap bytes bytes := list_to_map ([
  (str "consensusdb.mode", se_Mode s);
  (str "consensusdb.data-dir", se_DataDir s);
  (str "consensusdb.file-io", str "true");
  (str "consensusdb.encryption-key", []);
  (str "http-server.bind-address", se_HTTPBind s);
  (str "vrpc-server.bind-address", se_VrpcBind s);
  (str "auth.enabled", fmt_t (se_AuthEnabled s))] ++
  if bool_decide (se_Mode s = ModeCluster) then [
    (str "raft.bind-address", se_RaftBind s);
    (str "raft.bootstrap", fmt_t (se_Bootstrap s));
    (str "serf.bind-address", se_SerfBind s)]
  else []).

Lemma comment_ok_app a b : Forall printable a -> comment_ok b = true -> comment_ok (a ++ b) = true.
Proof.
  intros Ha Hb. induction Ha as [|c a Hc Ha IH]; [done|]. unfold comment_ok. cbn [app comment_from].
  assert (c <> xe2) as Hne by (intros ->; vm_compute in Hc; by destruct Hc).
  rewrite bool_decide_eq_false_2, bool_decide_eq_true_2 by done. exact IH.
Qed.

Ltac forall_tac := repeat first [assumption|apply Forall_nil_2|apply Forall_cons_2].

Ltac computed := apply (bool_decide_unpack _); vm_compute; exact I.

Lemma fmt_t_word b : fmt_t b ∈ [str "single"; str "cluster"; str "true"; str "false"].
Proof. destruct b; computed. Qed.

(** The lines of a settings file, one after the other. *)
Ltac line_tac :=
  match goal with
  | |- line_ok Blank => exact I
  | |- line_ok (Comment _ _) => assumption || (vm_compute; reflexivity)
  | |- line_ok (Group _) => computed
  | |- line_ok (Entry _ _ _) => split; [computed|split; [assumption || (split; [constructor|by eexists])|vm_compute; reflexivity]]
  end.

Ltac lines_tac := repeat (apply Forall_cons_2; [line_tac|]); apply Forall_nil_2.

Lemma dq_yq s : dq_value (yq_escape s) = Some s.
Proof.
  induction s as [|c s IH]; [done|]. cbn [yq_escape]. destruct (bool_decide_reflect (c = backslash)) as [->|Hb]; cbn [orb app dq_value].
  - rewrite bool_decide_eq_false_2, bool_decide_eq_true_2 by done. cbn [orb]. by rewrite IH.
  - destruct (bool_decide_reflect (c = quote)) as [->|Hq]; cbn [app dq_value].
    + rewrite bool_decide_eq_false_2, bool_decide_eq_true_2 by done. cbn [orb]. rewrite ?bool_decide_eq_true_2, ?orb_true_r by done. by rewrite IH.
    + by rewrite !bool_decide_eq_false_2, IH by done.
Qed.

Lemma quoted_value s : scalar_value (Quoted (yq_escape s)) = s.
Proof. cbn [scalar_value]. by rewrite dq_yq. Qed.

Lemma quoted_ok s : Forall printable s -> scalar_ok (Quoted (yq_escape s)).
Proof.
  intros Hs. split; [|rewrite dq_yq; by eexists].
  induction Hs as [|c s Hc Hs IH]; [apply Forall_nil_2|]. cbn [yq_escape]. apply Forall_app. split; [|done].
  destruct (_ || _); forall_tac. computed.
Qed.

Lemma settings_doc_ok s : settings_ok s -> doc_ok (settings_doc s).
Proof.
  intros (Hm & Hd%quoted_ok & Hh%quoted_ok & Hv%quoted_ok & Hr%quoted_ok & Hs%quoted_ok & Ha).
  assert (se_Mode s ∈ [str "single"; str "cluster"; str "true"; str "false"]) as Hw by (destruct Hm as [-> | ->]; set_solver).
  pose proof (fmt_t_word (se_AuthEnabled s)) as Hw1. pose proof (fmt_t_word (se_Bootstrap s)) as Hw2. pose proof (fmt_t_word true) as Hw3.
  assert (comment_ok (str "Detected host address: " ++ se_Advertise s ++ str " (peers must be able to reach this node here).") = true) as Hc.
  { apply comment_ok_app; [by apply (bool_decide_unpack _); vm_compute|]. by apply comment_ok_app; [|vm_compute]. }
  split; [|split; [|split]].
  - unfold settings_doc. apply Forall_app. split.
    + lines_tac.
    + case_bool_decide; [|constructor]. apply Forall_app. split; [lines_tac|]. apply Forall_app. split; [destruct (negb _)|]; lines_tac.
  - unfold settings_doc. case_bool_decide; [|reflexivity]. by destruct (negb _).
  - unfold settings_doc. case_bool_decide; [destruct (negb _)|]; computed.
  - unfold settings_doc. case_bool_decide; [destruct (negb _)|]; computed.
Qed.

Lemma settings_doc_props s : list_to_map (doc_props (snd (doc_groups (settings_doc s)))) = settings_props s /\
  NoDup (fst <$> doc_props (snd (doc_groups (settings_doc s)))).
Proof.
  unfold settings_doc, settings_props.
  case_bool_decide; [destruct (negb _)|]; (split; [cbn [app doc_groups]; rewrite !quoted_value; reflexivity|computed]).
Qed.

(** ** Reading the settings back *)

Section Settings.
Context {D : Type} `{!OsPkg D} `{!OsLaws D} `{!StatPkg D} `{!StatLaws D} `{YamlPkg} `{!YamlLaws}.

Lemma Settings_Write_read s path (d d' : D) : Settings_Write s path d = (None, d') -> ReadFile path d' = Some (Render s).
Proof.
  unfold Settings_Write. destruct (negb _); [|apply write_read]. destruct (MkdirAll _ _ d) as [[e|] d1]; [done|]. apply write_read.
Qed.

Lemma peek_settings s path (d : D) : settings_ok s -> ReadFile path d = Some (Render s) -> peek path d = settings_props s.
Proof.
  intros Hs Hr. unfold peek. rewrite Hr, Render_doc. destruct (yaml_document _ (settings_doc_ok s Hs)) as (m & -> & HA).
  destruct (settings_doc_props s) as [<- Hn]. by apply reads_as_flatten.
Qed.

Lemma settings_mode s : settings_props s !! str "consensusdb.mode" = Some (se_Mode s).
Proof. unfold settings_props. cbn [app]. rewrite list_to_map_cons. apply lookup_insert_eq. Qed.

Lemma settings_raft s : se_Mode s = ModeSingle -> settings_props s !! str "raft.bind-address" = None.
Proof. intros E. unfold settings_props. rewrite bool_decide_eq_false_2 by (rewrite E; discriminate). rewrite app_nil_r. apply not_elem_of_list_to_map. computed. Qed.

(** What written settings say to [ResolveMode]. *)
Lemma settings_say s path (d : D) : settings_ok s -> ReadFile path d = Some (Render s) ->
  says_cluster d path = bool_decide (se_Mode s = ModeCluster).
Proof.
  intros Hs Hr. unfold says_cluster. rewrite (peek_settings s path d Hs Hr), settings_mode. cbn [default]. destruct Hs as [[E|E] _].
  - rewrite (settings_raft s E), E. reflexivity.
  - by rewrite E.
Qed.

Lemma path_Join_printable a b : Forall printable a -> Forall printable b -> Forall printable (path_Join [a; b]).
Proof.
  assert (printable slash) as Hs by (vm_compute; split; discriminate).
  assert (forall l, Forall (Forall printable) l -> Forall printable (sep_join [slash] l)) as HJ.
  { intros [|c l] Hl; [constructor|]. apply Forall_cons in Hl as [Hc Hl]. cbn [sep_join]. apply Forall_app. split; [done|].
    apply Forall_concat, Forall_fmap. eapply Forall_impl; [exact Hl|]. intros x Hx. cbn. by constructor. }
  assert (forall s, Forall printable s -> Forall (Forall printable) (Split slash s)) as HS.
  { induction 1 as [|c s Hc Hl IH]; [forall_tac|]. cbn [Split]. case_bool_decide; [forall_tac|].
    destruct (Split slash s) as [|h t]; [forall_tac|]. apply Forall_cons in IH as [? ?]. forall_tac. }
  assert (forall rooted l out, Forall (Forall printable) l -> Forall (Forall printable) out -> Forall (Forall printable) (fold_left (clean_step rooted) l out)) as HF.
  { intros rooted l. induction l as [|c l IH]; intros out Hl Ho; [done|]. apply Forall_cons in Hl as [Hc Hl]. cbn [fold_left]. apply IH; [done|].
    unfold clean_step. destruct (_ || _); [done|]. case_bool_decide; [|by constructor]. destruct out as [|top rest]; [destruct rooted; forall_tac|].
    case_bool_decide; [by constructor|]. by apply Forall_cons in Ho as [_ ?]. }
  assert (forall s, Forall printable s -> Forall printable (Clean s)) as HC.
  { intros s Hp. unfold Clean. set (out := rev _). assert (Forall (Forall printable) out) as Ho by (apply Forall_rev, HF; [by apply HS|constructor]).
    destruct (bool_decide (head s = _)); [constructor; [done|by apply HJ]|]. case_bool_decide; [computed|by apply HJ]. }
  intros Ha Hb. cbn [path_Join]. case_bool_decide; [case_bool_decide; [constructor|]|]; apply HC, HJ; forall_tac.
Qed.

Lemma JoinHostPort_printable host port : Forall printable host -> Forall printable port -> Forall printable (JoinHostPort host port).
Proof.
  intros Hh Hp. assert (Forall printable [lbrack] /\ Forall printable [rbrack; colon] /\ Forall printable [colon]) as (? & ? & ?) by (split; [|split]; computed).
  unfold JoinHostPort. case_match; rewrite !Forall_app; auto.
Qed.

(** The texts given to [init] are printable. *)
Definition init_ok (environ : gmap bytes bytes) (ip : bytes) (t : InitCommand) : Prop :=
  Forall printable (Home environ) /\ Forall printable ip /\ Forall printable (ic_Host t) /\ Forall printable (ic_DataDir t) /\
  Forall printable (ic_HTTP t) /\ Forall printable (ic_Vrpc t).

Lemma or_else_printable x y : Forall printable x -> Forall printable y -> Forall printable (or_else x y).
Proof. intros ? ?. unfold or_else. by case_bool_decide. Qed.

Lemma init_settings_ok environ ip t : init_ok environ ip t -> settings_ok (init_settings environ ip t).
Proof.
  intros (Hh & Hi & Ho & Hd & Ht & Hv).
  assert (Forall printable (or_else (ic_DataDir t) (DefaultDataDir environ))) as H1
    by (apply or_else_printable; [done|]; apply path_Join_printable; [done|computed]).
  assert (Forall printable (or_else (ic_HTTP t) (str "0.0.0.0:8441"))) as H2 by (apply or_else_printable; [done|computed]).
  assert (Forall printable (or_else (ic_Vrpc t) (str "0.0.0.0:8444"))) as H3 by (apply or_else_printable; [done|computed]).
  assert (Forall printable (or_else (or_else (ic_Host t) ip) (str "0.0.0.0"))) as H4 by (repeat apply or_else_printable; [done..|computed]).
  unfold init_settings, settings_ok. destruct (ic_Cluster t); cbn.
  - split; [by right|]. repeat (split; [done || (apply JoinHostPort_printable; [done|computed])|]). done.
  - split; [by left|]. repeat (split; [done|]). done.
Qed.


(** The mode, from what the environment and the files say. *)
Theorem ResolveMode_spec environ args configPath (d : D) :
  let m := normMode (Getenv environ "CONSENSUSDB_MODE") in
  let bound := TrimSpace (Getenv environ "RAFT_BIND_ADDRESS") in
  (ResolveMode environ args configPath d = ModeSingle \/ ResolveMode environ args configPath d = ModeCluster) /\
  (ResolveMode environ args configPath d = ModeCluster <->
     m = ModeCluster \/ (m = [] /\ (bound <> [] \/ exists p, p ∈ configPath :: configFlagPaths args /\ says_cluster d p = true))).
Proof.
  intros m bound. assert (m = [] \/ m = ModeSingle \/ m = ModeCluster) as Hm by (unfold m, normMode; repeat case_bool_decide; auto).
  assert (ModeCluster <> ModeSingle /\ ModeCluster <> []) as [N1 N2] by done. unfold ResolveMode. fold m bound.
  destruct (bool_decide_reflect (m = [])) as [E|E]; cbn [negb].
  - destruct (bool_decide_reflect (bound = [])) as [Eb|Eb]; cbn [negb]; [|naive_solver].
    destruct (existsb _ _) eqn:Ex.
    + apply existsb_exists in Ex as (p & Hp%list_elem_of_In & Hc). naive_solver.
    + assert (forall p, p ∈ configPath :: configFlagPaths args -> says_cluster d p = true -> False) as HN.
      { intros p Hp Hc. enough (existsb (says_cluster d) ([configPath] ++ configFlagPaths args) = true) by congruence.
        apply existsb_exists. exists p. split; [by apply list_elem_of_In|done]. }
      split; [by left|]. split; [congruence|]. intros [Hm'|[_ [?|(p & Hp & Hc)]]]; [congruence|done|]. by destruct (HN p Hp Hc).
  - split; [naive_solver|]. split; [by left|]. intros [?|[? _]]; done.
Qed.

(** A settings file passed with [-c] cannot turn the cluster off. When the default file asks for
    a cluster and the environment says nothing, the node is wired as a member of a cluster whatever
    files are passed on the command line, also when the passed file, which has the higher priority
    for every property, has the mode of a single node. *)
Theorem flag_file_cannot_demote environ args configPath (d : D) :
  normMode (Getenv environ "CONSENSUSDB_MODE") = [] -> says_cluster d configPath = true -> ResolveMode environ args configPath d = ModeCluster.
Proof.
  intros Hm Hc. apply ResolveMode_spec. right. split; [done|]. right. exists configPath. split; [left|done].
Qed.

(** A settings file is only ever replaced on request. On a first start of a single node the
    defaults are written, and every later start leaves the file alone whatever it then contains; a
    start as a cluster member never writes one; and [init] without force leaves an existing file. *)
Theorem settings_file_kept environ path (d : D) :
  (forall mode, mode <> ModeSingle -> ConfigInitializer_PostConstruct environ path mode d = (None, d)) /\
  (forall mode data, ReadFile path d = Some data -> ConfigInitializer_PostConstruct environ path mode d = (None, d)) /\
  (forall ip t data, ReadFile path d = Some data -> init_path environ t = path -> ic_Force t = false -> Init_Run environ ip t d = (Ret None, d)) /\
  (forall d', Ensure path (DefaultSettings environ) d = (Ret true, d') -> ReadFile path d' = Some (Render (DefaultSettings environ)) /\
     forall mode, ConfigInitializer_PostConstruct environ path mode d' = (None, d')).
Proof.
  assert (forall (d : D) mode data, ReadFile path d = Some data -> ConfigInitializer_PostConstruct environ path mode d = (None, d)) as HK.
  { intros d0 mode data Hr. unfold ConfigInitializer_PostConstruct, Ensure. destruct (negb _); [done|]. by rewrite (read_stat path d0 data Hr). }
  split; [|split; [|split]].
  - intros mode Hm. unfold ConfigInitializer_PostConstruct. by rewrite bool_decide_eq_false_2.
  - intros mode data. apply HK.
  - intros ip t data Hr Hp Hf. unfold Init_Run. by rewrite Hp, (read_stat path d data Hr), Hf.
  - intros d'. unfold Ensure. destruct (Stat path d); [done|]. destruct (Settings_Write _ path d) as [[e|] d1] eqn:Ew; [done|]. intros [= <-].
    pose proof (Settings_Write_read _ _ _ _ Ew) as Hr. split; [done|]. intros mode. by apply HK with (data := Render (DefaultSettings environ)).
Qed.

End Settings.

(** ** A parser for such documents *)

Inductive pline : Type := PSkip | PGroup (name : bytes) | PEntry (key value : bytes).

Fixpoint unquote (s : bytes) : bytes :=
  match s with
  | [] => []
  | c :: rest =>
      if bool_decide (c = quote) then []
      else if bool_decide (c = backslash) then match rest with e :: rest => e :: unquote rest | [] => [] end
      else c :: unquote rest
  end.

Fixpoint word (s : bytes) : bytes := match s with c :: rest => if bool_decide (c = x20) then [] else c :: word rest | [] => [] end.

Definition parse_value (s : bytes) : bytes :=
  match s with c :: rest => if bool_decide (c = quote) then unquote rest else word s | [] => [] end.

Fixpoint is_comment (s : bytes) : bool :=
  match s with c :: rest => if bool_decide (c = x20) then is_comment rest else bool_decide (c = x23) | [] => true end.

Definition parse_line (s : bytes) : pline :=
  if is_comment s then PSkip
  else match CutPrefix s (str "  ") with
       | Some s => match IndexByte s colon with Some i => PEntry (take i s) (parse_value (drop (i + 2) s)) | None => PSkip end
       | None => match IndexByte s colon with Some i => PGroup (take i s) | None => PSkip end
       end.

Fixpoint collect_lines (lines : list pline) : list (bytes * bytes) * list (bytes * list (bytes * bytes)) :=
  match lines with
  | [] => ([], [])
  | PGroup name :: rest => let '(loose, gs) := collect_lines rest in ([], (name, loose) :: gs)
  | PEntry key v :: rest => let '(loose, gs) := collect_lines rest in ((key, v) :: loose, gs)
  | PSkip :: rest => collect_lines rest
  end.

Definition toy_yaml : YamlPkg := {|
  yaml_Unmarshal data :=
    Some ((fun g => (fst g, YMap ((fun e => (fst e, YScalar (snd e))) <$> snd g))) <$> snd (collect_lines (parse_line <$> Split x0a data)))
|}.

Lemma unquote_value body v rest : dq_value body = Some v -> unquote (body ++ quote :: rest) = v.
Proof.
  revert v. assert (forall n body v, (length body <= n)%nat -> dq_value body = Some v -> unquote (body ++ quote :: rest) = v) as HG; [|intros v; by apply (HG (length body))].
  clear body. induction n as [|n IH]; intros [|c body] v Hn; cbn [length] in Hn; [by intros [= <-]|lia|by intros [= <-]|]. cbn [dq_value app unquote].
  case_bool_decide; [done|]. case_bool_decide.
  - destruct body as [|e body]; [done|]. destruct (_ || _); [|done]. intros (v' & Hv & ->)%fmap_Some. cbn [app]. f_equal. apply IH; [cbn in Hn; lia|done].
  - intros (v' & Hv & ->)%fmap_Some. f_equal. apply IH; [lia|done].
Qed.

Lemma word_app w rest : x20 ∉ w -> (rest = [] \/ exists r, rest = x20 :: r) -> word (w ++ rest) = w.
Proof.
  intros Hw Hr. induction w as [|c w IH]; cbn [app word]; [by destruct Hr as [->|[r ->]]|].
  apply not_elem_of_cons in Hw as [Hc Hw]. by rewrite bool_decide_eq_false_2, IH by done.
Qed.

Lemma parse_scalar v note : scalar_ok v -> parse_value (scalar_text v ++ note_text note) = scalar_value v.
Proof.
  intros Hv. set (tail := note_text note). assert (tail = [] \/ exists r, tail = x20 :: r) as Ht by (unfold tail, note_text; case_bool_decide; [by left|right; by eexists]).
  destruct v as [s|w]; cbn [scalar_text scalar_value scalar_ok] in *.
  - destruct Hv as [_ [v Hv]]. cbn [app parse_value]. rewrite bool_decide_eq_true_2 by done. rewrite <- app_assoc, Hv. by apply unquote_value.
  - assert (x20 ∉ w /\ exists c r, w = c :: r /\ c <> quote) as (Hs & c & r & -> & Hc).
    { repeat (apply elem_of_cons in Hv as [->|Hv]; [split; [computed|]; eexists _, _; (split; [reflexivity|discriminate])|]). by apply not_elem_of_nil in Hv. }
    cbn [app parse_value]. rewrite bool_decide_eq_false_2 by done. exact (word_app (c :: r) tail Hs Ht).
Qed.

Lemma name_byte_plain c : name_byte c -> c <> colon /\ c <> x20 /\ c <> x23 /\ c <> x0a.
Proof. intros [Hc| ->]; [|done]. repeat split; intros ->; vm_compute in Hc; destruct Hc; congruence. Qed.

Lemma name_no_colon s : Forall name_byte s -> colon ∉ s.
Proof. rewrite Forall_forall. intros HF Hc. by destruct (name_byte_plain _ (HF _ Hc)). Qed.

Lemma parse_line_text l : line_ok l ->
  parse_line (line_text l) = match l with Group name => PGroup name | Entry key v _ => PEntry key (scalar_value v) | _ => PSkip end.
Proof.
  destruct l as [|n text|name|key v note]; cbn [line_ok line_text]; intros Hl.
  - done.
  - unfold parse_line. assert (is_comment (replicate n x20 ++ str "# " ++ text) = true) as ->; [|done]. by induction n.
  - destruct Hl as [Hne HF]. destruct name as [|c name]; [done|]. pose proof (name_no_colon _ HF) as Hc. apply Forall_cons in HF as [H1 _].
    destruct (name_byte_plain c H1) as (_ & H2 & H3 & _). unfold parse_line. cbn [app is_comment]. rewrite !bool_decide_eq_false_2 by done.
    assert (CutPrefix (c :: name ++ str ":") (str "  ") = None) as ->.
    { unfold CutPrefix, HasPrefix. rewrite bool_decide_eq_false_2; [done|]. intros [k E]. by injection E as ->. }
    change (c :: name ++ str ":") with ((c :: name) ++ colon :: []). rewrite IndexByte_app by done. by rewrite take_app_length.
  - destruct Hl as ([Hne HF] & Hv & _). unfold parse_line. set (rest := key ++ _).
    assert (is_comment (str "  " ++ rest) = false) as ->.
    { unfold rest. destruct key as [|c key]; [done|]. apply Forall_cons in HF as [H1 _]. destruct (name_byte_plain c H1) as (_ & H2 & H3 & _).
      change (is_comment (c :: key ++ str ": " ++ scalar_text v ++ note_text note) = false).
      cbn [is_comment]. by rewrite !bool_decide_eq_false_2. }
    rewrite (proj2 (CutPrefix_spec _ (str "  ") rest) eq_refl).
    assert (rest = key ++ colon :: x20 :: scalar_text v ++ note_text note) as E by reflexivity.
    rewrite E, IndexByte_app by by apply name_no_colon. rewrite take_app_length. f_equal.
    rewrite drop_app_ge by lia. replace (length key + 2 - length key)%nat with 2%nat by lia. by apply parse_scalar.
Qed.

Lemma comment_no_nl s : comment_ok s = true -> x0a ∉ s.
Proof.
  assert (forall pending, x0a ∉ pending -> comment_from pending s = true -> x0a ∉ s) as HG; [|apply HG, not_elem_of_nil].
  induction s as [|c s IH]; intros pending Hp; [intros _; apply not_elem_of_nil|]. rewrite not_elem_of_cons.
  destruct pending as [|p pending]; cbn [comment_from].
  - case_bool_decide as Hc; [subst c; intros Hs; split; [done|]; eapply IH; [|exact Hs]; computed|].
    rewrite andb_true_iff, bool_decide_eq_true. intros [Hpr Hs]. split; [|by eapply IH].
    intros <-. destruct Hpr as [Hpr _]. vm_compute in Hpr. by apply Hpr.
  - rewrite andb_true_iff, bool_decide_eq_true. intros [-> Hs]. apply not_elem_of_cons in Hp as [? ?]. split; [done|by eapply IH].
Qed.

Lemma printable_no_nl s : Forall printable s -> x0a ∉ s.
Proof. rewrite Forall_forall. intros HF Hn. destruct (HF _ Hn) as [Hp _]. vm_compute in Hp. by apply Hp. Qed.

Lemma name_no_nl s : name_ok s -> x0a ∉ s.
Proof. intros [_ HF] Hn. rewrite Forall_forall in HF. by destruct (name_byte_plain _ (HF _ Hn)) as (_ & _ & _ & ?). Qed.

Lemma line_no_nl l : line_ok l -> x0a ∉ line_text l.
Proof.
  assert (forall s : bytes, bool_decide (x0a ∉ s) = true -> x0a ∉ s) as HB by (intros s; by rewrite bool_decide_eq_true).
  destruct l as [|n text|name|key v note]; cbn [line_ok line_text]; intros Hl.
  - apply not_elem_of_nil.
  - rewrite !not_elem_of_app. split; [by intros [? _]%elem_of_replicate|]. split; [by apply HB|by apply comment_no_nl].
  - rewrite not_elem_of_app. split; [by apply name_no_nl|by apply HB].
  - destruct Hl as (Hk & Hv & Hn). rewrite !not_elem_of_app. split; [by apply HB|]. split; [by apply name_no_nl|]. split; [by apply HB|]. split.
    + destruct v as [s|w]; cbn [scalar_text scalar_ok] in *.
      { destruct Hv as [Hv _]. rewrite !not_elem_of_app. split; [by apply HB|]. split; [by apply printable_no_nl|by apply HB]. }
      repeat (apply elem_of_cons in Hv as [->|Hv]; [by apply HB|]). by apply not_elem_of_nil in Hv.
    + unfold note_text. case_bool_decide; [apply not_elem_of_nil|]. rewrite not_elem_of_app. split; [by apply HB|by apply comment_no_nl].
Qed.

Lemma Split_doc lines : Forall line_ok lines -> Split x0a (doc_text lines) = (line_text <$> lines) ++ [[]].
Proof.
  induction 1 as [|l lines Hl _ IH]; [done|]. unfold doc_text in *. rewrite !fmap_cons. cbn [concat]. rewrite <- app_assoc.
  change (nl ++ ?x) with (x0a :: x). rewrite Split_app; [by rewrite IH|].
  pose proof (line_no_nl l Hl) as Hn. apply Forall_forall. by intros c Hc ->.
Qed.

Lemma collect_doc lines : Forall line_ok lines -> collect_lines ((parse_line <$> (line_text <$> lines)) ++ [PSkip]) = doc_groups lines.
Proof.
  induction 1 as [|l lines Hl _ IH]; [done|]. rewrite !fmap_cons, parse_line_text by done.
  destruct l; cbn [app collect_lines doc_groups]; rewrite IH; done.
Qed.

Lemma toy_yaml_laws : @YamlLaws toy_yaml.
Proof.
  split. intros lines (HF & _). eexists. split; [reflexivity|]. cbn [yaml_Unmarshal toy_yaml].
  rewrite Split_doc, fmap_app by done. change (parse_line <$> [[]]) with [PSkip]. rewrite collect_doc by done.
  eexists. split; [|reflexivity]. induction (snd (doc_groups lines)) as [|[n es] gs IH]; [constructor|]. rewrite fmap_cons.
  constructor; [|done]. split; [done|]. eexists. by split.
Qed.

(** ** Witnesses *)

Definition demo_stat : StatPkg demo_disk := {|
  Stat := fun path d => bool_decide (is_Some (dd_files d !! path));
  stat_notExist := fun path d => bool_decide (dd_files d !! path = None);
  Mkdir := fun _ _ d => (None, d)
|}.

Lemma demo_stat_laws : @StatLaws demo_disk demo_os demo_stat.
Proof. split. intros path d data E. cbn in *. rewrite bool_decide_eq_true. by exists data. Qed.

#[local] Existing Instances demo_os demo_os_laws demo_stat demo_stat_laws toy_yaml toy_yaml_laws.

Definition demo_init : InitCommand := {|
  ic_Cluster := true; ic_Seed := true; ic_Host := []; ic_DataDir := str "C:\data" ++ [quote]; ic_HTTP := []; ic_Vrpc := []; ic_Auth := true;
  ic_Out := str "/etc/cdb.yaml"; ic_Force := false |}.

Definition demo_ip : bytes := str "10.0.0.4".

Definition demo_written : demo_disk := snd (Init_Run ∅ demo_ip demo_init demo_empty).


Lemma flag_file_cannot_demote_witness :
  says_cluster (snd (Settings_Write (DefaultSettings ∅) (str "single.yaml") demo_written)) (str "single.yaml") = false /\
  ResolveMode ∅ [str "consensusdb"; str "run"; str "-c"; str "single.yaml"] (str "/etc/cdb.yaml")
    (snd (Settings_Write (DefaultSettings ∅) (str "single.yaml") demo_written)) = ModeCluster.
Proof.
  split; [vm_compute; reflexivity|]. apply (flag_file_cannot_demote ∅ [str "consensusdb"; str "run"; str "-c"; str "single.yaml"] (str "/etc/cdb.yaml")).
  - reflexivity.
  - vm_compute. reflexivity.
Defined.
