(* ===== verification/ProcessProps.v ===== *)
(** * Properties of the process around the server

    A generated master key opens the store and nothing but a key of the right size does; an address
    that asks for TLS never starts a listener without it, nor one that lets clients in without a
    certificate when certificates are demanded; an asset request cannot leave the asset directory. *)

From S2P Require Import Prelude Pb Keys Engine Storage StorageSpec StorageProps Value Ledger Password Console Net NodeIdentity NodeIdentityProps Api Cli LedgerCli Config Process.

(** ** The master key *)

Lemma from_to_url z : 0 <= z < 64 -> from_url (to_url (b64_char z)) = b64_char z.
Proof.
  intros Hz. rewrite <- (Z2Nat.id z) by lia. assert (Z.to_nat z < 64)%nat as Hn by lia. generalize dependent (Z.to_nat z). clear. intros n Hn.
  do 64 (destruct n as [|n]; [reflexivity|]). lia.
Qed.

Lemma RawURL_roundtrip l : RawURL_DecodeString (RawURL_EncodeToString l) = Some l.
Proof.
  unfold RawURL_DecodeString, RawURL_EncodeToString. rewrite <- list_fmap_compose.
  assert ((from_url ∘ to_url) <$> EncodeToString l = EncodeToString l) as ->; [|apply DecodeString_Encode].
  assert (Forall (fun b => from_url (to_url b) = b) (EncodeToString l)) as HF by (apply Forall_b64, from_to_url).
  induction HF as [|b r Hb _ IH]; [done|]. rewrite fmap_cons. unfold compose at 1. by rewrite Hb, IH.
Qed.

(** ASCII that is not white space, at both ends of a text. *)
Definition solid (c : byte) : Prop := space1 c = false /\ byte_val c < 128.

Lemma solid_space2 a b : byte_val a < 128 \/ byte_val b < 128 -> space2 a b = false.
Proof.
  intros Hab. unfold space2. apply bool_decide_eq_false_2. intros Hin. repeat (apply elem_of_cons in Hin as [[= -> ->]|Hin]; [by destruct Hab|]).
  by apply not_elem_of_nil in Hin.
Qed.

Lemma solid_space3 a b c : byte_val a < 128 \/ byte_val c < 128 -> space3 a b c = false.
Proof.
  intros Hac. unfold space3. apply bool_decide_eq_false_2. cbn [fmap list_fmap app]. intros Hin.
  repeat (apply elem_of_cons in Hin as [[= -> -> ->]|Hin]; [by destruct Hac|]). by apply not_elem_of_nil in Hin.
Qed.

Lemma trim_left_solid sp c s : Forall (fun b => space1 b = true) sp -> solid c -> trim_left (sp ++ c :: s) = c :: s.
Proof.
  intros Hsp [H1 H2]. induction Hsp as [|b sp Hb _ IH]; cbn [app trim_left]; [|by rewrite Hb].
  rewrite H1. destruct s as [|x s]; [done|]. rewrite solid_space2 by by left. destruct s as [|y s]; [done|]. by rewrite solid_space3 by by left.
Qed.

Lemma trim_right_solid sp c s : Forall (fun b => space1 b = true) sp -> solid c -> trim_right (sp ++ c :: s) = c :: s.
Proof.
  intros Hsp [H1 H2]. induction Hsp as [|b sp Hb _ IH]; cbn [app trim_right]; [|by rewrite Hb].
  rewrite H1. destruct s as [|x s]; [done|]. rewrite solid_space2 by by right. destruct s as [|y s]; [done|]. by rewrite solid_space3 by by right.
Qed.

Lemma TrimSpace_solid sp s sp' :
  Forall (fun b => space1 b = true) sp -> Forall (fun b => space1 b = true) sp' -> Forall solid s -> s <> [] -> TrimSpace (sp ++ s ++ sp') = s.
Proof.
  intros Hsp Hsp' Hs Hne. unfold TrimSpace. destruct s as [|c r]; [done|]. assert (solid c) as Hc by by apply Forall_cons in Hs as [? _].
  cbn [app]. rewrite trim_left_solid by done. change (c :: r ++ sp') with ((c :: r) ++ sp'). rewrite rev_app_distr.
  apply Forall_rev in Hs. rewrite <- (rev_involutive (c :: r)) at 2.
  destruct (rev (c :: r)) as [|x t] eqn:Er; [by apply (f_equal length) in Er; rewrite length_rev in Er|].
  apply Forall_cons in Hs as [Hx _]. by rewrite trim_right_solid by (done || by apply Forall_rev).
Qed.

Lemma url_solid z : 0 <= z < 64 -> solid (to_url (b64_char z)).
Proof.
  intros Hz. rewrite <- (Z2Nat.id z) by lia. assert (Z.to_nat z < 64)%nat as Hn by lia. generalize dependent (Z.to_nat z). clear. intros n Hn.
  do 64 (destruct n as [|n]; [split; vm_compute; reflexivity|]). lia.
Qed.

Lemma key_solid l : Forall solid (RawURL_EncodeToString l).
Proof. unfold RawURL_EncodeToString. apply Forall_fmap, Forall_b64. intros z Hz. by apply url_solid. Qed.

Lemma ParseMasterKey_spec text key : ParseMasterKey text = Ret key <-> RawURL_DecodeString text = Some key /\ len key = KeySize.
Proof.
  unfold ParseMasterKey. destruct (RawURL_DecodeString text) as [k|]; [|naive_solver]. destruct (Z.eqb_spec (len k) KeySize); cbn [negb]; naive_solver.
Qed.

Section Key.
Context `{UuidPkg} `{Badger} `{StorePkg}.

(** The key that seal prints opens the store. For any 32 random bytes, what [seal] prints is
    accepted by [unseal], white space around it included, which shows those bytes; and a node
    configured with it opens badger with encryption under exactly those bytes and with an index
    cache. Any text that is not the encoding of 32 bytes keeps the store closed: badger is not
    opened at all, in particular not without encryption. *)
Theorem sealed_key_opens (nonce text sp sp' : bytes) (cache : Z) (open : BadgerOptions -> result DB) (conf : Configuration) :
  len nonce = KeySize -> Seal_Run (Ret nonce) = Ret text ->
  Forall (fun b => space1 b = true) sp -> Forall (fun b => space1 b = true) sp' ->
  Unseal_Run (sp ++ text ++ sp') = Ret nonce /\
  (cf_EncryptionKey conf = text -> exists opts, open_options cache conf = Ret opts /\ bo_EncryptionKey opts = nonce /\ 0 < bo_IndexCacheSize opts /\
     OpenKeyValueStorage cache open conf = (db ← open opts; Ret {| db := db; hub := Some [] |})) /\
  (cf_EncryptionKey conf <> [] -> (forall key, RawURL_DecodeString (cf_EncryptionKey conf) = Some key -> len key <> KeySize) ->
     exists e, OpenKeyValueStorage cache open conf = Fail e).
Proof.
  intros Hn [= <-] Hsp Hsp'. pose proof (RawURL_roundtrip nonce) as HR.
  assert (ParseMasterKey (RawURL_EncodeToString nonce) = Ret nonce) as HP by (by apply ParseMasterKey_spec).
  assert (RawURL_EncodeToString nonce <> []) as Hne.
  { intros E. rewrite E in HR. vm_compute in HR. injection HR as <-. by vm_compute in Hn. }
  split; [|split].
  - unfold Unseal_Run, PromptPassword. rewrite TrimSpace_solid by (done || apply key_solid).
    rewrite <- (app_nil_r (RawURL_EncodeToString nonce)), <- (app_nil_l (RawURL_EncodeToString nonce ++ [])).
    by rewrite TrimSpace_solid by (constructor || done || apply key_solid).
  - intros Hc. unfold OpenKeyValueStorage, open_options. rewrite Hc, bool_decide_eq_false_2 by done. cbn [negb]. rewrite HP. cbn [mbind outcome_bind].
    eexists. by repeat split.
  - intros Hk Hbad. unfold OpenKeyValueStorage, open_options. rewrite bool_decide_eq_false_2 by done. cbn [negb].
    destruct (ParseMasterKey (cf_EncryptionKey conf)) as [key|e|] eqn:E; cbn [mbind outcome_bind]; [|by eexists|].
    + apply ParseMasterKey_spec in E as [E1 E2]. by destruct (Hbad key E1).
    + unfold ParseMasterKey in E. destruct (RawURL_DecodeString (cf_EncryptionKey conf)) as [k|]; [|done]. by destruct (len k =? KeySize).
Qed.

End Key.

(** ** The listener *)

Section Listener.
Context `{TlsPkg} {D : Type} `{!OsPkg D}.

(** A configuration that lets only clients with a certificate of the bundle in. *)
Definition demands_clients (p : VrpcProps) (d : D) (cfg : tls_Config) : Prop :=
  tc_RequireAndVerifyClientCert cfg = true /\ exists pem, ReadFile (vp_tls_ca p) d = Some pem /\ tc_ClientCAs cfg = AppendCertsFromPEM pem /\ is_Some (tc_ClientCAs cfg).

Lemma serverTLS_ok beanName p (d : D) cfg : serverTLS beanName p d = Ret cfg ->
  tc_Certificates cfg <> [] /\ tc_MinVersion cfg = VersionTLS12 /\ (vp_client_auth p = true -> demands_clients p d cfg).
Proof.
  unfold serverTLS. destruct (_ || _); [done|]. unfold vrpc_wrap. destruct (LoadX509KeyPair _ _ d) as [cert|?|]; cbn [mbind outcome_bind]; [|done..].
  destruct (vp_client_auth p); [|by intros [= <-]]. case_bool_decide; [done|]. unfold read_file.
  destruct (ReadFile (vp_tls_ca p) d) as [pem|] eqn:Er; cbn [mbind outcome_bind]; [|done].
  destruct (AppendCertsFromPEM pem) as [pool|] eqn:Ep; [|done]. intros [= <-]. split; [done|]. split; [done|]. intros _. split; [done|].
  exists pem. by rewrite Ep.
Qed.

(** C35: TLS is never dropped. When the data-plane listener comes up for an address with the scheme
    tls or quic, it is a TLS listener on the rest of the address, with the node's certificate and
    at least TLS 1.2; with client-auth it demands a client certificate and verifies it against the
    configured bundle, which has at least one certificate. A missing or unreadable file, a bundle
    without certificates or an unknown scheme never leads to a weaker listener: none comes up. *)
Theorem tls_never_dropped (listen : vrpc_server -> option error) (beanName scheme rest : bytes) (p : VrpcProps) (counter counter' : Z) (d : D) (srv : vrpc_server) :
  vp_bind_address p <> [] -> splitAddressScheme (vp_bind_address p) = (scheme, rest) -> scheme ∉ [[]; str "tcp"; str "unix"] ->
  vrpc_Object listen beanName p counter d = (Ret srv, counter') ->
  exists cfg, (scheme = str "tls" /\ srv = TLSServer rest cfg \/ scheme = str "quic" /\ srv = QuicServer rest cfg) /\ listen srv = None /\
    tc_Certificates cfg <> [] /\ tc_MinVersion cfg = VersionTLS12 /\ (vp_client_auth p = true -> demands_clients p d cfg).
Proof.
  intros Ha Hs Hp. unfold vrpc_Object. rewrite bool_decide_eq_false_2, Hs by done. cbn beta iota zeta.
  rewrite (bool_decide_eq_false_2 (scheme ∈ _)) by done. intros [= E _].
  assert (forall make, (cfg ← serverTLS beanName p d; match listen (make cfg) with Some e => Fail e | None => Ret (make cfg) end) = Ret srv ->
    exists cfg, srv = make cfg /\ listen srv = None /\ serverTLS beanName p d = Ret cfg) as HM.
  { intros make. destruct (serverTLS beanName p d) as [cfg|?|]; cbn [mbind outcome_bind]; [|done..]. destruct (listen (make cfg)) eqn:El; [done|].
    intros [= <-]. by exists cfg. }
  destruct (bool_decide_reflect (scheme = str "tls")) as [Et|_]; [|destruct (bool_decide_reflect (scheme = str "quic")) as [Eq|_]; [|done]];
    destruct (HM _ E) as (cfg & -> & Hl & Hc); exists cfg; pose proof (serverTLS_ok _ _ _ _ Hc); tauto.
Qed.

End Listener.

(** ** Assets *)

(** The components of a cleaned path: plain names, after some [..] when the path is relative. *)
Lemma clean_fold rooted l out :
  Forall (fun c => slash ∉ c) l ->
  (exists ups names, out = rev names ++ replicate ups (str "..") /\ Forall plain_name names /\ (rooted = true -> ups = 0%nat)) ->
  exists ups names, fold_left (clean_step rooted) l out = rev names ++ replicate ups (str "..") /\ Forall plain_name names /\ (rooted = true -> ups = 0%nat).
Proof.
  intros Hl. revert out. induction Hl as [|c l Hc Hl IH]; intros out Ho; [done|]. cbn [fold_left]. apply IH. destruct Ho as (ups & names & -> & Hn & Hr).
  unfold clean_step. destruct (bool_decide_reflect (c = [])) as [E1|E1]; cbn [orb]; [by exists ups, names|].
  destruct (bool_decide_reflect (c = str ".")) as [E2|E2]; [by exists ups, names|].
  case_bool_decide as E3; [|by exists ups, (names ++ [c]); rewrite rev_app_distr; split; [|split; [apply Forall_app; split; [|repeat constructor]|]]].
  destruct names as [|x names _] using rev_ind.
  - cbn [rev app]. destruct ups as [|ups]; cbn [replicate].
    + destruct rooted; [by exists 0%nat, []|]. exists 1%nat, []. split; [by rewrite E3|done].
    + destruct rooted; [by specialize (Hr eq_refl)|]. rewrite bool_decide_eq_true_2 by done. exists (S (S ups)), []. split; [by rewrite E3|done].
  - rewrite rev_app_distr. cbn [rev app]. apply Forall_app in Hn as [Hn Hx]. apply Forall_cons in Hx as [(_ & _ & _ & Hx) _].
    rewrite bool_decide_eq_false_2 by done. by exists ups, names.
Qed.

Lemma Split_no_sep sep s : Forall (fun c => sep ∉ c) (Split sep s).
Proof.
  induction s as [|c s IH]; cbn [Split]; [apply Forall_singleton, not_elem_of_nil|].
  case_bool_decide as Hc; [constructor; [apply not_elem_of_nil|done]|].
  assert (forall h, sep ∉ h -> sep ∉ c :: h) as HC by (intros h Hh; apply not_elem_of_cons; split; [congruence|done]).
  destruct (Split sep s) as [|h t]; [apply Forall_singleton, HC, not_elem_of_nil|]. apply Forall_cons in IH as [Hh Ht]. constructor; [by apply HC|done].
Qed.

Lemma rev_replicate {A} n (x : A) : rev (replicate n x) = replicate n x.
Proof. induction n as [|n IH]; [done|]. cbn [replicate rev]. rewrite IH. symmetry. apply replicate_cons_app. Qed.

(** A cleaned path, without its leading slash. *)
Lemma Clean_parts path : exists ups names, Forall plain_name names /\
  (TrimPrefix (Clean path) (str "/") = sep_join [slash] (replicate ups (str "..") ++ names) \/ Clean path = str ".").
Proof.
  destruct (clean_fold (bool_decide (head path = Some slash)) (Split slash path) []) as (ups & names & E & Hn & Hr).
  { apply Split_no_sep. } { by exists 0%nat, []. }
  exists ups, names. split; [done|]. unfold Clean. rewrite E, rev_app_distr, rev_involutive, rev_replicate. case_match.
  - left. unfold TrimPrefix. change ([slash] ++ ?x) with (str "/" ++ x). by rewrite (proj2 (CutPrefix_spec (str "/" ++ _) (str "/") _) eq_refl).
  - destruct (bool_decide_reflect (replicate ups (str "..") ++ names = [])) as [Eo|Eo]; [by right|]. left.
    unfold TrimPrefix. destruct (CutPrefix _ _) as [r|] eqn:Ec; [|done].
    apply CutPrefix_spec in Ec. exfalso. destruct ups as [|ups]; [|done]. destruct names as [|n names]; [done|].
    apply Forall_cons in Hn as [(Hs & Hne & _) _]. destruct n as [|c n]; [done|]. cbn in Ec. injection Ec as -> _. apply Hs. by left.
Qed.

Lemma sep_join_head c l r (p : bytes) : slash ∉ c -> slash ∉ p -> sep_join [slash] (c :: l) = p ++ slash :: r -> c = p /\ l <> [].
Proof.
  intros Hc Hp E. destruct l as [|x l]; cbn in E.
  - rewrite app_nil_r in E. exfalso. apply Hc. rewrite E. apply elem_of_app. right. by left.
  - split; [|done]. pose proof (IndexByte_app c slash (x ++ concat ((fun y => slash :: y) <$> l)) Hc) as H1. pose proof (IndexByte_app p slash r Hp) as H2.
    rewrite <- E in H2. rewrite H1 in H2. injection H2 as HL. by apply app_inj_1 in E as [-> _].
Qed.

(** An asset request stays among the assets. Whatever path is asked for, with any number of
    [..], empty or [.] components anywhere, the name that is looked up in the binary, if one is, is
    the asset directory followed by plain names, at least one; in particular the pages next to the
    directory cannot be fetched as assets. *)
Theorem assets_stay_inside (urlPath name : bytes) : asset_name urlPath = Some name ->
  exists names, names <> [] /\ Forall plain_name names /\ name = sep_join [slash] (str "assets" :: names).
Proof.
  unfold asset_name. destruct (HasPrefix _ _) eqn:Hp; [|done]. intros [= E]. apply HasPrefix_spec in Hp as [r Hr]. rewrite E in Hr.
  destruct (Clean_parts urlPath) as (ups & names & Hn & [EJ|EC]); [|rewrite EC, Hr in E; by vm_compute in E].
  rewrite E in EJ. rewrite EJ in Hr. change (str "assets/" ++ r) with (str "assets" ++ slash :: r) in Hr.
  assert (slash ∉ str "assets") as Ha by (apply (bool_decide_unpack _); vm_compute; exact I).
  destruct ups as [|ups].
  - cbn [replicate app] in *. destruct names as [|n names]; [done|]. apply Forall_cons in Hn as [(Hs & _) Hn].
    destruct (sep_join_head n names r _ Hs Ha Hr) as [-> Hne]. exists names. by repeat split.
  - cbn [replicate app] in Hr. destruct (sep_join_head (str "..") _ r (str "assets")
      ltac:(apply (bool_decide_unpack _); vm_compute; exact I) Ha Hr) as [Hbad _]. discriminate Hbad.
Qed.

(** ** Witnesses *)

Lemma assets_stay_inside_witness :
  asset_name (str "/assets/../../assets//js/./app.js") = Some (str "assets/js/app.js") /\ asset_name (str "/assets/../console.html") = None /\
  exists names, names <> [] /\ Forall plain_name names /\ str "assets/js/app.js" = sep_join [slash] (str "assets" :: names).
Proof.
  split; [vm_compute; reflexivity|]. split; [vm_compute; reflexivity|].
  apply (assets_stay_inside (str "/assets/../../assets//js/./app.js")). vm_compute. reflexivity.
Defined.

#[local] Existing Instances flat_uuid mem_badger flat_store flat_tls demo_os.

Definition demo_nonce : bytes := replicate 32 xfb.
Definition demo_key : bytes := RawURL_EncodeToString demo_nonce.
Definition demo_conf (key : bytes) : Configuration := {|
  cf_DataDir := str "data"; cf_NumCPU := 0; cf_EncryptionKey := key; cf_KeyDir := str "data/key"; cf_ValueDir := str "data/value";
  cf_WalDir := str "data/WAL"; cf_SnapDir := str "data/snapshot"; cf_LogDir := str "data/log" |}.

Lemma sealed_key_opens_witness :
  Unseal_Run (str " " ++ demo_key ++ [x0a]) = Ret demo_nonce /\
  (exists opts, open_options 0 (demo_conf demo_key) = Ret opts /\ bo_EncryptionKey opts = demo_nonce) /\
  exists e, OpenKeyValueStorage 0 (fun _ => Ret ∅) (demo_conf (str "too-short")) = Fail e.
Proof.
  destruct (sealed_key_opens demo_nonce demo_key (str " ") [x0a] 0 (fun _ => Ret ∅) (demo_conf demo_key) eq_refl eq_refl
    ltac:(repeat constructor) ltac:(repeat constructor)) as (HU & HO & _).
  destruct (sealed_key_opens demo_nonce demo_key [] [] 0 (fun _ => Ret ∅) (demo_conf (str "too-short")) eq_refl eq_refl
    ltac:(constructor) ltac:(constructor)) as (_ & _ & HF).
  split; [exact HU|]. split; [destruct (HO eq_refl) as (opts & H1 & H2 & _); exists opts; split; [exact H1|exact H2]|].
  apply HF; [discriminate|]. intros key Hk. vm_compute in Hk. discriminate Hk.
Defined.

Definition demo_vrpc : VrpcProps := {|
  vp_bind_address := str "tls://0.0.0.0:8444"; vp_tls_cert := str "cert"; vp_tls_key := str "key"; vp_client_auth := true; vp_tls_ca := str "ca" |}.

Definition demo_tls_disk : demo_disk := {| dd_files := <[str "cert" := str "c"]> (<[str "key" := str "k"]> {[str "ca" := str "pem"]}); dd_broken := [] |}.

Definition demo_listener : vrpc_server :=
  match fst (vrpc_Object (fun _ => None) (str "vrpc-server") demo_vrpc 0 demo_tls_disk) with Ret srv => srv | _ => MemServer [] end.

Lemma tls_never_dropped_witness :
  exists cfg, demo_listener = TLSServer (str "0.0.0.0:8444") cfg /\ tc_RequireAndVerifyClientCert cfg = true.
Proof.
  destruct (tls_never_dropped (fun _ => None) (str "vrpc-server") (str "tls") (str "0.0.0.0:8444") demo_vrpc 0 0 demo_tls_disk demo_listener)
    as (cfg & [[_ Hs]|[Hbad _]] & _ & _ & _ & HD).
  - discriminate.
  - reflexivity.
  - apply (bool_decide_unpack _). vm_compute. exact I.
  - vm_compute. reflexivity.
  - exists cfg. split; [exact Hs|]. by apply HD.
  - discriminate Hbad.
Defined.
