(* ===== verification/Wiring.v ===== *)
(** * The wiring of the process ([main.go], [pkg/replication/beans.go], the inject and cli tags)

    The beans that [main] registers for each run mode, with what each struct of the repository
    injects (its [inject] tags, required and optional) and provides (its own type and the interfaces
    it implements), and the command tree of the binary. Beans that come from the packages the
    repository calls (servion, raftmod, raftvrpc) have a parameter for what they provide, with the
    types their factories are documented to yield as hypotheses; what they inject is theirs. *)

From S2P Require Import Prelude Pb Net Config.

(** ** Beans *)

(** The types that appear in [inject] tags. *)
Inductive ty : Type :=
  | TLogger | TProperties | TConfiguration | TKeyValueStorage | TAuthService | TPolicyService | TVrpcServer
  | TReplicator                        (* server.Replicator *)
  | TRaftReplicator                    (* *replication.Replicator *)
  | TRaftServer | TRaftClientPool | TFSM | TLedgerHead | TLedgerAttester | TNodeService | TJobManager.

#[global] Instance ty_eq_dec : EqDecision ty.
Proof. solve_decision. Defined.

(** The beans of the repository; each names the Go type it stands for. *)
Inductive own : Type :=
  | Configuration_ | StorageBean | AuthService | PolicyService_ | ConsoleHandler
  | PageHandler (page : bytes) | Redirect (from : bytes) | AssetsHandler | HealthHandler (path : bytes)
  | JobManager_ | ConfigInitializer
  | Application | NodeService | EnvPropertyResolver | HCLogFactory | VrpcServerFactory
  | RaftStoreFactory | NodeTLSFactory | FSM_ | Replicator_ | Reclaimer_ | RaftHost_ | AddressReconciler_ | LedgerService_
  | VrpcDataService_ | AdminService | MetricsBridge.

(** The beans of other packages. *)
Inductive foreign : Type :=
  | GlueContext | ZapLogFactory | MetricsHandler
  | RaftLogStoreFactory | RaftStableStoreFactory | RaftSnapshotFactory | ServerLookup | RaftServerBean
  | RaftVrpcClientPool | RaftVrpcServer.

Inductive bean : Type := Own (b : own) | Foreign (b : foreign).

Definition provides_own (b : own) : list ty :=
  match b with
  | Configuration_ => [TConfiguration]
  | StorageBean => [TKeyValueStorage]
  | AuthService => [TAuthService]
  | PolicyService_ => [TPolicyService]
  | JobManager_ => [TJobManager]
  | NodeService => [TNodeService]
  | VrpcServerFactory => [TVrpcServer]
  | FSM_ => [TFSM; TLedgerHead]
  | Replicator_ => [TRaftReplicator; TReplicator]
  | LedgerService_ => [TLedgerAttester]
  | _ => []
  end.

(** The tagged fields of a struct: [inject:""] and [inject:"optional"]. *)
Record injects : Type := { in_required : list ty; in_optional : list ty }.

Definition storage_injects : injects := {| in_required := [TConfiguration; TLogger]; in_optional := [] |}.
Definition auth_injects : injects := {| in_required := [TKeyValueStorage; TLogger]; in_optional := [] |}.
Definition policy_injects : injects := {| in_required := [TKeyValueStorage; TLogger]; in_optional := [] |}.
Definition console_injects : injects := {|
  in_required := [TAuthService; TKeyValueStorage; TJobManager; TLogger];
  in_optional := [TPolicyService; TReplicator; TLedgerHead; TLedgerAttester; TRaftServer] |}.
Definition config_init_injects : injects := {| in_required := [TLogger]; in_optional := [] |}.
Definition node_service_injects : injects := {| in_required := [TLogger]; in_optional := [] |}.
Definition metrics_injects : injects := {| in_required := [TLogger]; in_optional := [] |}.
Definition vrpc_server_injects : injects := {| in_required := [TLogger; TProperties]; in_optional := [] |}.
Definition nodetls_injects : injects := {| in_required := [TLogger; TProperties; TNodeService]; in_optional := [] |}.
Definition fsm_injects : injects := {| in_required := [TKeyValueStorage; TLogger]; in_optional := [] |}.
Definition replicator_injects : injects := {| in_required := [TRaftServer; TLogger]; in_optional := [TRaftClientPool] |}.
Definition reclaimer_injects : injects := {| in_required := [TKeyValueStorage; TRaftReplicator; TLogger]; in_optional := [] |}.
Definition host_injects : injects := {| in_required := [TRaftServer; TNodeService; TLogger]; in_optional := [] |}.
Definition reconciler_injects : injects := {| in_required := [TLogger; TProperties; TNodeService; TRaftServer]; in_optional := [TRaftClientPool] |}.
Definition ledger_injects : injects := {| in_required := [TVrpcServer; TFSM; TLogger]; in_optional := [TPolicyService] |}.
Definition vrpc_data_injects : injects := {|
  in_required := [TVrpcServer; TKeyValueStorage; TLogger]; in_optional := [TReplicator; TAuthService; TPolicyService] |}.
Definition admin_injects : injects := {| in_required := [TVrpcServer; TKeyValueStorage; TLogger]; in_optional := [TReplicator; TPolicyService] |}.

Definition injects_of (b : own) : injects :=
  match b with
  | StorageBean => storage_injects
  | AuthService => auth_injects
  | PolicyService_ => policy_injects
  | ConsoleHandler => console_injects
  | ConfigInitializer => config_init_injects
  | NodeService => node_service_injects
  | MetricsBridge => metrics_injects
  | VrpcServerFactory => vrpc_server_injects
  | NodeTLSFactory => nodetls_injects
  | FSM_ => fsm_injects
  | Replicator_ => replicator_injects
  | Reclaimer_ => reclaimer_injects
  | RaftHost_ => host_injects
  | AddressReconciler_ => reconciler_injects
  | LedgerService_ => ledger_injects
  | VrpcDataService_ => vrpc_data_injects
  | AdminService => admin_injects
  | _ => {| in_required := []; in_optional := [] |}
  end.

Definition requires (b : own) : list ty := in_required (injects_of b).
Definition optionals (b : own) : list ty := in_optional (injects_of b).

Definition BaseBeans : list bean := Own <$> [Application; NodeService; EnvPropertyResolver; HCLogFactory; VrpcServerFactory].

Definition ClusterBeans : list bean :=
  [Own RaftStoreFactory; Own NodeTLSFactory; Foreign RaftLogStoreFactory; Foreign RaftStableStoreFactory; Foreign RaftSnapshotFactory;
   Foreign ServerLookup; Foreign RaftServerBean; Foreign RaftVrpcClientPool; Foreign RaftVrpcServer;
   Own FSM_; Own Replicator_; Own Reclaimer_; Own RaftHost_; Own AddressReconciler_; Own LedgerService_].

(** [Beans]: the whole stack regardless of the mode. *)
Definition Beans : list bean := BaseBeans ++ ClusterBeans.

(** The handlers of the HTTP server. *)
Definition http_beans : list bean :=
  [Own ConsoleHandler; Own (PageHandler (str "dashboard.html")); Own (PageHandler (str "console.html"));
   Own (Redirect (str "/")); Own (Redirect (str "/dashboard")); Own (Redirect (str "/console")); Own AssetsHandler; Foreign MetricsHandler;
   Own (HealthHandler (str "/healthz")); Own (HealthHandler (str "/livez")); Own (HealthHandler (str "/readyz"))].

(** The beans constructed by [run]: [runScope], over the root context with its properties and
    logger. *)
Definition run_scope (mode : bytes) : list bean :=
  let scope := [Own Configuration_; Own StorageBean; Own AuthService; Own PolicyService_] ++ http_beans ++ [Own JobManager_; Own ConfigInitializer] in
  let scope := scope ++ BaseBeans in
  let scope := if bool_decide (mode = ModeCluster) then scope ++ ClusterBeans else scope in
  [Foreign GlueContext; Foreign ZapLogFactory] ++ scope ++ [Own VrpcDataService_; Own AdminService; Own MetricsBridge].

Section Injection.
(** What the beans of other packages provide. *)
Variable provides_foreign : foreign -> list ty.

Definition provides (b : bean) : list ty := match b with Own b => provides_own b | Foreign b => provides_foreign b end.

Definition providers (scope : list bean) (t : ty) : list bean := filter (fun b => bool_decide (t ∈ provides b) = true) scope.

(** An injection of the container: the one provider, nil for an optional field without one, and no
    start for a required field without one or for any field with several. *)
Inductive injection : Type := Injected (b : bean) | Absent | Refused.

Definition inject (required : bool) (scope : list bean) (t : ty) : injection :=
  match providers scope t with
  | [] => if required then Refused else Absent
  | [b] => Injected b
  | _ => Refused
  end.

(** The documented types of the factories. *)
Record ForeignDoc : Prop := {
  doc_context : provides_foreign GlueContext = [TProperties];
  doc_log : provides_foreign ZapLogFactory = [TLogger];
  doc_raft : provides_foreign RaftServerBean = [TRaftServer];
  doc_pool : provides_foreign RaftVrpcClientPool = [TRaftClientPool];
  doc_other : forall b, b ∈ [MetricsHandler; RaftLogStoreFactory; RaftStableStoreFactory; RaftSnapshotFactory; ServerLookup; RaftVrpcServer] -> provides_foreign b = []
}.

End Injection.

(** ** Commands *)

(** A command: the group it is attached to and its name. *)
Definition cli_root : bytes := str "cli".

(** [Group()] and the parent of each group. *)
Definition IamGroup : bytes * bytes := (str "iam", cli_root).
Definition ClusterGroup : bytes * bytes := (str "cluster", cli_root).
Definition LedgerGroup : bytes * bytes := (str "ledger", cli_root).
Definition RaftGroup : bytes * bytes := (str "raft", cli_root).

Definition cli_groups : list (bytes * bytes) := [IamGroup; ClusterGroup; LedgerGroup; RaftGroup].

(** The [cli] tags of a command struct: required arguments, of which a list takes all the rest, and
    options with the type of their field and their default. *)
Inductive opt_type : Type := OString | OBool | OInt.
Record usage : Type := {
  cu_group : bytes; cu_name : bytes; cu_args : list (bytes * bool); cu_options : list (bytes * opt_type * bytes) }.

Definition one (name : string) : bytes * bool := (str name, false).
Definition many (name : string) : bytes * bool := (str name, true).
Definition opt (name : string) (t : opt_type) (d : string) : bytes * opt_type * bytes := (str name, t, str d).

Definition VersionCommand_usage : usage := {|
  cu_group := str "cli"; cu_name := str "version"; cu_args := []%string;
  cu_options := []%string |}.
Definition LicensesCommand_usage : usage := {|
  cu_group := str "cli"; cu_name := str "licenses"; cu_args := []%string;
  cu_options := []%string |}.
Definition InitCommand_usage : usage := {|
  cu_group := str "cli"; cu_name := str "init"; cu_args := []%string;
  cu_options := [opt "cluster" OBool "false"; opt "seed" OBool "true"; opt "host" OString ""; opt "data-dir" OString ""; opt "http" OString ""; opt "vrpc" OString ""; opt "auth" OBool "false"; opt "out" OString ""; opt "force" OBool "false"]%string |}.
Definition SealCommand_usage : usage := {|
  cu_group := str "cli"; cu_name := str "seal"; cu_args := []%string;
  cu_options := []%string |}.
Definition UnsealCommand_usage : usage := {|
  cu_group := str "cli"; cu_name := str "unseal"; cu_args := []%string;
  cu_options := []%string |}.
Definition StartCommand_usage : usage := {|
  cu_group := str "cli"; cu_name := str "start"; cu_args := []%string;
  cu_options := []%string |}.
Definition StopCommand_usage : usage := {|
  cu_group := str "cli"; cu_name := str "stop"; cu_args := []%string;
  cu_options := []%string |}.
Definition IamBootstrapCommand_usage : usage := {|
  cu_group := str "iam"; cu_name := str "bootstrap"; cu_args := [one "username"]%string;
  cu_options := [opt "password" OString ""]%string |}.
Definition IamUserAddCommand_usage : usage := {|
  cu_group := str "iam"; cu_name := str "user-add"; cu_args := [one "username"]%string;
  cu_options := [opt "password" OString ""; opt "admin" OBool "false"]%string |}.
Definition IamSaAddCommand_usage : usage := {|
  cu_group := str "iam"; cu_name := str "sa-add"; cu_args := [one "name"]%string;
  cu_options := [opt "cert-idents" OString ""]%string |}.
Definition IamRoleAddCommand_usage : usage := {|
  cu_group := str "iam"; cu_name := str "role-add"; cu_args := [one "name"]%string;
  cu_options := [opt "permissions" OString ""]%string |}.
Definition IamGroupSetCommand_usage : usage := {|
  cu_group := str "iam"; cu_name := str "group-set"; cu_args := [one "name"]%string;
  cu_options := [opt "members" OString ""]%string |}.
Definition IamBindingAddCommand_usage : usage := {|
  cu_group := str "iam"; cu_name := str "binding-add"; cu_args := [one "role"]%string;
  cu_options := [opt "members" OString ""; opt "tenant" OString ""; opt "region" OString ""]%string |}.
Definition ClusterJoinTokenCommand_usage : usage := {|
  cu_group := str "cluster"; cu_name := str "join-token"; cu_args := []%string;
  cu_options := [opt "ttl" OString "30m"]%string |}.
Definition ClusterIdentityCommand_usage : usage := {|
  cu_group := str "cluster"; cu_name := str "identity"; cu_args := []%string;
  cu_options := []%string |}.
Definition BackupCommand_usage : usage := {|
  cu_group := str "cli"; cu_name := str "backup"; cu_args := [one "dest"]%string;
  cu_options := [opt "since" OInt "0"; opt "password" OString ""]%string |}.
Definition RestoreCommand_usage : usage := {|
  cu_group := str "cli"; cu_name := str "restore"; cu_args := [one "src"]%string;
  cu_options := [opt "password" OString ""]%string |}.
Definition LedgerCAInitCommand_usage : usage := {|
  cu_group := str "ledger"; cu_name := str "ca-init"; cu_args := [one "ca_key_out"; one "ca_pub_out"]%string;
  cu_options := []%string |}.
Definition LedgerKeygenCommand_usage : usage := {|
  cu_group := str "ledger"; cu_name := str "keygen"; cu_args := [one "node_key_out"; one "node_pub_out"]%string;
  cu_options := []%string |}.
Definition LedgerIssueCommand_usage : usage := {|
  cu_group := str "ledger"; cu_name := str "issue"; cu_args := [one "ca_key"; one "node_id"; one "node_key"; one "cert_out"]%string;
  cu_options := [opt "days" OInt "0"]%string |}.
Definition LedgerVerifyCommand_usage : usage := {|
  cu_group := str "ledger"; cu_name := str "verify"; cu_args := [one "ca_pub"; one "quorum_cert"; many "node_certs"]%string;
  cu_options := [opt "threshold" OInt "0"]%string |}.
Definition LedgerVerifyBackupCommand_usage : usage := {|
  cu_group := str "ledger"; cu_name := str "verify-backup"; cu_args := [one "backup"; one "ca_pub"; one "quorum_cert"; many "node_certs"]%string;
  cu_options := [opt "password" OString ""; opt "threshold" OInt "0"]%string |}.

(** The commands of [main], in the order they are registered. *)
Definition usages : list usage :=
  [VersionCommand_usage; LicensesCommand_usage; InitCommand_usage; SealCommand_usage; UnsealCommand_usage; StartCommand_usage;
   StopCommand_usage; IamBootstrapCommand_usage; IamUserAddCommand_usage; IamSaAddCommand_usage; IamRoleAddCommand_usage; IamGroupSetCommand_usage;
   IamBindingAddCommand_usage; ClusterJoinTokenCommand_usage; ClusterIdentityCommand_usage; BackupCommand_usage; RestoreCommand_usage; LedgerCAInitCommand_usage;
   LedgerKeygenCommand_usage; LedgerIssueCommand_usage; LedgerVerifyCommand_usage; LedgerVerifyBackupCommand_usage].

Definition cli_commands : list (bytes * bytes) := (fun u => (cu_group u, cu_name u)) <$> usages.

(** A default that the type of its field can hold. *)
Definition default_ok (o : bytes * opt_type * bytes) : bool :=
  match o with
  | (_, OString, _) => true
  | (_, OBool, d) => bool_decide (d = str "true") || bool_decide (d = str "false")
  | (_, OInt, d) => negb (bool_decide (d = [])) && forallb (fun c => (48 <=? byte_val c) && (byte_val c <=? 57)) d
  end.

(** A usage the parser can serve: distinct names, the list argument last, defaults of their type. *)
Definition usage_ok (u : usage) : bool :=
  bool_decide (NoDup ((fst <$> cu_args u) ++ (fst <$> (fst <$> cu_options u)))) &&
  forallb (fun a => negb (snd a)) (take (length (cu_args u) - 1) (cu_args u)) && forallb default_ok (cu_options u).

(** The beans of [raftvrpc.Commands()]: groups are left out, commands are added. *)
Inductive vendor_bean : Type := VendorGroup (name : bytes) | VendorCommand (group name : bytes).

Definition vendor_commands (l : list vendor_bean) : list (bytes * bytes) :=
  omap (fun b => match b with VendorGroup _ => None | VendorCommand g c => Some (g, c) end) l.

(** The command tree: ours, servion's run command under the root, and the raft commands. *)
Definition cli_tree (vendor : list vendor_bean) : list (bytes * bytes) :=
  cli_commands ++ [(cli_root, str "run")] ++ vendor_commands vendor.

(** ** Properties *)

Section Props.
Variable provides_foreign : foreign -> list ty.
Hypothesis doc : ForeignDoc provides_foreign.

(** What the beans of other packages provide, as their documentation says. *)
Definition doc_provides (b : foreign) : list ty :=
  match b with GlueContext => [TProperties] | ZapLogFactory => [TLogger] | RaftServerBean => [TRaftServer] | RaftVrpcClientPool => [TRaftClientPool] | _ => [] end.

Lemma doc_provides_eq b : provides_foreign b = doc_provides b.
Proof. destruct doc as [D1 D2 D3 D4 D5]. destruct b; first [assumption|apply D5; set_solver]. Qed.

Lemma provides_doc b : provides provides_foreign b = provides doc_provides b.
Proof. destruct b; [done|apply doc_provides_eq]. Qed.

Lemma providers_doc scope t : providers provides_foreign scope t = providers doc_provides scope t.
Proof. unfold providers. induction scope as [|b scope IH]; [done|]. rewrite !filter_cons, IH, provides_doc. done. Qed.

Lemma inject_doc required scope t : inject provides_foreign required scope t = inject doc_provides required scope t.
Proof. unfold inject. by rewrite providers_doc. Qed.

(** The two shapes of the scope. *)
Lemma run_scope_cases mode : run_scope mode = if bool_decide (mode = ModeCluster) then run_scope ModeCluster else run_scope ModeSingle.
Proof. unfold run_scope. rewrite (bool_decide_eq_true_2 (ModeCluster = ModeCluster)) by done. case_bool_decide; reflexivity. Qed.

(** The checks of all beans of a scope, by evaluation. *)
Definition scope_checked (scope : list bean) : bool :=
  forallb (fun b => match b with
    | Own o => forallb (fun t => match inject doc_provides true scope t with Injected _ => true | _ => false end) (requires o) &&
               forallb (fun t => match inject doc_provides false scope t with Refused => false | _ => true end) (optionals o)
    | Foreign _ => true end) scope.

Lemma cluster_checked : scope_checked (run_scope ModeCluster) = true.
Proof. vm_compute. reflexivity. Qed.

Lemma single_checked : scope_checked (run_scope ModeSingle) = true.
Proof. vm_compute. reflexivity. Qed.

Lemma checked_bean scope b :
  scope_checked scope = true -> Own b ∈ scope ->
  forallb (fun t => match inject doc_provides true scope t with Injected _ => true | _ => false end) (requires b) = true /\
  forallb (fun t => match inject doc_provides false scope t with Refused => false | _ => true end) (optionals b) = true.
Proof. unfold scope_checked. rewrite forallb_forall. intros HC Hb%list_elem_of_In. by apply andb_true_iff, (HC _ Hb). Qed.

Lemma checked_required scope b t :
  scope_checked scope = true -> Own b ∈ scope -> t ∈ requires b -> exists p, inject doc_provides true scope t = Injected p.
Proof.
  intros HC Hb Ht%list_elem_of_In. destruct (checked_bean scope b HC Hb) as [HR _]. rewrite forallb_forall in HR. specialize (HR t Ht).
  destruct (inject doc_provides true scope t) as [p| |]; [by exists p|done..].
Qed.

Lemma checked_optional scope b t :
  scope_checked scope = true -> Own b ∈ scope -> t ∈ optionals b -> inject doc_provides false scope t <> Refused.
Proof.
  intros HC Hb Ht%list_elem_of_In. destruct (checked_bean scope b HC Hb) as [_ HO]. rewrite forallb_forall in HO. specialize (HO t Ht).
  by destruct (inject doc_provides false scope t).
Qed.

(** An order of construction. *)
Definition own_rank (b : own) : nat :=
  match b with
  | StorageBean | Replicator_ | RaftHost_ | AddressReconciler_ | NodeTLSFactory => 1
  | AuthService | PolicyService_ | FSM_ | Reclaimer_ => 2
  | LedgerService_ | VrpcDataService_ | AdminService => 3
  | ConsoleHandler => 4
  | _ => 0
  end.

(** Each type of a list, evaluated. *)
Ltac each_type Ht := repeat (apply elem_of_cons in Ht as [->|Ht]; [vm_compute; reflexivity|]); by apply not_elem_of_nil in Ht.


(** Injections are not cyclic. The beans of the repository can be built in an order in which
    everything a bean injects, required or optional, is built before it. *)
Theorem wiring_acyclic : exists rank : own -> nat, forall mode b t p,
  Own b ∈ run_scope mode -> t ∈ requires b ++ optionals b -> Own p ∈ providers provides_foreign (run_scope mode) t -> (rank p < rank b)%nat.
Proof.
  clear doc. exists own_rank. intros mode b t p _ Ht Hp. unfold providers in Hp. apply list_elem_of_filter in Hp as [Hp _].
  destruct b; cbn in Ht; repeat (apply elem_of_cons in Ht as [->|Ht]; [destruct p; first [discriminate Hp|cbn; lia]|]); by apply not_elem_of_nil in Ht.
Qed.

(** The command tree is well formed. Every command, those of the raft control plane included,
    is attached to the root or to a registered group, no two commands of a group share a name, and
    no two groups do, when the vendor's commands have distinct names and attach to the raft group;
    its own group, which has no parent, is left out. And every usage can be parsed: its names are
    distinct, only the last argument takes a list, and its defaults are values of their fields. *)
Theorem cli_tree_wf (vendor : list vendor_bean) :
  NoDup (vendor_commands vendor) -> Forall (fun x => fst x = str "raft") (vendor_commands vendor) ->
  NoDup (cli_tree vendor) /\ NoDup (fst <$> cli_groups) /\ Forall (fun g => snd g = cli_root) cli_groups /\
  Forall (fun x => fst x ∈ cli_root :: (fst <$> cli_groups)) (cli_tree vendor) /\ Forall (fun u => usage_ok u = true) usages.
Proof.
  intros Hnd Hraft.
  assert (Forall (fun x => fst x ∈ cli_root :: (fst <$> cli_groups) /\ fst x <> str "raft") (cli_commands ++ [(cli_root, str "run")])) as HO.
  { apply Forall_forall. intros x Hx. assert (bool_decide (fst x ∈ cli_root :: (fst <$> cli_groups) /\ fst x <> str "raft") = true) as HB; [|by apply bool_decide_eq_true in HB].
    assert (forallb (fun x => bool_decide (fst x ∈ cli_root :: (fst <$> cli_groups) /\ fst x <> str "raft")) (cli_commands ++ [(cli_root, str "run")]) = true) as HA by (vm_compute; reflexivity).
    rewrite forallb_forall in HA. apply HA. by apply list_elem_of_In. }
  unfold cli_tree. rewrite app_assoc. split; [|split; [|split; [|split]]].
  - apply NoDup_app. split; [apply (bool_decide_eq_true_1 (NoDup (cli_commands ++ [(cli_root, str "run")]))); vm_compute; reflexivity|]. split; [|done].
    intros x Hx Hv. pose proof (proj1 (Forall_forall _ _) HO x Hx) as [_ Hne]. by pose proof (proj1 (Forall_forall _ _) Hraft x Hv).
  - apply (bool_decide_eq_true_1 (NoDup (fst <$> cli_groups))). vm_compute. reflexivity.
  - repeat constructor.
  - apply Forall_app. split; [eapply Forall_impl; [exact HO|by intros ? [? _]]|]. eapply Forall_impl; [exact Hraft|]. intros x ->. vm_compute. do 4 right. left.
  - repeat (constructor; [vm_compute; reflexivity|]). constructor.
Qed.

End Props.

(** ** Witnesses *)

Lemma doc_provides_doc : ForeignDoc doc_provides.
Proof. split; try done. intros b Hb. repeat (apply elem_of_cons in Hb as [->|Hb]; [done|]). by apply not_elem_of_nil in Hb. Qed.


Lemma wiring_acyclic_witness : exists rank : own -> nat, (rank StorageBean < rank FSM_)%nat.
Proof.
  destruct (wiring_acyclic doc_provides) as [rank HR]. exists rank.
  apply (HR ModeCluster FSM_ TKeyValueStorage StorageBean); [vm_compute; repeat first [left|right]|left|vm_compute; left].
Defined.

Lemma cli_tree_wf_witness : NoDup (cli_tree [VendorGroup (str "raft"); VendorCommand (str "raft") (str "join")]).
Proof.
  apply (cli_tree_wf [VendorGroup (str "raft"); VendorCommand (str "raft") (str "join")]);
    [apply NoDup_singleton|repeat constructor].
Defined.
