(* ===== verification/Lifecycle.v ===== *)
(** * Starting and stopping the background loops and the storage bean

    The ticker loops of the reclaimer ([pkg/replication/reclaimer.go]) and of the address reconciler
    ([pkg/replication/address_reconciler.go]) with their [PostConstruct] and [Destroy], as one step
    relation over the work they do on a tick, and the lifecycle of the storage bean
    ([pkg/server/storage.go]). *)

From S2P Require Import Prelude Sha256 Pb Keys Engine Storage StorageSpec StorageReads StorageProps ScanProps Value Command Service Ledger Fsm Replication Net Config Membership Process Wiring.

(** ** Ticker loops *)

(** Where the goroutine stands: not started, at its [select], doing the work of a tick, returned
    (with [done] closed). *)
Inductive loop_pc : Type := NotStarted | Selecting | Working | Returned.

Section Loop.
Context {W : Type}.

(** The work of a tick at a clock: whether the loop goes on, and the world after it. *)
Variable work : Z -> W -> bool * W.

(** The loop with its world: whether the ticker's channel (of capacity one) holds a tick, whether
    the context is cancelled, and whether [Destroy] has returned. [lp_works] counts the ticks that
    did work. *)
Record loop : Type := {
  lp_pc : loop_pc; lp_tick : bool; lp_cancelled : bool; lp_destroyed : bool; lp_works : nat; lp_world : W }.

(** [PostConstruct]: the goroutine is started when the loop is enabled. *)
Definition loop_start (enabled : bool) (w : W) : loop := {|
  lp_pc := if enabled then Selecting else NotStarted; lp_tick := false; lp_cancelled := false; lp_destroyed := false; lp_works := 0; lp_world := w |}.

Inductive loop_step : loop -> loop -> Prop :=
| lstep_tick s : loop_step s {| lp_pc := lp_pc s; lp_tick := true; lp_cancelled := lp_cancelled s; lp_destroyed := lp_destroyed s; lp_works := lp_works s; lp_world := lp_world s |}
| lstep_select_tick s : lp_pc s = Selecting -> lp_tick s = true ->
    loop_step s {| lp_pc := Working; lp_tick := false; lp_cancelled := lp_cancelled s; lp_destroyed := lp_destroyed s; lp_works := lp_works s; lp_world := lp_world s |}
| lstep_select_done s : lp_pc s = Selecting -> lp_cancelled s = true ->
    loop_step s {| lp_pc := Returned; lp_tick := lp_tick s; lp_cancelled := true; lp_destroyed := lp_destroyed s; lp_works := lp_works s; lp_world := lp_world s |}
| lstep_work s now : lp_pc s = Working ->
    loop_step s {| lp_pc := if fst (work now (lp_world s)) then Selecting else Returned; lp_tick := lp_tick s; lp_cancelled := lp_cancelled s;
                   lp_destroyed := lp_destroyed s; lp_works := S (lp_works s); lp_world := snd (work now (lp_world s)) |}
(* [Destroy]: [t.cancel()], when it was set, and then [<-t.done] *)
| lstep_cancel s : lp_pc s <> NotStarted ->
    loop_step s {| lp_pc := lp_pc s; lp_tick := lp_tick s; lp_cancelled := true; lp_destroyed := lp_destroyed s; lp_works := lp_works s; lp_world := lp_world s |}
| lstep_joined s : lp_cancelled s = true -> lp_pc s = Returned ->
    loop_step s {| lp_pc := Returned; lp_tick := lp_tick s; lp_cancelled := true; lp_destroyed := true; lp_works := lp_works s; lp_world := lp_world s |}
(* [Destroy] of a loop that was never started returns at once *)
| lstep_not_started s : lp_pc s = NotStarted ->
    loop_step s {| lp_pc := NotStarted; lp_tick := lp_tick s; lp_cancelled := lp_cancelled s; lp_destroyed := true; lp_works := lp_works s; lp_world := lp_world s |}
(* the rest of the node goes on *)
| lstep_world s w : loop_step s {| lp_pc := lp_pc s; lp_tick := lp_tick s; lp_cancelled := lp_cancelled s; lp_destroyed := lp_destroyed s; lp_works := lp_works s; lp_world := w |}.

Inductive loop_steps (s : loop) : loop -> Prop :=
| loop_refl : loop_steps s s
| loop_more s1 s2 : loop_steps s s1 -> loop_step s1 s2 -> loop_steps s s2.

Definition stopped (s : loop) : Prop := lp_destroyed s = true -> lp_pc s = Returned \/ lp_pc s = NotStarted.

Lemma stopped_step s s' : stopped s -> loop_step s s' -> stopped s'.
Proof.
  unfold stopped. intros HS Hst. destruct Hst; cbn in *; intros Hd; auto; destruct (HS Hd) as [E|E]; rewrite E in *; discriminate.
Qed.

Lemma stopped_steps s s' : stopped s -> loop_steps s s' -> stopped s'.
Proof. intros HS. induction 1 as [|s1 s2 _ IH Hst]; [done|]. by apply (stopped_step s1). Qed.

Lemma stopped_quiet s s' : stopped s -> lp_destroyed s = true -> loop_step s s' -> lp_destroyed s' = true /\ lp_works s' = lp_works s.
Proof. intros HS Hd Hst. destruct (HS Hd) as [E|E]; destruct Hst; cbn; auto; congruence. Qed.

(** After [Destroy] has returned the loop never works again, however the rest interleaves. *)
Lemma destroyed_quiet enabled w s s' :
  loop_steps (loop_start enabled w) s -> lp_destroyed s = true -> loop_steps s s' -> lp_works s' = lp_works s.
Proof.
  intros H0 Hd Hs. assert (stopped s) as HS by (apply (stopped_steps (loop_start enabled w)); [by unfold stopped|done]).
  assert (lp_destroyed s' = true /\ lp_works s' = lp_works s) as [_ ?]; [|done].
  induction Hs as [|s1 s2 Hs1 [IHd IHw] Hst]; [done|].
  destruct (stopped_quiet s1 s2 (stopped_steps s s1 HS Hs1) IHd Hst) as [-> ->]. done.
Qed.

(** [Destroy] can always return: at most the work under way is finished first. *)
Lemma destroy_returns s :
  exists s', loop_steps s s' /\ lp_destroyed s' = true /\ (lp_works s' <= S (lp_works s))%nat.
Proof.
  assert (forall s, lp_pc s <> NotStarted -> lp_pc s <> Working -> exists s', loop_steps s s' /\ lp_destroyed s' = true /\ lp_works s' = lp_works s) as HD.
  { clear s. intros s Hn Hw. pose proof (lstep_cancel s Hn) as Hc. destruct (lp_pc s) eqn:Ep; [done| |done|].
    - eexists. split; [eapply loop_more; [eapply loop_more; [eapply loop_more; [apply loop_refl|exact Hc]|apply lstep_select_done; done]|apply lstep_joined; done]|done].
    - eexists. split; [eapply loop_more; [eapply loop_more; [apply loop_refl|exact Hc]|apply lstep_joined; done]|done]. }
  destruct (lp_pc s) eqn:Ep; [| | |].
  - eexists. split; [eapply loop_more; [apply loop_refl|by apply lstep_not_started]|]. cbn. split; [done|lia].
  - destruct (HD s) as (s' & Hs & Hd & Hw); [congruence..|]. exists s'. split; [done|]. split; [done|lia].
  - pose proof (lstep_work s 0 Ep) as Hst. set (s1 := {| lp_pc := _ |}) in Hst.
    destruct (HD s1) as (s' & Hs & Hd & Hw); [unfold s1; cbn; by destruct (fst _)..|]. exists s'. split; [|split; [done|rewrite Hw; cbn; lia]].
    clear -Hst Hs. induction Hs as [|a b _ IH Hab]; [eapply loop_more; [apply loop_refl|done]|by eapply loop_more].
  - destruct (HD s) as (s' & Hs & Hd & Hw); [congruence..|]. exists s'. split; [done|]. split; [done|lia].
Qed.

End Loop.

(** ** The reclaimer and the address reconciler *)

Section Loops.
Context `{UuidPkg} `{Badger} `{StorePkg} `{Payloads} `{!Struct headRecord}.
Context {W : Type} `{!Raft W} `{!HasStorage W}.

(** [Reclaimer.PostConstruct]: a non-positive interval disables it. *)
Definition reclaimer_enabled (Interval : Z) : bool := negb (Interval <=? 0).

(** The tick of [Reclaimer.loop]: an error is logged and the loop goes on. *)
Definition reclaim_work (Pool : option (bytes -> bytes)) (ctxErr : nat -> option error) (Limit : Z) (now : Z) (w : W) : bool * W :=
  (true, snd (ReclaimExpired Pool true now ctxErr Limit w)).

Definition reclaimer_start (Interval : Z) (w : W) : loop := loop_start (reclaimer_enabled Interval) w.

End Loops.

Section Reconcile.
Context {R : Type} `{!RaftMembers R}.
Variables (join : bytes -> bytes -> bytes -> R -> join_answer * R) (selfID advertise : bytes).

(** The tick of [AddressReconciler.loop]; the world says whether raft has been started. *)
Definition reconcile_work (pool : bool) (now : Z) (w : bool * R) : bool * (bool * R) :=
  let '(goes_on, r) := reconcile_tick join selfID advertise pool (fst w) (snd w) in (goes_on, (fst w, r)).

Definition reconciler_start (Interval : Z) (w : bool * R) : loop := loop_start (reconciler_enabled advertise Interval) w.

End Reconcile.

(** ** The storage bean *)

Section Bean.
Context `{UuidPkg} `{Badger} `{StorePkg}.

(** [StorageBean.storage]: nil until [PostConstruct]. *)
Definition StorageBean_state : Type := option KeyValueStorageCtx.

Definition StorageBean_PostConstruct (defaultIndexCacheSize : Z) (open : BadgerOptions -> result DB) (conf : Configuration)
    (t : StorageBean_state) : result unit * StorageBean_state :=
  match OpenKeyValueStorage defaultIndexCacheSize open conf with
  | Ret st => (Ret tt, Some st)
  | Fail e => (Fail e, t)
  | Panic => (Panic, t)
  end.

(** [close] is [db.Close]. *)
Definition StorageBean_Close (close : DB -> option error) (t : StorageBean_state) : option error :=
  match t with Some st => close (db st) | None => None end.

(** Every other method calls the same method of the opened storage, a nil one is dereferenced. *)
Definition bean_read {A} (t : StorageBean_state) (op : KeyValueStorageCtx -> result A) : result A :=
  match t with Some st => op st | None => Panic end.

Definition bean_write {A} (t : StorageBean_state) (op : KeyValueStorageCtx -> result A * KeyValueStorageCtx) : result A * StorageBean_state :=
  match t with Some st => let '(r, st') := op st in (r, Some st') | None => (Panic, None) end.

Definition bean_Get (now : Z) (t : StorageBean_state) (req : KeyRequest) := bean_read t (fun st => Get now st req).
Definition bean_GetRecent (now : Z) (t : StorageBean_state) (req : KeyRequest) := bean_read t (fun st => GetRecent now st req).
Definition bean_GetRange (now : Z) (t : StorageBean_state) (req : RangeRequest) := bean_read t (fun st => GetRange now st req).
Definition bean_GetArea {S} (now : Z) (t : StorageBean_state) (req : KeyRequest) (lastField : Field) (sender : BlockSender S) (s : S) : result unit * S :=
  match t with Some st => GetArea now st req lastField sender s | None => (Panic, s) end.
Definition bean_Scan {S} (now : Z) (t : StorageBean_state) (req : ScanRequest) (sender : BlockSender S) (s : S) : result unit * S :=
  match t with Some st => Scan now st req sender s | None => (Panic, s) end.
Definition bean_ScanExpired (now : Z) (t : StorageBean_state) (ctxErr : nat -> option error) (limit : Z) : result (list ReclaimEntry * option error) :=
  bean_read t (fun st => Ret (ScanExpired now st ctxErr limit)).
Definition bean_Backup (t : StorageBean_state) (since : Z) := bean_read t (fun st => Storage.Backup st since).
Definition bean_Put (now : Z) (t : StorageBean_state) (req : RecordRequest) (commitVersion : Z) := bean_write t (fun st => Put now st req commitVersion).
Definition bean_Touch (now : Z) (t : StorageBean_state) (req : RecordRequest) (commitVersion : Z) := bean_write t (fun st => Touch now st req commitVersion).
Definition bean_Remove (t : StorageBean_state) (req : KeyRequest) := bean_write t (fun st => Remove st req).
Definition bean_Increment (now : Z) (t : StorageBean_state) (req : IncrementRequest) (commitVersion : Z) := bean_write t (fun st => Increment now st req commitVersion).
Definition bean_SetBatch (now : Z) (t : StorageBean_state) (req : BatchRequest) (commitVersion : Z) := bean_write t (fun st => SetBatch now st req commitVersion).
Definition bean_Reclaim (t : StorageBean_state) (req : ReclaimRequest) := bean_write t (fun st => Reclaim st req).
Definition bean_Load (t : StorageBean_state) (dump : bytes) := bean_write t (fun st => Storage.Load st dump).

End Bean.

(** ** Properties *)

Section Props.
Context `{UuidPkg} `{!UuidLaws} `{Badger} `{!BadgerSpec} `{StorePkg} `{!StoreLaws} `{Payloads} `{!Struct headRecord}.
Context {W : Type} `{!Raft W} `{!HasStorage W}.

Lemma disabled_idle {V} (work : Z -> V -> bool * V) (w : V) s : loop_steps work (loop_start false w) s -> lp_pc s = NotStarted /\ lp_works s = 0%nat.
Proof. induction 1 as [|s1 s2 _ [IHp IHw] Hst]; [done|]. destruct Hst; cbn; auto; congruence. Qed.

(** C38: the reclaimer starts and stops cleanly. With a non-positive interval it never sweeps. From
    every state [Destroy] can return, after at most the sweep under way; once it has returned no
    sweep is ever proposed again, however ticks, writes and elections interleave; and a tick on a
    node of a running cluster that is not the leader leaves the node as it is. *)
Theorem reclaimer_lifecycle (Pool : option (bytes -> bytes)) (ctxErr : nat -> option error) (Limit Interval : Z) (w : W) :
  let work := reclaim_work Pool ctxErr Limit in
  (Interval <= 0 -> forall s, loop_steps work (reclaimer_start Interval w) s -> lp_works s = 0%nat) /\
  (forall s, loop_steps work (reclaimer_start Interval w) s -> exists s', loop_steps work s s' /\ lp_destroyed s' = true /\ (lp_works s' <= S (lp_works s))%nat) /\
  (forall s s', loop_steps work (reclaimer_start Interval w) s -> lp_destroyed s = true -> loop_steps work s s' -> lp_works s' = lp_works s) /\
  (forall now v, raft_initialized v = true -> raft_is_leader v = false -> work now v = (true, v)).
Proof.
  cbn zeta. split; [|split; [|split]].
  - intros Hi s Hs. unfold reclaimer_start, reclaimer_enabled in Hs. rewrite (proj2 (Z.leb_le _ _) Hi) in Hs. by apply (disabled_idle _ _ _ Hs).
  - intros s _. apply destroy_returns.
  - intros s s'. apply destroyed_quiet.
  - intros now v Hi Hl. unfold reclaim_work, ReclaimExpired, Replication.IsLeader, Replicator_Enabled. by rewrite Hi, Hl.
Qed.

(** A single node never removes what has expired. Outside cluster mode the reclaimer is not
    among the beans, although it is written to sweep the local store when replication is off; so an
    expired entry stays, a read reports it missing, and yet a put that asks for absence (a
    compare-and-set with version zero) is refused, at every later time, until something else writes
    to the key. *)
Theorem single_node_never_reclaims (mode : bytes) (now : Z) (st : KeyValueStorageCtx) (key : Key) (e : entry) (req : RecordRequest) (cv : Z) :
  mode <> ModeCluster -> BadgerReliable ->
  contents st !! enc_key key = Some e -> live now e = false -> e_version e <> 0 ->
  rr_Key req = Some key -> rr_CompareAndSet req = true -> rr_Version req = 0 -> is_int64 (rr_ExpiresAt req) -> is_uint64 cv ->
  Own Reclaimer_ ∉ run_scope mode /\
  Get now st {| kr_Key := Some key; kr_HeadOnly := false; kr_Timeout := 0 |} = Ret (RecordNotFound (Some key)) /\
  fst (Put now st req cv) = Ret {| Updated := false |} /\ contents (snd (Put now st req cv)) = contents st.
Proof.
  intros Hm HR Hc Hl Hv Hk Hcas Hver Hex Hcv. split; [|split].
  - rewrite run_scope_cases. rewrite bool_decide_eq_false_2 by done. vm_compute. intros Hin.
    repeat (apply elem_of_cons in Hin as [Hin|Hin]; [discriminate Hin|]). by apply not_elem_of_nil in Hin.
  - destruct (Get_cases now st key false 0) as [[size ->]|[HN _]]; [|contradiction]. unfold get_spec_rec. by rewrite Hc, Hl.
  - destruct (refines_reliable _ _ _ HR (Put_refines now st req cv Hex Hcv)) as (E1 & E2 & _). rewrite E1, E2. unfold put_spec. rewrite Hk, Hcas, Hver, Hc. unfold cas_matches.
    rewrite (proj2 (Z.eqb_neq 0 (e_version e))) by lia. done.
Qed.

End Props.

(** ** Witnesses *)

Section Witness.
#[local] Existing Instances flat_uuid flat_uuid_laws mem_badger mem_spec flat_store flat_store_laws.

Lemma single_node_never_reclaims_witness :
  Own Reclaimer_ ∉ run_scope ModeSingle /\ fst (Put 200 demo_stored (demo_record (str "w") 0 true 0) 9) = Ret {| Updated := false |}.
Proof.
  destruct (single_node_never_reclaims ModeSingle 200 demo_stored demo_key demo_entry (demo_record (str "w") 0 true 0) 9
    ltac:(discriminate) mem_reliable demo_contents ltac:(vm_compute; reflexivity) ltac:(vm_compute; discriminate) eq_refl eq_refl eq_refl
    ltac:(cbn; unfold is_int64; lia) ltac:(unfold is_uint64; lia)) as (E1 & _ & E2 & _).
  exact (conj E1 E2).
Defined.

End Witness.
