(* ===== verification/Runtime.v ===== *)
(** * Around the server: host loads, metric sinks, web mounts

    The sampling of the host ([pkg/console/nodes.go]), the address a node advertises by default
    ([pkg/config/config.go]), the metrics bridge ([pkg/run/metrics.go]) and the mounts of the web
    pages ([pkg/run/spa.go], [main.go]). What the host, the network and the metric libraries answer
    are arguments. *)

From S2P Require Import Prelude Pb Net Api Process.

(** ** Host loads *)

(** [round1] in tenths; the argument is a non-negative rational [num / den]. *)
Definition round1 (num den : Z) : Z := Z.quot (20 * num + den) (2 * den).

(** What [VirtualMemory] and [disk.Usage] report: a percentage, used and total bytes. *)
Record host_usage : Type := { ug_num : Z; ug_den : Z; ug_Used : Z; ug_Total : Z }.

(** [localMetrics]; a source that fails leaves its fields at zero, and [size] is [None] when the
    storage does not report its size. *)
Definition localMetrics (cpu : result (list (Z * Z))) (mem disk : result host_usage) (size : option (Z * Z)) : NodeMetrics :=
  let pct u := match u with Ret u => round1 (ug_num u) (ug_den u) | _ => 0 end in
  let used u := match u with Ret u => ug_Used u | _ => 0 end in
  let total u := match u with Ret u => ug_Total u | _ => 0 end in {|
  nm_CPUPercent := match cpu with Ret ((n, d) :: _) => round1 n d | _ => 0 end;
  nm_MemPercent := pct mem; nm_MemUsedBytes := used mem; nm_MemTotalBytes := total mem;
  nm_DiskPercent := pct disk; nm_DiskUsedBytes := used disk; nm_DiskTotalBytes := total disk;
  nm_StoreBytes := match size with Some (lsm, vlog) => int64 (lsm + vlog) | None => 0 end |}.

(** The directory whose disk is sampled. *)
Definition dataDir (DataDir : bytes) : bytes := if bool_decide (DataDir = []) then str "/" else DataDir.

(** ** The advertised address *)

(** An address of an interface: whether it is a network, whether it is the loopback, and its text
    in four-byte form, if it has one. *)
Record if_addr : Type := { ia_network : bool; ia_loopback : bool; ia_v4 : option bytes }.

Fixpoint first_v4 (addrs : list if_addr) : bytes :=
  match addrs with
  | [] => []
  | a :: rest =>
      if ia_network a && negb (ia_loopback a) then match ia_v4 a with Some v4 => v4 | None => first_v4 rest end
      else first_v4 rest
  end.

(** [OutboundIP]; [dialed] is the local address of the probe, when it could be made and is one. *)
Definition OutboundIP (dialed : option bytes) (addrs : result (list if_addr)) : bytes :=
  match dialed with
  | Some ip => ip
  | None => match addrs with Ret l => first_v4 l | _ => [] end
  end.

(** ** The metrics bridge *)

(** The outcomes of the four steps of [install]; registering the collector may find it there. *)
Inductive registration : Type := Registered | AlreadyRegistered | RegisterFailed (e : error).

Record install_run : Type := { in_sink : option error; in_hashi : option error; in_armon : option error; in_collector : registration }.

Definition install (r : install_run) : option error :=
  match in_sink r with
  | Some e => Some (ErrWrap (str "prometheus sink") e)
  | None =>
  match in_hashi r with
  | Some e => Some (ErrWrap (str "hashicorp go-metrics global") e)
  | None =>
  match in_armon r with
  | Some e => Some (ErrWrap (str "armon go-metrics global") e)
  | None =>
  match in_collector r with
  | RegisterFailed e => Some (ErrWrap (str "register badger expvar collector") e)
  | Registered | AlreadyRegistered => None
  end end end end.

(** [PostConstruct] under the process-wide [sync.Once]; [ran] says whether it has run. *)
Definition Metrics_PostConstruct (ran : bool) (r : install_run) : option error * bool :=
  if ran then (None, true) else (install r, true).

(** The labels of one metrics library as those of the other. *)
Record Label : Type := { lb_Name : bytes; lb_Value : bytes }.

Definition hashiLabels (labels : list Label) : list Label := (fun l => {| lb_Name := lb_Name l; lb_Value := lb_Value l |}) <$> labels.

(** A call of a metric sink; the value is left abstract. *)
Inductive metric (V : Type) : Type :=
  | SetGauge (key : list bytes) (val : V) | SetGaugeWithLabels (key : list bytes) (val : V) (labels : list Label)
  | EmitKey (key : list bytes) (val : V)
  | IncrCounter (key : list bytes) (val : V) | IncrCounterWithLabels (key : list bytes) (val : V) (labels : list Label)
  | AddSample (key : list bytes) (val : V) | AddSampleWithLabels (key : list bytes) (val : V) (labels : list Label).
Arguments SetGauge {V}. Arguments SetGaugeWithLabels {V}. Arguments EmitKey {V}. Arguments IncrCounter {V}.
Arguments IncrCounterWithLabels {V}. Arguments AddSample {V}. Arguments AddSampleWithLabels {V}.

(** The call that [armonSinkAdapter] makes for a call it gets. *)
Definition adapt {V} (m : metric V) : metric V :=
  match m with
  | SetGauge k v => SetGauge k v
  | SetGaugeWithLabels k v l => SetGaugeWithLabels k v (hashiLabels l)
  | EmitKey k v => EmitKey k v
  | IncrCounter k v => IncrCounter k v
  | IncrCounterWithLabels k v l => IncrCounterWithLabels k v (hashiLabels l)
  | AddSample k v => AddSample k v
  | AddSampleWithLabels k v l => AddSampleWithLabels k v (hashiLabels l)
  end.

(** ** Web mounts *)

(** The two shapes of the patterns in use: a fixed path, and a path with anything after it. *)
Inductive pattern : Type := Exact (path : bytes) | Under (prefix : bytes).

Definition matches (p : pattern) (path : bytes) : bool :=
  match p with Exact x => bool_decide (path = x) | Under x => HasPrefix path x end.

(** The handlers of the HTTP server. *)
Inductive mount : Type := Console | PageAt (page : bytes) | RedirectTo (target : bytes) | Assets | Metrics | Health.

(** [PageHandler.PostConstruct]: whether the page is in the binary. *)
Definition Page_PostConstruct (AssetInfo : bytes -> option Z) (page : bytes) : bool * Z :=
  match AssetInfo page with Some modTime => (true, modTime) | None => (false, 0) end.

Definition embeddedModTime (AssetInfo : bytes -> option Z) : Z := default 0 (AssetInfo (str "dashboard.html")).

(** The mounts of [main], with the pattern of each handler. *)
Definition mounts : list (pattern * mount) :=
  [(Under (str "/api/"), Console);
   (Under (str "/dashboard/"), PageAt (str "dashboard.html")); (Under (str "/console/"), PageAt (str "console.html"));
   (Exact (str "/"), RedirectTo (str "/dashboard/")); (Exact (str "/dashboard"), RedirectTo (str "/dashboard/"));
   (Exact (str "/console"), RedirectTo (str "/console/"));
   (Under (str "/assets/"), Assets); (Exact (str "/metrics"), Metrics);
   (Exact (str "/healthz"), Health); (Exact (str "/livez"), Health); (Exact (str "/readyz"), Health)].

Definition StatusMovedPermanently : Z := 301.

(** The handlers whose pattern matches a path. *)
Definition mounted_at (path : bytes) : list mount := snd <$> filter (fun m => matches (fst m) path = true) mounts.

(** ** Properties *)

(** A sampled percentage is within half a tenth of the measured one. *)
Theorem round1_close (num den : Z) : 0 <= num -> 0 < den -> Z.abs (2 * (10 * num - round1 num den * den)) <= den.
Proof.
  intros Hn Hd. unfold round1. rewrite Z.quot_div_nonneg by lia.
  pose proof (Z.div_mod (20 * num + den) (2 * den) ltac:(lia)). pose proof (Z.mod_pos_bound (20 * num + den) (2 * den) ltac:(lia)). nia.
Qed.

(** The address is never that of the loopback when it comes from an interface. *)
Theorem OutboundIP_not_loopback (addrs : list if_addr) :
  OutboundIP None (Ret addrs) = [] \/ exists a, a ∈ addrs /\ ia_loopback a = false /\ ia_v4 a = Some (OutboundIP None (Ret addrs)).
Proof.
  cbn. induction addrs as [|a addrs IH]; [by left|]. cbn. destruct (ia_network a && negb (ia_loopback a)) eqn:E.
  - apply andb_true_iff in E as [_ E%negb_true_iff]. destruct (ia_v4 a) as [v4|] eqn:Ev.
    + right. exists a. split; [left|done].
    + destruct IH as [IH|(b & Hb & IH)]; [by left|right]. exists b. split; [by right|done].
  - destruct IH as [IH|(b & Hb & IH)]; [by left|right]. exists b. split; [by right|done].
Qed.

(** The adapter forwards every call as it is. *)
Lemma hashiLabels_id l : hashiLabels l = l.
Proof. induction l as [|[n v] l IH]; [done|]. unfold hashiLabels in *. rewrite fmap_cons, IH. done. Qed.

Theorem adapt_id {V} (m : metric V) : adapt m = m.
Proof. destruct m; cbn; by rewrite ?hashiLabels_id. Qed.

(** Two patterns some path matches both of. *)
Definition overlap (p q : pattern) : bool :=
  match p, q with
  | Exact x, Exact y => bool_decide (x = y)
  | Exact x, Under y => HasPrefix x y
  | Under x, Exact y => HasPrefix y x
  | Under x, Under y => HasPrefix x y || HasPrefix y x
  end.

Lemma overlap_spec p q path : matches p path = true -> matches q path = true -> overlap p q = true.
Proof.
  destruct p as [x|x], q as [y|y]; cbn; rewrite ?bool_decide_eq_true; [by intros -> ->|by intros ->|by intros ? ->|].
  rewrite !HasPrefix_spec, orb_true_iff, !HasPrefix_spec. intros Hx Hy. destruct (prefix_weak_total _ _ _ Hx Hy) as [?|?]; [by right|by left].
Qed.

Fixpoint apart (l : list (pattern * mount)) : bool :=
  match l with [] => true | m :: l' => forallb (fun n => negb (overlap (fst m) (fst n))) l' && apart l' end.

Lemma apart_filter l path : apart l = true -> (length (filter (fun m => matches (fst m) path = true) l) <= 1)%nat.
Proof.
  induction l as [|m l IH]; [cbn; lia|]. cbn [apart]. rewrite andb_true_iff. intros [Hm Hl]. rewrite filter_cons. case_decide as E; [|by apply IH]. cbn.
  assert (filter (fun m => matches (fst m) path = true) l = []) as ->; [|cbn; lia]. apply elem_of_nil_inv. intros n Hn. apply list_elem_of_filter in Hn as [Hn Hin].
  rewrite forallb_forall in Hm. specialize (Hm n (proj1 (list_elem_of_In _ _) Hin)). by rewrite (overlap_spec _ _ path E Hn) in Hm.
Qed.

(** The web mounts are disjoint and redirects end. No path is served by two handlers, and a
    redirect leads in one step to a page. *)
Theorem mounts_disjoint (path : bytes) :
  (length (mounted_at path) <= 1)%nat /\
  forall target, RedirectTo target ∈ mounted_at path -> exists page, mounted_at target = [PageAt page].
Proof.
  split; [unfold mounted_at; rewrite length_fmap; apply apart_filter; vm_compute; reflexivity|].
  intros target (m & Hm & [_ Hin]%list_elem_of_filter)%list_elem_of_fmap. unfold mounts in Hin.
  repeat (apply elem_of_cons in Hin as [->|Hin]; [cbn in Hm; first [discriminate Hm|injection Hm as ->; vm_compute; by eexists]|]). by apply not_elem_of_nil in Hin.
Qed.
