(* ===== verification/Files.v ===== *)
(** * Backups in files ([pkg/backup/objstore.go])

    Opening a destination for writing and a dump for reading: files through the handles of the
    operating system, objects through the client of the object store, both parameters. *)

From S2P Require Import Prelude Pb Codecs Password Backup BackupProps Net NodeIdentity NodeIdentityProps Admin AdminProps Sinks Config ConfigProps.

Definition mode0750 : Z := 488.
Definition mode0600 : Z := 384.

(** [os.OpenFile] with [O_CREATE|O_WRONLY|O_TRUNC], and the write, close and size of a handle, which
    is named by the path it was opened at. *)
Class FilePkg (D : Type) : Type := {
  OpenTrunc : bytes -> Z -> D -> option error * D;
  File_Write : bytes -> Writer D;
  File_Close : bytes -> D -> option error;
  File_Size : bytes -> D -> option Z
}.

Class FileLaws (D : Type) `{OsPkg D} `{!FilePkg D} : Prop := {
  open_empty : forall path mode d d', OpenTrunc path mode d = (None, d') -> ReadFile path d' = Some [];
  open_frame : forall path mode d r d' other, OpenTrunc path mode d = (r, d') -> other <> path -> ReadFile other d' = ReadFile other d;
  file_write : forall path p d old, ReadFile path d = Some old -> fst (File_Write path p d) = None -> ReadFile path (snd (File_Write path p d)) = Some (old ++ p);
  write_other : forall path p d other, other <> path -> ReadFile other (snd (File_Write path p d)) = ReadFile other d;
  file_size : forall path d data z, ReadFile path d = Some data -> File_Size path d = Some z -> z = len data
}.

(** A disk that takes every write. *)
Class FileReliable (D : Type) `{FilePkg D} : Prop := {
  writes_taken : forall path p d, fst (File_Write path p d) = None;
  closes : forall path d, File_Close path d = None
}.

(** The client of the object store and its options. *)
Record minio_Options : Type := { mo_AccessKey : bytes; mo_SecretKey : bytes; mo_Secure : bool; mo_Region : bytes }.

Definition s3Client {C} (New : bytes -> minio_Options -> result C) (cfg : S3Config) : result C :=
  New (s3_endpoint cfg) {| mo_AccessKey := s3_AccessKey cfg; mo_SecretKey := s3_SecretKey cfg; mo_Secure := s3_UseSSL cfg; mo_Region := s3_Region cfg |}.

Section Files.
Context {D : Type} `{!OsPkg D} `{!FilePkg D}.

Variable url_path : bytes -> option bytes.

(** The handle is the path. *)
Definition openFileSink (dest : bytes) (d : D) : result bytes * D :=
  let path := fileURLPath url_path dest in
  let open d := match OpenTrunc path mode0600 d with (Some e, d) => (Fail e, d) | (None, d) => (Ret path, d) end in
  let dir := path_Dir path in
  if negb (bool_decide (dir = [])) then
    match MkdirAll dir mode0750 d with (Some e, d) => (Fail e, d) | (None, d) => open d end
  else open d.

(** [GetObject] gives the object's bytes, up to the error they end with, and its size if the store
    tells. *)
Context {C : Type}.
Variables (New : bytes -> minio_Options -> result C) (GetObject : C -> bytes -> bytes -> result (Source * option Z)).

(** [OpenSourceSized]; a size of zero is unknown. *)
Definition OpenSourceSized (src : bytes) (cfg : S3Config) (d : D) : result (Source * Z) :=
  t ← parseS3 src;
  match t with
  | None =>
      let path := fileURLPath url_path src in
      match ReadFile path d with
      | None => Fail (ErrNew (str "no such file or directory"))
      | Some data => Ret ({| src_data := data; src_err := EOF |}, default 0 (File_Size path d))
      end
  | Some (bucket, key) =>
      client ← s3Client New cfg;
      '(obj, st) ← GetObject client bucket key;
      Ret (obj, default 0 st)
  end.

(** ** Properties *)

Context `{!OsLaws D} `{!FileLaws D} `{!FileReliable D} `{Argon2Pkg} `{AeadPkg} `{ValueMaps}.

(** What is in the file at a path. *)
Definition content (path : bytes) (d : D) : bytes := default [] (ReadFile path d).

Lemma file_sim path p d : is_Some (ReadFile path d) ->
  is_Some (ReadFile path (snd (File_Write path p d))) /\ mem_write p (content path d) = (fst (File_Write path p d), content path (snd (File_Write path p d))).
Proof.
  intros [old Ho]. pose proof (file_write path p d old Ho (writes_taken path p d)) as Hw. split; [by eexists|].
  unfold content. by rewrite Ho, Hw, writes_taken.
Qed.

Lemma openFileSink_ok dest d path d0 : openFileSink dest d = (Ret path, d0) ->
  path = fileURLPath url_path dest /\ ReadFile path d0 = Some [] /\ forall other, other <> path -> ReadFile other d0 = ReadFile other d.
Proof.
  unfold openFileSink. rewrite bool_decide_eq_false_2 by apply Clean_nonempty. cbn [negb].
  destruct (MkdirAll _ _ d) as [[e|] d1] eqn:Em; [done|]. destruct (OpenTrunc _ _ d1) as [[e|] d2] eqn:Eo; [done|]. intros [= <- <-].
  split; [done|]. split; [by eapply open_empty|]. intros other Ho. etransitivity; [by eapply open_frame|by eapply mkdir_frame].
Qed.

(** A backup to a file is the backup in memory, and what is read from the same destination is that
    backup: the run over the file answers as the one in memory, the file then holds its container
    byte for byte, and opening it gives this container, with its size or no size. *)
Theorem file_backup_reads_back (dest : bytes) (cfg : S3Config) (d d0 : D) (path password : bytes) (salt noncePfx : result bytes) (stream : result (list WVal)) v err d' :
  parseS3 dest = Ret None -> openFileSink dest d = (Ret path, d0) ->
  client_Backup (File_Write path) (Ret d0) password salt noncePfx stream (File_Close path) = Some (v, err, Some d') ->
  exists dump size, client_Backup mem_write (Ret []) password salt noncePfx stream (fun _ => None) = Some (v, err, Some dump) /\
    OpenSourceSized dest cfg d' = Ret ({| src_data := dump; src_err := EOF |}, size) /\ (size = 0 \/ size = len dump).
Proof.
  intros Hs Ho HB. destruct (openFileSink_ok dest d path d0 Ho) as (Ep & He & _).
  assert (exists dump, ReadFile path d' = Some dump /\ client_Backup mem_write (Ret []) password salt noncePfx stream (fun _ => None) = Some (v, err, Some dump)) as (dump & Hr & Hm).
  { unfold client_Backup in *. assert (is_Some (ReadFile path d0)) as HP by (by eexists).
    replace [] with (content path d0) by (unfold content; by rewrite He).
    pose proof (NewWriter_sim (File_Write path) mem_write (content path) _ (file_sim path) d0 password salt noncePfx HP) as HN.
    destruct (NewWriter (File_Write path) d0 password salt noncePfx) as [c|?|]; [|done..]. destruct HN as [-> HPc].
    destruct stream as [frames|e|]; [| |done].
    - pose proof (backup_loop_sim (File_Write path) mem_write (content path) _ (file_sim path) frames 0 c HPc) as HL.
      destruct (backup_loop (File_Write path) frames 0 c) as [[[v' err'] c']|]; cbn [mbind option_bind] in HB; [|done]. destruct HL as [-> HP'].
      destruct (container_Close_sim (File_Write path) mem_write (content path) _ (file_sim path) c' HP') as (ec & c'' & E1 & E2 & [data HP'']).
      rewrite E1 in HB. injection HB as <- <- <-. exists data. split; [exact HP''|]. cbn [mbind option_bind]. rewrite E2, closes.
      do 3 f_equal. destruct c''; cbn in *; unfold content; by rewrite HP''.
    - destruct (container_Close_sim (File_Write path) mem_write (content path) _ (file_sim path) c HPc) as (ec & c'' & E1 & E2 & [data HP'']).
      rewrite E1 in HB. injection HB as <- <- <-. exists data. split; [exact HP''|]. rewrite E2. do 3 f_equal. destruct c''; cbn in *; unfold content; by rewrite HP''. }
  exists dump, (default 0 (File_Size path d')). split; [exact Hm|]. unfold OpenSourceSized. rewrite Hs. cbn [mbind outcome_bind]. rewrite <- Ep, Hr.
  split; [done|]. destruct (File_Size path d') as [z|] eqn:Ez; [right; by eapply file_size|by left].
Qed.

End Files.

(** ** Witnesses *)

Section Witness.
#[local] Existing Instances flat_maps flat_maps_laws flat_text flat_text_laws flat_argon2 flat_argon2_laws toy_aead toy_aead_laws demo_os demo_os_laws.

Definition demo_files : FilePkg demo_disk := {|
  OpenTrunc := fun path _ d => (None, {| dd_files := <[path := []]> (dd_files d); dd_broken := dd_broken d |});
  File_Write := fun path p d => (None, {| dd_files := <[path := default [] (dd_files d !! path) ++ p]> (dd_files d); dd_broken := dd_broken d |});
  File_Close := fun _ _ => None;
  File_Size := fun path d => len <$> dd_files d !! path
|}.

Lemma demo_files_laws : @FileLaws demo_disk demo_os demo_files.
Proof.
  split; cbn.
  - intros path _ d d' [= <-]. apply lookup_insert_eq.
  - intros path _ d r d' other [= <- <-] Hne. by apply lookup_insert_ne.
  - intros path p d old -> _. apply lookup_insert_eq.
  - intros path p d other Hne. by apply lookup_insert_ne.
  - intros path d data z ->. cbn. congruence.
Qed.

Lemma demo_files_reliable : @FileReliable demo_disk demo_files.
Proof. by split. Qed.

#[local] Existing Instances demo_files demo_files_laws demo_files_reliable.

Definition demo_dest : bytes := str "/backups/monday.cdb".

Definition demo_opened : demo_disk := snd (openFileSink (fun _ => None) demo_dest NodeIdentityProps.demo_empty).

Definition demo_saved : option (Z * option error * option demo_disk) :=
  client_Backup (File_Write demo_dest) (Ret demo_opened) [] (Ret toy_salt) (Ret toy_pfx) (Ret demo_frames) (File_Close demo_dest).

Definition demo_cfg : S3Config := {| s3_Endpoint := []; s3_Region := []; s3_AccessKey := []; s3_SecretKey := []; s3_UseSSL := true; s3_RetainDays := 0 |}.

Lemma file_backup_reads_back_witness :
  exists dump size d', client_Backup mem_write (Ret []) [] (Ret toy_salt) (Ret toy_pfx) (Ret demo_frames) (fun _ => None) = Some (3, None, Some dump) /\
    OpenSourceSized (fun _ => None) (fun _ _ => Ret tt) (fun _ _ _ => Fail EOF) demo_dest demo_cfg d' = Ret ({| src_data := dump; src_err := EOF |}, size).
Proof.
  destruct (file_backup_reads_back (fun _ => None) (fun _ _ => Ret tt) (fun _ _ _ => Fail EOF) demo_dest demo_cfg NodeIdentityProps.demo_empty demo_opened demo_dest []
    (Ret toy_salt) (Ret toy_pfx) (Ret demo_frames) 3 None (match demo_saved with Some (_, _, Some d) => d | _ => demo_opened end)) as (dump & size & Hm & Hs & _).
  - vm_compute. reflexivity.
  - apply pair_by_fst. vm_compute. reflexivity.
  - vm_compute. reflexivity.
  - exists dump, size, (match demo_saved with Some (_, _, Some d) => d | _ => demo_opened end). exact (conj Hm Hs).
Defined.

End Witness.
