(* ===== verification/Startup.v ===== *)
(** * Starting the process ([main.go], [pkg/replication/sprintshim.go], [pkg/constants])

    The mode and the in-code properties that [main] hands to the container, the sources a property
    is looked up in, the beans whose settings decide how the node comes up, and the texts of
    [version] and [licenses]. How the container picks a value is a parameter. *)

From S2P Require Import Prelude Pb Iam Password Console Net NodeIdentity NodeIdentityProps Api Cli Config Process ConfigProps ProcessProps Membership Wiring.

(** ** Properties *)

(** The in-code defaults. *)
Definition main_properties (environ : gmap bytes bytes) (mode : bytes) : gmap bytes bytes := list_to_map [
  (str "consensusdb.mode", mode);
  (str "http-server.bind-address", str "0.0.0.0:8441");
  (str "http-server.options", str "handlers");
  (str "consensusdb.data-dir", DefaultDataDir environ);
  (str "consensusdb.file-io", str "true");
  (str "consensusdb.encryption-key", []);
  (str "vrpc-server.bind-address", str "0.0.0.0:8444");
  (str "raft.rpc-bean-name", str "vrpc-server");
  (str "raft-vrpc-client.address", str "tcp://127.0.0.1:8444");
  (str "auth.enabled", str "false");
  (str "ledger.node-key", []);
  (str "ledger.node-cert", [])].

(** The container's choice among what the sources say on a key, in the documented order: flags,
    environment, settings files, in-code defaults. The first source that has the key decides; an
    empty text may count as a value or as none. *)
Class Container : Type := { pick : list (option bytes) -> option bytes }.

Class ContainerLaws `{Container} : Prop := {
  pick_first : forall above v below, Forall (.= None) above -> v <> [] -> pick (above ++ Some v :: below) = Some v;
  pick_empty : forall l, Forall (fun o => o = None \/ o = Some []) l -> default [] (pick l) = [];
  pick_none : forall l, Forall (.= None) l -> pick l = None
}.

(** ** The main function *)

Section Main.
Context {D : Type} `{!OsPkg D} `{!StatPkg D} `{YamlPkg} `{Container}.

(** What a start depends on: the environment, the arguments, the properties set with [-D] among
    them, and the disk. *)
Record start : Type := { st_environ : gmap bytes bytes; st_args : list bytes; st_flags : gmap bytes bytes; st_disk : D }.

Definition configPath (s : start) : bytes := DefaultConfigPath (st_environ s).

Definition main_mode (s : start) : bytes := ResolveMode (st_environ s) (st_args s) (configPath s) (st_disk s).

(** The sources above the default settings file: flags, environment, the files passed with [-c],
    the last one first. *)
Definition above (s : start) (key : bytes) : list (option bytes) :=
  st_flags s !! key :: env_GetProperty (st_environ s) key :: ((fun p => peek p (st_disk s) !! key) <$> reverse (configFlagPaths (st_args s))).

Definition said (s : start) (key : bytes) : list (option bytes) :=
  above s key ++ [peek (configPath s) (st_disk s) !! key; main_properties (st_environ s) (main_mode s) !! key].

(** A field tagged [value:"key,default=d"]. *)
Definition value (s : start) (key d : bytes) : bytes := default d (pick (said s key)).

(** The beans that are constructed. *)
Definition main_beans (s : start) : list bean := run_scope (main_mode s).

(** [RaftHost] with its fields; the text of [raft.bootstrap] is converted by the container. *)
Definition raft_host (s : start) (Bootstrap : bool) : host_action :=
  host_PostConstruct (value s (str "raft.bind-address") []) (value s (str "serf.bind-address") []) (value s (str "consensusdb.mode") (str "single")) Bootstrap.

(** The readers of the data directory: the storage's configuration, the raft store, the snapshots of
    raft ([Application.ApplicationDir]) and the console. *)
Definition Configuration_DataDir (s : start) : bytes := value s (str "consensusdb.data-dir") (str "/tmp/consensusdb").

Definition raft_store_dir (s : start) : bytes := path_Join [value s (str "consensusdb.data-dir") (str "/tmp/consensusdb"); str "raft"].

Definition ApplicationDir (DataDir_ : bytes) : bytes := if negb (bool_decide (DataDir_ = [])) then DataDir_ else str ".".

Definition snapshot_root (s : start) : bytes := ApplicationDir (value s (str "consensusdb.data-dir") (str "/tmp/consensusdb")).

(** [ConfigInitializer] of the run scope. *)
Definition first_run (s : start) : option error * start :=
  let '(e, d) := ConfigInitializer_PostConstruct (st_environ s) (configPath s) (main_mode s) (st_disk s) in
  (e, {| st_environ := st_environ s; st_args := st_args s; st_flags := st_flags s; st_disk := d |}).

End Main.
Arguments start : clear implicits.

(** ** Texts *)

Record AppInfo : Type := { ai_Version : bytes; ai_Build : bytes }.

Definition SetAppInfo (version build : bytes) (_ : AppInfo) : AppInfo := {| ai_Version := version; ai_Build := build |}.

Definition ApplicationName : bytes := str "consensusdb".
Definition Copyright : bytes := str "(c) 2025 Karagatan LLC. All Rights Reserved.".

(** [VersionCommand.Run]: what it prints. *)
Definition Version_Run (i : AppInfo) : bytes :=
  str "ConsensusDB [Version " ++ ai_Version i ++ str ", Build " ++ ai_Build i ++ str "]" ++ nl ++ Copyright ++ nl.

Definition Contains (s sub : bytes) : bool := bool_decide (is_Some (Index s sub)).

Definition filterLines (content : bytes) (words : list bytes) : bytes :=
  concat ((fun line => if existsb (Contains line) words then [] else line ++ nl) <$> Split x0a content).

(** The embedded files; [None] is an error. *)
Definition GetLicenses (Asset : bytes -> option bytes) : bytes :=
  match Asset (str "licenses.txt") with Some content => filterLines content [ApplicationName] | None => [] end.

(** [Application.GetStats] and [NodeService.GetStats]: the pairs handed to the callback. *)
Definition Application_GetStats (Name_ : bytes) (i : AppInfo) : list (bytes * bytes) := [(str "name", Name_); (str "version", ai_Version i)].
Definition NodeService_GetStats (t : Net.NodeService) (host : bytes) : list (bytes * bytes) :=
  [(str "node.id", NodeIdHex t host); (str "node.seq", fmt_d (ns_NodeSeqNum t))].

(** ** Properties of a start *)

Section Props.
Context {D : Type} `{!OsPkg D} `{!OsLaws D} `{!StatPkg D} `{!StatLaws D} `{YamlPkg} `{!YamlLaws} `{Container} `{!ContainerLaws}.

Abbreviation start := (start D).

(** No source above the settings file sets the key to the empty text. *)
Definition not_blanked (s : start) (key : bytes) : Prop := Some [] ∉ above s key.

Lemma first_said (l : list (option bytes)) : Forall (.= None) l \/ exists up v below, l = up ++ Some v :: below /\ Forall (.= None) up.
Proof.
  induction l as [|[v|] l IH]; [by left|right; by exists [], v, l|]. destruct IH as [IH|(up & v & below & -> & HU)]; [left; by constructor|].
  right. exists (None :: up), v, below. split; [done|by constructor].
Qed.

(** A source repeats what the defaults say. *)
Lemma pick_repeat up v : Some [] ∉ up -> default [] (pick (up ++ [None; Some v])) = default [] (pick (up ++ [Some v; Some v])).
Proof.
  intros Hn. destruct (first_said up) as [HU|(u & w & b & -> & HU)].
  - destruct (decide (v = [])) as [->|Hv].
    + assert (forall o : option bytes, o = None \/ o = Some [] -> default [] (pick (up ++ [o; Some []])) = []) as HE; [|by rewrite !HE; auto].
      intros o Ho. apply pick_empty. apply Forall_app. split; [eapply Forall_impl; [exact HU|]; auto|]. apply Forall_cons. split; [done|]. apply Forall_singleton. auto.
    + rewrite (pick_first up v [Some v]) by done. change (up ++ [None; Some v]) with (up ++ ([None] ++ Some v :: [])). rewrite app_assoc.
      rewrite (pick_first (up ++ [None]) v []); [done| |done]. apply Forall_app. by split; [|constructor].
  - assert (w <> []) as Hw by (intros ->; apply Hn; rewrite elem_of_app; right; left). rewrite <- !app_assoc. cbn [app]. by rewrite !(pick_first u w).
Qed.

(** ** The first run *)

(** The file that a first run writes says what the defaults say. *)
Lemma default_settings_said environ : settings_props (DefaultSettings environ) ⊆ main_properties environ ModeSingle.
Proof.
  apply map_subseteq_spec. intros k v Hk. unfold settings_props in Hk. cbn [DefaultSettings se_Mode] in Hk. rewrite bool_decide_eq_false_2, app_nil_r in Hk by done.
  apply elem_of_list_to_map_2 in Hk. apply elem_of_list_to_map; [computed|].
  repeat (apply elem_of_cons in Hk as [[= -> ->]|Hk]; [repeat first [left|right]|]). by apply not_elem_of_nil in Hk.
Qed.

Lemma existsb_same {A} (f g : A -> bool) l : (forall x, x ∈ l -> f x = g x) -> existsb f l = existsb g l.
Proof. induction l as [|x l IH]; intros HE; [done|]. cbn [existsb]. rewrite HE, IH; [done| |left]. intros y Hy. apply HE. by right. Qed.

Lemma peek_same p (d d' : D) : ReadFile p d' = ReadFile p d -> peek p d' = peek p d.
Proof. unfold peek. by intros ->. Qed.

Lemma Settings_Write_frame t path (d d' : D) r other : Settings_Write t path d = (r, d') -> other <> path -> ReadFile other d' = ReadFile other d.
Proof.
  unfold Settings_Write. intros Hw Ho. destruct (negb _); [|by eapply write_frame].
  destruct (MkdirAll _ _ d) as [[e|] d1] eqn:Em; [injection Hw as <- <-; by eapply mkdir_frame|].
  etransitivity; [by eapply write_frame|by eapply mkdir_frame].
Qed.

Lemma default_settings_ok environ : Forall printable (Home environ) -> settings_ok (DefaultSettings environ).
Proof.
  intros HH. split; [by left|]. split; [apply path_Join_printable; [done|computed]|]. repeat split; computed.
Qed.

(** What changes on the disk when the settings file is written. *)
Record written (s s' : start) : Prop := {
  wr_start : s' = {| st_environ := st_environ s; st_args := st_args s; st_flags := st_flags s; st_disk := st_disk s' |};
  wr_file : ReadFile (configPath s) (st_disk s') = Some (Render (DefaultSettings (st_environ s)));
  wr_frame : forall p, p <> configPath s -> ReadFile p (st_disk s') = ReadFile p (st_disk s)
}.

Lemma first_run_written s s' : main_mode s = ModeSingle -> Stat (configPath s) (st_disk s) = false ->
  first_run s = (None, s') -> fst (Ensure (configPath s) (DefaultSettings (st_environ s)) (st_disk s)) = Ret true -> written s s'.
Proof.
  unfold first_run, ConfigInitializer_PostConstruct, Ensure. intros -> Hst. rewrite Hst, bool_decide_eq_true_2 by done. cbn [negb].
  destruct (Settings_Write _ _ _) as [[e|] d'] eqn:Ew; intros [= <-]; [done|]. intros _.
  split; [done|by eapply Settings_Write_read|]. intros p Hp. by eapply Settings_Write_frame.
Qed.

Lemma written_mode s s' : Forall printable (Home (st_environ s)) -> configPath s ∉ configFlagPaths (st_args s) -> main_mode s = ModeSingle ->
  written s s' -> main_mode s' = ModeSingle.
Proof.
  intros HH Hc Hm [Es Hf Hfr]. unfold main_mode, ResolveMode in *. rewrite Es. unfold configPath in *. cbn [st_environ st_args st_disk].
  destruct (negb _); [done|]. destruct (negb _); [done|]. cbn [app existsb] in *.
  rewrite (settings_say _ _ _ (default_settings_ok _ HH) Hf). cbn [DefaultSettings se_Mode]. rewrite bool_decide_eq_false_2 by done. cbn [orb].
  destruct (says_cluster _ _); [done|]. cbn [orb] in Hm.
  rewrite (existsb_same (says_cluster (st_disk s')) (says_cluster (st_disk s))); [done|]. intros p Hp.
  unfold says_cluster. rewrite (peek_same p (st_disk s) (st_disk s')); [done|]. apply Hfr. by intros ->.
Qed.

(** C40: the settings file of a first run changes nothing. A single node without a settings file
    starts on the in-code defaults and writes the file; on the next start, with the same environment
    and arguments, it is again a single node, every property that no flag, variable or passed file
    blanks has the same text, and the file is left as it is. *)
Theorem first_run_settings_stable (s s' : start) :
  Forall printable (Home (st_environ s)) -> configPath s ∉ configFlagPaths (st_args s) ->
  main_mode s = ModeSingle -> Stat (configPath s) (st_disk s) = false ->
  first_run s = (None, s') -> fst (Ensure (configPath s) (DefaultSettings (st_environ s)) (st_disk s)) = Ret true ->
  main_mode s' = ModeSingle /\
  (forall key, not_blanked s key -> default [] (pick (said s' key)) = default [] (pick (said s key))) /\
  first_run s' = (None, s').
Proof.
  intros HH Hc Hm Hst Hf He.
  assert (ReadFile (configPath s) (st_disk s) = None) as Hr by (destruct (ReadFile _ _) as [x|] eqn:E; [apply read_stat in E; congruence|done]).
  pose proof (first_run_written s s' Hm Hst Hf He) as HW. pose proof (written_mode s s' HH Hc Hm HW) as Hm'.
  pose proof HW as [Es Hw Hfr]. split; [done|]. split.
  - intros key Hn. unfold said. rewrite Hm, Hm'. replace (above s' key) with (above s key).
    + assert (configPath s' = configPath s) as -> by (rewrite Es; done). assert (st_environ s' = st_environ s) as -> by (rewrite Es; done).
      rewrite (peek_settings _ _ _ (default_settings_ok _ HH) Hw). unfold peek at 1. rewrite Hr, lookup_empty.
      destruct (settings_props _ !! key) as [v|] eqn:Ek; [|done].
      rewrite (lookup_weaken _ _ _ _ Ek (default_settings_said _)). symmetry. by apply pick_repeat.
    + unfold above. rewrite Es. cbn. do 2 f_equal. apply list_fmap_ext. intros i p Hp. symmetry. rewrite (peek_same p (st_disk s)); [done|].
      apply Hfr. intros ->. apply Hc, elem_of_reverse. by eapply list_elem_of_lookup_2.
  - unfold first_run. destruct (settings_file_kept (st_environ s') (configPath s') (st_disk s')) as (_ & HK & _).
    rewrite (HK (main_mode s') _ ltac:(rewrite Es; exact Hw)). by destruct s'.
Qed.

(** ** The raft host *)

Lemma value_alone s key d v : Forall (.= None) (above s key) -> peek (configPath s) (st_disk s) !! key = None ->
  main_properties (st_environ s) (main_mode s) !! key = Some v -> v <> [] -> value s key d = v.
Proof.
  intros Ha Hp Hv Hn. unfold value, said. rewrite Hp, Hv. change (?a ++ [None; Some v]) with (a ++ ([None] ++ Some v :: [])). rewrite app_assoc.
  rewrite (pick_first _ v []); [done| |done]. apply Forall_app. by split; [|constructor].
Qed.

Lemma main_properties_mode environ mode : main_properties environ mode !! str "consensusdb.mode" = Some mode.
Proof. apply elem_of_list_to_map; [computed|left]. Qed.

Lemma main_properties_dir environ mode : main_properties environ mode !! str "consensusdb.data-dir" = Some (DefaultDataDir environ).
Proof. apply elem_of_list_to_map; [computed|repeat first [left|right]]. Qed.

(** A cluster is never half configured without notice, as long as nothing but [main] sets the mode:
    wired as a member of a cluster, a node whose raft or serf address is missing does not start,
    and one that has both hosts raft. *)
Theorem cluster_start_loud (s : start) (Bootstrap : bool) :
  main_mode s = ModeCluster -> Forall (.= None) (above s (str "consensusdb.mode")) -> peek (configPath s) (st_disk s) !! str "consensusdb.mode" = None ->
  Own RaftHost_ ∈ main_beans s /\
  match raft_host s Bootstrap with
  | HostError _ => value s (str "raft.bind-address") [] = [] \/ value s (str "serf.bind-address") [] = []
  | Inert => False
  | JoinMode => Bootstrap = false | Watch => Bootstrap = true
  end.
Proof.
  intros Hm Ha Hp. split.
  - unfold main_beans. rewrite Hm. vm_compute. repeat first [left|right].
  - unfold raft_host. rewrite (value_alone s _ (str "single") ModeCluster Ha Hp); [| |done].
    + unfold host_PostConstruct. case_bool_decide as E1; [by left|]. case_bool_decide as E2; [by right|]. by destruct Bootstrap.
    + rewrite Hm. apply main_properties_mode.
Qed.

(** The settings of a first run silence that check. Once a node has run on its own, its settings
    file has the mode of a single node. When it is then given a raft address in the environment, and
    no serf address, it is wired as a member of a cluster, with the raft server and its host; the
    host, which reads the mode from the file, takes the node for a single one and stays inert
    instead of refusing to start. *)
Theorem stale_settings_silence_host (s : start) (Bootstrap : bool) :
  ReadFile (configPath s) (st_disk s) = Some (Render (DefaultSettings (st_environ s))) -> Forall printable (Home (st_environ s)) ->
  st_flags s = ∅ -> configFlagPaths (st_args s) = [] ->
  st_environ s !! str "CONSENSUSDB_MODE" = None -> TrimSpace (Getenv (st_environ s) "RAFT_BIND_ADDRESS") <> [] -> st_environ s !! str "SERF_BIND_ADDRESS" = None ->
  main_mode s = ModeCluster /\ Own RaftHost_ ∈ main_beans s /\ Foreign RaftServerBean ∈ main_beans s /\ raft_host s Bootstrap = Inert.
Proof.
  intros Hr HH Hfl Hcf Hmode Hraft Hserf.
  assert (main_mode s = ModeCluster) as Hm.
  { apply ResolveMode_spec. right. split; [|by left]. unfold Getenv. by rewrite Hmode. }
  pose proof (peek_settings _ _ _ (default_settings_ok _ HH) Hr) as Hpk.
  split; [done|]. unfold main_beans. rewrite Hm. split; [vm_compute; repeat first [left|right]|]. split; [vm_compute; repeat first [left|right]|].
  unfold raft_host, value, said, above. rewrite Hfl, Hcf, Hpk, Hm, settings_mode, !lookup_empty. unfold env_GetProperty.
  change (envKey (str "serf.bind-address")) with (str "SERF_BIND_ADDRESS"). change (envKey (str "consensusdb.mode")) with (str "CONSENSUSDB_MODE").
  rewrite Hmode, Hserf. cbn [reverse rev_append fmap list_fmap app].
  replace (pick [None; None; Some ModeSingle; _]) with (Some ModeSingle) by (symmetry; apply (pick_first [None; None]); [by repeat constructor|done]).
  rewrite (pick_none (None :: None :: _)).
  - unfold host_PostConstruct. cbn [default]. rewrite (bool_decide_eq_true_2 ([] = [])), orb_true_r by done. reflexivity.
  - repeat constructor; apply not_elem_of_list_to_map; computed.
Qed.

(** ** One data directory *)

(** The storage, the raft store, raft's snapshots and the console agree on the data directory, and
    it never is the default of a tag: it is what the first source that names one says, or else the
    directory next to the settings. *)
Theorem one_data_dir (s : start) :
  not_blanked s (str "consensusdb.data-dir") -> peek (configPath s) (st_disk s) !! str "consensusdb.data-dir" <> Some [] ->
  exists dir, dir <> [] /\ Some dir ∈ said s (str "consensusdb.data-dir") /\ (forall d, value s (str "consensusdb.data-dir") d = dir) /\
    Configuration_DataDir s = dir /\ raft_store_dir s = path_Join [dir; str "raft"] /\ snapshot_root s = dir.
Proof.
  intros Hn Hp. assert (DefaultDataDir (st_environ s) <> []) as Hd by (unfold DefaultDataDir; cbn [path_Join]; case_bool_decide; apply Clean_nonempty).
  assert (exists dir, dir <> [] /\ Some dir ∈ said s (str "consensusdb.data-dir") /\ pick (said s (str "consensusdb.data-dir")) = Some dir) as (dir & Hne & Hin & Hk).
  { destruct (first_said (said s (str "consensusdb.data-dir"))) as [HU|(u & w & b & E & HU)].
    - exfalso. unfold said in HU. rewrite Forall_app, !Forall_cons, main_properties_dir in HU. by destruct HU as (_ & _ & [=] & _).
    - exists w. assert (Some w ∈ said s (str "consensusdb.data-dir")) as Hin by (rewrite E, elem_of_app; right; left).
      assert (w <> []) as Hw; [|by rewrite E, pick_first; [rewrite <- E|..]].
      intros ->. unfold said in Hin. apply elem_of_app in Hin as [Hin|Hin]; [done|]. apply elem_of_cons in Hin as [Hin|Hin]; [done|].
      apply list_elem_of_singleton in Hin. rewrite main_properties_dir in Hin. congruence. }
  exists dir. split; [done|]. split; [done|]. unfold Configuration_DataDir, raft_store_dir, snapshot_root, value. rewrite Hk. cbn [default].
  repeat (split; [done|]). unfold ApplicationDir. by rewrite bool_decide_eq_false_2.
Qed.

End Props.

(** ** The licences *)

Definition occurs (sub s : bytes) : Prop := exists a b, s = a ++ sub ++ b.

Lemma Index_spec s sub : is_Some (Index s sub) <-> occurs sub s.
Proof.
  unfold occurs.
  induction s as [|c s IH]; cbn [Index]; destruct (HasPrefix _ sub) eqn:Hp.
  - split; [intros _|by eexists]. apply HasPrefix_spec in Hp as [b Hb]. by exists [], b.
  - split; [by intros []|]. intros (a & b & E). symmetry in E. apply app_nil in E as [-> E]. apply app_nil in E as [-> _]. done.
  - split; [intros _|by eexists]. apply HasPrefix_spec in Hp as [b Hb]. by exists [], b.
  - rewrite fmap_is_Some, IH. split; [intros (a & b & ->); by exists (c :: a), b|]. intros ([|x a] & b & E).
    + rewrite E in Hp. cbn [app] in Hp. assert (HasPrefix (sub ++ b) sub = true) by (apply HasPrefix_spec; by exists b). congruence.
    + injection E as -> ->. by exists a, b.
Qed.

#[local] Instance occurs_dec sub s : Decision (occurs sub s).
Proof. destruct (Index s sub) eqn:E; [left; apply Index_spec; by eexists|right]. intros [i Hi]%Index_spec. congruence. Defined.

(** The licence text without the program's own entries: the lines that name none of the words are
    kept as they are and in order, and every one of them ends. *)
Theorem filterLines_exact (content : bytes) (words : list bytes) :
  Split x0a (filterLines content words) = filter (fun line => Forall (fun w => ~ occurs w line) words) (Split x0a content) ++ [[]].
Proof.
  unfold filterLines. assert (Forall (fun l => x0a ∉ l) (Split x0a content)) as HF by apply Split_no_sep.
  induction HF as [|l ls Hl _ IH]; [done|]. rewrite fmap_cons. cbn [concat].
  destruct (existsb (Contains l) words) eqn:Ex.
  - rewrite filter_cons_False; [exact IH|]. apply existsb_exists in Ex as (w & Hw%list_elem_of_In & Hc). rewrite Forall_forall. intros HA.
    apply (HA w Hw), Index_spec. by apply bool_decide_eq_true in Hc.
  - rewrite filter_cons_True.
    + rewrite <- app_assoc. change (nl ++ ?x) with (x0a :: x). rewrite Split_app; [by rewrite IH|]. apply Forall_forall. by intros c Hc ->.
    + apply Forall_forall. intros w Hw Hi. enough (existsb (Contains l) words = true) by congruence. apply existsb_exists.
      exists w. split; [by apply list_elem_of_In|]. apply bool_decide_eq_true. by apply Index_spec.
Qed.

(** ** Witnesses *)

(** A container that takes every text for a value. *)
Fixpoint first_some (l : list (option bytes)) : option bytes :=
  match l with [] => None | Some v :: _ => Some v | None :: rest => first_some rest end.

Definition plain_container : Container := {| pick := first_some |}.

Lemma plain_container_laws : @ContainerLaws plain_container.
Proof.
  split; cbn [pick plain_container].
  - intros above v below HA _. by induction HA as [|o above -> _ IH].
  - intros l HF. induction HF as [|o l [-> | ->] _ IH]; done.
  - intros l HF. by induction HF as [|o l -> _ IH].
Qed.

#[local] Existing Instances demo_os demo_os_laws demo_stat demo_stat_laws toy_yaml toy_yaml_laws plain_container plain_container_laws.

Definition demo_start : start demo_disk := {| st_environ := ∅; st_args := [str "consensusdb"; str "run"]; st_flags := ∅; st_disk := demo_empty |}.

Definition demo_restart : start demo_disk := snd (first_run demo_start).

(** The node is given an address for raft after it has run on its own. *)
Definition demo_raft : start demo_disk := {|
  st_environ := {[str "RAFT_BIND_ADDRESS" := str "10.0.0.4:8300"]}; st_args := [str "consensusdb"; str "run"]; st_flags := ∅; st_disk := st_disk demo_restart |}.

(** A node that has no settings file and is a member by its environment. *)
Definition demo_member : start demo_disk := {|
  st_environ := {[str "RAFT_BIND_ADDRESS" := str "10.0.0.4:8300"]}; st_args := [str "consensusdb"; str "run"]; st_flags := ∅; st_disk := demo_empty |}.

Lemma first_run_settings_stable_witness : main_mode demo_restart = ModeSingle /\
  default [] (pick (said demo_restart (str "http-server.bind-address"))) = default [] (pick (said demo_start (str "http-server.bind-address"))).
Proof.
  destruct (first_run_settings_stable demo_start demo_restart) as (Hm & HP & _).
  - computed.
  - computed.
  - vm_compute. reflexivity.
  - vm_compute. reflexivity.
  - apply pair_by_fst. vm_compute. reflexivity.
  - vm_compute. reflexivity.
  - split; [exact Hm|]. apply HP. unfold not_blanked. computed.
Defined.

Lemma stale_settings_silence_host_witness : main_mode demo_raft = ModeCluster /\ raft_host demo_raft true = Inert.
Proof.
  destruct (stale_settings_silence_host demo_raft true) as (Hm & _ & _ & Hi).
  - vm_compute. reflexivity.
  - computed.
  - reflexivity.
  - reflexivity.
  - reflexivity.
  - vm_compute. discriminate.
  - reflexivity.
  - by split.
Defined.

Lemma cluster_start_loud_witness : Own RaftHost_ ∈ main_beans demo_member.
Proof.
  apply (cluster_start_loud demo_member true).
  - vm_compute. reflexivity.
  - computed.
  - vm_compute. reflexivity.
Defined.

Lemma one_data_dir_witness : exists dir, dir <> [] /\ snapshot_root demo_start = dir.
Proof.
  destruct (one_data_dir demo_start) as (dir & Hd & _ & _ & _ & _ & HS).
  - unfold not_blanked. computed.
  - vm_compute. discriminate.
  - by exists dir.
Defined.
